(** * Hunt the Wumpus watch face: a shallow embedding of wumpus_face.c

    The face keeps its whole game in one static [wumpus_game_state_t] and
    reacts to the events the movement framework hands to [wumpus_face_loop].
    The embedding follows the C text function by function:

    - the static [_state] together with what the face consumes and produces
      forms a [world]: the game state, the tape of raw values the random
      source will return, and the log of calls made to the watch library;
    - every C function that touches [_state] is a computation in the monad
      [M], which threads the world and stops with a [fault] when the tape is
      used up or an array is indexed outside its bounds;
    - integers are [Z] with the wrap-around of their C type written out.

    Line 645 of wumpus_face.c reads [_state.active_wVumpus_mode]; the struct
    has no such member, and the only member the comment above it ("only in
    active mode") can mean is [active_wumpus_mode], which is what the
    embedding reads there. *)

From Stdlib Require Import ZArith List Bool Ascii String Lia DecimalString.
Import ListNotations.
Open Scope string_scope.
Open Scope Z_scope.

(** ** Constants (wumpus_face.c, lines 38-44) *)

Definition WUMPUS_FACE_ROWS : Z := 20.
Definition WUMPUS_FACE_COLS : Z := 3.
Definition WUMPUS_CLEAR_ROOM : Z := 255.
Definition WUMPUS_NUM_PITS : Z := 2.
Definition WUMPUS_NUM_BATS : Z := 2.
Definition WUMPUS_NUM_ARROWS : Z := 5.
Definition WUMPUS_MOVE_PROB : Z := 75.

(** The fixed labyrinth: row [r] lists the three rooms connected to [r]. *)
Definition cave_map : list (list Z) :=
  [ [1; 4; 7];    [0; 2; 9];    [1; 3; 11];   [2; 4; 13];   [0; 3; 5];
    [4; 6; 14];   [5; 7; 16];   [0; 6; 8];    [7; 9; 17];   [1; 8; 10];
    [9; 11; 18];  [2; 10; 12];  [11; 13; 19]; [3; 12; 14];  [5; 13; 15];
    [14; 16; 19]; [6; 15; 17];  [8; 16; 18];  [10; 17; 19]; [12; 15; 18] ].

(** ** Machine integers *)

Definition uint8 (z : Z) : Z := z mod 256.
Definition int8 (z : Z) : Z := (z + 128) mod 256 - 128.

(** ** Enumerations (wumpus_face.h) *)

Inductive wumpus_hazard_type_t :=
| wumpus_hazard_none
| wumpus_hazard_wumpus
| wumpus_hazard_bat
| wumpus_hazard_pitfall
| wumpus_hazard_arrow.

(** The integer value of an enumerator, as C assigns it. *)
Definition hazard_code (h : wumpus_hazard_type_t) : Z :=
  match h with
  | wumpus_hazard_none => 0
  | wumpus_hazard_wumpus => 1
  | wumpus_hazard_bat => 2
  | wumpus_hazard_pitfall => 3
  | wumpus_hazard_arrow => 4
  end.

Definition hazard_eqb (a b : wumpus_hazard_type_t) : bool :=
  hazard_code a =? hazard_code b.

Inductive wumpus_melody_t :=
| MELODY_NONE
| MELODY_STARTUP
| MELODY_WIN
| MELODY_LOSE
| MELODY_BATS.

Inductive wumpus_current_action_t :=
| wumpus_face_shoot
| wumpus_face_shoot_n
| wumpus_face_shoot_rooms
| wumpus_face_go
| wumpus_face_choosing_room
| wumpus_face_bat_transport
| wumpus_face_died
| wumpus_face_won.

(** The notes the melodies use; only [BUZZER_NOTE_SILENT] is ever tested. *)
Inductive BuzzerNote :=
| BUZZER_NOTE_A3 | BUZZER_NOTE_B3 | BUZZER_NOTE_C4 | BUZZER_NOTE_D4
| BUZZER_NOTE_E4 | BUZZER_NOTE_F4 | BUZZER_NOTE_F4SHARP_G4FLAT
| BUZZER_NOTE_G4 | BUZZER_NOTE_G4SHARP_A4FLAT | BUZZER_NOTE_A4
| BUZZER_NOTE_A4SHARP_B4FLAT | BUZZER_NOTE_B4 | BUZZER_NOTE_C5
| BUZZER_NOTE_E5 | BUZZER_NOTE_G5 | BUZZER_NOTE_C6 | BUZZER_NOTE_B6
| BUZZER_NOTE_C7 | BUZZER_NOTE_SILENT.

Definition is_silent (n : BuzzerNote) : bool :=
  match n with BUZZER_NOTE_SILENT => true | _ => false end.

Definition melody_startup : list BuzzerNote :=
  [BUZZER_NOTE_A3; BUZZER_NOTE_B3; BUZZER_NOTE_C4; BUZZER_NOTE_D4;
   BUZZER_NOTE_E4; BUZZER_NOTE_D4; BUZZER_NOTE_C4; BUZZER_NOTE_SILENT].
Definition melody_win : list BuzzerNote :=
  [BUZZER_NOTE_C4; BUZZER_NOTE_E4; BUZZER_NOTE_G4; BUZZER_NOTE_C5;
   BUZZER_NOTE_E5; BUZZER_NOTE_G5; BUZZER_NOTE_C6; BUZZER_NOTE_SILENT].
Definition melody_lose : list BuzzerNote :=
  [BUZZER_NOTE_B4; BUZZER_NOTE_A4SHARP_B4FLAT; BUZZER_NOTE_A4;
   BUZZER_NOTE_G4SHARP_A4FLAT; BUZZER_NOTE_G4; BUZZER_NOTE_F4SHARP_G4FLAT;
   BUZZER_NOTE_F4; BUZZER_NOTE_SILENT].
Definition melody_bats : list BuzzerNote :=
  [BUZZER_NOTE_C7; BUZZER_NOTE_B6; BUZZER_NOTE_C7; BUZZER_NOTE_B6;
   BUZZER_NOTE_SILENT].

(** ** The game state (wumpus_face.h, lines 125-159) *)

Record wumpus_game_state_t := mk_state {
  player_room : Z;                          (* uint8_t *)
  hazards : list wumpus_hazard_type_t;      (* [WUMPUS_FACE_ROWS] *)
  arrows : Z;                               (* int8_t *)
  current_action : wumpus_current_action_t;
  selected_room_n : Z;                      (* int8_t *)
  digits_tick_show : bool;
  action_tick_show : bool;
  hazard_point : Z;                         (* uint8_t *)
  shots_path_len : Z;                       (* uint8_t *)
  shots_picked : Z;                         (* uint8_t *)
  shots_room : Z;                           (* uint8_t *)
  shots_path : list Z;                      (* uint8_t [WUMPUS_NUM_ARROWS] *)
  transport_timer : Z;                      (* uint8_t *)
  transport_dest_room : Z;                  (* uint8_t *)
  current_melody : wumpus_melody_t;
  melody_step : Z;                          (* uint8_t *)
  led_cnt : Z;                              (* uint8_t *)
  active_wumpus_mode : bool;
  sound_mode_on : bool
}.

Definition set_player_room v s :=
  mk_state v (hazards s) (arrows s) (current_action s) (selected_room_n s)
    (digits_tick_show s) (action_tick_show s) (hazard_point s)
    (shots_path_len s) (shots_picked s) (shots_room s) (shots_path s)
    (transport_timer s) (transport_dest_room s) (current_melody s)
    (melody_step s) (led_cnt s) (active_wumpus_mode s) (sound_mode_on s).
Definition set_hazards v s :=
  mk_state (player_room s) v (arrows s) (current_action s)
    (selected_room_n s) (digits_tick_show s) (action_tick_show s)
    (hazard_point s) (shots_path_len s) (shots_picked s) (shots_room s)
    (shots_path s) (transport_timer s) (transport_dest_room s)
    (current_melody s) (melody_step s) (led_cnt s) (active_wumpus_mode s)
    (sound_mode_on s).
Definition set_arrows v s :=
  mk_state (player_room s) (hazards s) v (current_action s)
    (selected_room_n s) (digits_tick_show s) (action_tick_show s)
    (hazard_point s) (shots_path_len s) (shots_picked s) (shots_room s)
    (shots_path s) (transport_timer s) (transport_dest_room s)
    (current_melody s) (melody_step s) (led_cnt s) (active_wumpus_mode s)
    (sound_mode_on s).
Definition set_current_action v s :=
  mk_state (player_room s) (hazards s) (arrows s) v (selected_room_n s)
    (digits_tick_show s) (action_tick_show s) (hazard_point s)
    (shots_path_len s) (shots_picked s) (shots_room s) (shots_path s)
    (transport_timer s) (transport_dest_room s) (current_melody s)
    (melody_step s) (led_cnt s) (active_wumpus_mode s) (sound_mode_on s).
Definition set_selected_room_n v s :=
  mk_state (player_room s) (hazards s) (arrows s) (current_action s) v
    (digits_tick_show s) (action_tick_show s) (hazard_point s)
    (shots_path_len s) (shots_picked s) (shots_room s) (shots_path s)
    (transport_timer s) (transport_dest_room s) (current_melody s)
    (melody_step s) (led_cnt s) (active_wumpus_mode s) (sound_mode_on s).
Definition set_digits_tick_show v s :=
  mk_state (player_room s) (hazards s) (arrows s) (current_action s)
    (selected_room_n s) v (action_tick_show s) (hazard_point s)
    (shots_path_len s) (shots_picked s) (shots_room s) (shots_path s)
    (transport_timer s) (transport_dest_room s) (current_melody s)
    (melody_step s) (led_cnt s) (active_wumpus_mode s) (sound_mode_on s).
Definition set_action_tick_show v s :=
  mk_state (player_room s) (hazards s) (arrows s) (current_action s)
    (selected_room_n s) (digits_tick_show s) v (hazard_point s)
    (shots_path_len s) (shots_picked s) (shots_room s) (shots_path s)
    (transport_timer s) (transport_dest_room s) (current_melody s)
    (melody_step s) (led_cnt s) (active_wumpus_mode s) (sound_mode_on s).
Definition set_hazard_point v s :=
  mk_state (player_room s) (hazards s) (arrows s) (current_action s)
    (selected_room_n s) (digits_tick_show s) (action_tick_show s) v
    (shots_path_len s) (shots_picked s) (shots_room s) (shots_path s)
    (transport_timer s) (transport_dest_room s) (current_melody s)
    (melody_step s) (led_cnt s) (active_wumpus_mode s) (sound_mode_on s).
Definition set_shots_path_len v s :=
  mk_state (player_room s) (hazards s) (arrows s) (current_action s)
    (selected_room_n s) (digits_tick_show s) (action_tick_show s)
    (hazard_point s) v (shots_picked s) (shots_room s) (shots_path s)
    (transport_timer s) (transport_dest_room s) (current_melody s)
    (melody_step s) (led_cnt s) (active_wumpus_mode s) (sound_mode_on s).
Definition set_shots_picked v s :=
  mk_state (player_room s) (hazards s) (arrows s) (current_action s)
    (selected_room_n s) (digits_tick_show s) (action_tick_show s)
    (hazard_point s) (shots_path_len s) v (shots_room s) (shots_path s)
    (transport_timer s) (transport_dest_room s) (current_melody s)
    (melody_step s) (led_cnt s) (active_wumpus_mode s) (sound_mode_on s).
Definition set_shots_room v s :=
  mk_state (player_room s) (hazards s) (arrows s) (current_action s)
    (selected_room_n s) (digits_tick_show s) (action_tick_show s)
    (hazard_point s) (shots_path_len s) (shots_picked s) v (shots_path s)
    (transport_timer s) (transport_dest_room s) (current_melody s)
    (melody_step s) (led_cnt s) (active_wumpus_mode s) (sound_mode_on s).
Definition set_shots_path v s :=
  mk_state (player_room s) (hazards s) (arrows s) (current_action s)
    (selected_room_n s) (digits_tick_show s) (action_tick_show s)
    (hazard_point s) (shots_path_len s) (shots_picked s) (shots_room s) v
    (transport_timer s) (transport_dest_room s) (current_melody s)
    (melody_step s) (led_cnt s) (active_wumpus_mode s) (sound_mode_on s).
Definition set_transport_timer v s :=
  mk_state (player_room s) (hazards s) (arrows s) (current_action s)
    (selected_room_n s) (digits_tick_show s) (action_tick_show s)
    (hazard_point s) (shots_path_len s) (shots_picked s) (shots_room s)
    (shots_path s) v (transport_dest_room s) (current_melody s)
    (melody_step s) (led_cnt s) (active_wumpus_mode s) (sound_mode_on s).
Definition set_transport_dest_room v s :=
  mk_state (player_room s) (hazards s) (arrows s) (current_action s)
    (selected_room_n s) (digits_tick_show s) (action_tick_show s)
    (hazard_point s) (shots_path_len s) (shots_picked s) (shots_room s)
    (shots_path s) (transport_timer s) v (current_melody s) (melody_step s)
    (led_cnt s) (active_wumpus_mode s) (sound_mode_on s).
Definition set_current_melody v s :=
  mk_state (player_room s) (hazards s) (arrows s) (current_action s)
    (selected_room_n s) (digits_tick_show s) (action_tick_show s)
    (hazard_point s) (shots_path_len s) (shots_picked s) (shots_room s)
    (shots_path s) (transport_timer s) (transport_dest_room s) v
    (melody_step s) (led_cnt s) (active_wumpus_mode s) (sound_mode_on s).
Definition set_melody_step v s :=
  mk_state (player_room s) (hazards s) (arrows s) (current_action s)
    (selected_room_n s) (digits_tick_show s) (action_tick_show s)
    (hazard_point s) (shots_path_len s) (shots_picked s) (shots_room s)
    (shots_path s) (transport_timer s) (transport_dest_room s)
    (current_melody s) v (led_cnt s) (active_wumpus_mode s) (sound_mode_on s).
Definition set_led_cnt v s :=
  mk_state (player_room s) (hazards s) (arrows s) (current_action s)
    (selected_room_n s) (digits_tick_show s) (action_tick_show s)
    (hazard_point s) (shots_path_len s) (shots_picked s) (shots_room s)
    (shots_path s) (transport_timer s) (transport_dest_room s)
    (current_melody s) (melody_step s) v (active_wumpus_mode s)
    (sound_mode_on s).
Definition set_active_wumpus_mode v s :=
  mk_state (player_room s) (hazards s) (arrows s) (current_action s)
    (selected_room_n s) (digits_tick_show s) (action_tick_show s)
    (hazard_point s) (shots_path_len s) (shots_picked s) (shots_room s)
    (shots_path s) (transport_timer s) (transport_dest_room s)
    (current_melody s) (melody_step s) (led_cnt s) v (sound_mode_on s).
Definition set_sound_mode_on v s :=
  mk_state (player_room s) (hazards s) (arrows s) (current_action s)
    (selected_room_n s) (digits_tick_show s) (action_tick_show s)
    (hazard_point s) (shots_path_len s) (shots_picked s) (shots_room s)
    (shots_path s) (transport_timer s) (transport_dest_room s)
    (current_melody s) (melody_step s) (led_cnt s) (active_wumpus_mode s) v.

(** ** Calls into the watch library

    The face only writes to the display, the indicators, the LED, the buzzer
    and the tick-frequency request; none of them is read back.  Each call is
    appended to a log, oldest first. *)

Inductive watch_position_t :=
| WATCH_POSITION_TOP
| WATCH_POSITION_TOP_RIGHT
| WATCH_POSITION_HOURS
| WATCH_POSITION_MINUTES
| WATCH_POSITION_SECONDS.

Inductive watch_indicator_t := WATCH_INDICATOR_LAP | WATCH_INDICATOR_BELL.

Inductive host_call :=
| watch_display_text (p : watch_position_t) (s : string)
| watch_display_text_with_fallback (p : watch_position_t) (s fallback : string)
| watch_set_indicator (i : watch_indicator_t)
| watch_clear_indicator (i : watch_indicator_t)
| watch_set_colon
| watch_clear_colon
| watch_set_led_green
| watch_set_led_red
| watch_set_led_off
| watch_buzzer_play_note (n : BuzzerNote) (duration_ms : Z)
| watch_buzzer_stop
| movement_request_tick_frequency (freq : Z).

(** ** Worlds and the monad of the face *)

Record world := mk_world {
  _state : wumpus_game_state_t;   (* the static game state *)
  rand_tape : list Z;             (* raw values the random source will give *)
  host_log : list host_call       (* calls made so far, oldest first *)
}.

Inductive fault :=
| OutOfDraws     (* the tape of random values is used up *)
| OutOfBounds.   (* an array was indexed outside its bounds *)

Inductive result (A : Type) :=
| Ok (a : A)
| Fault (f : fault).
Arguments Ok {A} a.
Arguments Fault {A} f.

Definition M (A : Type) : Type := world -> result (A * world).

Definition ret {A} (a : A) : M A := fun w => Ok (a, w).

Definition bind {A B} (m : M A) (k : A -> M B) : M B :=
  fun w => match m w with
           | Ok (a, w') => k a w'
           | Fault f => Fault f
           end.

Definition raise {A} (f : fault) : M A := fun _ => Fault f.

Notation "x <- m ;; k" := (bind m (fun x => k))
  (at level 61, m at next level, right associativity).
Notation "m ;; k" := (bind m (fun _ => k))
  (at level 61, right associativity).

Definition gets {A} (f : wumpus_game_state_t -> A) : M A :=
  fun w => Ok (f (_state w), w).

Definition modify (f : wumpus_game_state_t -> wumpus_game_state_t) : M unit :=
  fun w => Ok (tt, mk_world (f (_state w)) (rand_tape w) (host_log w)).

Definition call (c : host_call) : M unit :=
  fun w => Ok (tt, mk_world (_state w) (rand_tape w) (host_log w ++ [c])).

Definition when (b : bool) (m : M unit) : M unit := if b then m else ret tt.

(** Number of raw values left on the tape. *)
Definition draws_left : M nat := fun w => Ok (List.length (rand_tape w), w).

(** [do { body } while (again)]: the body returns its value and whether the
    loop goes round again.  Every loop of the face draws a random number in
    its body, so [fuel] is taken one above the number of draws left and the
    loop stops with [OutOfDraws] exactly when the tape does. *)
Fixpoint do_while {A} (fuel : nat) (body : M (A * bool)) : M A :=
  match fuel with
  | O => raise OutOfDraws
  | S n => r <- body ;; if snd r then do_while n body else ret (fst r)
  end.

(** ** Arrays

    Indexing outside an array is undefined in C; the embedding stops with
    [OutOfBounds] there. *)

Definition array_get {A} (l : list A) (i : Z) : option A :=
  if i <? 0 then None else nth_error l (Z.to_nat i).

Fixpoint list_set {A} (l : list A) (n : nat) (v : A) : option (list A) :=
  match l, n with
  | [], _ => None
  | _ :: t, O => Some (v :: t)
  | x :: t, S n' => option_map (cons x) (list_set t n' v)
  end.

Definition array_set {A} (l : list A) (i : Z) (v : A) : option (list A) :=
  if i <? 0 then None else list_set l (Z.to_nat i) v.

Definition in_bounds {A} (o : option A) : M A :=
  match o with Some a => ret a | None => raise OutOfBounds end.

Definition read_cave_map (room col : Z) : M Z :=
  row <- in_bounds (array_get cave_map room) ;;
  in_bounds (array_get row col).

Definition read_hazard (room : Z) : M wumpus_hazard_type_t :=
  hz <- gets hazards ;; in_bounds (array_get hz room).

Definition write_hazard (room : Z) (h : wumpus_hazard_type_t) : M unit :=
  hz <- gets hazards ;;
  hz' <- in_bounds (array_set hz room h) ;;
  modify (set_hazards hz').

Definition read_shots_path (i : Z) : M Z :=
  p <- gets shots_path ;; in_bounds (array_get p i).

Definition write_shots_path (i : Z) (room : Z) : M unit :=
  p <- gets shots_path ;;
  p' <- in_bounds (array_set p i room) ;;
  modify (set_shots_path p').

(** The integers [lo, lo+1, ..., lo+n-1], the index range of a [for] loop. *)
Definition zrange (lo : Z) (n : Z) : list Z :=
  map (fun k => lo + Z.of_nat k) (seq 0 (Z.to_nat n)).

(** ** Formatting, as [snprintf] and [strncpy] do it *)

Definition decimal (z : Z) : string := NilZero.string_of_int (Z.to_int z).

Fixpoint spaces (n : nat) : string :=
  match n with O => "" | S k => String " "%char (spaces k) end.

(** ["%2d"]: right-justified in a field of two. *)
Definition fmt_2d (z : Z) : string :=
  let d := decimal z in (spaces (2 - String.length d) ++ d)%string.

(** ["%-2d"]: left-justified in a field of two. *)
Definition fmt_left_2d (z : Z) : string :=
  let d := decimal z in (d ++ spaces (2 - String.length d))%string.

(** [snprintf (buf, size, ...)] keeps at most [size - 1] characters. *)
Definition snprintf (size : nat) (s : string) : string :=
  substring 0 (size - 1) s.

(** ** Helper functions (wumpus_face.c, lines 83-170) *)

(** [_get_rand_num]: the next raw value of the random source reduced to
    [0, num_values).  On the emulator the C text is [rand () % num_values];
    on the device [arc4random_uniform] already returns such a value, which
    the reduction leaves as it is. *)
Definition _get_rand_num (num_values : Z) : M Z :=
  fun w => match rand_tape w with
           | [] => Fault OutOfDraws
           | r :: t => Ok (uint8 (r mod num_values),
                           mk_world (_state w) t (host_log w))
           end.

Definition _find_safe_random_room : M Z :=
  n <- draws_left ;;
  do_while (S n)
    (new_room <- _get_rand_num WUMPUS_FACE_ROWS ;;
     hazard <- read_hazard new_room ;;
     ret (new_room,
          hazard_eqb hazard wumpus_hazard_wumpus
          || hazard_eqb hazard wumpus_hazard_pitfall)).

Definition _update_lap_indicator : M unit :=
  a <- gets active_wumpus_mode ;;
  if a then call (watch_set_indicator WATCH_INDICATOR_LAP)
  else call (watch_clear_indicator WATCH_INDICATOR_LAP).

Definition _update_sound_indicator : M unit :=
  s <- gets sound_mode_on ;;
  if s then call (watch_set_indicator WATCH_INDICATOR_BELL)
  else call (watch_clear_indicator WATCH_INDICATOR_BELL).

(** The [for] loop of [_wumpus_flee] over the rooms [rooms]. *)
Fixpoint _wumpus_flee_from (rooms : list Z) : M bool :=
  match rooms with
  | [] => ret false
  | i :: rest =>
      h <- read_hazard i ;;
      if hazard_eqb h wumpus_hazard_wumpus then
        write_hazard i wumpus_hazard_none ;;
        rnd <- _get_rand_num 3 ;;
        wumpus_room <- read_cave_map i rnd ;;
        write_hazard wumpus_room wumpus_hazard_wumpus ;;
        ret true
      else _wumpus_flee_from rest
  end.

Definition _wumpus_flee : M bool :=
  _wumpus_flee_from (zrange 0 WUMPUS_FACE_ROWS).

Definition _wumpus_move : M bool :=
  rnd <- _get_rand_num 100 ;;
  if WUMPUS_MOVE_PROB <? rnd then _wumpus_flee else ret false.

Definition melody_is_none (m : wumpus_melody_t) : bool :=
  match m with MELODY_NONE => true | _ => false end.

Definition _play_melody (melody : wumpus_melody_t) : M unit :=
  snd_on <- gets sound_mode_on ;;
  if negb snd_on then ret tt
  else
    cur <- gets current_melody ;;
    if negb (melody_is_none cur) then ret tt
    else
      modify (set_current_melody melody) ;;
      modify (set_melody_step 0) ;;
      call (movement_request_tick_frequency 8).

Definition _go_to_selected_room : M wumpus_hazard_type_t :=
  n <- gets selected_room_n ;;
  if 0 <=? n then
    p <- gets player_room ;;
    room <- read_cave_map p n ;;
    modify (set_player_room room) ;;
    read_hazard room
  else ret wumpus_hazard_none.

(** ** Display functions (wumpus_face.c, lines 176-313) *)

Definition _display_room (room : Z) : M unit :=
  if room <? 100 then
    call (watch_display_text WATCH_POSITION_TOP_RIGHT
            (snprintf 4 (fmt_2d (room + 1))))
  else call (watch_display_text WATCH_POSITION_TOP_RIGHT "  ").

Definition _display_current_room : M unit :=
  p <- gets player_room ;; _display_room p.

Definition _display_selected_room : M unit :=
  show <- gets digits_tick_show ;;
  if show then
    n <- gets selected_room_n ;;
    p <- gets player_room ;;
    room <- (if 0 <=? n then read_cave_map p n else ret p) ;;
    _display_room room
  else _display_room WUMPUS_CLEAR_ROOM.

Definition _display_current_action : M unit :=
  call watch_clear_colon ;;
  show <- gets action_tick_show ;;
  act <- gets current_action ;;
  if show then
    parts <-
      match act with
      | wumpus_face_shoot =>
          _display_current_room ;; ret ("SH", "OT")
      | wumpus_face_shoot_n =>
          _display_current_room ;;
          len <- gets shots_path_len ;;
          let buf := snprintf 8 ("rn" ++ fmt_left_2d len)%string in
          call watch_set_colon ;;
          ret (substring 0 2 buf, substring 2 2 buf)
      | wumpus_face_shoot_rooms =>
          _display_current_room ;;
          picked <- gets shots_picked ;;
          room <- gets shots_room ;;
          let buf := snprintf 8 ("r" ++ decimal (picked + 1)
                                     ++ fmt_left_2d (room + 1))%string in
          call watch_set_colon ;;
          ret (substring 0 2 buf, substring 2 2 buf)
      | wumpus_face_go =>
          _display_current_room ;; ret ("GO", "  ")
      | wumpus_face_choosing_room =>
          _display_selected_room ;; ret ("  ", "  ")
      | wumpus_face_bat_transport => ret ("BA", "T ")
      | wumpus_face_died | wumpus_face_won => ret ("  ", "  ")
      end ;;
    match act with
    | wumpus_face_choosing_room | wumpus_face_died | wumpus_face_won => ret tt
    | _ =>
        call (watch_display_text WATCH_POSITION_HOURS (fst parts)) ;;
        call (watch_display_text WATCH_POSITION_MINUTES (snd parts))
    end
  else
    match act with
    | wumpus_face_shoot_n | wumpus_face_shoot_rooms =>
        call watch_set_colon ;;
        call (watch_display_text WATCH_POSITION_MINUTES "  ")
    | wumpus_face_shoot | wumpus_face_go =>
        call (watch_display_text WATCH_POSITION_HOURS "  ") ;;
        call (watch_display_text WATCH_POSITION_MINUTES "  ")
    | _ => ret tt
    end.

(** [_display_hazard] switches on the integer value of its argument; a value
    that is no enumerator matches no case. *)
Definition _display_hazard (h : Z) : M unit :=
  if h =? hazard_code wumpus_hazard_wumpus then
    call (watch_display_text WATCH_POSITION_SECONDS "UU")
  else if h =? hazard_code wumpus_hazard_bat then
    call (watch_display_text WATCH_POSITION_SECONDS "Bt")
  else if h =? hazard_code wumpus_hazard_pitfall then
    call (watch_display_text WATCH_POSITION_SECONDS "Pt")
  else if h =? hazard_code wumpus_hazard_arrow then
    call (watch_display_text WATCH_POSITION_SECONDS "Ar")
  else if h =? hazard_code wumpus_hazard_none then
    call (watch_display_text WATCH_POSITION_SECONDS "  ")
  else ret tt.

(** The first loop of [_display_hazards]: the hazards of the connected rooms
    [cols] of the player's room, in order, those that are not none. *)
Fixpoint adjacent_hazards (cols : list Z) : M (list Z) :=
  match cols with
  | [] => ret []
  | i :: rest =>
      p <- gets player_room ;;
      room <- read_cave_map p i ;;
      hazard <- read_hazard room ;;
      tl <- adjacent_hazards rest ;;
      ret (if hazard_eqb hazard wumpus_hazard_none then tl
           else uint8 (hazard_code hazard) :: tl)
  end.

(** [_display_hazards].  The local buffer [hazards] has WUMPUS_FACE_COLS
    slots of which only the first [hazards_cnt] are written;
    [_state.hazard_point] may point at a later slot, which then holds
    whatever the stack held: [uninit] is that value. *)
Definition _display_hazards (uninit : Z) : M unit :=
  buf <- adjacent_hazards (zrange 0 WUMPUS_FACE_COLS) ;;
  let hazards_cnt := Z.of_nat (List.length buf) in
  if 0 <? hazards_cnt then
    hp <- gets hazard_point ;;
    current_hazard <-
      (if hp <? hazards_cnt then in_bounds (array_get buf hp)
       else if hp <? WUMPUS_FACE_COLS then ret (uint8 uninit)
       else raise OutOfBounds) ;;
    _display_hazard current_hazard ;;
    when (current_hazard =? hazard_code wumpus_hazard_bat)
         (_play_melody MELODY_BATS) ;;
    modify (set_hazard_point (uint8 (hp + 1))) ;;
    hp' <- gets hazard_point ;;
    when (hazards_cnt <=? hp') (modify (set_hazard_point 0))
  else _display_hazard (hazard_code wumpus_hazard_none).

(** ** Hazard generation and game start (wumpus_face.c, lines 319-389) *)

Definition _generate_unique (player_room : Z) : M Z :=
  n <- draws_left ;;
  do_while (S n)
    (value <- _get_rand_num WUMPUS_FACE_ROWS ;;
     if negb (value =? player_room) then
       h <- read_hazard value ;;
       ret (value, negb (hazard_eqb h wumpus_hazard_none))
     else ret (value, true)).

(** [for (i = 0; i < n; i++) body]: the body run once per index. *)
Fixpoint for_each (idx : list Z) (body : Z -> M unit) : M unit :=
  match idx with
  | [] => ret tt
  | i :: rest => body i ;; for_each rest body
  end.

Definition _generate_hazards (player_room : Z) : M unit :=
  for_each (zrange 0 WUMPUS_FACE_ROWS)
    (fun i => write_hazard i wumpus_hazard_none) ;;
  for_each (zrange 0 WUMPUS_NUM_PITS)
    (fun _ => r <- _generate_unique player_room ;;
              write_hazard r wumpus_hazard_pitfall) ;;
  for_each (zrange 0 WUMPUS_NUM_BATS)
    (fun _ => r <- _generate_unique player_room ;;
              write_hazard r wumpus_hazard_bat) ;;
  r <- _generate_unique player_room ;;
  write_hazard r wumpus_hazard_wumpus.

Definition _display_death (hazard : wumpus_hazard_type_t) : M unit :=
  _display_hazard (hazard_code hazard) ;;
  call (watch_display_text WATCH_POSITION_HOURS "DI") ;;
  call (watch_display_text WATCH_POSITION_MINUTES "ED") ;;
  _play_melody MELODY_LOSE.

Definition _display_won : M unit :=
  _display_hazard (hazard_code wumpus_hazard_none) ;;
  call (watch_display_text WATCH_POSITION_HOURS "Gr") ;;
  call (watch_display_text WATCH_POSITION_MINUTES "ea") ;;
  call (watch_display_text WATCH_POSITION_SECONDS "t ") ;;
  _play_melody MELODY_WIN.

Definition _init_game : M unit :=
  modify (set_current_action wumpus_face_shoot) ;;
  r <- _get_rand_num WUMPUS_FACE_ROWS ;;
  modify (set_player_room r) ;;
  modify (set_selected_room_n (-1)) ;;
  modify (set_digits_tick_show true) ;;
  modify (set_action_tick_show true) ;;
  modify (set_hazard_point 0) ;;
  modify (set_shots_path_len 0) ;;
  modify (set_shots_picked 0) ;;
  modify (set_shots_room 0) ;;
  modify (set_arrows WUMPUS_NUM_ARROWS) ;;
  modify (set_led_cnt 0) ;;
  modify (set_transport_timer 0) ;;
  modify (set_transport_dest_room 0) ;;
  modify (set_current_melody MELODY_NONE) ;;
  modify (set_melody_step 0) ;;
  modify (set_active_wumpus_mode false) ;;
  modify (set_sound_mode_on true) ;;
  _update_lap_indicator ;;
  _update_sound_indicator ;;
  p <- gets player_room ;;
  _generate_hazards p.

(** ** Shot resolution (wumpus_face.c, lines 395-428) *)

(** Lines 404-408: is [shots_path[i]] one of the rooms connected to
    [shots_path[i - 1]]?  [cols] are the columns still to compare. *)
Fixpoint _shot_connected (i : Z) (cols : list Z) : M bool :=
  match cols with
  | [] => ret false
  | j :: rest =>
      prev <- read_shots_path (i - 1) ;;
      n <- read_cave_map prev j ;;
      cur <- read_shots_path i ;;
      if n =? cur then ret true else _shot_connected i rest
  end.

(** Lines 402-412: the crooked arrow. *)
Definition _shot_crooked (i : Z) : M unit :=
  if 0 <? i then
    found <- _shot_connected i (zrange 0 WUMPUS_FACE_COLS) ;;
    if found then ret tt
    else
      rnd <- _get_rand_num WUMPUS_FACE_COLS ;;
      prev <- read_shots_path (i - 1) ;;
      room <- read_cave_map prev rnd ;;
      write_shots_path i room
  else ret tt.

(** Lines 415-424: what the arrow meets in [shots_path[i]].  [Some a] is
    [return a]; [None] lets the loop go on. *)
Definition _shot_check (i : Z) : M (option wumpus_current_action_t) :=
  room <- read_shots_path i ;;
  p <- gets player_room ;;
  if room =? p then
    _display_death wumpus_hazard_arrow ;;
    ret (Some wumpus_face_died)
  else
    hazard <- read_hazard room ;;
    if hazard_eqb hazard wumpus_hazard_bat then
      write_hazard room wumpus_hazard_none ;; ret None
    else if hazard_eqb hazard wumpus_hazard_wumpus then
      ret (Some wumpus_face_won)
    else ret None.

(** The [for] loop of [_shot] over the path indices [idx]. *)
Fixpoint _shot_loop (idx : list Z) : M wumpus_current_action_t :=
  match idx with
  | [] => ret wumpus_face_shoot
  | i :: rest =>
      _shot_crooked i ;;
      r <- _shot_check i ;;
      match r with
      | Some a => ret a
      | None => _shot_loop rest
      end
  end.

Definition _shot : M wumpus_current_action_t :=
  a <- gets arrows ;;
  modify (set_arrows (int8 (a - 1))) ;;
  a' <- gets arrows ;;
  if a' <? 0 then
    _display_death wumpus_hazard_arrow ;;
    ret wumpus_face_died
  else
    len <- gets shots_path_len ;;
    _shot_loop (zrange 0 len).

(** ** The watch face functions (wumpus_face.c, lines 435-676) *)

(** The static [_state] before the face is first activated: all zero. *)
Definition zero_state : wumpus_game_state_t :=
  mk_state 0 (repeat wumpus_hazard_none 20) 0 wumpus_face_shoot 0 false false
           0 0 0 0 [0; 0; 0; 0; 0] 0 0 MELODY_NONE 0 0 false false.

Definition boot (tape : list Z) : world := mk_world zero_state tape [].

Definition wumpus_face_activate : M unit :=
  call (movement_request_tick_frequency 4) ;;
  _init_game ;;
  _play_melody MELODY_STARTUP ;;
  _update_lap_indicator ;;
  _update_sound_indicator.

Definition wumpus_face_resign : M unit :=
  call watch_set_led_off ;;
  call watch_buzzer_stop.

(** The event types the loop tells apart.  Any other event goes to
    [movement_default_loop_handler], which belongs to the movement framework
    and does not touch [_state]; [EVENT_OTHER] carries the value it
    returns. *)
Inductive movement_event_type_t :=
| EVENT_ACTIVATE
| EVENT_TICK
| EVENT_LIGHT_BUTTON_UP
| EVENT_LIGHT_LONG_PRESS
| EVENT_ALARM_BUTTON_UP
| EVENT_ALARM_LONG_PRESS
| EVENT_OTHER (default_result : bool).

Definition action_code (a : wumpus_current_action_t) : Z :=
  match a with
  | wumpus_face_shoot => 0
  | wumpus_face_shoot_n => 1
  | wumpus_face_shoot_rooms => 2
  | wumpus_face_go => 3
  | wumpus_face_choosing_room => 4
  | wumpus_face_bat_transport => 5
  | wumpus_face_died => 6
  | wumpus_face_won => 7
  end.

Definition action_eqb (a b : wumpus_current_action_t) : bool :=
  action_code a =? action_code b.

Definition melody_notes (m : wumpus_melody_t) : list BuzzerNote :=
  match m with
  | MELODY_STARTUP => melody_startup
  | MELODY_WIN => melody_win
  | MELODY_BATS => melody_bats
  | _ => melody_lose
  end.

(** [case EVENT_TICK] (lines 471-541). *)
Definition loop_tick (uninit : Z) : M unit :=
  cur <- gets current_melody ;;
  if negb (melody_is_none cur) then
    (* State 1: a melody is playing *)
    step <- gets melody_step ;;
    note <- in_bounds (array_get (melody_notes cur) step) ;;
    if is_silent note then
      match cur with
      | MELODY_WIN => modify (set_led_cnt 3) ;; call watch_set_led_green
      | MELODY_LOSE => modify (set_led_cnt 3) ;; call watch_set_led_red
      | _ => ret tt
      end ;;
      modify (set_current_melody MELODY_NONE) ;;
      modify (set_melody_step 0) ;;
      call (movement_request_tick_frequency 4)
    else
      call (watch_buzzer_play_note note 120) ;;
      modify (set_melody_step (uint8 (step + 1)))
  else
    led <- gets led_cnt ;;
    if 0 <? led then
      (* State 2: the win/lose LED is flashing *)
      when (led =? 1)
           (call watch_set_led_off ;;
            _init_game ;;
            _display_current_action ;;
            _display_hazards uninit) ;;
      led' <- gets led_cnt ;;
      modify (set_led_cnt (uint8 (led' - 1)))
    else
      act <- gets current_action ;;
      if action_eqb act wumpus_face_bat_transport then
        (* State 3: bat transport *)
        t <- gets transport_timer ;;
        if 0 <? t then modify (set_transport_timer (uint8 (t - 1)))
        else
          dest <- gets transport_dest_room ;;
          modify (set_player_room dest) ;;
          p <- gets player_room ;;
          new_hazard <- read_hazard p ;;
          if hazard_eqb new_hazard wumpus_hazard_bat then
            room <- _find_safe_random_room ;;
            modify (set_transport_dest_room room) ;;
            modify (set_transport_timer 4) ;;
            _play_melody MELODY_BATS
          else
            modify (set_current_action wumpus_face_go) ;;
            _display_current_action ;;
            _display_hazards uninit
      else
        (* State 4: normal tick *)
        (if action_eqb act wumpus_face_choosing_room then
           _display_selected_room ;;
           d <- gets digits_tick_show ;;
           modify (set_digits_tick_show (negb d))
         else if negb (action_eqb act wumpus_face_died) then
           _display_current_action ;;
           a <- gets action_tick_show ;;
           modify (set_action_tick_show (negb a))
         else ret tt) ;;
        when (negb (action_eqb act wumpus_face_died))
             (_display_hazards uninit).

(** [case EVENT_LIGHT_BUTTON_UP] (lines 544-566): "cycle". *)
Definition loop_light_button_up : M unit :=
  act <- gets current_action ;;
  match act with
  | wumpus_face_shoot | wumpus_face_go =>
      modify (set_current_action
                (if action_eqb act wumpus_face_go then wumpus_face_shoot
                 else wumpus_face_go)) ;;
      modify (set_action_tick_show true)
  | wumpus_face_shoot_n =>
      len <- gets shots_path_len ;;
      modify (set_shots_path_len (uint8 (len + 1))) ;;
      len' <- gets shots_path_len ;;
      when (5 <? len') (modify (set_shots_path_len 1)) ;;
      modify (set_action_tick_show true)
  | wumpus_face_shoot_rooms =>
      room <- gets shots_room ;;
      modify (set_shots_room (uint8 (room + 1))) ;;
      room' <- gets shots_room ;;
      when (WUMPUS_FACE_ROWS <=? room') (modify (set_shots_room 0)) ;;
      modify (set_action_tick_show true)
  | wumpus_face_choosing_room =>
      n <- gets selected_room_n ;;
      modify (set_selected_room_n (int8 (n + 1))) ;;
      n' <- gets selected_room_n ;;
      when (WUMPUS_FACE_COLS <=? n') (modify (set_selected_room_n (-1)))
  | wumpus_face_won | wumpus_face_died => ret tt
  | wumpus_face_bat_transport => ret tt   (* no case in the switch *)
  end ;;
  _display_current_action.

(** Lines 631-634 and 646-649: the Wumpus has moved; is it on the player? *)
Definition wumpus_on_player : M bool :=
  p <- gets player_room ;;
  h <- read_hazard p ;;
  ret (hazard_eqb h wumpus_hazard_wumpus).

Definition killed_by_wumpus : M unit :=
  _display_death wumpus_hazard_wumpus ;;
  modify (set_current_action wumpus_face_died).

(** The switch of [case EVENT_ALARM_BUTTON_UP] (lines 577-640). *)
Definition confirm_switch (uninit : Z) : M unit :=
  act <- gets current_action ;;
  match act with
  | wumpus_face_go =>
      modify (set_selected_room_n (-1)) ;;
      modify (set_digits_tick_show false) ;;
      modify (set_action_tick_show true) ;;
      _display_current_action ;;
      modify (set_current_action wumpus_face_choosing_room)
  | wumpus_face_shoot =>
      modify (set_shots_path_len 1) ;;
      modify (set_action_tick_show true) ;;
      modify (set_current_action wumpus_face_shoot_n)
  | wumpus_face_shoot_n =>
      p <- gets player_room ;;
      room <- read_cave_map p 0 ;;
      modify (set_shots_room room) ;;
      modify (set_shots_picked 0) ;;
      modify (set_action_tick_show true) ;;
      modify (set_current_action wumpus_face_shoot_rooms)
  | wumpus_face_choosing_room =>
      result <- _go_to_selected_room ;;
      if hazard_eqb result wumpus_hazard_bat then
        modify (set_current_action wumpus_face_bat_transport) ;;
        modify (set_transport_timer 4) ;;
        room <- _find_safe_random_room ;;
        modify (set_transport_dest_room room) ;;
        _display_current_action ;;
        _play_melody MELODY_BATS
      else if hazard_eqb result wumpus_hazard_none then
        modify (set_current_action wumpus_face_go) ;;
        modify (set_digits_tick_show true) ;;
        _display_hazards uninit
      else
        _display_death result ;;
        modify (set_current_action wumpus_face_died)
  | wumpus_face_shoot_rooms =>
      picked <- gets shots_picked ;;
      room <- gets shots_room ;;
      write_shots_path picked room ;;
      modify (set_shots_room 0) ;;
      modify (set_action_tick_show true) ;;
      modify (set_shots_picked (uint8 (picked + 1))) ;;
      picked' <- gets shots_picked ;;
      len <- gets shots_path_len ;;
      when (len <=? picked')
           (r <- _shot ;;
            modify (set_current_action r) ;;
            if action_eqb r wumpus_face_won then _display_won
            else
              active <- gets active_wumpus_mode ;;
              when (negb active)
                   (moved <- _wumpus_flee ;;
                    if moved then
                      hit <- wumpus_on_player ;;
                      when hit killed_by_wumpus
                    else ret tt))
  | wumpus_face_won | wumpus_face_died => ret tt
  | wumpus_face_bat_transport => ret tt   (* no case in the switch *)
  end.

(** Lines 644-650: in active mode the Wumpus may move after the press. *)
Definition active_wumpus_roll : M unit :=
  active <- gets active_wumpus_mode ;;
  when active
       (moved <- _wumpus_move ;;
        if moved then
          hit <- wumpus_on_player ;;
          when hit killed_by_wumpus
        else ret tt).

(** [case EVENT_ALARM_BUTTON_UP] (lines 576-651): "confirm". *)
Definition loop_alarm_button_up (uninit : Z) : M unit :=
  confirm_switch uninit ;;
  _display_current_action ;;
  active_wumpus_roll.

(** The cases of the switch of [wumpus_face_loop] that break out of it.
    [uninit] is the value an unwritten slot of the local buffer of
    [_display_hazards] holds during this call. *)
Definition loop_switch (event : movement_event_type_t) (uninit : Z) : M unit :=
  match event with
  | EVENT_ACTIVATE =>
      call (watch_display_text_with_fallback WATCH_POSITION_TOP
              "WMPUS" "WH") ;;
      _display_current_action ;;
      _display_hazards uninit
  | EVENT_TICK => loop_tick uninit
  | EVENT_LIGHT_BUTTON_UP => loop_light_button_up
  | EVENT_LIGHT_LONG_PRESS =>
      a <- gets active_wumpus_mode ;;
      modify (set_active_wumpus_mode (negb a)) ;;
      _update_lap_indicator ;;
      s <- gets sound_mode_on ;;
      when s (call (watch_buzzer_play_note BUZZER_NOTE_C6 50))
  | EVENT_ALARM_BUTTON_UP => loop_alarm_button_up uninit
  | EVENT_ALARM_LONG_PRESS =>
      s <- gets sound_mode_on ;;
      modify (set_sound_mode_on (negb s)) ;;
      _update_sound_indicator ;;
      s' <- gets sound_mode_on ;;
      when s' (call (watch_buzzer_play_note BUZZER_NOTE_C5 50))
  | EVENT_OTHER _ => ret tt
  end.

(** [wumpus_face_loop]: the default case returns what the framework's
    handler returns; the other cases return whether neither the LED nor a
    melody is busy. *)
Definition wumpus_face_loop (event : movement_event_type_t) (uninit : Z)
  : M bool :=
  match event with
  | EVENT_OTHER default_result => ret default_result
  | _ =>
      loop_switch event uninit ;;
      led <- gets led_cnt ;;
      cur <- gets current_melody ;;
      ret ((led =? 0) && melody_is_none cur)
  end.

(** Running the face: activation, then a list of events, each with the value
    its call finds in the unwritten stack slot. *)
Fixpoint run_events (evs : list (movement_event_type_t * Z)) : M unit :=
  match evs with
  | [] => ret tt
  | (e, u) :: rest => wumpus_face_loop e u ;; run_events rest
  end.

Definition session (tape : list Z)
           (evs : list (movement_event_type_t * Z)) : result (unit * world) :=
  (wumpus_face_activate ;; run_events evs) (boot tape).

Definition final_state {A} (r : result (A * world))
  : option wumpus_game_state_t :=
  match r with Ok (_, w) => Some (_state w) | Fault _ => None end.

(** * Reasoning about computations of the face *)

(** ** Arrays *)

Lemma list_set_spec {A} (l : list A) :
  forall n v l', list_set l n v = Some l' ->
    List.length l' = List.length l /\
    forall m, nth_error l' m = if Nat.eqb m n then Some v else nth_error l m.
Proof.
  induction l as [|x t IH]; intros n v l' H.
  - destruct n; discriminate.
  - destruct n as [|n]; simpl in H.
    + inversion H; subst. split; [reflexivity|].
      intros [|m]; reflexivity.
    + destruct (list_set t n v) as [t'|] eqn:E; [|discriminate].
      inversion H; subst. destruct (IH _ _ _ E) as [Hl Hn].
      split; [simpl; congruence|].
      intros [|m]; simpl; [reflexivity|apply Hn].
Qed.

Lemma list_set_total {A} (l : list A) :
  forall n v, (n < List.length l)%nat -> exists l', list_set l n v = Some l'.
Proof.
  induction l as [|x t IH]; intros n v H; simpl in H; [lia|].
  destruct n as [|n]; simpl; [eauto|].
  destruct (IH n v) as [t' E]; [lia|]. rewrite E. simpl. eauto.
Qed.

Lemma array_set_length {A} (l l' : list A) i v :
  array_set l i v = Some l' -> List.length l' = List.length l.
Proof.
  unfold array_set. destruct (i <? 0); [discriminate|].
  intros H. apply (list_set_spec _ _ _ _ H).
Qed.

Lemma array_get_set {A} (l l' : list A) i v :
  array_set l i v = Some l' ->
  forall j, array_get l' j = if j =? i then Some v else array_get l j.
Proof.
  unfold array_set, array_get. intros H j.
  destruct (i <? 0) eqn:Ei; [discriminate|].
  apply Z.ltb_ge in Ei.
  destruct (list_set_spec _ _ _ _ H) as [_ Hn].
  destruct (j <? 0) eqn:Ej.
  - apply Z.ltb_lt in Ej. destruct (Z.eqb_spec j i); [lia|reflexivity].
  - apply Z.ltb_ge in Ej. rewrite Hn.
    destruct (Z.eqb_spec j i) as [->|Hne].
    + now rewrite Nat.eqb_refl.
    + destruct (Nat.eqb_spec (Z.to_nat j) (Z.to_nat i)); [lia|reflexivity].
Qed.

Lemma array_get_bounds {A} (l : list A) i a :
  array_get l i = Some a -> 0 <= i < Z.of_nat (List.length l).
Proof.
  unfold array_get. destruct (i <? 0) eqn:E; [discriminate|].
  apply Z.ltb_ge in E. intros H.
  assert (Hn : nth_error l (Z.to_nat i) <> None) by congruence.
  apply nth_error_Some in Hn. lia.
Qed.

Lemma array_set_total {A} (l : list A) i v :
  0 <= i < Z.of_nat (List.length l) -> exists l', array_set l i v = Some l'.
Proof.
  intros H. unfold array_set.
  destruct (i <? 0) eqn:E; [apply Z.ltb_lt in E; lia|].
  apply list_set_total. lia.
Qed.

(** ** Inversion of successful runs *)

Lemma bind_ok {A B} (m : M A) (k : A -> M B) w b w' :
  bind m k w = Ok (b, w') ->
  exists a w1, m w = Ok (a, w1) /\ k a w1 = Ok (b, w').
Proof.
  unfold bind. destruct (m w) as [[a w1]|f]; [eauto|discriminate].
Qed.

Lemma ret_ok {A} (a b : A) w w' : ret a w = Ok (b, w') -> b = a /\ w' = w.
Proof. unfold ret. intros H. inversion H. auto. Qed.

Lemma gets_ok {A} (f : wumpus_game_state_t -> A) b w w' :
  gets f w = Ok (b, w') -> b = f (_state w) /\ w' = w.
Proof. unfold gets. intros H. inversion H. auto. Qed.

Lemma modify_ok f b w w' :
  modify f w = Ok (b, w') ->
  w' = mk_world (f (_state w)) (rand_tape w) (host_log w).
Proof. unfold modify. intros H. inversion H. auto. Qed.

Lemma call_ok c b w w' :
  call c w = Ok (b, w') ->
  w' = mk_world (_state w) (rand_tape w) (host_log w ++ [c]).
Proof. unfold call. intros H. inversion H. auto. Qed.

Lemma draws_left_ok n w w' :
  draws_left w = Ok (n, w') -> n = List.length (rand_tape w) /\ w' = w.
Proof. unfold draws_left. intros H. inversion H. auto. Qed.

Lemma in_bounds_ok {A} (o : option A) a w w' :
  in_bounds o w = Ok (a, w') -> o = Some a /\ w' = w.
Proof.
  destruct o; simpl; [|discriminate].
  intros H. apply ret_ok in H. destruct H. subst. auto.
Qed.

Lemma get_rand_num_ok n r w w' :
  _get_rand_num n w = Ok (r, w') ->
  exists raw t, rand_tape w = raw :: t /\ r = uint8 (raw mod n) /\
                w' = mk_world (_state w) t (host_log w).
Proof.
  unfold _get_rand_num. destruct (rand_tape w) as [|raw t]; [discriminate|].
  intros H. inversion H. eauto.
Qed.

(** The step of an inversion: one hypothesis [m w = Ok (a, w')] is taken
    apart along the structure of [m], down to the calls of named functions. *)
Ltac inv_ok H :=
  lazymatch type of H with
  | bind _ _ _ = Ok _ =>
      let a := fresh "a" in let w := fresh "w" in
      let H1 := fresh "E" in let H2 := fresh "E" in
      apply bind_ok in H; destruct H as (a & w & H1 & H2);
      inv_ok H1; inv_ok H2
  | ret _ _ = Ok _ =>
      apply ret_ok in H; destruct H; subst
  | gets _ _ = Ok _ =>
      apply gets_ok in H; destruct H; subst
  | modify _ _ = Ok _ =>
      apply modify_ok in H; subst; cbn [_state rand_tape host_log] in *
  | call _ _ = Ok _ =>
      apply call_ok in H; subst; cbn [_state rand_tape host_log] in *
  | draws_left _ = Ok _ =>
      apply draws_left_ok in H; destruct H; subst
  | in_bounds _ _ = Ok _ =>
      apply in_bounds_ok in H; destruct H; subst
  | _get_rand_num _ _ = Ok _ =>
      let raw := fresh "raw" in let t := fresh "t" in
      let Ht := fresh "Htape" in let Hr := fresh "Hdraw" in
      apply get_rand_num_ok in H; destruct H as (raw & t & Ht & Hr & H);
      subst; cbn [_state rand_tape host_log] in *
  | raise _ _ = Ok _ => discriminate H
  | Fault _ = Ok _ => discriminate H
  | when ?b _ _ = Ok _ =>
      unfold when in H; inv_ok H
  | (if ?b then _ else _) _ = Ok _ =>
      let E := fresh "C" in destruct b eqn:E; inv_ok H
  | _ => idtac
  end.

Lemma read_hazard_ok r h w w' :
  read_hazard r w = Ok (h, w') ->
  array_get (hazards (_state w)) r = Some h /\ w' = w.
Proof. unfold read_hazard. intros H. inv_ok H. auto. Qed.

Lemma write_hazard_ok r h u w w' :
  write_hazard r h w = Ok (u, w') ->
  exists hz', array_set (hazards (_state w)) r h = Some hz' /\
              w' = mk_world (set_hazards hz' (_state w))
                            (rand_tape w) (host_log w).
Proof. unfold write_hazard. intros H. inv_ok H. eauto. Qed.

Lemma read_shots_path_ok i r w w' :
  read_shots_path i w = Ok (r, w') ->
  array_get (shots_path (_state w)) i = Some r /\ w' = w.
Proof. unfold read_shots_path. intros H. inv_ok H. auto. Qed.

Lemma write_shots_path_ok i r u w w' :
  write_shots_path i r w = Ok (u, w') ->
  exists p', array_set (shots_path (_state w)) i r = Some p' /\
             w' = mk_world (set_shots_path p' (_state w))
                           (rand_tape w) (host_log w).
Proof. unfold write_shots_path. intros H. inv_ok H. eauto. Qed.

Lemma read_cave_map_ok room col r w w' :
  read_cave_map room col w = Ok (r, w') ->
  (exists row, array_get cave_map room = Some row /\
               array_get row col = Some r) /\ w' = w.
Proof. unfold read_cave_map. intros H. inv_ok H. eauto. Qed.

(** A loop invariant for [do_while]. *)
Lemma do_while_inv {A} (body : M (A * bool))
      (I : world -> Prop) (Q : A -> world -> Prop) :
  (forall w a b w', I w -> body w = Ok ((a, b), w') ->
                    if b then I w' else Q a w') ->
  forall n w a w', I w -> do_while n body w = Ok (a, w') -> Q a w'.
Proof.
  intros Hbody. induction n as [|n IH]; intros w a w' Hi H; simpl in H.
  - discriminate.
  - apply bind_ok in H. destruct H as ([a1 b1] & w1 & E1 & E2).
    specialize (Hbody _ _ _ _ Hi E1). simpl in E2.
    destruct b1; simpl in Hbody.
    + exact (IH _ _ _ Hbody E2).
    + apply ret_ok in E2. destruct E2; subst. exact Hbody.
Qed.

(** ** Frame conditions

    [preserves f m]: a successful run of [m] leaves the part [f] of the game
    state as it was. *)

Definition preserves {A B} (f : wumpus_game_state_t -> B) (m : M A) : Prop :=
  forall w a w', m w = Ok (a, w') -> f (_state w') = f (_state w).

Section Preserves.
Context {B : Type} (f : wumpus_game_state_t -> B).

Lemma preserves_ret {A} (a : A) : preserves f (ret a).
Proof. intros w b w' H. inv_ok H. reflexivity. Qed.

Lemma preserves_bind {A C} (m : M A) (k : A -> M C) :
  preserves f m -> (forall a, preserves f (k a)) -> preserves f (bind m k).
Proof.
  intros Hm Hk w b w' H. apply bind_ok in H.
  destruct H as (a & w1 & E1 & E2).
  rewrite (Hk _ _ _ _ E2). exact (Hm _ _ _ E1).
Qed.

Lemma preserves_gets {A} (g : wumpus_game_state_t -> A) :
  preserves f (gets g).
Proof. intros w b w' H. inv_ok H. reflexivity. Qed.

Lemma preserves_call c : preserves f (call c).
Proof. intros w b w' H. inv_ok H. reflexivity. Qed.

Lemma preserves_draws_left : preserves f draws_left.
Proof. intros w b w' H. inv_ok H. reflexivity. Qed.

Lemma preserves_in_bounds {A} (o : option A) : preserves f (in_bounds o).
Proof. intros w b w' H. inv_ok H. reflexivity. Qed.

Lemma preserves_raise {A} e : preserves f (@raise A e).
Proof. intros w b w' H. discriminate H. Qed.

Lemma preserves_get_rand_num n : preserves f (_get_rand_num n).
Proof.
  intros w b w' H. apply get_rand_num_ok in H.
  destruct H as (raw & t & _ & _ & ->). reflexivity.
Qed.

Lemma preserves_modify g :
  (forall s, f (g s) = f s) -> preserves f (modify g).
Proof. intros Hg w b w' H. inv_ok H. apply Hg. Qed.

Lemma preserves_when b m : preserves f m -> preserves f (when b m).
Proof. destruct b; simpl; intros H; [exact H|apply preserves_ret]. Qed.

Lemma preserves_do_while {A} (body : M (A * bool)) n :
  preserves f body -> preserves f (do_while n body).
Proof.
  intros Hb. induction n as [|n IH]; simpl.
  - apply preserves_raise.
  - apply preserves_bind; [exact Hb|].
    intros [a b]. destruct b; simpl; [exact IH|apply preserves_ret].
Qed.

Lemma preserves_for_each idx body :
  (forall i, preserves f (body i)) -> preserves f (for_each idx body).
Proof.
  intros Hb. induction idx as [|i rest IH]; simpl.
  - apply preserves_ret.
  - apply preserves_bind; [apply Hb|intros _; exact IH].
Qed.
End Preserves.

Create HintDb frame discriminated.
#[local] Hint Resolve preserves_ret preserves_gets preserves_call
  preserves_draws_left preserves_in_bounds preserves_raise
  preserves_get_rand_num : frame.

(** Walks a computation along its binds and branches; a [modify] passes
    when its setter visibly leaves [f] alone. *)
Ltac frame_walk :=
  repeat first
    [ progress auto with frame
    | apply preserves_bind; [|intros]
    | apply preserves_when
    | apply preserves_do_while
    | apply preserves_for_each; intros
    | apply preserves_modify; intros; solve [reflexivity | auto]
    | match goal with
      | |- preserves _ (if ?b then _ else _) => destruct b
      | |- preserves _ (match ?x with _ => _ end) => destruct x
      end ].

Lemma preserves_read_cave_map {B} (f : wumpus_game_state_t -> B) r c :
  preserves f (read_cave_map r c).
Proof. unfold read_cave_map. frame_walk. Qed.

Lemma preserves_read_hazard {B} (f : wumpus_game_state_t -> B) r :
  preserves f (read_hazard r).
Proof. unfold read_hazard. frame_walk. Qed.

Lemma preserves_read_shots_path {B} (f : wumpus_game_state_t -> B) i :
  preserves f (read_shots_path i).
Proof. unfold read_shots_path. frame_walk. Qed.

Lemma preserves_write_hazard {B} (f : wumpus_game_state_t -> B) r h :
  (forall hz s, f (set_hazards hz s) = f s) -> preserves f (write_hazard r h).
Proof.
  intros Hf. unfold write_hazard. frame_walk.
Qed.

Lemma preserves_write_shots_path {B} (f : wumpus_game_state_t -> B) i r :
  (forall p s, f (set_shots_path p s) = f s) ->
  preserves f (write_shots_path i r).
Proof.
  intros Hf. unfold write_shots_path. frame_walk.
Qed.

#[local] Hint Resolve preserves_read_cave_map preserves_read_hazard
  preserves_read_shots_path : frame.
#[local] Hint Extern 1 (preserves _ (write_hazard _ _)) =>
  apply preserves_write_hazard; intros; solve [reflexivity | auto] : frame.
#[local] Hint Extern 1 (preserves _ (write_shots_path _ _)) =>
  apply preserves_write_shots_path; intros; solve [reflexivity | auto]
  : frame.

(** ** What the display functions leave alone

    The display functions write three members of [_state] only: the warning
    cursor [hazard_point] and, through [_play_melody], [current_melody] and
    [melody_step].  [mask_display] blanks these three, so two states with the
    same mask differ at most there. *)

Definition mask_display (s : wumpus_game_state_t) : wumpus_game_state_t :=
  set_hazard_point 0 (set_current_melody MELODY_NONE (set_melody_step 0 s)).

Definition display_only {A} (m : M A) : Prop := preserves mask_display m.

(** Whatever can be read off the masked state is preserved by a display
    function. *)
Lemma preserves_display {A B} (f : wumpus_game_state_t -> B) (m : M A) :
  display_only m -> (forall s, f (mask_display s) = f s) -> preserves f m.
Proof.
  intros Hm Hf w a w' H. rewrite <- (Hf (_state w')), <- (Hf (_state w)).
  f_equal. exact (Hm _ _ _ H).
Qed.

Ltac by_display lem :=
  apply preserves_display; [apply lem|intros; solve [reflexivity | auto]].

Lemma display_only_play_melody m : display_only (_play_melody m).
Proof. unfold display_only, _play_melody. frame_walk. Qed.
#[local] Hint Extern 1 (preserves _ (_play_melody _)) =>
  by_display display_only_play_melody : frame.

Lemma display_only_display_room r : display_only (_display_room r).
Proof. unfold display_only, _display_room. frame_walk. Qed.
#[local] Hint Extern 1 (preserves _ (_display_room _)) =>
  by_display display_only_display_room : frame.

Lemma display_only_display_selected_room : display_only _display_selected_room.
Proof. unfold display_only, _display_selected_room. frame_walk. Qed.
#[local] Hint Extern 1 (preserves _ _display_selected_room) =>
  by_display display_only_display_selected_room : frame.

Lemma display_only_display_current_room : display_only _display_current_room.
Proof. unfold display_only, _display_current_room. frame_walk. Qed.
#[local] Hint Extern 1 (preserves _ _display_current_room) =>
  by_display display_only_display_current_room : frame.

Lemma display_only_display_hazard h : display_only (_display_hazard h).
Proof. unfold display_only, _display_hazard. frame_walk. Qed.
#[local] Hint Extern 1 (preserves _ (_display_hazard _)) =>
  by_display display_only_display_hazard : frame.

Lemma display_only_display_current_action :
  display_only _display_current_action.
Proof. unfold display_only, _display_current_action. frame_walk. Qed.
#[local] Hint Extern 1 (preserves _ _display_current_action) =>
  by_display display_only_display_current_action : frame.

Lemma display_only_adjacent_hazards cols : display_only (adjacent_hazards cols).
Proof.
  unfold display_only. induction cols; simpl; frame_walk.
Qed.
#[local] Hint Extern 1 (preserves _ (adjacent_hazards _)) =>
  by_display display_only_adjacent_hazards : frame.

Lemma display_only_display_hazards u : display_only (_display_hazards u).
Proof. unfold display_only, _display_hazards. frame_walk. Qed.
#[local] Hint Extern 1 (preserves _ (_display_hazards _)) =>
  by_display display_only_display_hazards : frame.

Lemma display_only_display_death h : display_only (_display_death h).
Proof. unfold display_only, _display_death. frame_walk. Qed.
#[local] Hint Extern 1 (preserves _ (_display_death _)) =>
  by_display display_only_display_death : frame.

Lemma display_only_display_won : display_only _display_won.
Proof. unfold display_only, _display_won. frame_walk. Qed.
#[local] Hint Extern 1 (preserves _ _display_won) =>
  by_display display_only_display_won : frame.

Lemma display_only_update_lap_indicator : display_only _update_lap_indicator.
Proof. unfold display_only, _update_lap_indicator. frame_walk. Qed.
#[local] Hint Extern 1 (preserves _ _update_lap_indicator) =>
  by_display display_only_update_lap_indicator : frame.

Lemma display_only_update_sound_indicator :
  display_only _update_sound_indicator.
Proof. unfold display_only, _update_sound_indicator. frame_walk. Qed.
#[local] Hint Extern 1 (preserves _ _update_sound_indicator) =>
  by_display display_only_update_sound_indicator : frame.

(** * Shot resolution *)

(** What [_display_death] sends to the watch: the cause in the seconds
    position, then "DIED"; [_play_melody] adds the request for the faster
    tick when it starts the melody. *)
Definition death_banner (cause : string) : list host_call :=
  [watch_display_text WATCH_POSITION_SECONDS cause;
   watch_display_text WATCH_POSITION_HOURS "DI";
   watch_display_text WATCH_POSITION_MINUTES "ED"].

Definition melody_cue (s : wumpus_game_state_t) : list host_call :=
  if sound_mode_on s && melody_is_none (current_melody s)
  then [movement_request_tick_frequency 8] else [].

Definition start_melody (m : wumpus_melody_t) (s : wumpus_game_state_t)
  : wumpus_game_state_t :=
  if sound_mode_on s && melody_is_none (current_melody s)
  then set_melody_step 0 (set_current_melody m s) else s.

Lemma display_death_arrow w :
  _display_death wumpus_hazard_arrow w =
  Ok (tt, mk_world (start_melody MELODY_LOSE (_state w)) (rand_tape w)
                   (host_log w ++ death_banner "Ar" ++ melody_cue (_state w))).
Proof.
  destruct w as [s t l].
  unfold _display_death, _display_hazard, _play_melody, start_melody,
    melody_cue, death_banner, bind, call, gets, modify, ret; simpl.
  destruct (sound_mode_on s); simpl; [destruct (current_melody s); simpl|];
    rewrite <- ?app_assoc; reflexivity.
Qed.

(** X27.  [_shot] itself without an arrow.  When no arrow is left ([arrows]
    is 0 before the call), [_shot] is nothing but the death display: it
    returns [wumpus_face_died], shows the cause "Ar" (arrow) with "DIED",
    takes no random number and enters no room of the path, and leaves the
    hazards, the player's room and the path as they were.  What its caller
    does with that result is another matter: in stationary mode it lets
    the Wumpus flee as after a miss. *)
Theorem shot_out_of_arrows (w : world) :
  arrows (_state w) = 0 ->
  exists w',
    _shot w = Ok (wumpus_face_died, w') /\
    hazards (_state w') = hazards (_state w) /\
    player_room (_state w') = player_room (_state w) /\
    shots_path (_state w') = shots_path (_state w) /\
    rand_tape w' = rand_tape w /\
    host_log w' =
      (host_log w ++ death_banner "Ar" ++ melody_cue (_state w))%list.
Proof.
  intros Ha. destruct w as [s t l]. simpl in Ha.
  unfold _shot, bind, gets, modify; simpl. rewrite Ha. simpl.
  rewrite display_death_arrow. unfold ret. simpl.
  eexists. split; [reflexivity|]. simpl.
  unfold start_melody, melody_cue; simpl.
  destruct (sound_mode_on s && melody_is_none (current_melody s));
    simpl; auto.
Qed.

Definition sample_state : wumpus_game_state_t :=
  mk_state 0
    [wumpus_hazard_none; wumpus_hazard_wumpus; wumpus_hazard_none;
     wumpus_hazard_none; wumpus_hazard_bat; wumpus_hazard_none;
     wumpus_hazard_none; wumpus_hazard_none; wumpus_hazard_none;
     wumpus_hazard_none; wumpus_hazard_pitfall; wumpus_hazard_pitfall;
     wumpus_hazard_none; wumpus_hazard_bat; wumpus_hazard_none;
     wumpus_hazard_none; wumpus_hazard_none; wumpus_hazard_none;
     wumpus_hazard_none; wumpus_hazard_none]
    0 wumpus_face_shoot_rooms (-1) true true 0 2 1 0 [4; 13; 0; 0; 0]
    0 0 MELODY_NONE 0 0 false true.

Lemma shot_out_of_arrows_witness :
  exists w',
    _shot (mk_world sample_state [2; 1] []) = Ok (wumpus_face_died, w') /\
    hazards (_state w') = hazards sample_state /\
    rand_tape w' = [2; 1] /\
    host_log w' =
      (death_banner "Ar" ++ [movement_request_tick_frequency 8])%list.
Proof.
  destruct (shot_out_of_arrows (mk_world sample_state [2; 1] []) eq_refl)
    as (w' & E & Hh & _ & _ & Ht & Hl).
  exists w'. repeat split; assumption.
Defined.

(** The reads, run forward. *)
Lemma bind_eq {A B} (m : M A) (k : A -> M B) w a w1 :
  m w = Ok (a, w1) -> bind m k w = k a w1.
Proof. unfold bind. now intros ->. Qed.

Lemma read_shots_path_eq i r w :
  array_get (shots_path (_state w)) i = Some r ->
  read_shots_path i w = Ok (r, w).
Proof. unfold read_shots_path, bind, gets. now intros ->. Qed.

Lemma read_hazard_eq r h w :
  array_get (hazards (_state w)) r = Some h -> read_hazard r w = Ok (h, w).
Proof. unfold read_hazard, bind, gets. now intros ->. Qed.

Lemma read_cave_map_eq room col row r w :
  array_get cave_map room = Some row -> array_get row col = Some r ->
  read_cave_map room col w = Ok (r, w).
Proof. unfold read_cave_map, bind. intros -> H. simpl. now rewrite H. Qed.

Lemma write_hazard_eq r h hz' w :
  array_set (hazards (_state w)) r h = Some hz' ->
  write_hazard r h w =
  Ok (tt, mk_world (set_hazards hz' (_state w)) (rand_tape w) (host_log w)).
Proof. unfold write_hazard, bind, gets. now intros ->. Qed.

Lemma write_shots_path_eq i r p' w :
  array_set (shots_path (_state w)) i r = Some p' ->
  write_shots_path i r w =
  Ok (tt, mk_world (set_shots_path p' (_state w)) (rand_tape w) (host_log w)).
Proof. unfold write_shots_path, bind, gets. now intros ->. Qed.

Lemma gets_eq {A B} (f : wumpus_game_state_t -> A) (k : A -> M B) w :
  bind (gets f) k w = k (f (_state w)) w.
Proof. reflexivity. Qed.

(** One round of the loop of [_shot], from the world the crooked-arrow test
    leaves behind. *)
Lemma shot_loop_step i rest w w1 :
  _shot_crooked i w = Ok (tt, w1) ->
  _shot_loop (i :: rest) w =
  match _shot_check i w1 with
  | Ok (Some a, w2) => Ok (a, w2)
  | Ok (None, w2) => _shot_loop rest w2
  | Fault f => Fault f
  end.
Proof.
  intros H. simpl. rewrite (bind_eq _ _ _ _ _ H). unfold bind.
  destruct (_shot_check i w1) as [[[a|] w2]|f]; reflexivity.
Qed.

(** One room of the path.  What the arrow meets in the path room
    [room = shots_path[i]] (the entry as it stands after the crooked-arrow
    test):
    - the player's own room: the shot returns [wumpus_face_died] with the
      cause "Ar" shown, and the loop stops;
    - else a bat: the bat is removed from the hazards and the loop goes on;
    - else the Wumpus: the shot returns [wumpus_face_won] and the loop stops
      with the state untouched;
    - else (a pit or nothing): nothing changes and the loop goes on.
    The last part ties the test to the loop: [Some a] ends it with [a],
    [None] hands the world to the remaining indices. *)
Lemma shot_check_spec (i room : Z) (w : world) :
  array_get (shots_path (_state w)) i = Some room ->
  (room = player_room (_state w) ->
     _shot_check i w =
     Ok (Some wumpus_face_died,
         mk_world (start_melody MELODY_LOSE (_state w)) (rand_tape w)
                  (host_log w ++ death_banner "Ar" ++ melody_cue (_state w))))
  /\
  (room <> player_room (_state w) ->
     forall h, array_get (hazards (_state w)) room = Some h ->
       match h with
       | wumpus_hazard_bat =>
           exists hz',
             array_set (hazards (_state w)) room wumpus_hazard_none = Some hz'
             /\ array_get hz' room = Some wumpus_hazard_none
             /\ _shot_check i w =
                Ok (None, mk_world (set_hazards hz' (_state w))
                                   (rand_tape w) (host_log w))
       | wumpus_hazard_wumpus => _shot_check i w = Ok (Some wumpus_face_won, w)
       | _ => _shot_check i w = Ok (None, w)
       end)
  /\
  (forall rest w0, _shot_crooked i w0 = Ok (tt, w) ->
     _shot_loop (i :: rest) w0 =
     match _shot_check i w with
     | Ok (Some a, w') => Ok (a, w')
     | Ok (None, w') => _shot_loop rest w'
     | Fault f => Fault f
     end).
Proof.
  intros Hroom. split; [|split].
  - intros Hp. unfold _shot_check.
    rewrite (bind_eq _ _ _ _ _ (read_shots_path_eq _ _ _ Hroom)).
    rewrite gets_eq, <- Hp, Z.eqb_refl.
    unfold bind. rewrite display_death_arrow. reflexivity.
  - intros Hp h Hh. unfold _shot_check.
    rewrite (bind_eq _ _ _ _ _ (read_shots_path_eq _ _ _ Hroom)).
    rewrite gets_eq.
    destruct (Z.eqb_spec room (player_room (_state w))) as [|_]; [tauto|].
    rewrite (bind_eq _ _ _ _ _ (read_hazard_eq _ _ _ Hh)).
    destruct h; simpl; try reflexivity.
    destruct (array_set_total (hazards (_state w)) room wumpus_hazard_none
                (array_get_bounds _ _ _ Hh)) as [hz' Hset].
    exists hz'. split; [exact Hset|]. split.
    + rewrite (array_get_set _ _ _ _ Hset). now rewrite Z.eqb_refl.
    + rewrite (bind_eq _ _ _ _ _ (write_hazard_eq _ _ _ _ Hset)). reflexivity.
  - intros rest w0 H. apply shot_loop_step. exact H.
Qed.

Lemma shot_check_example :
  _shot_check 0 (mk_world sample_state [] []) =
  Ok (None,
      mk_world (set_hazards
                  [wumpus_hazard_none; wumpus_hazard_wumpus;
                   wumpus_hazard_none; wumpus_hazard_none;
                   wumpus_hazard_none; wumpus_hazard_none;
                   wumpus_hazard_none; wumpus_hazard_none; wumpus_hazard_none;
                   wumpus_hazard_none; wumpus_hazard_pitfall;
                   wumpus_hazard_pitfall; wumpus_hazard_none;
                   wumpus_hazard_bat; wumpus_hazard_none; wumpus_hazard_none;
                   wumpus_hazard_none; wumpus_hazard_none; wumpus_hazard_none;
                   wumpus_hazard_none] sample_state) [] []).
Proof.
  destruct (shot_check_spec 0 4 (mk_world sample_state [] []) eq_refl)
    as (_ & Hother & _).
  assert (Hne : 4 <> player_room (_state (mk_world sample_state [] [])))
    by (simpl; lia).
  destruct (Hother Hne wumpus_hazard_bat eq_refl) as (hz' & Hset & _ & E).
  vm_compute in Hset. inversion Hset; subst hz'. exact E.
Defined.

(** ** The labyrinth *)

(** A row of [cave_map] is well formed: three different rooms of the cave. *)
Definition row_ok (row : list Z) : bool :=
  match row with
  | [a; b; c] =>
      negb (a =? b) && negb (a =? c) && negb (b =? c)
      && forallb (fun r => (0 <=? r) && (r <? WUMPUS_FACE_ROWS)) row
  | _ => false
  end.

Lemma cave_map_rows_ok : forallb row_ok cave_map = true.
Proof. reflexivity. Qed.

Lemma cave_map_row room row :
  array_get cave_map room = Some row ->
  exists a b c,
    row = [a; b; c] /\ NoDup row /\
    (forall r, In r row -> 0 <= r < WUMPUS_FACE_ROWS).
Proof.
  unfold array_get. destruct (room <? 0); [discriminate|]. intros H.
  apply nth_error_In in H.
  pose proof (proj1 (forallb_forall _ _) cave_map_rows_ok _ H) as Hok.
  destruct row as [|a [|b [|c [|d t]]]]; try discriminate Hok.
  unfold row_ok in Hok.
  apply andb_prop in Hok. destruct Hok as [Hd Hr].
  apply andb_prop in Hd. destruct Hd as [Hd Hbc].
  apply andb_prop in Hd. destruct Hd as [Hab Hac].
  apply negb_true_iff, Z.eqb_neq in Hab, Hac, Hbc.
  exists a, b, c. split; [reflexivity|]. split.
  - repeat constructor; simpl; intuition congruence.
  - intros r Hin. apply (proj1 (forallb_forall _ _) Hr) in Hin.
    apply andb_prop in Hin. destruct Hin as [H0 H1].
    apply Z.leb_le in H0. apply Z.ltb_lt in H1. lia.
Qed.

Lemma zrange_cols : zrange 0 WUMPUS_FACE_COLS = [0; 1; 2].
Proof. reflexivity. Qed.

(** One comparison of lines 404-408, evaluated. *)
Lemma shot_connected_cons i j rest prev cur row n w :
  array_get (shots_path (_state w)) (i - 1) = Some prev ->
  array_get (shots_path (_state w)) i = Some cur ->
  array_get cave_map prev = Some row ->
  array_get row j = Some n ->
  _shot_connected i (j :: rest) w =
  if n =? cur then Ok (true, w) else _shot_connected i rest w.
Proof.
  intros Hprev Hcur Hrow Hn. simpl.
  rewrite (bind_eq _ _ _ _ _ (read_shots_path_eq _ _ _ Hprev)).
  rewrite (bind_eq _ _ _ _ _ (read_cave_map_eq _ _ _ _ _ Hrow Hn)).
  rewrite (bind_eq _ _ _ _ _ (read_shots_path_eq _ _ _ Hcur)).
  destruct (n =? cur); reflexivity.
Qed.

Lemma shot_connected_eval i prev cur row w :
  array_get (shots_path (_state w)) (i - 1) = Some prev ->
  array_get (shots_path (_state w)) i = Some cur ->
  array_get cave_map prev = Some row ->
  _shot_connected i (zrange 0 WUMPUS_FACE_COLS) w =
  Ok (existsb (fun n => n =? cur) row, w).
Proof.
  intros Hprev Hcur Hrow.
  destruct (cave_map_row _ _ Hrow) as (a & b & c & E & _ & _).
  rewrite zrange_cols.
  rewrite (shot_connected_cons i 0 _ prev cur row a w)
    by (try assumption; subst row; reflexivity).
  rewrite (shot_connected_cons i 1 _ prev cur row b w)
    by (try assumption; subst row; reflexivity).
  rewrite (shot_connected_cons i 2 _ prev cur row c w)
    by (try assumption; subst row; reflexivity).
  subst row. simpl.
  destruct (a =? cur), (b =? cur), (c =? cur); reflexivity.
Qed.

Lemma existsb_eqb_In cur row :
  existsb (fun n => n =? cur) row = true <-> In cur row.
Proof.
  rewrite existsb_exists. split.
  - intros (x & Hin & Heq). apply Z.eqb_eq in Heq. now subst.
  - intros Hin. exists cur. split; [exact Hin|apply Z.eqb_refl].
Qed.

(** One crooked arrow.  Let [i >= 1], [prev = shots_path[i - 1]] a room
    of the cave with connected rooms [row], and [cur = shots_path[i]].
    - If [cur] is one of [row], the path is left as it is and no random
      number is taken.
    - If not, one random number [raw] is taken and [shots_path[i]] is
      overwritten in place with [row[raw mod 3]], which is one of the three
      rooms connected to [prev]; the entry before it is not touched.
    - The three rooms of [row] are different, so the three values of
      [raw mod 3] pick the three connected rooms one each.
    - In the loop of [_shot] the self-hit and hazard tests of index [i] run
      on the world this replacement leaves behind. *)
Lemma crooked_arrow_spec (i prev cur : Z) (row : list Z) (w : world) :
  0 < i ->
  array_get (shots_path (_state w)) (i - 1) = Some prev ->
  array_get (shots_path (_state w)) i = Some cur ->
  array_get cave_map prev = Some row ->
  (In cur row -> _shot_crooked i w = Ok (tt, w))
  /\
  (~ In cur row ->
     forall raw t, rand_tape w = raw :: t ->
       exists room path',
         array_get row (raw mod 3) = Some room /\ In room row /\
         array_set (shots_path (_state w)) i room = Some path' /\
         array_get path' i = Some room /\
         array_get path' (i - 1) = Some prev /\
         _shot_crooked i w =
         Ok (tt, mk_world (set_shots_path path' (_state w)) t (host_log w)))
  /\
  (NoDup row /\ List.length row = 3%nat)
  /\
  (forall rest w1, _shot_crooked i w = Ok (tt, w1) ->
     _shot_loop (i :: rest) w =
     match _shot_check i w1 with
     | Ok (Some a, w') => Ok (a, w')
     | Ok (None, w') => _shot_loop rest w'
     | Fault f => Fault f
     end).
Proof.
  intros Hi Hprev Hcur Hrow.
  pose proof (shot_connected_eval _ _ _ _ _ Hprev Hcur Hrow) as Hconn.
  assert (Hi' : (0 <? i) = true) by (apply Z.ltb_lt; exact Hi).
  split; [|split; [|split]].
  - intros Hin. unfold _shot_crooked. rewrite Hi'.
    rewrite (bind_eq _ _ _ _ _ Hconn).
    apply existsb_eqb_In in Hin. rewrite Hin. reflexivity.
  - intros Hnin raw t Htape.
    destruct (cave_map_row _ _ Hrow) as (a & b & c & Erow & _ & _).
    assert (Hidx : 0 <= raw mod 3 < 3) by (apply Z.mod_pos_bound; lia).
    assert (Hget : exists room, array_get row (raw mod 3) = Some room).
    { subst row. unfold array_get.
      destruct (raw mod 3 <? 0) eqn:E; [apply Z.ltb_lt in E; lia|].
      assert (Hn : (Z.to_nat (raw mod 3) < 3)%nat) by lia.
      destruct (Z.to_nat (raw mod 3)) as [|[|[|n]]]; simpl; eauto; lia. }
    destruct Hget as [room Hroom].
    assert (Hin : In room row).
    { unfold array_get in Hroom.
      destruct (raw mod 3 <? 0); [discriminate|].
      eapply nth_error_In; eauto. }
    destruct (array_set_total (shots_path (_state w)) i room
                (array_get_bounds _ _ _ Hcur)) as [path' Hset].
    exists room, path'. repeat split; try assumption.
    + rewrite (array_get_set _ _ _ _ Hset). now rewrite Z.eqb_refl.
    + rewrite (array_get_set _ _ _ _ Hset).
      destruct (Z.eqb_spec (i - 1) i); [lia|exact Hprev].
    + unfold _shot_crooked. rewrite Hi'.
      rewrite (bind_eq _ _ _ _ _ Hconn).
      destruct (existsb (fun n => n =? cur) row) eqn:Ex.
      { apply existsb_eqb_In in Ex. contradiction. }
      assert (Hdraw : _get_rand_num WUMPUS_FACE_COLS w =
                      Ok (raw mod 3, mk_world (_state w) t (host_log w))).
      { unfold _get_rand_num. rewrite Htape. unfold uint8, WUMPUS_FACE_COLS.
        rewrite (Z.mod_small (raw mod 3) 256) by lia. reflexivity. }
      rewrite (bind_eq _ _ _ _ _ Hdraw).
      rewrite (bind_eq _ _ _ _ _
                 (read_shots_path_eq _ _ (mk_world _ _ _) Hprev)).
      rewrite (bind_eq _ _ _ _ _ (read_cave_map_eq _ _ _ _ _ Hrow Hroom)).
      rewrite (write_shots_path_eq _ _ _ (mk_world _ _ _) Hset). reflexivity.
  - destruct (cave_map_row _ _ Hrow) as (a & b & c & -> & Hnd & _).
    split; [exact Hnd|reflexivity].
  - intros rest w1 H. apply shot_loop_step. exact H.
Qed.

Lemma crooked_arrow_example :
  _shot_crooked 1 (mk_world sample_state [2; 1] []) =
  Ok (tt, mk_world (set_shots_path [4; 5; 0; 0; 0] sample_state) [1] []).
Proof.
  destruct (crooked_arrow_spec 1 4 13 [0; 3; 5]
              (mk_world sample_state [2; 1] [])
              ltac:(lia) eq_refl eq_refl eq_refl) as (_ & H & _).
  assert (Hnin : ~ In 13 [0; 3; 5]) by (simpl; intuition discriminate).
  destruct (H Hnin 2 [1] eq_refl)
    as (room & path' & Hroom & _ & Hset & _ & _ & E).
  vm_compute in Hroom. inversion Hroom; subst room.
  vm_compute in Hset. inversion Hset; subst path'. exact E.
Defined.

(** ** Frames of the game functions *)

Section GameFrames.
Context {B : Type} (f : wumpus_game_state_t -> B).

Lemma preserves_find_safe_random_room : preserves f _find_safe_random_room.
Proof. unfold _find_safe_random_room. frame_walk. Qed.

Lemma preserves_generate_unique p : preserves f (_generate_unique p).
Proof. unfold _generate_unique. frame_walk. Qed.

Lemma preserves_shot_connected i cols : preserves f (_shot_connected i cols).
Proof. induction cols; simpl; frame_walk. Qed.

(** The Wumpus only changes [hazards]. *)
Hypothesis f_hazards : forall v s, f (set_hazards v s) = f s.

Lemma preserves_wumpus_flee_from rooms :
  preserves f (_wumpus_flee_from rooms).
Proof. induction rooms; simpl; frame_walk. Qed.

Lemma preserves_wumpus_flee : preserves f _wumpus_flee.
Proof. apply preserves_wumpus_flee_from. Qed.

Lemma preserves_wumpus_move : preserves f _wumpus_move.
Proof.
  unfold _wumpus_move. frame_walk; apply preserves_wumpus_flee.
Qed.

(** A shot changes [arrows], [hazards], [shots_path] and what the death
    display changes. *)
Hypothesis f_arrows : forall v s, f (set_arrows v s) = f s.
Hypothesis f_shots_path : forall v s, f (set_shots_path v s) = f s.
Hypothesis f_display : forall s, f (mask_display s) = f s.

Lemma preserves_shot_crooked i : preserves f (_shot_crooked i).
Proof.
  unfold _shot_crooked. frame_walk; apply preserves_shot_connected.
Qed.

Lemma preserves_shot_check i : preserves f (_shot_check i).
Proof. unfold _shot_check. frame_walk. Qed.

Lemma preserves_shot_loop idx : preserves f (_shot_loop idx).
Proof.
  induction idx; simpl; frame_walk;
    first [apply preserves_shot_crooked|apply preserves_shot_check].
Qed.

Lemma preserves_shot : preserves f _shot.
Proof. unfold _shot. frame_walk; apply preserves_shot_loop. Qed.
End GameFrames.


(** [_shot] returns one of three actions. *)
Lemma shot_loop_result idx :
  forall w a w', _shot_loop idx w = Ok (a, w') ->
    a = wumpus_face_died \/ a = wumpus_face_won \/ a = wumpus_face_shoot.
Proof.
  induction idx as [|i rest IH]; intros w a w' H; simpl in H.
  - inv_ok H. auto.
  - apply bind_ok in H. destruct H as (u & w1 & _ & H).
    apply bind_ok in H. destruct H as (r & w2 & Hc & H).
    destruct r as [a'|]; [|exact (IH _ _ _ H)].
    inv_ok H. unfold _shot_check in Hc. inv_ok Hc;
      match goal with
      | E : Some _ = Some _ |- _ => inversion E; auto
      | E : Some _ = None |- _ => discriminate E
      end.
Qed.

Lemma shot_result w a w' :
  _shot w = Ok (a, w') ->
  a = wumpus_face_died \/ a = wumpus_face_won \/ a = wumpus_face_shoot.
Proof.
  unfold _shot. intros H. inv_ok H; [auto|].
  eapply shot_loop_result; eauto.
Qed.

(** C10.  [_shot] never moves the player: whatever the committed path and
    whatever the outcome, the player's room after the shot is the room
    before it; the outcome is one of died (no arrow left, or the arrow came
    back to the player), won, or shoot (a miss, bats killed or not). *)
Theorem shot_keeps_player_room (w : world) a w' :
  _shot w = Ok (a, w') ->
  player_room (_state w') = player_room (_state w) /\
  (a = wumpus_face_died \/ a = wumpus_face_won \/ a = wumpus_face_shoot).
Proof.
  intros H. split.
  - revert H. apply preserves_shot; intros; reflexivity.
  - exact (shot_result _ _ _ H).
Qed.

Lemma shot_keeps_player_room_witness :
  exists w',
    _shot (mk_world (set_arrows 3 sample_state) [2; 1] [])
    = Ok (wumpus_face_shoot, w') /\
    player_room (_state w') = 0.
Proof.
  destruct (_shot (mk_world (set_arrows 3 sample_state) [2; 1] []))
    as [[a w']|e] eqn:E; [|vm_compute in E; discriminate E].
  destruct (shot_keeps_player_room _ _ _ E) as [Hp _].
  assert (Ha : a = wumpus_face_shoot)
    by (vm_compute in E; inversion E; reflexivity).
  subst a. exists w'. split; [reflexivity|exact Hp].
Defined.

(** * Wumpus movement in active mode *)

(** The draws of [_get_rand_num (100)] that pass the test of [_wumpus_move]. *)
Definition relocation_draws : list Z :=
  filter (fun d => WUMPUS_MOVE_PROB <? d) (zrange 0 100).

(** Does the Wumpus of [sample_state] move when [_wumpus_move] draws [d]? *)
Definition relocates_on_sample (d : Z) : bool :=
  match _wumpus_move (mk_world sample_state [d; 0] []) with
  | Ok (moved, _) => moved
  | Fault _ => false
  end.

(** C3, as stated, fails: the draws from [0, 100) on which the Wumpus
    relocates are not 25 in number. *)
Lemma wumpus_move_not_25_of_100 :
  List.length (filter relocates_on_sample (zrange 0 100)) <> 25%nat /\
  relocates_on_sample 75 = false /\
  List.length relocation_draws <> 25%nat.
Proof. vm_compute. repeat split; discriminate. Qed.

(** C3, amended.  [_wumpus_move] takes one draw [d] from [0, 100) and
    relocates the Wumpus (calls [_wumpus_flee]) exactly when [d > 75]; the
    draws that do so are the 24 values 76..99 of the 100, so the chance is
    24/100, as the comments of the source say. *)
Theorem wumpus_move_chance (w : world) (raw : Z) (t : list Z) :
  rand_tape w = raw :: t ->
  let d := raw mod 100 in
  let w1 := mk_world (_state w) t (host_log w) in
  0 <= d < 100 /\
  _wumpus_move w = (if 75 <? d then _wumpus_flee w1 else Ok (false, w1)) /\
  ((75 <? d) = true <-> In d relocation_draws) /\
  relocation_draws = zrange 76 24 /\
  List.length relocation_draws = 24%nat.
Proof.
  intros Htape d w1.
  assert (Hd : 0 <= d < 100) by (apply Z.mod_pos_bound; lia).
  split; [exact Hd|]. split; [|split; [|split; reflexivity]].
  - unfold _wumpus_move.
    assert (Hdraw : _get_rand_num 100 w = Ok (d, w1)).
    { unfold _get_rand_num. rewrite Htape. unfold uint8.
      fold d. rewrite (Z.mod_small d 256) by lia. reflexivity. }
    rewrite (bind_eq _ _ _ _ _ Hdraw).
    change WUMPUS_MOVE_PROB with 75. destruct (75 <? d); reflexivity.
  - unfold relocation_draws. rewrite filter_In. split.
    + intros H. split; [|exact H].
      unfold zrange. apply in_map_iff. exists (Z.to_nat d).
      split; [lia|]. apply in_seq. simpl. lia.
    + intros [_ H]. exact H.
Qed.

Lemma wumpus_move_chance_witness :
  _wumpus_move (mk_world sample_state [76; 0] []) =
  _wumpus_flee (mk_world sample_state [0] []) /\
  _wumpus_move (mk_world sample_state [75; 0] []) =
  Ok (false, mk_world sample_state [0] []).
Proof.
  split.
  - exact (proj1 (proj2 (wumpus_move_chance
                           (mk_world sample_state [76; 0] []) 76 [0] eq_refl))).
  - exact (proj1 (proj2 (wumpus_move_chance
                           (mk_world sample_state [75; 0] []) 75 [0] eq_refl))).
Defined.

(** * Hazard generation *)

Definition hazard_eq_dec (a b : wumpus_hazard_type_t) : {a = b} + {a <> b}.
Proof. decide equality. Defined.

(** How many rooms of [hz] hold the hazard [h]. *)
Definition count_hazard (h : wumpus_hazard_type_t)
           (hz : list wumpus_hazard_type_t) : nat :=
  count_occ hazard_eq_dec hz h.

Definition indicator (a b : wumpus_hazard_type_t) : nat :=
  if hazard_eq_dec a b then 1%nat else 0%nat.

Lemma list_set_count (l : list wumpus_hazard_type_t) :
  forall n v l' old h,
    list_set l n v = Some l' -> nth_error l n = Some old ->
    (count_hazard h l' + indicator old h
     = count_hazard h l + indicator v h)%nat.
Proof.
  unfold count_hazard, indicator.
  induction l as [|x t IH]; intros n v l' old h Hset Hold.
  - destruct n; discriminate.
  - destruct n as [|n]; simpl in Hset, Hold.
    + inversion Hset; inversion Hold; subst. simpl.
      destruct (hazard_eq_dec v h), (hazard_eq_dec old h); lia.
    + destruct (list_set t n v) as [t'|] eqn:E; [|discriminate].
      inversion Hset; subst. specialize (IH _ _ _ _ h E Hold). simpl.
      destruct (hazard_eq_dec x h); lia.
Qed.

Lemma array_set_count hz i v hz' old h :
  array_set hz i v = Some hz' -> array_get hz i = Some old ->
  (count_hazard h hz' + indicator old h
   = count_hazard h hz + indicator v h)%nat.
Proof.
  unfold array_set, array_get. destruct (i <? 0); [discriminate|].
  apply list_set_count.
Qed.

(** [_generate_unique] changes nothing but the tape, and the room it returns
    is a room of the cave, is not the player's and holds no hazard. *)
Lemma generate_unique_spec p w r w' :
  _generate_unique p w = Ok (r, w') ->
  _state w' = _state w /\ host_log w' = host_log w /\
  0 <= r < WUMPUS_FACE_ROWS /\ r <> p /\
  array_get (hazards (_state w)) r = Some wumpus_hazard_none.
Proof.
  unfold _generate_unique. intros H. apply bind_ok in H.
  destruct H as (n & w0 & E0 & H). inv_ok E0.
  revert H.
  apply (do_while_inv _
           (fun w1 => _state w1 = _state w /\ host_log w1 = host_log w)
           (fun r w1 => _state w1 = _state w /\ host_log w1 = host_log w /\
                        0 <= r < WUMPUS_FACE_ROWS /\ r <> p /\
                        array_get (hazards (_state w)) r
                        = Some wumpus_hazard_none)); [|auto].
  intros w1 a b w2 [Hs Hl] Hbody.
  apply bind_ok in Hbody. destruct Hbody as (v & w3 & Ed & Hbody).
  apply get_rand_num_ok in Ed. destruct Ed as (raw & t & _ & -> & ->).
  destruct (Z.eqb_spec (uint8 (raw mod WUMPUS_FACE_ROWS)) p) as [Heq|Hne];
    simpl in Hbody.
  - inv_ok Hbody. inversion H; subst. simpl. auto.
  - apply bind_ok in Hbody. destruct Hbody as (h & w4 & Eh & Hbody).
    apply read_hazard_ok in Eh. destruct Eh as [Eh ->]. simpl in Eh.
    inv_ok Hbody. inversion H; subst a b. clear H. rewrite Hs in Eh.
    destruct h; simpl; auto.
    assert (Hr : 0 <= uint8 (raw mod WUMPUS_FACE_ROWS) < WUMPUS_FACE_ROWS).
    { unfold uint8, WUMPUS_FACE_ROWS.
      pose proof (Z.mod_pos_bound raw 20).
      rewrite Z.mod_small; lia. }
    repeat split; auto; lia.
Qed.

(** The first loop of [_generate_hazards] empties the twenty rooms. *)
Lemma clear_hazards w :
  List.length (hazards (_state w)) = 20%nat ->
  for_each (zrange 0 WUMPUS_FACE_ROWS)
           (fun i => write_hazard i wumpus_hazard_none) w =
  Ok (tt, mk_world (set_hazards (repeat wumpus_hazard_none 20) (_state w))
                   (rand_tape w) (host_log w)).
Proof.
  destruct w as [s t l]. destruct s. simpl. intros H.
  do 20 (destruct hazards0 as [|? hazards0]; [discriminate H|]).
  destruct hazards0; [|discriminate H].
  reflexivity.
Qed.

(** One placement: a fresh room is drawn and the hazard [h] is put there. *)
Lemma place_hazard_spec p h w u w' :
  (r <- _generate_unique p ;; write_hazard r h) w = Ok (u, w') ->
  List.length (hazards (_state w')) = List.length (hazards (_state w)) /\
  array_get (hazards (_state w')) p = array_get (hazards (_state w)) p /\
  forall k,
    (count_hazard k (hazards (_state w')) + indicator wumpus_hazard_none k
     = count_hazard k (hazards (_state w)) + indicator h k)%nat.
Proof.
  intros H. apply bind_ok in H. destruct H as (r & w1 & Eg & Ew).
  apply generate_unique_spec in Eg.
  destruct Eg as (Hs & _ & _ & Hne & Hnone).
  apply write_hazard_ok in Ew. destruct Ew as (hz' & Hset & ->).
  rewrite Hs in Hset. simpl. repeat split.
  - exact (array_set_length _ _ _ _ Hset).
  - rewrite (array_get_set _ _ _ _ Hset).
    destruct (Z.eqb_spec p r); [congruence|reflexivity].
  - intros k. exact (array_set_count _ _ _ _ _ k Hset Hnone).
Qed.

Lemma count_hazard_cleared k :
  count_hazard k (repeat wumpus_hazard_none 20)
  = (20 * indicator wumpus_hazard_none k)%nat.
Proof. destruct k; reflexivity. Qed.

(** C9.  When [_generate_hazards] returns, the twenty rooms hold exactly one
    Wumpus, WUMPUS_NUM_PITS (2) pits and WUMPUS_NUM_BATS (2) bats; the other
    fifteen rooms hold nothing, and the player's room is one of those.  A
    room holds one hazard at most, so the five hazards are in five different
    rooms. *)
Theorem generate_hazards_spec (p : Z) (w : world) u w' :
  List.length (hazards (_state w)) = 20%nat ->
  _generate_hazards p w = Ok (u, w') ->
  let hz := hazards (_state w') in
  List.length hz = 20%nat /\
  count_hazard wumpus_hazard_wumpus hz = 1%nat /\
  count_hazard wumpus_hazard_pitfall hz = Z.to_nat WUMPUS_NUM_PITS /\
  count_hazard wumpus_hazard_bat hz = Z.to_nat WUMPUS_NUM_BATS /\
  count_hazard wumpus_hazard_none hz = 15%nat /\
  count_hazard wumpus_hazard_arrow hz = 0%nat /\
  (0 <= p < WUMPUS_FACE_ROWS -> array_get hz p = Some wumpus_hazard_none).
Proof.
  intros Hlen H. unfold _generate_hazards in H.
  apply bind_ok in H. destruct H as (u0 & w0 & E0 & H).
  rewrite (clear_hazards _ Hlen) in E0. inversion E0; subst u0 w0; clear E0.
  apply bind_ok in H. destruct H as (u1 & w2 & Epits & H).
  change (zrange 0 WUMPUS_NUM_PITS) with [0; 1] in Epits. simpl in Epits.
  apply bind_ok in Epits. destruct Epits as (u2 & w1 & Ep1 & Epits).
  apply bind_ok in Epits. destruct Epits as (u3 & w2' & Ep2 & Epits).
  inv_ok Epits.
  apply bind_ok in H. destruct H as (u4 & w4 & Ebats & H).
  change (zrange 0 WUMPUS_NUM_BATS) with [0; 1] in Ebats. simpl in Ebats.
  apply bind_ok in Ebats. destruct Ebats as (u5 & w3 & Eb1 & Ebats).
  apply bind_ok in Ebats. destruct Ebats as (u6 & w4' & Eb2 & Ebats).
  inv_ok Ebats.
  apply place_hazard_spec in Ep1, Ep2, Eb1, Eb2, H.
  destruct Ep1 as (L1 & P1 & C1). destruct Ep2 as (L2 & P2 & C2).
  destruct Eb1 as (L3 & P3 & C3). destruct Eb2 as (L4 & P4 & C4).
  destruct H as (L5 & P5 & C5).
  unfold set_hazards in L1, P1, C1. cbn [_state hazards] in L1, P1, C1.
  assert (C : forall k,
             (count_hazard k (hazards (_state w'))
              + 5 * indicator wumpus_hazard_none k
              = 20 * indicator wumpus_hazard_none k
                + 2 * indicator wumpus_hazard_pitfall k
                + 2 * indicator wumpus_hazard_bat k
                + indicator wumpus_hazard_wumpus k)%nat).
  { intros k. specialize (C1 k). specialize (C2 k). specialize (C3 k).
    specialize (C4 k). specialize (C5 k).
    match type of C1 with
    | _ = (count_hazard k ?l + _)%nat =>
        replace (count_hazard k l)
          with (20 * indicator wumpus_hazard_none k)%nat in C1
          by (symmetry; apply count_hazard_cleared)
    end.
    lia. }
  simpl. split; [|repeat split].
  - rewrite L5, L4, L3, L2, L1. reflexivity.
  - specialize (C wumpus_hazard_wumpus). unfold indicator in C. simpl in C. lia.
  - specialize (C wumpus_hazard_pitfall). unfold indicator in C. simpl in C.
    change (Z.to_nat WUMPUS_NUM_PITS) with 2%nat. lia.
  - specialize (C wumpus_hazard_bat). unfold indicator in C. simpl in C.
    change (Z.to_nat WUMPUS_NUM_BATS) with 2%nat. lia.
  - specialize (C wumpus_hazard_none). unfold indicator in C. simpl in C. lia.
  - specialize (C wumpus_hazard_arrow). unfold indicator in C. simpl in C. lia.
  - intros Hp. rewrite P5, P4, P3, P2, P1.
    unfold array_get, WUMPUS_FACE_ROWS in *.
    destruct (p <? 0) eqn:E; [apply Z.ltb_lt in E; lia|].
    assert (Hn : (Z.to_nat p < 20)%nat) by lia.
    revert Hn. generalize (Z.to_nat p). intros n Hn.
    do 20 (destruct n as [|n]; [reflexivity|]). lia.
Qed.

(** A tape on which three draws are rejected: the player's room 0, the room
    10 a second time, and the room 11 once it holds a pit. *)
Lemma generate_hazards_spec_witness :
  exists w',
    _generate_hazards 0 (boot [0; 10; 10; 11; 12; 13; 11; 1]) = Ok (tt, w') /\
    count_hazard wumpus_hazard_wumpus (hazards (_state w')) = 1%nat /\
    count_hazard wumpus_hazard_pitfall (hazards (_state w')) = 2%nat /\
    count_hazard wumpus_hazard_bat (hazards (_state w')) = 2%nat /\
    array_get (hazards (_state w')) 0 = Some wumpus_hazard_none.
Proof.
  destruct (_generate_hazards 0 (boot [0; 10; 10; 11; 12; 13; 11; 1]))
    as [[[] w']|e] eqn:E; [|vm_compute in E; discriminate E].
  destruct (generate_hazards_spec
              0 (boot [0; 10; 10; 11; 12; 13; 11; 1]) _ _ eq_refl E)
    as (_ & Hw & Hp & Hb & _ & _ & H0).
  exists w'. repeat split; try assumption. apply H0.
  unfold WUMPUS_FACE_ROWS. lia.
Defined.

(** * The event loop *)

(** A successful call of [wumpus_face_loop] is a successful run of the
    switch, and the worlds are the same. *)
Lemma loop_ok e u w r w' :
  wumpus_face_loop e u w = Ok (r, w') ->
  exists x, loop_switch e u w = Ok (x, w').
Proof.
  destruct e; simpl; intros H;
    try (apply bind_ok in H; destruct H as (x & w1 & E & H);
         inv_ok H; exists x; exact E).
  inv_ok H. exists tt. reflexivity.
Qed.

(** ** Effects of the display functions as equations

    A display function leaves a state that is the old one with new values
    in the three display members. *)
Definition redisplay (hp : Z) (cm : wumpus_melody_t) (ms : Z)
           (s : wumpus_game_state_t) : wumpus_game_state_t :=
  set_hazard_point hp (set_current_melody cm (set_melody_step ms s)).

Lemma mask_display_inv s s' :
  mask_display s' = mask_display s ->
  s' = redisplay (hazard_point s') (current_melody s') (melody_step s') s.
Proof.
  destruct s, s'. unfold mask_display, redisplay, set_hazard_point,
    set_current_melody, set_melody_step. simpl.
  intros H. inversion H. reflexivity.
Qed.

Lemma display_effect {A} (m : M A) :
  display_only m ->
  forall w a w', m w = Ok (a, w') ->
    exists hp cm ms, _state w' = redisplay hp cm ms (_state w).
Proof.
  intros Hm w a w' H. apply Hm in H. apply mask_display_inv in H. eauto.
Qed.

(** Replaces the state of the world [w'] a display call returned. *)
Ltac display_step E lem w' :=
  let hp := fresh "hp" in let cm := fresh "cm" in let ms := fresh "ms" in
  let Hs := fresh "Hs" in
  let s := fresh "s" in let t := fresh "t" in let l := fresh "l" in
  destruct (display_effect _ lem _ _ _ E) as (hp & cm & ms & Hs);
  clear E; destruct w' as [s t l]; cbn [_state] in Hs; subst s.

Ltac display_steps :=
  repeat match goal with
    | E : _display_current_action _ = Ok (_, ?w') |- _ =>
        display_step E display_only_display_current_action w'
    | E : _display_hazards ?u _ = Ok (_, ?w') |- _ =>
        display_step E (display_only_display_hazards u) w'
    | E : _display_death ?h _ = Ok (_, ?w') |- _ =>
        display_step E (display_only_display_death h) w'
    | E : _display_won _ = Ok (_, ?w') |- _ =>
        display_step E display_only_display_won w'
    | E : _display_selected_room _ = Ok (_, ?w') |- _ =>
        display_step E display_only_display_selected_room w'
    | E : _play_melody ?m _ = Ok (_, ?w') |- _ =>
        display_step E (display_only_play_melody m) w'
    | E : _update_lap_indicator _ = Ok (_, ?w') |- _ =>
        display_step E display_only_update_lap_indicator w'
    | E : _update_sound_indicator _ = Ok (_, ?w') |- _ =>
        display_step E display_only_update_sound_indicator w'
    end.

(** ** The Wumpus's move after a press in active mode *)

Section RollFrame.
Context {B : Type} (f : wumpus_game_state_t -> B).
Hypothesis f_hazards : forall v s, f (set_hazards v s) = f s.
Hypothesis f_display : forall s, f (mask_display s) = f s.
Hypothesis f_action : forall v s, f (set_current_action v s) = f s.

Lemma preserves_wumpus_on_player : preserves f wumpus_on_player.
Proof. unfold wumpus_on_player. frame_walk. Qed.

Lemma preserves_killed_by_wumpus : preserves f killed_by_wumpus.
Proof. unfold killed_by_wumpus. frame_walk. Qed.

Lemma preserves_active_wumpus_roll : preserves f active_wumpus_roll.
Proof.
  unfold active_wumpus_roll. frame_walk;
    first [ apply preserves_wumpus_move; assumption
          | apply preserves_wumpus_on_player
          | apply preserves_killed_by_wumpus ].
Qed.
End RollFrame.

(** After the roll the action is as before, unless the Wumpus has moved
    onto the player; in stationary mode the roll does nothing. *)
Lemma active_wumpus_roll_action w x w' :
  active_wumpus_roll w = Ok (x, w') ->
  (active_wumpus_mode (_state w) = false -> w' = w) /\
  (current_action (_state w') = current_action (_state w) \/
   (active_wumpus_mode (_state w) = true /\
    current_action (_state w') = wumpus_face_died /\
    array_get (hazards (_state w')) (player_room (_state w'))
    = Some wumpus_hazard_wumpus)).
Proof.
  unfold active_wumpus_roll. intros H. rewrite gets_eq in H.
  destruct (active_wumpus_mode (_state w)) eqn:Ea; simpl in H.
  - split; [discriminate|].
    apply bind_ok in H. destruct H as (moved & w1 & Em & H).
    assert (Ha : current_action (_state w1) = current_action (_state w)).
    { revert Em. apply preserves_wumpus_move. reflexivity. }
    destruct moved.
    + apply bind_ok in H. destruct H as (hit & w2 & Eh & H).
      unfold wumpus_on_player in Eh. inv_ok Eh.
      match goal with
      | E : read_hazard _ _ = Ok (?h, _) |- _ =>
          apply read_hazard_ok in E; destruct E as [Eh ->];
          destruct (hazard_eqb h wumpus_hazard_wumpus) eqn:Ew; simpl in H;
          [destruct h; try discriminate Ew|]
      end.
      * right. split; [reflexivity|].
        unfold killed_by_wumpus in H. inv_ok H. display_steps.
        simpl. split; [reflexivity|exact Eh].
      * inv_ok H. left. exact Ha.
    + inv_ok H. left. exact Ha.
  - inv_ok H. split; [reflexivity|]. left. reflexivity.
Qed.

(** ** Confirm with no room selected *)


(** The tape of a first game: the player starts in room 0, the pits are in
    rooms 10 and 11, the bats in 12 and 13, the Wumpus in room 1. *)
Definition first_game_tape : list Z := [0; 10; 11; 12; 13; 1].



Definition choosing_world : world :=
  mk_world (set_current_action wumpus_face_choosing_room sample_state) [] [].


(** ** The settings across games *)

#[local] Hint Extern 1 (preserves _ _find_safe_random_room) =>
  apply preserves_find_safe_random_room : frame.
#[local] Hint Extern 1 (preserves _ (_generate_unique _)) =>
  apply preserves_generate_unique : frame.
#[local] Hint Extern 1 (preserves _ _wumpus_flee) =>
  apply preserves_wumpus_flee; intros; reflexivity : frame.
#[local] Hint Extern 1 (preserves _ _wumpus_move) =>
  apply preserves_wumpus_move; intros; reflexivity : frame.
#[local] Hint Extern 1 (preserves _ _shot) =>
  apply preserves_shot; intros; reflexivity : frame.
#[local] Hint Extern 1 (preserves _ active_wumpus_roll) =>
  apply preserves_active_wumpus_roll; intros; reflexivity : frame.

(** The two settings of the game. *)
Definition game_settings (s : wumpus_game_state_t) : bool * bool :=
  (active_wumpus_mode s, sound_mode_on s).

Lemma preserves_generate_hazards {B} (f : wumpus_game_state_t -> B) p :
  (forall v s, f (set_hazards v s) = f s) ->
  preserves f (_generate_hazards p).
Proof. intros Hf. unfold _generate_hazards. frame_walk. Qed.

(** [sets f v m]: after a successful run of [m] the part [f] of the state
    is [v], whatever it was before. *)
Definition sets {A B} (f : wumpus_game_state_t -> B) (v : B) (m : M A)
  : Prop :=
  forall w a w', m w = Ok (a, w') -> f (_state w') = v.

Lemma sets_modify {B} (f : wumpus_game_state_t -> B) v g :
  (forall s, f (g s) = v) -> sets f v (modify g).
Proof. intros Hg w a w' H. inv_ok H. apply Hg. Qed.

Lemma sets_bind_l {A C B} (f : wumpus_game_state_t -> B) v
      (m : M A) (k : A -> M C) :
  sets f v m -> (forall a, preserves f (k a)) -> sets f v (bind m k).
Proof.
  intros Hm Hk w b w' H. apply bind_ok in H.
  destruct H as (a & w1 & E1 & E2).
  rewrite (Hk _ _ _ _ E2). exact (Hm _ _ _ E1).
Qed.

Lemma sets_bind_r {A C B} (f : wumpus_game_state_t -> B) v
      (m : M A) (k : A -> M C) :
  (forall a, sets f v (k a)) -> sets f v (bind m k).
Proof.
  intros Hk w b w' H. apply bind_ok in H.
  destruct H as (a & w1 & E1 & E2). exact (Hk _ _ _ _ E2).
Qed.

(** Finds the assignment to [f] in a sequence and checks that what follows
    leaves [f] alone. *)
Ltac sets_walk :=
  repeat first
    [ solve [ apply sets_bind_l;
              [ apply sets_modify; intros; reflexivity
              | intros; frame_walk ] ]
    | apply sets_bind_r; intros ].

(** What [_init_game] leaves behind, whatever the state before. *)
Lemma init_game_spec w x w' :
  _init_game w = Ok (x, w') ->
  game_settings (_state w') = (false, true) /\
  current_action (_state w') = wumpus_face_shoot /\
  arrows (_state w') = WUMPUS_NUM_ARROWS /\
  led_cnt (_state w') = 0.
Proof.
  intros H.
  assert (Ha : sets active_wumpus_mode false _init_game)
    by (unfold _init_game; sets_walk).
  assert (Hs : sets sound_mode_on true _init_game)
    by (unfold _init_game; sets_walk).
  assert (Hc : sets current_action wumpus_face_shoot _init_game)
    by (unfold _init_game; sets_walk).
  assert (Hr : sets arrows WUMPUS_NUM_ARROWS _init_game)
    by (unfold _init_game; sets_walk).
  assert (Hl : sets led_cnt 0 _init_game)
    by (unfold _init_game; sets_walk).
  unfold game_settings.
  rewrite (Ha _ _ _ H), (Hs _ _ _ H), (Hc _ _ _ H), (Hr _ _ _ H),
    (Hl _ _ _ H).
  auto.
Qed.

Lemma preserves_settings_light_button_up :
  preserves game_settings loop_light_button_up.
Proof. unfold loop_light_button_up. frame_walk. Qed.

Lemma preserves_settings_confirm_switch u :
  preserves game_settings (confirm_switch u).
Proof. unfold confirm_switch. frame_walk. Qed.

Lemma preserves_settings_alarm_button_up u :
  preserves game_settings (loop_alarm_button_up u).
Proof.
  unfold loop_alarm_button_up. frame_walk.
Qed.

(** A tick that does not start a new game leaves the settings alone. *)
Lemma loop_tick_settings u w x w' :
  loop_tick u w = Ok (x, w') ->
  ~ (current_melody (_state w) = MELODY_NONE /\ led_cnt (_state w) = 1) ->
  game_settings (_state w') = game_settings (_state w).
Proof.
  unfold loop_tick. intros H Hng. rewrite gets_eq in H.
  destruct (melody_is_none (current_melody (_state w))) eqn:Em;
    cbn [negb] in H; cbv iota in H.
  - rewrite gets_eq in H.
    destruct (0 <? led_cnt (_state w)) eqn:El.
    + destruct (led_cnt (_state w) =? 1) eqn:E1.
      * exfalso. apply Hng. apply Z.eqb_eq in E1. split; [|exact E1].
        destruct (current_melody (_state w)); try discriminate Em.
        reflexivity.
      * revert H.
        match goal with
        | |- ?m ?w0 = Ok _ -> _ =>
            assert (P : preserves game_settings m) by (simpl; frame_walk);
            apply P
        end.
    + revert H.
      match goal with
      | |- ?m ?w0 = Ok _ -> _ =>
          assert (P : preserves game_settings m) by frame_walk; apply P
      end.
  - revert H.
    match goal with
    | |- ?m ?w0 = Ok _ -> _ =>
        assert (P : preserves game_settings m) by frame_walk; apply P
    end.
Qed.

(** The tick on which the face starts a new game: no melody is playing and
    the LED counter has come down to 1 (lines 498-501). *)
Definition starts_new_game (e : movement_event_type_t)
           (s : wumpus_game_state_t) : Prop :=
  e = EVENT_TICK /\ current_melody s = MELODY_NONE /\ led_cnt s = 1.

(** What the two long presses do to the settings. *)
Definition toggled (e : movement_event_type_t) (g : bool * bool)
  : bool * bool :=
  match e with
  | EVENT_LIGHT_LONG_PRESS => (negb (fst g), snd g)
  | EVENT_ALARM_LONG_PRESS => (fst g, negb (snd g))
  | _ => g
  end.

Definition ticks (n : nat) : list (movement_event_type_t * Z) :=
  repeat (EVENT_TICK, 0) n.




(** The settings after any event of the loop. *)
Lemma loop_settings (e : movement_event_type_t) (u : Z) (w : world) r w' :
  wumpus_face_loop e u w = Ok (r, w') ->
  (starts_new_game e (_state w) ->
     game_settings (_state w') = (false, true) /\
     current_action (_state w') = wumpus_face_shoot /\
     arrows (_state w') = WUMPUS_NUM_ARROWS) /\
  (~ starts_new_game e (_state w) ->
     game_settings (_state w') = toggled e (game_settings (_state w))).
Proof.
  intros H. apply loop_ok in H. destruct H as [x H]. split.
  - intros (-> & Hm & Hl). simpl in H. unfold loop_tick in H.
    rewrite gets_eq, Hm in H. simpl in H. rewrite gets_eq, Hl in H.
    simpl in H.
    apply bind_ok in H. destruct H as (x1 & w1 & E1 & E2).
    apply bind_ok in E1. destruct E1 as (x2 & w2 & _ & E1).
    apply bind_ok in E1. destruct E1 as (x3 & w3 & Ei & E1).
    apply init_game_spec in Ei. destruct Ei as (Hg & Ha & Hr & _).
    inv_ok E1. display_steps. inv_ok E2.
    unfold game_settings in *. cbn in *. auto.
  - intros Hng. destruct e; simpl in H.
    + match type of H with
      | ?m _ = Ok _ =>
          assert (P : preserves game_settings m) by frame_walk;
          exact (P _ _ _ H)
      end.
    + apply (loop_tick_settings _ _ _ _ H).
      intros [Hm Hl]. apply Hng. repeat split; assumption.
    + exact (preserves_settings_light_button_up _ _ _ H).
    + inv_ok H; display_steps; reflexivity.
    + exact (preserves_settings_alarm_button_up _ _ _ _ H).
    + inv_ok H; display_steps; reflexivity.
    + inv_ok H. reflexivity.
Qed.


(** The counter is decremented after [_init_game] has put it to 0
    (line 505): the new game starts with [led_cnt] wrapped round to 255. *)
Remark new_game_tick_wraps_led_cnt :
  final_state
    (wumpus_face_loop EVENT_TICK 0
       (mk_world (set_led_cnt 1
                    (set_current_action wumpus_face_died sample_state))
                 [0; 10; 11; 12; 13; 1] []))
  = Some (mk_state 0
            [wumpus_hazard_none; wumpus_hazard_wumpus; wumpus_hazard_none;
             wumpus_hazard_none; wumpus_hazard_none; wumpus_hazard_none;
             wumpus_hazard_none; wumpus_hazard_none; wumpus_hazard_none;
             wumpus_hazard_none; wumpus_hazard_pitfall;
             wumpus_hazard_pitfall; wumpus_hazard_bat; wumpus_hazard_bat;
             wumpus_hazard_none; wumpus_hazard_none; wumpus_hazard_none;
             wumpus_hazard_none; wumpus_hazard_none; wumpus_hazard_none]
            5 wumpus_face_shoot (-1) true true 0 0 0 0 [4; 13; 0; 0; 0]
            0 0 MELODY_NONE 0 255 false true).
Proof. vm_compute. reflexivity. Qed.

Definition flashing_world : world :=
  mk_world (set_led_cnt 1
              (set_active_wumpus_mode true
                 (set_current_action wumpus_face_died sample_state)))
           first_game_tape [].


(** ** Buttons after the game is over *)

Definition game_over (s : wumpus_game_state_t) : Prop :=
  current_action s = wumpus_face_won \/ current_action s = wumpus_face_died.

Lemma display_current_action_game_over w :
  game_over (_state w) ->
  exists l, _display_current_action w
            = Ok (tt, mk_world (_state w) (rand_tape w) l).
Proof.
  intros Hover. unfold _display_current_action.
  unfold bind at 1. unfold call at 1.
  rewrite gets_eq. rewrite gets_eq. cbn [_state rand_tape host_log].
  destruct (action_tick_show (_state w));
    destruct Hover as [-> | ->]; eexists; reflexivity.
Qed.

(** "Cycle" changes nothing of the game once it is won or lost. *)
Lemma cycle_game_over u w r w' :
  game_over (_state w) ->
  wumpus_face_loop EVENT_LIGHT_BUTTON_UP u w = Ok (r, w') ->
  _state w' = _state w /\ rand_tape w' = rand_tape w.
Proof.
  intros Hover H. apply loop_ok in H. destruct H as [x H].
  simpl in H. unfold loop_light_button_up in H. rewrite gets_eq in H.
  destruct (display_current_action_game_over w Hover) as [l Hd].
  assert (E : _display_current_action w = Ok (x, w')).
  { destruct Hover as [Ha | Ha]; rewrite Ha in H; exact H. }
  rewrite Hd in E. inversion E. auto.
Qed.

(** So does "confirm" as long as the Wumpus is stationary. *)
Lemma confirm_game_over_stationary u w r w' :
  game_over (_state w) ->
  active_wumpus_mode (_state w) = false ->
  wumpus_face_loop EVENT_ALARM_BUTTON_UP u w = Ok (r, w') ->
  _state w' = _state w /\ rand_tape w' = rand_tape w.
Proof.
  intros Hover Hst H. apply loop_ok in H. destruct H as [x H].
  simpl in H. unfold loop_alarm_button_up in H.
  assert (Esw : confirm_switch u w = Ok (tt, w)).
  { unfold confirm_switch. rewrite gets_eq.
    destruct Hover as [-> | ->]; reflexivity. }
  rewrite (bind_eq _ _ _ _ _ Esw) in H.
  destruct (display_current_action_game_over w Hover) as [l Hd].
  rewrite (bind_eq _ _ _ _ _ Hd) in H.
  apply active_wumpus_roll_action in H. destruct H as [Hoff _].
  rewrite (Hoff Hst). auto.
Qed.

(** A won game: from room 0 the player shoots a path of one room into room
    1, where the Wumpus is, and then switches to active mode. *)
Definition won_game : list (movement_event_type_t * Z) :=
  [(EVENT_ALARM_BUTTON_UP, 0); (EVENT_ALARM_BUTTON_UP, 0);
   (EVENT_ALARM_BUTTON_UP, 0); (EVENT_LIGHT_LONG_PRESS, 0)].

(** C5 does not hold of the code.  At the end of [won_game] the action is
    [wumpus_face_won]; one more "confirm" in active mode lets the Wumpus,
    which the winning shot has left in the hazards, move (draw 99) into the
    player's room (draw 0), and the action becomes [wumpus_face_died]. *)
Theorem confirm_after_win_kills :
  exists s s',
    final_state (session (first_game_tape ++ [99; 0]) won_game) = Some s /\
    current_action s = wumpus_face_won /\
    active_wumpus_mode s = true /\
    array_get (hazards s) 1 = Some wumpus_hazard_wumpus /\
    final_state (session (first_game_tape ++ [99; 0])
                         (won_game ++ [(EVENT_ALARM_BUTTON_UP, 0)]))
    = Some s' /\
    current_action s' = wumpus_face_died /\
    player_room s' = player_room s /\
    array_get (hazards s') 1 = Some wumpus_hazard_none /\
    array_get (hazards s') (player_room s') = Some wumpus_hazard_wumpus /\
    s' <> s.
Proof.
  do 2 eexists. split; [vm_compute; reflexivity|].
  do 3 (split; [reflexivity|]). split; [vm_compute; reflexivity|].
  do 4 (split; [reflexivity|]). discriminate.
Qed.

(** * Bat transport *)

Definition hazard_at (s : wumpus_game_state_t) (room : Z)
  : option wumpus_hazard_type_t :=
  array_get (hazards s) room.

(** While the bat carries the player, the room it is heading for does not
    hold the hazard [h]. *)
Definition dest_free_of (h : wumpus_hazard_type_t) (s : wumpus_game_state_t)
  : Prop :=
  current_action s = wumpus_face_bat_transport ->
  hazard_at s (transport_dest_room s) <> Some h.

(** No room holds [h] in [hz'] that did not hold it in [hz]. *)
Definition no_new (h : wumpus_hazard_type_t)
           (hz hz' : list wumpus_hazard_type_t) : Prop :=
  forall r, array_get hz' r = Some h -> array_get hz r = Some h.

Lemma no_new_refl h hz : no_new h hz hz.
Proof. intros r H. exact H. Qed.

Lemma no_new_trans h hz1 hz2 hz3 :
  no_new h hz1 hz2 -> no_new h hz2 hz3 -> no_new h hz1 hz3.
Proof. intros H12 H23 r H. apply H12, H23, H. Qed.

Lemma no_new_set h hz r v hz' :
  array_set hz r v = Some hz' -> v <> h -> no_new h hz hz'.
Proof.
  intros Hset Hv r' H. rewrite (array_get_set _ _ _ _ Hset) in H.
  destruct (r' =? r); [congruence|exact H].
Qed.

(** The part of the state the transport depends on. *)
Definition transport_view (s : wumpus_game_state_t) :=
  (current_action s, hazards s, transport_dest_room s, player_room s).

Lemma dest_free_of_view h s s' :
  transport_view s' = transport_view s ->
  dest_free_of h s -> dest_free_of h s'.
Proof.
  unfold transport_view, dest_free_of, hazard_at. intros E.
  inversion E as [[Ha Hh Hd Hp]]. rewrite Ha, Hh, Hd. auto.
Qed.

Lemma dest_free_of_other h s :
  current_action s <> wumpus_face_bat_transport -> dest_free_of h s.
Proof. intros H Ha. contradiction. Qed.

(** [_find_safe_random_room] changes nothing but the tape, and the room it
    returns holds neither the Wumpus nor a pit. *)
Lemma find_safe_random_room_spec w r w' :
  _find_safe_random_room w = Ok (r, w') ->
  _state w' = _state w /\ host_log w' = host_log w /\
  exists h, array_get (hazards (_state w)) r = Some h /\
            h <> wumpus_hazard_wumpus /\ h <> wumpus_hazard_pitfall.
Proof.
  unfold _find_safe_random_room. intros H. apply bind_ok in H.
  destruct H as (n & w0 & E0 & H). inv_ok E0.
  revert H.
  apply (do_while_inv _
           (fun w1 => _state w1 = _state w /\ host_log w1 = host_log w)
           (fun r w1 => _state w1 = _state w /\ host_log w1 = host_log w /\
                        exists h, array_get (hazards (_state w)) r = Some h /\
                                  h <> wumpus_hazard_wumpus /\
                                  h <> wumpus_hazard_pitfall)); [|auto].
  intros w1 a b w2 [Hs Hl] Hbody.
  apply bind_ok in Hbody. destruct Hbody as (v & w3 & Ed & Hbody).
  apply get_rand_num_ok in Ed. destruct Ed as (raw & t & _ & -> & ->).
  apply bind_ok in Hbody. destruct Hbody as (h & w4 & Eh & Hbody).
  apply read_hazard_ok in Eh. destruct Eh as [Eh ->]. simpl in Eh.
  inv_ok Hbody. inversion H; subst a b. clear H. rewrite Hs in Eh.
  destruct h; simpl; auto; repeat split; auto;
    eexists; (split; [exact Eh|split; discriminate]).
Qed.

(** The Wumpus's flight writes "none" and "Wumpus" only. *)
Lemma wumpus_flee_from_no_new h rooms :
  h <> wumpus_hazard_none -> h <> wumpus_hazard_wumpus ->
  forall w b w', _wumpus_flee_from rooms w = Ok (b, w') ->
    no_new h (hazards (_state w)) (hazards (_state w')).
Proof.
  intros Hn Hw. induction rooms as [|i rest IH]; intros w b w' H; simpl in H.
  - inv_ok H. apply no_new_refl.
  - apply bind_ok in H. destruct H as (hz & w1 & Er & H).
    apply read_hazard_ok in Er. destruct Er as [_ ->].
    destruct (hazard_eqb hz wumpus_hazard_wumpus); [|exact (IH _ _ _ H)].
    apply bind_ok in H. destruct H as (x1 & w1 & E1 & H).
    apply write_hazard_ok in E1. destruct E1 as (hz1 & S1 & ->).
    apply bind_ok in H. destruct H as (rnd & w2 & E2 & H).
    apply get_rand_num_ok in E2. destruct E2 as (raw & t & _ & _ & ->).
    apply bind_ok in H. destruct H as (room & w3 & E3 & H).
    apply read_cave_map_ok in E3. destruct E3 as [_ ->].
    apply bind_ok in H. destruct H as (x2 & w4 & E4 & H).
    apply write_hazard_ok in E4. destruct E4 as (hz2 & S2 & ->).
    inv_ok H. cbn in *.
    eapply no_new_trans; eapply no_new_set; eauto.
Qed.

Lemma wumpus_move_no_new h w b w' :
  h <> wumpus_hazard_none -> h <> wumpus_hazard_wumpus ->
  _wumpus_move w = Ok (b, w') ->
  no_new h (hazards (_state w)) (hazards (_state w')).
Proof.
  intros Hn Hw H. unfold _wumpus_move in H.
  apply bind_ok in H. destruct H as (rnd & w1 & E & H).
  apply get_rand_num_ok in E. destruct E as (raw & t & _ & _ & ->).
  destruct (WUMPUS_MOVE_PROB <? rnd).
  - exact (wumpus_flee_from_no_new h _ Hn Hw _ _ _ H).
  - inv_ok H. apply no_new_refl.
Qed.

(** The roll after a press: the transport goes on towards the same room,
    no pit appears, and in stationary mode nothing happens at all. *)
Lemma active_wumpus_roll_dest h w x w' :
  active_wumpus_roll w = Ok (x, w') ->
  h = wumpus_hazard_pitfall \/ active_wumpus_mode (_state w) = false ->
  dest_free_of h (_state w) -> dest_free_of h (_state w').
Proof.
  intros H Hh Hfree.
  destruct (active_wumpus_roll_action _ _ _ H) as [Hoff Hact].
  destruct Hh as [-> | Hst]; [|rewrite (Hoff Hst); exact Hfree].
  intros Ha'.
  assert (Ha : current_action (_state w') = current_action (_state w)).
  { destruct Hact as [E|(_ & E & _)]; [exact E|congruence]. }
  pose proof (preserves_active_wumpus_roll transport_dest_room
                ltac:(reflexivity) ltac:(reflexivity) ltac:(reflexivity)
                _ _ _ H) as Hd.
  assert (Hnn : no_new wumpus_hazard_pitfall
                       (hazards (_state w)) (hazards (_state w'))).
  { clear - H. unfold active_wumpus_roll in H. rewrite gets_eq in H.
    destruct (active_wumpus_mode (_state w)); simpl in H;
      [|inv_ok H; apply no_new_refl].
    apply bind_ok in H. destruct H as (moved & w1 & Em & H).
    apply wumpus_move_no_new with (h := wumpus_hazard_pitfall) in Em;
      try discriminate.
    assert (Hk : hazards (_state w') = hazards (_state w1)).
    { revert H.
      match goal with
      | |- ?m _ = Ok _ -> _ =>
          assert (P : preserves hazards m);
          [ destruct moved; frame_walk;
            first [ apply preserves_wumpus_on_player
                  | apply preserves_killed_by_wumpus; intros; reflexivity ]
          | apply P ]
      end. }
    rewrite Hk. exact Em. }
  unfold hazard_at. rewrite Hd. intros Hp. apply Hnn in Hp.
  apply Hfree; [congruence|exact Hp].
Qed.

(** Runs the frame walker on the computation of a hypothesis. *)
Ltac frame_of H f :=
  match type of H with
  | ?m _ = Ok _ =>
      let P := fresh "P" in
      assert (P : preserves f m) by frame_walk;
      apply P in H
  end.

(** What a tick can do to a transport. *)
Definition tick_cases (s s' : wumpus_game_state_t) : Prop :=
  transport_view s' = transport_view s
  \/ current_action s' = wumpus_face_shoot
  \/ (current_action s = wumpus_face_bat_transport /\
      current_action s' = wumpus_face_bat_transport /\
      hazards s' = hazards s /\
      exists h, hazard_at s' (transport_dest_room s') = Some h /\
                h <> wumpus_hazard_wumpus /\ h <> wumpus_hazard_pitfall)
  \/ (current_action s = wumpus_face_bat_transport /\
      current_action s' = wumpus_face_go /\
      player_room s' = transport_dest_room s /\
      hazards s' = hazards s /\
      hazard_at s' (player_room s') <> Some wumpus_hazard_bat).

Lemma loop_tick_cases u w x w' :
  loop_tick u w = Ok (x, w') -> tick_cases (_state w) (_state w').
Proof.
  unfold loop_tick. intros H. rewrite gets_eq in H.
  destruct (melody_is_none (current_melody (_state w))) eqn:Em;
    cbn [negb] in H; cbv iota in H;
    [|left; frame_of H transport_view; exact H].
  rewrite gets_eq in H.
  destruct (0 <? led_cnt (_state w)) eqn:El.
  { destruct (led_cnt (_state w) =? 1) eqn:E1.
    - right; left.
      apply bind_ok in H. destruct H as (x1 & w1 & E & E2).
      simpl in E.
      apply bind_ok in E. destruct E as (x2 & w2 & _ & E).
      apply bind_ok in E. destruct E as (x3 & w3 & Ei & E).
      apply init_game_spec in Ei. destruct Ei as (_ & Ha & _).
      inv_ok E. display_steps. inv_ok E2. exact Ha.
    - left. simpl in H. frame_of H transport_view. exact H. }
  rewrite gets_eq in H.
  destruct (action_eqb (current_action (_state w)) wumpus_face_bat_transport)
    eqn:Ea; [|left; frame_of H transport_view; exact H].
  assert (Hact : current_action (_state w) = wumpus_face_bat_transport)
    by (destruct (current_action (_state w)); try discriminate Ea;
        reflexivity).
  rewrite gets_eq in H.
  destruct (0 <? transport_timer (_state w));
    [left; frame_of H transport_view; exact H|].
  inv_ok H.
  - (* landed on another bat *)
    right; right; left.
    repeat match goal with
           | E : read_hazard _ _ = Ok _ |- _ =>
               apply read_hazard_ok in E; destruct E as [? ->]
           | E : _find_safe_random_room _ = Ok (_, ?w1) |- _ =>
               apply find_safe_random_room_spec in E;
               destruct E as (Hs & _ & h & Hh & Hw & Hp);
               destruct w1 as [s1 t1 l1]; cbn [_state] in Hs; subst s1
           end.
    display_steps. cbn in *.
    repeat split; try assumption; try reflexivity.
    exists h. auto.
  - (* landed *)
    right; right; right.
    repeat match goal with
           | E : read_hazard _ _ = Ok _ |- _ =>
               apply read_hazard_ok in E; destruct E as [? ->]
           end.
    display_steps. cbn in *.
    repeat split; try assumption; try reflexivity.
    unfold hazard_at. cbn.
    match goal with
    | E : array_get _ _ = Some ?a, C : hazard_eqb ?a _ = false |- _ =>
        rewrite E; intros Hb; inversion Hb; subst a; discriminate C
    end.
Qed.

(** "Cycle" never starts a transport and does nothing to one under way. *)
Lemma loop_light_button_up_dest h w x w' :
  loop_light_button_up w = Ok (x, w') ->
  dest_free_of h (_state w) -> dest_free_of h (_state w').
Proof.
  unfold loop_light_button_up. intros H Hfree. rewrite gets_eq in H.
  destruct (current_action (_state w)) eqn:Ea;
    try (frame_of H transport_view;
         exact (dest_free_of_view _ _ _ H Hfree));
    inv_ok H; display_steps; apply dest_free_of_other; cbn; discriminate.
Qed.

Lemma killed_by_wumpus_action w x w' :
  killed_by_wumpus w = Ok (x, w') ->
  current_action (_state w') = wumpus_face_died.
Proof.
  unfold killed_by_wumpus. intros H. inv_ok H. display_steps. reflexivity.
Qed.

(** Turns what is known of the calls made after a shot into equations on
    [current_action]. *)
Ltac action_facts :=
  repeat match goal with
    | E : _shot _ = Ok _ |- _ =>
        let Hr := fresh "Hr" in
        pose proof (shot_result _ _ _ E) as Hr;
        apply (preserves_shot current_action) in E;
        [|intros; reflexivity ..]
    | E : _wumpus_flee _ = Ok _ |- _ =>
        apply (preserves_wumpus_flee current_action) in E;
        [|intros; reflexivity]
    | E : wumpus_on_player _ = Ok _ |- _ =>
        apply (preserves_wumpus_on_player current_action) in E
    | E : killed_by_wumpus _ = Ok _ |- _ =>
        apply killed_by_wumpus_action in E
    | E : write_shots_path _ _ _ = Ok _ |- _ =>
        apply (preserves_write_shots_path current_action) in E;
        [|intros; reflexivity]
    | E : read_cave_map _ _ _ = Ok _ |- _ =>
        apply read_cave_map_ok in E; destruct E as [_ ->]
    end.

(** The switch of "confirm" starts a transport only towards a room that
    [_find_safe_random_room] has found, and does nothing to a transport
    under way. *)
Lemma confirm_switch_dest h u w x w' :
  h = wumpus_hazard_pitfall \/ h = wumpus_hazard_wumpus ->
  confirm_switch u w = Ok (x, w') ->
  dest_free_of h (_state w) -> dest_free_of h (_state w').
Proof.
  intros Hh H Hfree. unfold confirm_switch in H. rewrite gets_eq in H.
  destruct (current_action (_state w)) eqn:Ea.
  - (* shoot *)
    inv_ok H. apply dest_free_of_other. cbn. discriminate.
  - (* shoot_n *)
    inv_ok H. action_facts. apply dest_free_of_other. cbn. discriminate.
  - (* shoot_rooms *)
    apply dest_free_of_other.
    inv_ok H; display_steps; action_facts; cbn in *;
      try congruence;
      repeat match goal with
             | Hr : _ \/ _ |- _ => destruct Hr
             end; subst; try discriminate; congruence.
  - (* go *)
    inv_ok H. display_steps. apply dest_free_of_other. cbn. discriminate.
  - (* choosing_room *)
    inv_ok H; display_steps.
    + match goal with
      | E : _find_safe_random_room _ = Ok (_, ?w1) |- _ =>
          apply find_safe_random_room_spec in E;
          destruct E as (Hs & _ & h' & Hg & Hw & Hp);
          destruct w1 as [s1 t1 l1]; cbn [_state] in Hs; subst s1
      end.
      intros _. unfold hazard_at. cbn in *. rewrite Hg.
      destruct Hh; subst h; congruence.
    + apply dest_free_of_other. cbn. discriminate.
    + apply dest_free_of_other. cbn. discriminate.
  - (* bat_transport *) inv_ok H. exact Hfree.
  - (* died *) inv_ok H. exact Hfree.
  - (* won *) inv_ok H. exact Hfree.
Qed.

(** One event.  The room a transport is heading for never comes to hold a
    pit; it comes to hold the Wumpus only through the roll that follows a
    "confirm" in active mode. *)
Lemma loop_dest_free h e u w r w' :
  wumpus_face_loop e u w = Ok (r, w') ->
  h = wumpus_hazard_pitfall \/
  (h = wumpus_hazard_wumpus /\
   (e <> EVENT_ALARM_BUTTON_UP \/ active_wumpus_mode (_state w) = false)) ->
  dest_free_of h (_state w) -> dest_free_of h (_state w').
Proof.
  intros H Hh Hfree. apply loop_ok in H. destruct H as [x H].
  assert (Hh' : h = wumpus_hazard_pitfall \/ h = wumpus_hazard_wumpus)
    by tauto.
  destruct e; simpl in H.
  - frame_of H transport_view. exact (dest_free_of_view _ _ _ H Hfree).
  - destruct (loop_tick_cases _ _ _ _ H)
      as [Hv|[Hs|[(_ & _ & _ & h' & Hg & Hw & Hp)|(_ & Hg & _)]]].
    + exact (dest_free_of_view _ _ _ Hv Hfree).
    + apply dest_free_of_other. congruence.
    + intros _. rewrite Hg. destruct Hh'; subst h; congruence.
    + apply dest_free_of_other. congruence.
  - exact (loop_light_button_up_dest _ _ _ _ H Hfree).
  - frame_of H transport_view. exact (dest_free_of_view _ _ _ H Hfree).
  - unfold loop_alarm_button_up in H.
    apply bind_ok in H. destruct H as (x1 & w1 & Esw & H).
    apply bind_ok in H. destruct H as (x2 & w2 & Ed & Eroll).
    pose proof (confirm_switch_dest _ _ _ _ _ Hh' Esw Hfree) as H1.
    pose proof (preserves_settings_confirm_switch _ _ _ _ Esw) as Hset.
    assert (Hm : active_wumpus_mode (_state w2)
                 = active_wumpus_mode (_state w)).
    { frame_of Ed active_wumpus_mode. rewrite Ed.
      unfold game_settings in Hset. congruence. }
    frame_of Ed transport_view.
    apply (active_wumpus_roll_dest _ _ _ _ Eroll).
    + destruct Hh as [Hp|[_ [He|Ha]]]; [left; exact Hp|congruence|].
      right. congruence.
    + exact (dest_free_of_view _ _ _ Ed H1).
  - frame_of H transport_view. exact (dest_free_of_view _ _ _ H Hfree).
  - inv_ok H. exact Hfree.
Qed.

(** Any run of events. *)
Lemma run_events_no_pit evs :
  forall w x w',
    run_events evs w = Ok (x, w') ->
    dest_free_of wumpus_hazard_pitfall (_state w) ->
    dest_free_of wumpus_hazard_pitfall (_state w').
Proof.
  induction evs as [|[e u] rest IH]; intros w x w' H Hfree; simpl in H.
  - inv_ok H. exact Hfree.
  - apply bind_ok in H. destruct H as (r & w1 & E & H).
    apply (IH _ _ _ H). apply (loop_dest_free _ _ _ _ _ _ E); auto.
Qed.

(** A run of events in which active mode is never switched on. *)
Lemma run_events_stationary evs :
  (forall u, ~ In (EVENT_LIGHT_LONG_PRESS, u) evs) ->
  forall w x w',
    run_events evs w = Ok (x, w') ->
    active_wumpus_mode (_state w) = false ->
    dest_free_of wumpus_hazard_wumpus (_state w) ->
    active_wumpus_mode (_state w') = false /\
    dest_free_of wumpus_hazard_wumpus (_state w').
Proof.
  induction evs as [|[e u] rest IH]; intros Hev w x w' H Hst Hfree;
    simpl in H.
  - inv_ok H. auto.
  - apply bind_ok in H. destruct H as (r & w1 & E & H).
    apply (IH (fun u' Hin => Hev u' (or_intror Hin)) _ _ _ H).
    + destruct (loop_settings _ _ _ _ _ E) as [Hnew Hold].
      assert (Hg : game_settings (_state w1) = (false, true) \/
                   game_settings (_state w1)
                   = toggled e (game_settings (_state w))).
      { destruct e; try (right; apply Hold; intros (He & _); discriminate He).
        destruct (current_melody (_state w)) eqn:Em;
          try (right; apply Hold; intros (_ & Hm & _); congruence).
        destruct (Z.eq_dec (led_cnt (_state w)) 1) as [El|El].
        - left. apply Hnew. repeat split; assumption.
        - right. apply Hold. intros (_ & _ & Hl). contradiction. }
      unfold game_settings in Hg.
      destruct Hg as [Hg|Hg]; [congruence|].
      destruct e; simpl in Hg; try congruence.
      exfalso. apply (Hev u). left. reflexivity.
    + apply (loop_dest_free _ _ _ _ _ _ E); auto.
Qed.

(** A game in active mode, played with the sound off on the tape
    [carried_to_wumpus_tape]: the player starts in room 0, the bats are in
    rooms 1 and 13, the Wumpus in room 3.  The player walks into the bat of
    room 1; the bat picks room 2 (draw 2), and the roll that follows the
    same press moves the Wumpus (draw 99) from room 3 into room 2 (draw 0).
    Four ticks later the transport is about to land. *)
Definition carried_to_wumpus_tape : list Z :=
  [0; 10; 11; 1; 13; 3; 0; 2; 99; 0].

Definition carried_to_wumpus : list (movement_event_type_t * Z) :=
  [(EVENT_ALARM_LONG_PRESS, 0); (EVENT_LIGHT_LONG_PRESS, 0)] ++
  ticks 8 ++
  [(EVENT_LIGHT_BUTTON_UP, 0); (EVENT_ALARM_BUTTON_UP, 0);
   (EVENT_LIGHT_BUTTON_UP, 0); (EVENT_ALARM_BUTTON_UP, 0)] ++
  ticks 4.

(** After the landing the player walks on: "confirm" opens the choice of
    an exit, two "cycle" select the second one, "confirm" moves. *)
Definition walk_on : list (movement_event_type_t * Z) :=
  [(EVENT_ALARM_BUTTON_UP, 0); (EVENT_LIGHT_BUTTON_UP, 0);
   (EVENT_LIGHT_BUTTON_UP, 0); (EVENT_ALARM_BUTTON_UP, 0)].

(** C8 does not hold of the code.  At the end of [carried_to_wumpus] the
    next tick puts the player down in the room the bat had picked, room 2,
    and that room holds the Wumpus: [_find_safe_random_room] looked at the
    room when it was picked, the Wumpus has moved in since, and the landing
    does not look again.  Nothing happens to the player there: the action
    is [wumpus_face_go], and with two more draws on the tape (the Wumpus
    stays) the player walks on into room 3, alive, leaving the Wumpus
    behind in room 2. *)
Theorem bat_drops_player_on_wumpus :
  exists s s' s'',
    final_state (session carried_to_wumpus_tape carried_to_wumpus) = Some s /\
    current_action s = wumpus_face_bat_transport /\
    final_state (session carried_to_wumpus_tape
                         (carried_to_wumpus ++ ticks 1)) = Some s' /\
    current_action s' = wumpus_face_go /\
    player_room s' = transport_dest_room s /\
    player_room s' = 2 /\
    hazard_at s' (player_room s') = Some wumpus_hazard_wumpus /\
    final_state (session (carried_to_wumpus_tape ++ [0; 0])
                         (carried_to_wumpus ++ ticks 1 ++ walk_on))
    = Some s'' /\
    current_action s'' = wumpus_face_go /\
    player_room s'' = 3 /\
    hazards s'' = hazards s'.
Proof.
  do 3 eexists. split; [vm_compute; reflexivity|].
  split; [reflexivity|]. split; [vm_compute; reflexivity|].
  do 4 (split; [reflexivity|]). split; [vm_compute; reflexivity|].
  repeat split.
Qed.

(** X28.  Where the bat does put the player down safely.  Take any state
    [w0] in which no transport is under way and any events after it that
    lead to a state [w] in which a bat carries the player; let the next
    tick put the player down (the action becomes [wumpus_face_go]).  Then
    the player is in the room the bat was heading for, and that room holds
    neither a pit nor a bat.  It does not hold the Wumpus either if the
    Wumpus was stationary in [w0] and active mode has not been switched on
    since; in active mode it can. *)
Theorem bat_landing (evs : list (movement_event_type_t * Z)) (u : Z)
        (w0 w w' : world) x r :
  current_action (_state w0) <> wumpus_face_bat_transport ->
  run_events evs w0 = Ok (x, w) ->
  current_action (_state w) = wumpus_face_bat_transport ->
  wumpus_face_loop EVENT_TICK u w = Ok (r, w') ->
  current_action (_state w') = wumpus_face_go ->
  player_room (_state w') = transport_dest_room (_state w) /\
  hazard_at (_state w') (player_room (_state w'))
  <> Some wumpus_hazard_pitfall /\
  hazard_at (_state w') (player_room (_state w')) <> Some wumpus_hazard_bat /\
  (active_wumpus_mode (_state w0) = false ->
   (forall u', ~ In (EVENT_LIGHT_LONG_PRESS, u') evs) ->
   hazard_at (_state w') (player_room (_state w'))
   <> Some wumpus_hazard_wumpus).
Proof.
  intros H0 Hrun Hact Htick Hgo.
  apply loop_ok in Htick. destruct Htick as [x' Htick]. simpl in Htick.
  destruct (loop_tick_cases _ _ _ _ Htick)
    as [Hv|[Hs|[(_ & Hb & _)|(_ & _ & Hp & Hh & Hnb)]]].
  - unfold transport_view in Hv. inversion Hv. congruence.
  - congruence.
  - congruence.
  - unfold hazard_at in *. rewrite Hp, Hh in *.
    split; [reflexivity|]. split; [|split; [exact Hnb|]].
    + exact (run_events_no_pit _ _ _ _ Hrun
               (dest_free_of_other _ _ H0) Hact).
    + intros Hst Hev.
      destruct (run_events_stationary _ Hev _ _ _ Hrun Hst
                  (dest_free_of_other _ _ H0)) as [_ Hfree].
      exact (Hfree Hact).
Qed.

(** A transport in stationary mode that lands on a second bat first: the
    player walks from room 0 into the bat of room 4, is carried to room 13
    (draw 13), where the other bat is, and from there to room 2 (draw 2). *)
Definition before_transport : world :=
  mk_world (set_selected_room_n 1
              (set_current_action wumpus_face_choosing_room sample_state))
           [13; 2] [].

Definition twice_carried : list (movement_event_type_t * Z) :=
  (EVENT_ALARM_BUTTON_UP, 0) :: ticks 19.

Definition about_to_land : world :=
  Eval vm_compute in
    match run_events twice_carried before_transport with
    | Ok (_, w) => w
    | Fault _ => before_transport
    end.

Definition landed : world :=
  Eval vm_compute in
    match wumpus_face_loop EVENT_TICK 0 about_to_land with
    | Ok (_, w) => w
    | Fault _ => about_to_land
    end.

Lemma bat_landing_witness :
  player_room (_state landed) = 2 /\
  hazard_at (_state landed) 2 <> Some wumpus_hazard_pitfall /\
  hazard_at (_state landed) 2 <> Some wumpus_hazard_wumpus.
Proof.
  assert (Hrun : run_events twice_carried before_transport
                 = Ok (tt, about_to_land)) by (vm_compute; reflexivity).
  assert (Htick : wumpus_face_loop EVENT_TICK 0 about_to_land
                  = Ok (true, landed)) by (vm_compute; reflexivity).
  assert (H0 : current_action (_state before_transport)
               <> wumpus_face_bat_transport) by (simpl; discriminate).
  destruct (bat_landing twice_carried 0 before_transport about_to_land
                        landed tt true H0 Hrun eq_refl Htick eq_refl)
    as (Hp & Hpit & _ & Hw).
  split; [reflexivity|]. split; [exact Hpit|].
  apply Hw; [reflexivity|].
  intros u' Hin. vm_compute in Hin.
  repeat (destruct Hin as [Hin|Hin]; [discriminate Hin|]). exact Hin.
Defined.

(** * The press that fires the arrow *)

(** The "confirm" that completes the path leaves the player's room alone as
    well: neither [_shot] nor the Wumpus's move after it writes it. *)
Lemma confirm_path_keeps_player_room u w r w' :
  current_action (_state w) = wumpus_face_shoot_rooms ->
  wumpus_face_loop EVENT_ALARM_BUTTON_UP u w = Ok (r, w') ->
  player_room (_state w') = player_room (_state w).
Proof.
  intros Hact H. apply loop_ok in H. destruct H as [x H]. simpl in H.
  unfold loop_alarm_button_up in H.
  apply bind_ok in H. destruct H as (x1 & w1 & Esw & H).
  apply bind_ok in H. destruct H as (x2 & w2 & Ed & Eroll).
  unfold confirm_switch in Esw. rewrite gets_eq, Hact in Esw.
  frame_of Esw player_room. frame_of Ed player_room.
  frame_of Eroll player_room. congruence.
Qed.

(** A game in stationary mode on the tape [spent_arrows_tape]: the player
    starts in room 0 and the Wumpus in room 5.  When the start melody is
    over the player shoots five arrows into the empty room 1, three
    presses each; after each miss the Wumpus moves, and it ends up next
    door in room 4.  Two more presses open a sixth shot. *)
Definition spent_arrows_tape : list Z :=
  [0; 10; 11; 12; 13; 5; 1; 0; 1; 0; 0; 0].

Definition spent_arrows : list (movement_event_type_t * Z) :=
  ticks 9 ++ repeat (EVENT_ALARM_BUTTON_UP, 0) 17.

(** C4 does not hold of the code.  At the end of [spent_arrows] no arrow
    is left and the next "confirm" fires.  [_shot] shows "Ar" and "DIED"
    and returns [wumpus_face_died] without entering the path, but its
    caller treats every result other than [wumpus_face_won] as a miss
    (lines 627-636): the Wumpus flees (draw 0) from room 4 into the
    player's room, so the hazards have changed, and "UU" is shown over the
    cause "Ar". *)
Theorem shot_without_arrow_moves_wumpus :
  exists w r w',
    session spent_arrows_tape spent_arrows = Ok (tt, w) /\
    arrows (_state w) = 0 /\
    current_action (_state w) = wumpus_face_shoot_rooms /\
    shots_picked (_state w) + 1 = shots_path_len (_state w) /\
    active_wumpus_mode (_state w) = false /\
    hazard_at (_state w) 4 = Some wumpus_hazard_wumpus /\
    hazard_at (_state w) (player_room (_state w)) = Some wumpus_hazard_none /\
    rand_tape w = [0] /\
    wumpus_face_loop EVENT_ALARM_BUTTON_UP 0 w = Ok (r, w') /\
    current_action (_state w') = wumpus_face_died /\
    arrows (_state w') = -1 /\
    player_room (_state w') = player_room (_state w) /\
    hazard_at (_state w') 4 = Some wumpus_hazard_none /\
    hazard_at (_state w') (player_room (_state w'))
    = Some wumpus_hazard_wumpus /\
    hazards (_state w') <> hazards (_state w) /\
    rand_tape w' = [] /\
    host_log w' =
      (host_log w ++ death_banner "Ar"
       ++ [movement_request_tick_frequency 8]
       ++ death_banner "UU" ++ [watch_clear_colon])%list.
Proof.
  do 3 eexists. split; [vm_compute; reflexivity|].
  do 7 (split; [reflexivity|]). split; [vm_compute; reflexivity|].
  do 5 (split; [reflexivity|]). split; [discriminate|].
  split; reflexivity.
Qed.

(** Two shots in which the arrow finds its target.
    [own_arrow], stationary mode, Wumpus in room 4: a path of two rooms,
    room 1 and back into the player's room 0.
    [crooked_hit], active mode, bat in room 3, Wumpus in room 1: a path of
    three rooms, 3, then 0, which is not connected to 3, then 1; all but
    the last press are made. *)
Definition own_arrow_tape : list Z := [0; 10; 11; 12; 13; 4; 0].

Definition own_arrow : list (movement_event_type_t * Z) :=
  ticks 9 ++
  [(EVENT_ALARM_BUTTON_UP, 0); (EVENT_LIGHT_BUTTON_UP, 0);
   (EVENT_ALARM_BUTTON_UP, 0); (EVENT_ALARM_BUTTON_UP, 0)].

Definition crooked_hit_tape : list Z :=
  [0; 10; 11; 3; 13; 1; 0; 0; 0; 0; 0; 99; 0].

Definition crooked_hit : list (movement_event_type_t * Z) :=
  ticks 9 ++
  [(EVENT_LIGHT_LONG_PRESS, 0); (EVENT_ALARM_BUTTON_UP, 0);
   (EVENT_LIGHT_BUTTON_UP, 0); (EVENT_LIGHT_BUTTON_UP, 0);
   (EVENT_ALARM_BUTTON_UP, 0);
   (EVENT_LIGHT_BUTTON_UP, 0); (EVENT_LIGHT_BUTTON_UP, 0);
   (EVENT_ALARM_BUTTON_UP, 0); (EVENT_ALARM_BUTTON_UP, 0);
   (EVENT_LIGHT_BUTTON_UP, 0)].

(** C7 does not hold of the code: what [_shot] finds in a path room is not
    the end of the press that fires.
    - At the end of [crooked_hit] the last "confirm" fires the path 3, 0,
      1.  The arrow kills the bat of room 3, the second entry is replaced
      (draw 0) by room 2, and in room 1 the arrow hits the Wumpus:
      "Great" is shown and the win melody starts.  The check for active
      mode after the switch (lines 644-650) then moves the Wumpus, which
      the hit has left in the hazards (draws 99 and 0), into the player's
      room, shows "UU" and "DIED", and the game is lost.
    - At the end of [own_arrow] the last "confirm" fires the path 1, 0.
      The arrow comes back to the player: "Ar" and "DIED" are shown.  The
      caller takes the result for a miss (lines 627-636): the Wumpus flees
      (draw 0) from room 4 into the player's room and "UU" is shown over
      the cause "Ar". *)
Theorem fired_shot_overridden :
  (exists w r w',
     session crooked_hit_tape crooked_hit = Ok (tt, w) /\
     current_action (_state w) = wumpus_face_shoot_rooms /\
     active_wumpus_mode (_state w) = true /\
     shots_path (_state w) = [3; 0; 0; 0; 0] /\
     shots_room (_state w) = 1 /\
     shots_picked (_state w) + 1 = shots_path_len (_state w) /\
     hazard_at (_state w) 3 = Some wumpus_hazard_bat /\
     hazard_at (_state w) 1 = Some wumpus_hazard_wumpus /\
     wumpus_face_loop EVENT_ALARM_BUTTON_UP 0 w = Ok (r, w') /\
     shots_path (_state w') = [3; 2; 1; 0; 0] /\
     hazard_at (_state w') 3 = Some wumpus_hazard_none /\
     current_melody (_state w') = MELODY_WIN /\
     current_action (_state w') = wumpus_face_died /\
     hazard_at (_state w') 1 = Some wumpus_hazard_none /\
     hazard_at (_state w') (player_room (_state w'))
     = Some wumpus_hazard_wumpus /\
     host_log w' =
       (host_log w ++
        [watch_display_text WATCH_POSITION_SECONDS "  ";
         watch_display_text WATCH_POSITION_HOURS "Gr";
         watch_display_text WATCH_POSITION_MINUTES "ea";
         watch_display_text WATCH_POSITION_SECONDS "t ";
         movement_request_tick_frequency 8; watch_clear_colon]
        ++ death_banner "UU")%list)
  /\
  (exists w r w',
     session own_arrow_tape own_arrow = Ok (tt, w) /\
     current_action (_state w) = wumpus_face_shoot_rooms /\
     active_wumpus_mode (_state w) = false /\
     shots_path (_state w) = [1; 0; 0; 0; 0] /\
     shots_room (_state w) = player_room (_state w) /\
     shots_picked (_state w) + 1 = shots_path_len (_state w) /\
     hazard_at (_state w) 4 = Some wumpus_hazard_wumpus /\
     wumpus_face_loop EVENT_ALARM_BUTTON_UP 0 w = Ok (r, w') /\
     current_action (_state w') = wumpus_face_died /\
     hazard_at (_state w') 4 = Some wumpus_hazard_none /\
     hazard_at (_state w') (player_room (_state w'))
     = Some wumpus_hazard_wumpus /\
     host_log w' =
       (host_log w ++ death_banner "Ar"
        ++ [movement_request_tick_frequency 8]
        ++ death_banner "UU" ++ [watch_clear_colon])%list).
Proof.
  split.
  - do 3 eexists. split; [vm_compute; reflexivity|].
    do 7 (split; [reflexivity|]). split; [vm_compute; reflexivity|].
    do 6 (split; [reflexivity|]). reflexivity.
  - do 3 eexists. split; [vm_compute; reflexivity|].
    do 6 (split; [reflexivity|]). split; [vm_compute; reflexivity|].
    do 3 (split; [reflexivity|]). reflexivity.
Qed.

(** * Further properties of the face *)

(** ** The labyrinth is an undirected graph of degree three *)

Definition connected (a b : Z) : bool :=
  match array_get cave_map a with
  | Some row => existsb (fun n => n =? b) row
  | None => false
  end.

Lemma connected_spec a b :
  connected a b = true <->
  exists row, array_get cave_map a = Some row /\ In b row.
Proof.
  unfold connected. split.
  - destruct (array_get cave_map a) as [row|]; [|discriminate].
    intros H. exists row. split; [reflexivity|].
    now apply existsb_eqb_In.
  - intros (row & -> & Hin). now apply existsb_eqb_In.
Qed.

Lemma cave_map_check :
  forallb (fun a => forallb (fun b => connected b a && negb (a =? b))
                            (nth (Z.to_nat a) cave_map []))
          (zrange 0 WUMPUS_FACE_ROWS) = true.
Proof. reflexivity. Qed.

Lemma zrange_In lo n x : In x (zrange lo n) <-> lo <= x < lo + Z.max 0 n.
Proof.
  unfold zrange. rewrite in_map_iff. split.
  - intros (k & <- & Hk). apply in_seq in Hk. lia.
  - intros H. exists (Z.to_nat (x - lo)). split; [lia|].
    apply in_seq. lia.
Qed.

(** A room in the row of [a] is a room of the cave other than [a], and [a]
    is in its row. *)
Lemma cave_map_link a b row :
  array_get cave_map a = Some row -> In b row ->
  0 <= a < WUMPUS_FACE_ROWS /\ 0 <= b < WUMPUS_FACE_ROWS /\ a <> b /\
  connected b a = true.
Proof.
  intros Hrow Hin.
  destruct (cave_map_row _ _ Hrow) as (x & y & z & E & Hnd & Hrange).
  assert (Ha : 0 <= a < WUMPUS_FACE_ROWS).
  { apply array_get_bounds in Hrow. exact Hrow. }
  split; [exact Ha|]. split; [exact (Hrange _ Hin)|].
  pose proof cave_map_check as Hc.
  rewrite forallb_forall in Hc.
  assert (Hina : In a (zrange 0 WUMPUS_FACE_ROWS))
    by (apply zrange_In; unfold WUMPUS_FACE_ROWS in *; lia).
  specialize (Hc a Hina).
  rewrite forallb_forall in Hc.
  assert (Hnth : nth (Z.to_nat a) cave_map [] = row).
  { unfold array_get in Hrow. destruct (a <? 0); [discriminate|].
    now apply nth_error_nth. }
  rewrite Hnth in Hc. specialize (Hc b Hin).
  apply andb_prop in Hc. destruct Hc as [Hconn Hne].
  apply negb_true_iff, Z.eqb_neq in Hne. split; [exact Hne|exact Hconn].
Qed.

(** X1.  Every room of [cave_map] is connected to exactly three rooms, all
    different from each other and from the room itself, and the connection
    goes both ways: if [b] is in the row of [a], then [a] is in the row of
    [b]. *)
Theorem cave_map_undirected (a b : Z) (row : list Z) :
  array_get cave_map a = Some row ->
  In b row ->
  List.length row = 3%nat /\ NoDup row /\
  0 <= a < WUMPUS_FACE_ROWS /\ 0 <= b < WUMPUS_FACE_ROWS /\
  a <> b /\
  exists row', array_get cave_map b = Some row' /\ In a row'.
Proof.
  intros Hrow Hin.
  destruct (cave_map_row _ _ Hrow) as (x & y & z & E & Hnd & _).
  destruct (cave_map_link _ _ _ Hrow Hin) as (Ha & Hb & Hne & Hconn).
  split; [subst row; reflexivity|]. split; [exact Hnd|].
  split; [exact Ha|]. split; [exact Hb|]. split; [exact Hne|].
  apply connected_spec. exact Hconn.
Qed.

Lemma cave_map_undirected_witness :
  exists row', array_get cave_map 16 = Some row' /\ In 6 row'.
Proof.
  exact (proj2 (proj2 (proj2 (proj2 (proj2
    (cave_map_undirected 6 16 [5; 7; 16] eq_refl
       ltac:(simpl; auto))))))).
Defined.

(** ** The two rejection loops *)

(** A loop whose body takes one draw, leaves the state alone and goes round
    again when [again] says so, on a state [s]. *)
Section DrawLoop.
Context {A : Type} (body : M (A * bool)) (s : wumpus_game_state_t)
        (value : Z -> A) (again : Z -> bool).
Hypothesis body_draw :
  forall w raw t, _state w = s -> rand_tape w = raw :: t ->
    body w = Ok ((value raw, again raw), mk_world s t (host_log w)).
Hypothesis body_dry :
  forall w, rand_tape w = [] -> body w = Fault OutOfDraws.

Lemma do_while_first raw post :
  again raw = false ->
  forall pre n w,
    (List.length pre < n)%nat -> _state w = s ->
    rand_tape w = (pre ++ raw :: post)%list ->
    Forall (fun r => again r = true) pre ->
    do_while n body w = Ok (value raw, mk_world s post (host_log w)).
Proof.
  intros Hraw. induction pre as [|r pre IH]; intros n w Hn Hs Ht Hpre.
  - destruct n as [|n]; [simpl in Hn; lia|]. simpl.
    rewrite (bind_eq _ _ _ _ _ (body_draw _ _ _ Hs Ht)). simpl.
    rewrite Hraw. reflexivity.
  - destruct n as [|n]; [simpl in Hn; lia|]. simpl.
    rewrite (bind_eq _ _ _ _ _ (body_draw _ _ _ Hs Ht)). simpl.
    pose proof (Forall_inv Hpre) as Hr.
    pose proof (Forall_inv_tail Hpre) as Hpre'. simpl in Hr. rewrite Hr.
    apply (IH n (mk_world s (pre ++ raw :: post) (host_log w)));
      simpl in *; auto; lia.
Qed.

Lemma do_while_dry :
  forall tape n w,
    _state w = s -> rand_tape w = tape ->
    Forall (fun r => again r = true) tape ->
    do_while n body w = Fault OutOfDraws.
Proof.
  induction tape as [|r tape IH]; intros n w Hs Ht Hall.
  - destruct n as [|n]; [reflexivity|]. simpl. unfold bind.
    rewrite (body_dry _ Ht). reflexivity.
  - destruct n as [|n]; [reflexivity|]. simpl.
    rewrite (bind_eq _ _ _ _ _ (body_draw _ _ _ Hs Ht)). simpl.
    pose proof (Forall_inv Hall) as Hr.
    pose proof (Forall_inv_tail Hall) as Hall'. simpl in Hr. rewrite Hr.
    apply (IH n (mk_world s tape (host_log w))); auto.
Qed.
End DrawLoop.

Lemma room_of_draw raw :
  uint8 (raw mod WUMPUS_FACE_ROWS) = raw mod 20 /\ 0 <= raw mod 20 < 20.
Proof.
  unfold uint8, WUMPUS_FACE_ROWS.
  pose proof (Z.mod_pos_bound raw 20). rewrite Z.mod_small; lia.
Qed.

Lemma array_get_total {A} (l : list A) i :
  0 <= i < Z.of_nat (List.length l) -> exists a, array_get l i = Some a.
Proof.
  intros H. unfold array_get.
  destruct (i <? 0) eqn:E; [apply Z.ltb_lt in E; lia|].
  destruct (nth_error l (Z.to_nat i)) eqn:En; [eauto|].
  apply nth_error_None in En. lia.
Qed.

(** Does the room the draw [raw] stands for hold the Wumpus or a pit? *)
Definition unsafe_draw (s : wumpus_game_state_t) (raw : Z) : bool :=
  match hazard_at s (raw mod 20) with
  | Some h => hazard_eqb h wumpus_hazard_wumpus
              || hazard_eqb h wumpus_hazard_pitfall
  | None => false
  end.

(** X2.  [_find_safe_random_room] returns the room of the first draw on the
    tape that holds neither the Wumpus nor a pit; it uses up the tape up to
    that draw and changes nothing else.  When every draw left on the tape
    is a Wumpus or pit room, the loop does not end within the tape. *)
Theorem find_safe_random_room_first (w : world) :
  List.length (hazards (_state w)) = 20%nat ->
  (forall pre raw post,
     rand_tape w = (pre ++ raw :: post)%list ->
     Forall (fun r => unsafe_draw (_state w) r = true) pre ->
     unsafe_draw (_state w) raw = false ->
     _find_safe_random_room w
     = Ok (raw mod 20, mk_world (_state w) post (host_log w)))
  /\
  (Forall (fun r => unsafe_draw (_state w) r = true) (rand_tape w) ->
   _find_safe_random_room w = Fault OutOfDraws).
Proof.
  intros Hlen.
  assert (Hdraw : forall w1 raw t,
             _state w1 = _state w -> rand_tape w1 = raw :: t ->
             (new_room <- _get_rand_num WUMPUS_FACE_ROWS ;;
              hazard <- read_hazard new_room ;;
              ret (new_room,
                   hazard_eqb hazard wumpus_hazard_wumpus
                   || hazard_eqb hazard wumpus_hazard_pitfall)) w1
             = Ok ((raw mod 20, unsafe_draw (_state w) raw),
                   mk_world (_state w) t (host_log w1))).
  { intros w1 raw t Hs Ht.
    destruct (room_of_draw raw) as [Hu Hr].
    assert (Eg : _get_rand_num WUMPUS_FACE_ROWS w1
                 = Ok (raw mod 20, mk_world (_state w) t (host_log w1))).
    { unfold _get_rand_num. rewrite Ht, Hu, Hs. reflexivity. }
    rewrite (bind_eq _ _ _ _ _ Eg).
    destruct (array_get_total (hazards (_state w)) (raw mod 20)
                ltac:(lia)) as [h Hh].
    rewrite (bind_eq _ _ _ _ _
               (read_hazard_eq _ _ (mk_world _ _ _) Hh)).
    unfold unsafe_draw, hazard_at. rewrite Hh. reflexivity. }
  assert (Hdry : forall w1, rand_tape w1 = [] ->
             (new_room <- _get_rand_num WUMPUS_FACE_ROWS ;;
              hazard <- read_hazard new_room ;;
              ret (new_room,
                   hazard_eqb hazard wumpus_hazard_wumpus
                   || hazard_eqb hazard wumpus_hazard_pitfall)) w1
             = Fault OutOfDraws).
  { intros w1 Ht. unfold bind, _get_rand_num. rewrite Ht. reflexivity. }
  split.
  - intros pre raw post Ht Hpre Hraw. unfold _find_safe_random_room.
    rewrite (bind_eq _ _ w _ w (eq_refl : draws_left w = Ok (_, w))).
    apply (do_while_first _ (_state w) (fun r => r mod 20)
             (unsafe_draw (_state w)) Hdraw raw post Hraw pre);
      auto.
    rewrite Ht, length_app. simpl. lia.
  - intros Hall. unfold _find_safe_random_room.
    rewrite (bind_eq _ _ w _ w (eq_refl : draws_left w = Ok (_, w))).
    exact (do_while_dry _ (_state w) (fun r => r mod 20)
             (unsafe_draw (_state w)) Hdraw Hdry _ _ w eq_refl eq_refl Hall).
Qed.

Lemma find_safe_random_room_first_witness :
  _find_safe_random_room (mk_world sample_state [10; 21; 33; 7] [])
  = Ok (13, mk_world sample_state [7] []).
Proof.
  exact (proj1 (find_safe_random_room_first
                  (mk_world sample_state [10; 21; 33; 7] []) eq_refl)
               [10; 21] 33 [7] eq_refl
               ltac:(repeat constructor) eq_refl).
Defined.

(** Is the room the draw [raw] stands for the player's or taken? *)
Definition taken_draw (p : Z) (s : wumpus_game_state_t) (raw : Z) : bool :=
  (raw mod 20 =? p)
  || match hazard_at s (raw mod 20) with
     | Some h => negb (hazard_eqb h wumpus_hazard_none)
     | None => false
     end.

(** X3.  [_generate_unique] returns the room of the first draw on the tape
    that is neither the player's room nor a room with a hazard; it uses up
    the tape up to that draw and changes nothing else.  When every draw left
    on the tape is rejected, the loop does not end within the tape. *)
Theorem generate_unique_first (p : Z) (w : world) :
  List.length (hazards (_state w)) = 20%nat ->
  (forall pre raw post,
     rand_tape w = (pre ++ raw :: post)%list ->
     Forall (fun r => taken_draw p (_state w) r = true) pre ->
     taken_draw p (_state w) raw = false ->
     _generate_unique p w
     = Ok (raw mod 20, mk_world (_state w) post (host_log w)))
  /\
  (Forall (fun r => taken_draw p (_state w) r = true) (rand_tape w) ->
   _generate_unique p w = Fault OutOfDraws).
Proof.
  intros Hlen.
  assert (Hdraw : forall w1 raw t,
             _state w1 = _state w -> rand_tape w1 = raw :: t ->
             (value <- _get_rand_num WUMPUS_FACE_ROWS ;;
              if negb (value =? p) then
                h <- read_hazard value ;;
                ret (value, negb (hazard_eqb h wumpus_hazard_none))
              else ret (value, true)) w1
             = Ok ((raw mod 20, taken_draw p (_state w) raw),
                   mk_world (_state w) t (host_log w1))).
  { intros w1 raw t Hs Ht.
    destruct (room_of_draw raw) as [Hu Hr].
    assert (Eg : _get_rand_num WUMPUS_FACE_ROWS w1
                 = Ok (raw mod 20, mk_world (_state w) t (host_log w1))).
    { unfold _get_rand_num. rewrite Ht, Hu, Hs. reflexivity. }
    rewrite (bind_eq _ _ _ _ _ Eg). unfold taken_draw.
    destruct (raw mod 20 =? p); [reflexivity|]. cbn [negb orb].
    destruct (array_get_total (hazards (_state w)) (raw mod 20)
                ltac:(lia)) as [h Hh].
    rewrite (bind_eq _ _ _ _ _
               (read_hazard_eq _ _ (mk_world _ _ _) Hh)).
    unfold hazard_at. rewrite Hh. reflexivity. }
  assert (Hdry : forall w1, rand_tape w1 = [] ->
             (value <- _get_rand_num WUMPUS_FACE_ROWS ;;
              if negb (value =? p) then
                h <- read_hazard value ;;
                ret (value, negb (hazard_eqb h wumpus_hazard_none))
              else ret (value, true)) w1
             = Fault OutOfDraws).
  { intros w1 Ht. unfold bind, _get_rand_num. rewrite Ht. reflexivity. }
  split.
  - intros pre raw post Ht Hpre Hraw. unfold _generate_unique.
    rewrite (bind_eq _ _ w _ w (eq_refl : draws_left w = Ok (_, w))).
    apply (do_while_first _ (_state w) (fun r => r mod 20)
             (taken_draw p (_state w)) Hdraw raw post Hraw pre);
      auto.
    rewrite Ht, length_app. simpl. lia.
  - intros Hall. unfold _generate_unique.
    rewrite (bind_eq _ _ w _ w (eq_refl : draws_left w = Ok (_, w))).
    exact (do_while_dry _ (_state w) (fun r => r mod 20)
             (taken_draw p (_state w)) Hdraw Hdry _ _ w eq_refl eq_refl Hall).
Qed.

Lemma generate_unique_first_witness :
  _generate_unique 0 (mk_world sample_state [20; 4; 41; 2; 9] [])
  = Ok (2, mk_world sample_state [9] []).
Proof.
  exact (proj1 (generate_unique_first 0
                  (mk_world sample_state [20; 4; 41; 2; 9] []) eq_refl)
               [20; 4; 41] 2 [9] eq_refl
               ltac:(repeat constructor) eq_refl).
Defined.

(** ** The Wumpus's flight *)

Lemma map_seq_offset {A} :
  forall m (f : nat -> A) a,
    map f (seq a m) = map (fun j => f (a + j)%nat) (seq 0 m).
Proof.
  induction m as [|m IH]; intros f a; simpl; [reflexivity|].
  rewrite Nat.add_0_r. f_equal.
  rewrite (IH f (S a)), (IH (fun j => f (a + j)%nat) 1%nat).
  apply map_ext. intros j. f_equal. lia.
Qed.

Lemma zrange_split lo n k :
  0 <= k < n ->
  zrange lo n = (zrange lo k ++ (lo + k) :: zrange (lo + k + 1) (n - k - 1))%list.
Proof.
  intros H. unfold zrange.
  replace (Z.to_nat n) with (Z.to_nat k + S (Z.to_nat (n - k - 1)))%nat by lia.
  rewrite seq_app, map_app. simpl. f_equal.
  replace (Z.of_nat (Z.to_nat k)) with k by lia. f_equal.
  rewrite (map_seq_offset _ _ (S (Z.to_nat k))).
  apply map_ext. intros j. lia.
Qed.

(** Rooms that hold something else than the Wumpus are passed over. *)
Lemma wumpus_flee_from_skip pre rest w :
  Forall (fun j => exists h, hazard_at (_state w) j = Some h /\
                             h <> wumpus_hazard_wumpus) pre ->
  _wumpus_flee_from (pre ++ rest) w = _wumpus_flee_from rest w.
Proof.
  induction pre as [|j pre IH]; intros Hpre; [reflexivity|].
  pose proof (Forall_inv Hpre) as (h & Hh & Hne).
  simpl. rewrite (bind_eq _ _ _ _ _ (read_hazard_eq _ _ _ Hh)).
  destruct h; try (exfalso; apply Hne; reflexivity);
    simpl; apply IH; exact (Forall_inv_tail Hpre).
Qed.

Lemma hazard_at_total s r :
  List.length (hazards s) = 20%nat -> 0 <= r < 20 ->
  exists h, hazard_at s r = Some h.
Proof. intros Hl Hr. apply array_get_total. lia. Qed.

(** X4.  [_wumpus_flee] on a field of twenty rooms.  If no room holds the
    Wumpus it returns false, takes no draw and changes nothing.  Otherwise
    let [i] be the first room that holds it: one draw [raw] is taken, room
    [i] is emptied, the room [n = cave_map[i][raw mod 3]] -- a room
    connected to [i] and different from it -- receives the Wumpus, whatever
    it held, every other room is as before, and the result is true. *)
Theorem wumpus_flee_spec (w : world) :
  List.length (hazards (_state w)) = 20%nat ->
  ((forall r, hazard_at (_state w) r <> Some wumpus_hazard_wumpus) ->
   _wumpus_flee w = Ok (false, w))
  /\
  (forall i raw t,
     hazard_at (_state w) i = Some wumpus_hazard_wumpus ->
     (forall j, 0 <= j < i ->
                hazard_at (_state w) j <> Some wumpus_hazard_wumpus) ->
     rand_tape w = raw :: t ->
     exists row n hz',
       array_get cave_map i = Some row /\
       array_get row (raw mod 3) = Some n /\ n <> i /\
       _wumpus_flee w
       = Ok (true, mk_world (set_hazards hz' (_state w)) t (host_log w)) /\
       List.length hz' = 20%nat /\
       forall r, array_get hz' r =
                 if r =? n then Some wumpus_hazard_wumpus
                 else if r =? i then Some wumpus_hazard_none
                 else hazard_at (_state w) r).
Proof.
  intros Hlen. split.
  - intros Hno. unfold _wumpus_flee.
    rewrite <- (app_nil_r (zrange 0 WUMPUS_FACE_ROWS)).
    rewrite wumpus_flee_from_skip; [reflexivity|].
    apply Forall_forall. intros j Hj. apply zrange_In in Hj.
    destruct (hazard_at_total _ j Hlen ltac:(unfold WUMPUS_FACE_ROWS in Hj; lia))
      as [h Hh].
    exists h. split; [exact Hh|]. intros ->. exact (Hno _ Hh).
  - intros i raw t Hi Hfirst Htape.
    assert (Hb : 0 <= i < 20).
    { apply array_get_bounds in Hi. lia. }
    unfold _wumpus_flee.
    rewrite (zrange_split 0 WUMPUS_FACE_ROWS i)
      by (unfold WUMPUS_FACE_ROWS; lia).
    rewrite wumpus_flee_from_skip.
    2:{ apply Forall_forall. intros j Hj. apply zrange_In in Hj.
        destruct (hazard_at_total _ j Hlen ltac:(lia)) as [h Hh].
        exists h. split; [exact Hh|]. intros ->.
        apply (Hfirst j); [lia|exact Hh]. }
    simpl (0 + i).
    destruct (array_get_total cave_map i ltac:(simpl; lia)) as [row Hrow].
    destruct (cave_map_row _ _ Hrow) as (a & b & c & Erow & _ & _).
    assert (Hidx : 0 <= raw mod 3 < 3) by (apply Z.mod_pos_bound; lia).
    destruct (array_get_total row (raw mod 3)
                ltac:(subst row; simpl; lia)) as [n Hn].
    assert (Hin : In n row).
    { unfold array_get in Hn. destruct (raw mod 3 <? 0); [discriminate|].
      eapply nth_error_In; eauto. }
    destruct (cave_map_link _ _ _ Hrow Hin) as (_ & Hnb & Hne & _).
    destruct (array_set_total (hazards (_state w)) i wumpus_hazard_none
                ltac:(lia)) as [hz1 Hs1].
    pose proof (array_set_length _ _ _ _ Hs1) as Hl1.
    destruct (array_set_total hz1 n wumpus_hazard_wumpus
                ltac:(unfold WUMPUS_FACE_ROWS in Hnb; lia)) as [hz2 Hs2].
    exists row, n, hz2.
    split; [exact Hrow|]. split; [exact Hn|]. split; [congruence|].
    split; [|split].
    + simpl. rewrite (bind_eq _ _ _ _ _ (read_hazard_eq _ _ _ Hi)). simpl.
      rewrite (bind_eq _ _ _ _ _ (write_hazard_eq _ _ _ _ Hs1)).
      assert (Hdraw : _get_rand_num 3
                        (mk_world (set_hazards hz1 (_state w))
                                  (rand_tape w) (host_log w))
                      = Ok (raw mod 3,
                            mk_world (set_hazards hz1 (_state w)) t
                                     (host_log w))).
      { unfold _get_rand_num. simpl. rewrite Htape. unfold uint8.
        rewrite (Z.mod_small (raw mod 3) 256) by lia. reflexivity. }
      rewrite (bind_eq _ _ _ _ _ Hdraw).
      rewrite (bind_eq _ _ _ _ _ (read_cave_map_eq _ _ _ _ _ Hrow Hn)).
      rewrite (bind_eq _ _ _ _ _
                 (write_hazard_eq n wumpus_hazard_wumpus hz2
                    (mk_world (set_hazards hz1 (_state w)) t (host_log w))
                    Hs2)).
      reflexivity.
    + rewrite (array_set_length _ _ _ _ Hs2). congruence.
    + intros r. rewrite (array_get_set _ _ _ _ Hs2).
      destruct (r =? n); [reflexivity|].
      apply (array_get_set _ _ _ _ Hs1).
Qed.

Lemma wumpus_flee_spec_witness :
  exists hz',
    _wumpus_flee (mk_world sample_state [2; 5] [])
    = Ok (true, mk_world (set_hazards hz' sample_state) [5] []) /\
    array_get hz' 1 = Some wumpus_hazard_none /\
    array_get hz' 9 = Some wumpus_hazard_wumpus.
Proof.
  destruct (wumpus_flee_spec (mk_world sample_state [2; 5] []) eq_refl)
    as [_ H].
  assert (Hfirst : forall j, 0 <= j < 1 ->
            hazard_at sample_state j <> Some wumpus_hazard_wumpus).
  { intros j Hj. assert (j = 0) by lia. subst j. discriminate. }
  destruct (H 1 2 [5] eq_refl Hfirst eq_refl)
    as (row & n & hz' & Hrow & Hn & _ & E & _ & Hget).
  vm_compute in Hrow. inversion Hrow; subst row.
  vm_compute in Hn. inversion Hn; subst n.
  exists hz'. split; [exact E|]. split; [exact (Hget 1)|exact (Hget 9)].
Defined.

Lemma list_set_none {A} (l : list A) :
  forall n v, (List.length l <= n)%nat -> list_set l n v = None.
Proof.
  induction l as [|x t IH]; intros n v Hn; [destruct n; reflexivity|].
  destruct n as [|n]; [simpl in Hn; lia|]. simpl.
  rewrite IH by (simpl in Hn; lia). reflexivity.
Qed.

Lemma array_set_bounds {A} (l l' : list A) i v :
  array_set l i v = Some l' -> 0 <= i < Z.of_nat (List.length l).
Proof.
  unfold array_set. destruct (i <? 0) eqn:E; [discriminate|].
  apply Z.ltb_ge in E. intros H.
  destruct (Nat.lt_ge_cases (Z.to_nat i) (List.length l)) as [Hlt|Hge];
    [lia|].
  rewrite list_set_none in H by exact Hge. discriminate H.
Qed.

(** What a successful flight did. *)
Lemma wumpus_flee_from_inv rooms :
  forall w b w',
    _wumpus_flee_from rooms w = Ok (b, w') ->
    (b = false /\ w' = w /\
     Forall (fun j => hazard_at (_state w) j <> Some wumpus_hazard_wumpus)
            rooms)
    \/
    (b = true /\
     exists i n raw t hz1 hz2,
       In i rooms /\
       hazard_at (_state w) i = Some wumpus_hazard_wumpus /\
       rand_tape w = raw :: t /\ connected i n = true /\
       array_set (hazards (_state w)) i wumpus_hazard_none = Some hz1 /\
       array_set hz1 n wumpus_hazard_wumpus = Some hz2 /\
       w' = mk_world (set_hazards hz2 (_state w)) t (host_log w)).
Proof.
  induction rooms as [|i rest IH]; intros w b w' H; simpl in H.
  - inv_ok H. left. auto.
  - apply bind_ok in H. destruct H as (h & w1 & Er & H).
    apply read_hazard_ok in Er. destruct Er as [Eh ->].
    destruct (hazard_eqb h wumpus_hazard_wumpus) eqn:Ew.
    + right. destruct h; try discriminate Ew.
      apply bind_ok in H. destruct H as (x1 & w1 & E1 & H).
      apply write_hazard_ok in E1. destruct E1 as (hz1 & S1 & ->).
      apply bind_ok in H. destruct H as (rnd & w2 & E2 & H).
      apply get_rand_num_ok in E2. destruct E2 as (raw & t & Ht & -> & ->).
      apply bind_ok in H. destruct H as (n & w3 & E3 & H).
      apply read_cave_map_ok in E3. destruct E3 as [(row & Hrow & Hn) ->].
      apply bind_ok in H. destruct H as (x2 & w4 & E4 & H).
      apply write_hazard_ok in E4. destruct E4 as (hz2 & S2 & ->).
      inv_ok H. cbn in *. split; [reflexivity|].
      exists i, n, raw, t, hz1, hz2. repeat split; auto.
      apply connected_spec. exists row. split; [exact Hrow|].
      unfold array_get in Hn.
      destruct (uint8 (raw mod 3) <? 0); [discriminate|].
      eapply nth_error_In; eauto.
    + destruct (IH _ _ _ H) as [(Hb & Hw & Hall)|(Hb & i' & n & raw & t & hz1 & hz2 & Hin & Hrest)].
      * left. split; [exact Hb|]. split; [exact Hw|].
        constructor; [|exact Hall].
        unfold hazard_at. rewrite Eh. intros E. inversion E; subst h.
        discriminate Ew.
      * right. split; [exact Hb|].
        exists i', n, raw, t, hz1, hz2. split; [right; exact Hin|exact Hrest].
Qed.

Lemma count_hazard_pos h hz :
  (0 < count_hazard h hz)%nat ->
  exists r, 0 <= r < Z.of_nat (List.length hz) /\ array_get hz r = Some h.
Proof.
  unfold count_hazard. intros H. apply count_occ_In in H.
  apply In_nth_error in H. destruct H as [n Hn].
  exists (Z.of_nat n). split.
  - assert (Hs : nth_error hz n <> None) by congruence.
    apply nth_error_Some in Hs. lia.
  - unfold array_get. destruct (Z.of_nat n <? 0) eqn:E;
      [apply Z.ltb_lt in E; lia|]. now rewrite Nat2Z.id.
Qed.

Lemma count_hazard_get h hz r :
  array_get hz r = Some h -> (0 < count_hazard h hz)%nat.
Proof.
  unfold array_get, count_hazard. destruct (r <? 0); [discriminate|].
  intros H. apply nth_error_In in H. now apply count_occ_In.
Qed.

(** The flight and the numbers of hazards. *)
Lemma wumpus_flee_counts w b w' :
  List.length (hazards (_state w)) = 20%nat ->
  _wumpus_flee w = Ok (b, w') ->
  List.length (hazards (_state w')) = 20%nat /\
  set_hazards [] (_state w') = set_hazards [] (_state w) /\
  (forall k, k <> wumpus_hazard_none -> k <> wumpus_hazard_wumpus ->
     (count_hazard k (hazards (_state w'))
      <= count_hazard k (hazards (_state w)))%nat) /\
  (count_hazard wumpus_hazard_wumpus (hazards (_state w)) = 1%nat ->
   b = true /\
   count_hazard wumpus_hazard_wumpus (hazards (_state w')) = 1%nat).
Proof.
  intros Hlen H. unfold _wumpus_flee in H.
  destruct (wumpus_flee_from_inv _ _ _ _ H)
    as [(Hb & -> & Hall)|(Hb & i & n & raw & t & hz1 & hz2 & Hin & Hi & Ht
                          & Hc & S1 & S2 & ->)].
  - split; [exact Hlen|]. split; [reflexivity|]. split; [auto|].
    intros Hone. exfalso.
    destruct (count_hazard_pos wumpus_hazard_wumpus (hazards (_state w))
                ltac:(lia)) as (r & Hr & Hg).
    rewrite Forall_forall in Hall. apply (Hall r); [|exact Hg].
    apply zrange_In. unfold WUMPUS_FACE_ROWS. lia.
  - change (hazards (_state (mk_world (set_hazards hz2 (_state w)) t
                                      (host_log w)))) with hz2.
    cbn [_state].
    pose proof (array_set_length _ _ _ _ S1) as L1.
    pose proof (array_set_length _ _ _ _ S2) as L2.
    destruct (array_get_total hz1 n (array_set_bounds _ _ _ _ S2))
      as [old Hold].
    assert (C1 := fun k => array_set_count _ _ _ _ _ k S1 Hi).
    assert (C2 := fun k => array_set_count _ _ _ _ _ k S2 Hold).
    split; [congruence|]. split; [reflexivity|]. split.
    + intros k Hn Hw. specialize (C1 k). specialize (C2 k).
      unfold indicator in *.
      destruct (hazard_eq_dec wumpus_hazard_wumpus k); [congruence|].
      destruct (hazard_eq_dec wumpus_hazard_none k); [congruence|].
      destruct (hazard_eq_dec old k); lia.
    + intros Hone. split; [exact Hb|].
      pose proof (C1 wumpus_hazard_wumpus) as D1.
      pose proof (C2 wumpus_hazard_wumpus) as D2.
      unfold indicator in D1, D2. simpl in D1, D2.
      destruct (hazard_eq_dec old wumpus_hazard_wumpus) as [->|Hne]; [|lia].
      pose proof (count_hazard_get _ _ _ Hold). lia.
Qed.

(** X5.  There stays one Wumpus.  On a field of twenty rooms with exactly
    one Wumpus, [_wumpus_flee] returns true and leaves a field of twenty
    rooms with exactly one Wumpus; pits and bats do not become more (the
    Wumpus replaces what its new room held), and nothing but the hazards is
    written. *)
Theorem wumpus_flee_keeps_one_wumpus (w : world) b w' :
  List.length (hazards (_state w)) = 20%nat ->
  count_hazard wumpus_hazard_wumpus (hazards (_state w)) = 1%nat ->
  _wumpus_flee w = Ok (b, w') ->
  b = true /\
  List.length (hazards (_state w')) = 20%nat /\
  count_hazard wumpus_hazard_wumpus (hazards (_state w')) = 1%nat /\
  (count_hazard wumpus_hazard_pitfall (hazards (_state w'))
   <= count_hazard wumpus_hazard_pitfall (hazards (_state w)))%nat /\
  (count_hazard wumpus_hazard_bat (hazards (_state w'))
   <= count_hazard wumpus_hazard_bat (hazards (_state w)))%nat /\
  set_hazards [] (_state w') = set_hazards [] (_state w).
Proof.
  intros Hlen Hone H.
  destruct (wumpus_flee_counts _ _ _ Hlen H) as (L & F & Hle & Hw).
  destruct (Hw Hone) as [Hb Hc].
  split; [exact Hb|]. split; [exact L|]. split; [exact Hc|].
  split; [apply Hle; discriminate|]. split; [apply Hle; discriminate|].
  exact F.
Qed.

(** The Wumpus of [sample_state] is in room 1; with the draw 2 it goes to
    room 9. *)
Lemma wumpus_flee_keeps_one_wumpus_witness :
  exists w',
    _wumpus_flee (mk_world sample_state [2; 5] []) = Ok (true, w') /\
    count_hazard wumpus_hazard_wumpus (hazards (_state w')) = 1%nat.
Proof.
  destruct (_wumpus_flee (mk_world sample_state [2; 5] []))
    as [[b w']|e] eqn:E; [|vm_compute in E; discriminate E].
  destruct (wumpus_flee_keeps_one_wumpus
              (mk_world sample_state [2; 5] []) b w' eq_refl eq_refl E)
    as (Hb & _ & Hc & _).
  subst b. exists w'. split; [reflexivity|exact Hc].
Defined.

(** ** What a shot does to the arrows and to the hazards *)

(** [hz'] is [hz] with some bats removed. *)
Definition bats_cleared (hz hz' : list wumpus_hazard_type_t) : Prop :=
  List.length hz' = List.length hz /\
  (forall r, array_get hz' r = array_get hz r \/
             (array_get hz r = Some wumpus_hazard_bat /\
              array_get hz' r = Some wumpus_hazard_none)) /\
  (forall k, k <> wumpus_hazard_bat -> k <> wumpus_hazard_none ->
             count_hazard k hz' = count_hazard k hz) /\
  (count_hazard wumpus_hazard_bat hz' <= count_hazard wumpus_hazard_bat hz)%nat.

Lemma bats_cleared_refl hz : bats_cleared hz hz.
Proof. repeat split; auto. Qed.

Lemma bats_cleared_trans hz1 hz2 hz3 :
  bats_cleared hz1 hz2 -> bats_cleared hz2 hz3 -> bats_cleared hz1 hz3.
Proof.
  intros (L1 & P1 & C1 & B1) (L2 & P2 & C2 & B2).
  split; [congruence|]. split; [|split; [|lia]].
  - intros r. destruct (P1 r) as [E1|[E1 E1']], (P2 r) as [E2|[E2 E2']].
    + left. congruence.
    + right. split; congruence.
    + right. split; congruence.
    + congruence.
  - intros k Hb Hn. rewrite (C2 k Hb Hn). apply (C1 k Hb Hn).
Qed.

Lemma bats_cleared_set hz room hz' :
  array_get hz room = Some wumpus_hazard_bat ->
  array_set hz room wumpus_hazard_none = Some hz' ->
  bats_cleared hz hz'.
Proof.
  intros Hg Hs. split; [exact (array_set_length _ _ _ _ Hs)|].
  assert (C := fun k => array_set_count _ _ _ _ _ k Hs Hg).
  split; [|split].
  - intros r. rewrite (array_get_set _ _ _ _ Hs).
    destruct (Z.eqb_spec r room) as [->|_]; [right; auto|left; reflexivity].
  - intros k Hb Hn. specialize (C k). unfold indicator in C.
    destruct (hazard_eq_dec wumpus_hazard_bat k); [congruence|].
    destruct (hazard_eq_dec wumpus_hazard_none k); [congruence|]. lia.
  - specialize (C wumpus_hazard_bat). unfold indicator in C. simpl in C.
    lia.
Qed.

(** What one test of a path room did. *)
Lemma shot_check_inv i w r w' :
  _shot_check i w = Ok (r, w') ->
  shots_path (_state w') = shots_path (_state w) /\
  arrows (_state w') = arrows (_state w) /\
  player_room (_state w') = player_room (_state w) /\
  bats_cleared (hazards (_state w)) (hazards (_state w')) /\
  (r = Some wumpus_face_died \/ r = Some wumpus_face_won \/ r = None) /\
  (r = Some wumpus_face_won ->
   exists room, array_get (shots_path (_state w)) i = Some room /\
                room <> player_room (_state w) /\
                hazard_at (_state w') room = Some wumpus_hazard_wumpus).
Proof.
  unfold _shot_check. intros H.
  apply bind_ok in H. destruct H as (room & w1 & Er & H).
  apply read_shots_path_ok in Er. destruct Er as [Er ->].
  rewrite gets_eq in H.
  destruct (Z.eqb_spec room (player_room (_state w))) as [Heq|Hne].
  - inv_ok H. display_steps. cbn.
    repeat split; auto using bats_cleared_refl. discriminate.
  - apply bind_ok in H. destruct H as (h & w1 & Eh & H).
    apply read_hazard_ok in Eh. destruct Eh as [Eh ->].
    destruct h; simpl in H.
    + inv_ok H. repeat split; auto using bats_cleared_refl. discriminate.
    + inv_ok H. repeat split; auto using bats_cleared_refl.
      intros _. exists room. auto.
    + apply bind_ok in H. destruct H as (x & w1 & Ew & H).
      apply write_hazard_ok in Ew. destruct Ew as (hz' & Hs & ->).
      inv_ok H. cbn. repeat split; auto.
      * exact (array_set_length _ _ _ _ Hs).
      * apply (bats_cleared_set _ _ _ Eh Hs).
      * apply (bats_cleared_set _ _ _ Eh Hs).
      * apply (bats_cleared_set _ _ _ Eh Hs).
      * discriminate.
    + inv_ok H. repeat split; auto using bats_cleared_refl. discriminate.
    + inv_ok H. repeat split; auto using bats_cleared_refl. discriminate.
Qed.

Definition shot_frame (s : wumpus_game_state_t) :=
  (hazards s, arrows s, player_room s).

Lemma shot_loop_inv idx :
  forall w a w',
    _shot_loop idx w = Ok (a, w') ->
    arrows (_state w') = arrows (_state w) /\
    bats_cleared (hazards (_state w)) (hazards (_state w')) /\
    (a = wumpus_face_won ->
     exists i room, In i idx /\
                    array_get (shots_path (_state w')) i = Some room /\
                    room <> player_room (_state w') /\
                    hazard_at (_state w') room = Some wumpus_hazard_wumpus).
Proof.
  induction idx as [|i rest IH]; intros w a w' H; simpl in H.
  - inv_ok H. split; [reflexivity|]. split; [apply bats_cleared_refl|].
    discriminate.
  - apply bind_ok in H. destruct H as (u & w1 & Ec & H).
    apply bind_ok in H. destruct H as (r & w2 & Ek & H).
    pose proof (preserves_shot_crooked shot_frame
                  ltac:(reflexivity) i _ _ _ Ec) as Hf.
    pose proof (f_equal (fun t => fst (fst t)) Hf) as Hh.
    pose proof (f_equal (fun t => snd (fst t)) Hf) as Ha.
    pose proof (f_equal snd Hf) as Hp.
    cbn in Hh, Ha, Hp. clear Hf.
    destruct (shot_check_inv _ _ _ _ Ek) as (Kp & Ka & Kr & Kb & _ & Kw).
    destruct r as [a'|].
    + inv_ok H. split; [congruence|]. split; [rewrite <- Hh; exact Kb|].
      intros ->. destruct (Kw eq_refl) as (room & Hr & Hne & Hw).
      exists i, room. split; [left; reflexivity|].
      split; [congruence|]. split; [congruence|exact Hw].
    + destruct (IH _ _ _ H) as (Ia & Ib & Iw).
      split; [congruence|]. split.
      * rewrite <- Hh. exact (bats_cleared_trans _ _ _ Kb Ib).
      * intros Hwon. destruct (Iw Hwon) as (j & room & Hin & Hrest).
        exists j, room. split; [right; exact Hin|exact Hrest].
Qed.

(** X6.  The accounts of a shot.  [_shot] always takes one arrow (in
    [int8] arithmetic).  It never adds a hazard and never removes the
    Wumpus or a pit: the hazards after the shot are those before it with
    some bats removed, also when the shot has won.  When no arrow was left
    the result is [wumpus_face_died]; when the result is [wumpus_face_won],
    one of the rooms of the path, not the player's, holds the Wumpus. *)
Theorem shot_accounts (w : world) a w' :
  _shot w = Ok (a, w') ->
  arrows (_state w') = int8 (arrows (_state w) - 1) /\
  bats_cleared (hazards (_state w)) (hazards (_state w')) /\
  (int8 (arrows (_state w) - 1) < 0 -> a = wumpus_face_died) /\
  (a = wumpus_face_won ->
   exists i room,
     0 <= i < shots_path_len (_state w) /\
     array_get (shots_path (_state w')) i = Some room /\
     room <> player_room (_state w') /\
     hazard_at (_state w') room = Some wumpus_hazard_wumpus).
Proof.
  unfold _shot. intros H. rewrite gets_eq in H.
  apply bind_ok in H. destruct H as (x & w1 & Em & H).
  inv_ok Em. rewrite gets_eq in H. cbn [_state arrows set_arrows] in H.
  destruct (int8 (arrows (_state w) - 1) <? 0) eqn:El.
  - inv_ok H. display_steps. cbn.
    split; [reflexivity|]. split; [apply bats_cleared_refl|].
    split; [reflexivity|discriminate].
  - rewrite gets_eq in H. cbn [_state] in H.
    destruct (shot_loop_inv _ _ _ _ H) as (Ia & Ib & Iw).
    cbn in Ia, Ib. split; [exact Ia|]. split; [exact Ib|]. split.
    + apply Z.ltb_ge in El. lia.
    + intros Hwon. destruct (Iw Hwon) as (i & room & Hin & Hrest).
      exists i, room. split; [|exact Hrest].
      apply zrange_In in Hin. cbn in Hin. lia.
Qed.

Lemma shot_accounts_witness :
  exists w',
    _shot (mk_world (set_arrows 3 sample_state) [2; 1] [])
    = Ok (wumpus_face_shoot, w') /\
    arrows (_state w') = 2 /\
    hazard_at (_state w') 4 = Some wumpus_hazard_none /\
    count_hazard wumpus_hazard_wumpus (hazards (_state w')) = 1%nat.
Proof.
  destruct (_shot (mk_world (set_arrows 3 sample_state) [2; 1] []))
    as [[a w']|e] eqn:E; [|vm_compute in E; discriminate E].
  destruct (shot_accounts _ _ _ E) as (Ha & (_ & _ & Hc & _) & _).
  assert (Hw : a = wumpus_face_shoot /\
               hazard_at (_state w') 4 = Some wumpus_hazard_none)
    by (vm_compute in E; inversion E; split; reflexivity).
  destruct Hw as [-> Hw]. exists w'.
  split; [reflexivity|]. split; [exact Ha|]. split; [exact Hw|].
  rewrite Hc by discriminate. reflexivity.
Defined.

(** ** Computations that take no random number and make no call *)

(** [quiet f m]: a successful run of [m] leaves the part [f] of the world
    (tape, log) as it was. *)
Definition quiet {A B} (f : world -> B) (m : M A) : Prop :=
  forall w a w', m w = Ok (a, w') -> f w' = f w.

Section Quiet.
Context {B : Type} (f : world -> B).
Hypothesis f_state : forall s t l s', f (mk_world s t l) = f (mk_world s' t l).

Lemma quiet_ret {A} (a : A) : quiet f (ret a).
Proof. intros w b w' H. inv_ok H. reflexivity. Qed.

Lemma quiet_bind {A C} (m : M A) (k : A -> M C) :
  quiet f m -> (forall a, quiet f (k a)) -> quiet f (bind m k).
Proof.
  intros Hm Hk w b w' H. apply bind_ok in H.
  destruct H as (a & w1 & E1 & E2).
  rewrite (Hk _ _ _ _ E2). exact (Hm _ _ _ E1).
Qed.

Lemma quiet_gets {A} (g : wumpus_game_state_t -> A) : quiet f (gets g).
Proof. intros w b w' H. inv_ok H. reflexivity. Qed.

Lemma quiet_modify g : quiet f (modify g).
Proof.
  intros w b w' H. inv_ok H. destruct w as [s t l]. apply f_state.
Qed.

Lemma quiet_in_bounds {A} (o : option A) : quiet f (in_bounds o).
Proof. intros w b w' H. inv_ok H. reflexivity. Qed.

Lemma quiet_raise {A} e : quiet f (@raise A e).
Proof. intros w b w' H. discriminate H. Qed.

Lemma quiet_when b m : quiet f m -> quiet f (when b m).
Proof. destruct b; simpl; intros H; [exact H|apply quiet_ret]. Qed.
End Quiet.

Lemma quiet_tape_call c : quiet rand_tape (call c).
Proof. intros w b w' H. inv_ok H. reflexivity. Qed.

Create HintDb quiet discriminated.
#[local] Hint Resolve quiet_ret quiet_gets quiet_in_bounds quiet_raise
  quiet_tape_call : quiet.
#[local] Hint Extern 1 (quiet _ (modify _)) =>
  apply quiet_modify; intros; reflexivity : quiet.

Ltac quiet_walk :=
  repeat first
    [ progress auto with quiet
    | apply quiet_bind; [|intros]
    | apply quiet_when
    | match goal with
      | |- quiet _ (if ?b then _ else _) => destruct b
      | |- quiet _ (match ?x with _ => _ end) => destruct x
      end ].

Lemma quiet_tape_adjacent_hazards cols :
  quiet rand_tape (adjacent_hazards cols).
Proof. induction cols; simpl; quiet_walk. Qed.
#[local] Hint Resolve quiet_tape_adjacent_hazards : quiet.

Lemma quiet_tape_display_room r : quiet rand_tape (_display_room r).
Proof. unfold _display_room. quiet_walk. Qed.

Lemma quiet_tape_display_hazard h : quiet rand_tape (_display_hazard h).
Proof. unfold _display_hazard. quiet_walk. Qed.
#[local] Hint Resolve quiet_tape_display_room quiet_tape_display_hazard
  : quiet.

Lemma quiet_tape_display_current_action :
  quiet rand_tape _display_current_action.
Proof. unfold _display_current_action. quiet_walk. Qed.

Lemma quiet_tape_display_hazards u : quiet rand_tape (_display_hazards u).
Proof. unfold _display_hazards. quiet_walk. Qed.
#[local] Hint Resolve quiet_tape_display_current_action
  quiet_tape_display_hazards : quiet.

Lemma quiet_tape_light_button_up : quiet rand_tape loop_light_button_up.
Proof. unfold loop_light_button_up. quiet_walk. Qed.

(** ** The buttons that do not play *)

(** The part of the game the player acts on. *)
Definition game_view (s : wumpus_game_state_t) :=
  (hazards s, player_room s, arrows s).

(** X7.  "Cycle", the two long presses, activation of the display and the
    events left to the framework take no random number and leave the
    hazards, the player's room and the arrows as they are; the settings
    change by a long press only. *)
Theorem passive_events (e : movement_event_type_t) (u : Z) (w : world)
        r w' :
  e <> EVENT_TICK -> e <> EVENT_ALARM_BUTTON_UP ->
  wumpus_face_loop e u w = Ok (r, w') ->
  rand_tape w' = rand_tape w /\
  game_view (_state w') = game_view (_state w) /\
  game_settings (_state w') = toggled e (game_settings (_state w)).
Proof.
  intros Ht Hc H. split; [|split].
  - apply loop_ok in H. destruct H as [x H].
    destruct e; simpl in H; try congruence;
      match type of H with
      | ?m _ = Ok _ =>
          assert (P : quiet rand_tape m)
            by (try unfold loop_light_button_up; quiet_walk);
          exact (P _ _ _ H)
      end.
  - apply loop_ok in H. destruct H as [x H].
    destruct e; simpl in H; try congruence;
      frame_of H game_view; exact H.
  - destruct (loop_settings _ _ _ _ _ H) as [_ Hold]. apply Hold.
    intros (He & _). contradiction.
Qed.

Lemma passive_events_witness :
  exists r w',
    wumpus_face_loop EVENT_LIGHT_BUTTON_UP 0 choosing_world = Ok (r, w') /\
    rand_tape w' = [] /\ player_room (_state w') = 0.
Proof.
  destruct (wumpus_face_loop EVENT_LIGHT_BUTTON_UP 0 choosing_world)
    as [[r w']|e] eqn:E; [|vm_compute in E; discriminate E].
  destruct (passive_events EVENT_LIGHT_BUTTON_UP 0 choosing_world r w'
              ltac:(discriminate) ltac:(discriminate) E) as (Ht & Hg & _).
  exists r, w'. split; [reflexivity|]. split; [exact Ht|].
  exact (f_equal (fun v => snd (fst v)) Hg).
Defined.

(** ** The pauses of the tick *)

(** The state without its four timing members. *)
Definition paused_view (s : wumpus_game_state_t) : wumpus_game_state_t :=
  set_transport_timer 0
    (set_led_cnt 0 (set_current_melody MELODY_NONE (set_melody_step 0 s))).

(** X8.  A tick serves one timer only, in this order.  While a melody is
    playing it advances the melody and nothing else of the game (when the
    melody ends, the LED counter is set to 3 after a win or loss).  With no
    melody and the LED counter above 1, it counts the LED down and does
    nothing else.  With neither, during a bat transport whose timer has not
    run out, it counts that timer down and does nothing else.  None of the
    three takes a random number. *)
Theorem tick_pauses (u : Z) (w : world) r w' :
  wumpus_face_loop EVENT_TICK u w = Ok (r, w') ->
  (current_melody (_state w) <> MELODY_NONE ->
     paused_view (_state w') = paused_view (_state w) /\
     transport_timer (_state w') = transport_timer (_state w) /\
     (led_cnt (_state w') = led_cnt (_state w) \/ led_cnt (_state w') = 3) /\
     rand_tape w' = rand_tape w)
  /\
  (current_melody (_state w) = MELODY_NONE -> 1 < led_cnt (_state w) ->
     _state w' = set_led_cnt (uint8 (led_cnt (_state w) - 1)) (_state w) /\
     rand_tape w' = rand_tape w /\ host_log w' = host_log w)
  /\
  (current_melody (_state w) = MELODY_NONE -> led_cnt (_state w) = 0 ->
   current_action (_state w) = wumpus_face_bat_transport ->
   0 < transport_timer (_state w) ->
     _state w'
     = set_transport_timer (uint8 (transport_timer (_state w) - 1))
                           (_state w) /\
     rand_tape w' = rand_tape w /\ host_log w' = host_log w).
Proof.
  intros H. apply loop_ok in H. destruct H as [x H]. simpl in H.
  unfold loop_tick in H. rewrite gets_eq in H.
  split; [|split].
  - intros Hm.
    destruct (current_melody (_state w)) eqn:Em; [congruence| | | |];
      cbn [melody_is_none negb] in H; cbv iota in H;
      inv_ok H; destruct w as [s t l]; cbn in *; auto.
  - intros Hm Hl. rewrite Hm in H. cbn [melody_is_none negb] in H.
    cbv iota in H. rewrite gets_eq in H.
    destruct (Z.ltb_spec 0 (led_cnt (_state w))); [|lia].
    destruct (Z.eqb_spec (led_cnt (_state w)) 1); [lia|].
    inv_ok H. destruct w as [s t l]. cbn. auto.
  - intros Hm Hl Ha Ht. rewrite Hm in H. cbn [melody_is_none negb] in H.
    cbv iota in H. rewrite gets_eq, Hl in H.
    change (0 <? 0) with false in H. cbv iota in H.
    rewrite gets_eq, Ha in H.
    change (action_eqb wumpus_face_bat_transport wumpus_face_bat_transport)
      with true in H.
    cbv iota in H. rewrite gets_eq in H.
    destruct (Z.ltb_spec 0 (transport_timer (_state w))); [|lia].
    inv_ok H. destruct w as [s t l]. cbn. auto.
Qed.

Lemma tick_pauses_witness :
  exists r w',
    wumpus_face_loop EVENT_TICK 0
      (mk_world (set_led_cnt 3 sample_state) [] []) = Ok (r, w') /\
    _state w' = set_led_cnt 2 sample_state.
Proof.
  destruct (wumpus_face_loop EVENT_TICK 0
              (mk_world (set_led_cnt 3 sample_state) [] []))
    as [[r w']|e] eqn:E; [|vm_compute in E; discriminate E].
  destruct (tick_pauses 0 _ r w' E) as (_ & Hled & _).
  destruct (Hled eq_refl ltac:(simpl; lia)) as (Hs & _).
  exists r, w'. split; [reflexivity|exact Hs].
Defined.

(** * Memory safety

    [wp m Q s]: run from the state [s], whatever the tape and the log, the
    computation [m] either returns a value and a state that satisfy [Q], or
    stops because the tape is used up.  It does not index an array outside
    its bounds. *)
Definition wp {A} (m : M A) (Q : A -> wumpus_game_state_t -> Prop)
           (s : wumpus_game_state_t) : Prop :=
  forall t l, match m (mk_world s t l) with
              | Ok (a, w') => Q a (_state w')
              | Fault f => f = OutOfDraws
              end.

Lemma wp_ret {A} (a : A) (Q : A -> wumpus_game_state_t -> Prop) s :
  Q a s -> wp (ret a) Q s.
Proof. intros H t l. exact H. Qed.

Lemma wp_bind {A B} (m : M A) (k : A -> M B) Q s :
  wp m (fun a s' => wp (k a) Q s') s -> wp (bind m k) Q s.
Proof.
  intros H t l. unfold bind. specialize (H t l).
  destruct (m (mk_world s t l)) as [[a [s' t' l']]|f]; [|exact H].
  apply H.
Qed.

Lemma wp_mono {A} (m : M A) (R Q : A -> wumpus_game_state_t -> Prop) s :
  wp m R s -> (forall a s', R a s' -> Q a s') -> wp m Q s.
Proof.
  intros H HQ t l. specialize (H t l).
  destruct (m (mk_world s t l)) as [[a w']|f]; [apply HQ|]; exact H.
Qed.

(** What is known of every successful run holds after a safe one. *)
Lemma wp_and_ok {A} (m : M A) (R Q : A -> wumpus_game_state_t -> Prop) s :
  wp m Q s ->
  (forall t l a w', m (mk_world s t l) = Ok (a, w') -> R a (_state w')) ->
  wp m (fun a s' => Q a s' /\ R a s') s.
Proof.
  intros H HR t l. specialize (H t l). specialize (HR t l).
  destruct (m (mk_world s t l)) as [[a w']|f]; [|exact H].
  split; [exact H|]. now apply HR.
Qed.

Lemma wp_preserves {A B} (f : wumpus_game_state_t -> B) (m : M A)
      (Q : A -> wumpus_game_state_t -> Prop) s :
  preserves f m -> wp m Q s -> wp m (fun a s' => Q a s' /\ f s' = f s) s.
Proof.
  intros Hf H. apply wp_and_ok; [exact H|].
  intros t l a w' E. exact (Hf _ _ _ E).
Qed.

Lemma wp_gets {A} (f : wumpus_game_state_t -> A)
      (Q : A -> wumpus_game_state_t -> Prop) s :
  Q (f s) s -> wp (gets f) Q s.
Proof. intros H t l. exact H. Qed.

Lemma wp_modify f (Q : unit -> wumpus_game_state_t -> Prop) s :
  Q tt (f s) -> wp (modify f) Q s.
Proof. intros H t l. exact H. Qed.

Lemma wp_call c (Q : unit -> wumpus_game_state_t -> Prop) s :
  Q tt s -> wp (call c) Q s.
Proof. intros H t l. exact H. Qed.

Lemma wp_draws_left (Q : nat -> wumpus_game_state_t -> Prop) s :
  (forall n, Q n s) -> wp draws_left Q s.
Proof. intros H t l. apply H. Qed.

Lemma wp_in_bounds {A} (o : option A) a
      (Q : A -> wumpus_game_state_t -> Prop) s :
  o = Some a -> Q a s -> wp (in_bounds o) Q s.
Proof. intros -> H t l. exact H. Qed.

Lemma wp_get_rand_num n (Q : Z -> wumpus_game_state_t -> Prop) s :
  0 < n <= 256 -> (forall r, 0 <= r < n -> Q r s) ->
  wp (_get_rand_num n) Q s.
Proof.
  intros Hn H t l. unfold _get_rand_num. cbn [rand_tape].
  destruct t as [|raw t]; [reflexivity|]. cbn [_state]. apply H.
  unfold uint8. pose proof (Z.mod_pos_bound raw n).
  rewrite Z.mod_small; lia.
Qed.

(** A loop with the invariant [I]. *)
Lemma wp_do_while {A} (body : M (A * bool))
      (I : wumpus_game_state_t -> Prop)
      (Q : A -> wumpus_game_state_t -> Prop) :
  (forall s, I s ->
     wp body (fun r s' => if snd r then I s' else Q (fst r) s') s) ->
  forall fuel s, I s -> wp (do_while fuel body) Q s.
Proof.
  intros Hbody. induction fuel as [|n IH]; intros s Hs; simpl.
  - intros t l. reflexivity.
  - apply wp_bind. eapply wp_mono; [apply Hbody; exact Hs|].
    intros [a b] s' Hr. simpl in Hr. cbn [snd fst].
    destruct b; [apply IH; exact Hr|apply wp_ret; exact Hr].
Qed.

Lemma wp_for_each idx (body : Z -> M unit)
      (I : wumpus_game_state_t -> Prop) :
  (forall i s, In i idx -> I s -> wp (body i) (fun _ s' => I s') s) ->
  forall s, I s -> wp (for_each idx body) (fun _ s' => I s') s.
Proof.
  induction idx as [|i rest IH]; intros Hbody s Hs; simpl.
  - apply wp_ret. exact Hs.
  - apply wp_bind. eapply wp_mono; [apply Hbody; [now left|exact Hs]|].
    intros u s' Hs'. apply IH; [|exact Hs'].
    intros j s1 Hj. apply Hbody. now right.
Qed.

(** The projections and setters of the state, computed. *)
Ltac st :=
  cbn [player_room hazards arrows current_action selected_room_n
       digits_tick_show action_tick_show hazard_point shots_path_len
       shots_picked shots_room shots_path transport_timer
       transport_dest_room current_melody melody_step led_cnt
       active_wumpus_mode sound_mode_on
       set_player_room set_hazards set_arrows set_current_action
       set_selected_room_n set_digits_tick_show set_action_tick_show
       set_hazard_point set_shots_path_len set_shots_picked set_shots_room
       set_shots_path set_transport_timer set_transport_dest_room
       set_current_melody set_melody_step set_led_cnt
       set_active_wumpus_mode set_sound_mode_on] in *.

(** One statement of a computation. *)
Ltac wp_step :=
  lazymatch goal with
  | |- wp (bind _ _) _ _ => apply wp_bind
  | |- wp (ret _) _ _ => apply wp_ret
  | |- wp (gets _) _ _ => apply wp_gets
  | |- wp (modify _) _ _ => apply wp_modify
  | |- wp (call _) _ _ => apply wp_call
  | |- wp (when _ _) _ _ => unfold when
  | |- wp (if ?b then _ else _) _ _ => destruct b eqn:?
  | |- wp (match ?x with _ => _ end) _ _ => destruct x eqn:?
  end; cbv beta.

Ltac wp_walk := repeat wp_step.

(** The comparisons met on the way, as propositions. *)
Ltac bools :=
  repeat match goal with
    | H : (_ <? _) = true |- _ => apply Z.ltb_lt in H
    | H : (_ <? _) = false |- _ => apply Z.ltb_ge in H
    | H : (_ <=? _) = true |- _ => apply Z.leb_le in H
    | H : (_ <=? _) = false |- _ => apply Z.leb_gt in H
    | H : (_ =? _) = true |- _ => apply Z.eqb_eq in H
    | H : (_ =? _) = false |- _ => apply Z.eqb_neq in H
    end.

(** ** The rooms and the arrays *)

Definition room_ok (r : Z) : Prop := 0 <= r < WUMPUS_FACE_ROWS.

Lemma wp_read_cave_map p i (Q : Z -> wumpus_game_state_t -> Prop) s :
  room_ok p -> 0 <= i < WUMPUS_FACE_COLS ->
  (forall r, room_ok r -> Q r s) -> wp (read_cave_map p i) Q s.
Proof.
  intros Hp Hi HQ.
  destruct (array_get_total cave_map p) as [row Hrow];
    [exact Hp|].
  destruct (cave_map_row _ _ Hrow) as (a & b & c & Erow & _ & Hin).
  subst row.
  unfold read_cave_map. apply wp_bind.
  eapply wp_in_bounds; [exact Hrow|].
  unfold WUMPUS_FACE_COLS in Hi.
  assert (Hc : i = 0 \/ i = 1 \/ i = 2) by lia.
  destruct Hc as [-> | [-> | ->]];
    (eapply wp_in_bounds; [reflexivity|]; apply HQ, Hin; simpl; auto).
Qed.

Lemma wp_read_hazard r (Q : wumpus_hazard_type_t -> _ -> Prop) s :
  List.length (hazards s) = 20%nat -> room_ok r ->
  (forall h, array_get (hazards s) r = Some h -> Q h s) ->
  wp (read_hazard r) Q s.
Proof.
  intros Hl Hr HQ. unfold read_hazard. apply wp_bind, wp_gets.
  destruct (array_get_total (hazards s) r) as [h Hh];
    [rewrite Hl; exact Hr|].
  eapply wp_in_bounds; [exact Hh|]. apply HQ, Hh.
Qed.

Lemma wp_write_hazard r h (Q : unit -> wumpus_game_state_t -> Prop) s :
  List.length (hazards s) = 20%nat -> room_ok r ->
  (forall hz', array_set (hazards s) r h = Some hz' ->
               Q tt (set_hazards hz' s)) ->
  wp (write_hazard r h) Q s.
Proof.
  intros Hl Hr HQ. unfold write_hazard. apply wp_bind, wp_gets.
  destruct (array_set_total (hazards s) r h) as [hz' Hh];
    [rewrite Hl; exact Hr|].
  apply wp_bind. eapply wp_in_bounds; [exact Hh|].
  apply wp_modify, HQ, Hh.
Qed.

Lemma wp_read_shots_path i (Q : Z -> wumpus_game_state_t -> Prop) s :
  List.length (shots_path s) = 5%nat -> 0 <= i < WUMPUS_NUM_ARROWS ->
  (forall r, array_get (shots_path s) i = Some r -> Q r s) ->
  wp (read_shots_path i) Q s.
Proof.
  intros Hl Hi HQ. unfold read_shots_path. apply wp_bind, wp_gets.
  destruct (array_get_total (shots_path s) i) as [r Hr];
    [rewrite Hl; exact Hi|].
  eapply wp_in_bounds; [exact Hr|]. apply HQ, Hr.
Qed.

Lemma wp_write_shots_path i r (Q : unit -> wumpus_game_state_t -> Prop) s :
  List.length (shots_path s) = 5%nat -> 0 <= i < WUMPUS_NUM_ARROWS ->
  (forall p', array_set (shots_path s) i r = Some p' ->
              Q tt (set_shots_path p' s)) ->
  wp (write_shots_path i r) Q s.
Proof.
  intros Hl Hi HQ. unfold write_shots_path. apply wp_bind, wp_gets.
  destruct (array_set_total (shots_path s) i r) as [p' Hp];
    [rewrite Hl; exact Hi|].
  apply wp_bind. eapply wp_in_bounds; [exact Hp|].
  apply wp_modify, HQ, Hp.
Qed.

(** ** The invariant of the game state *)

(** A melody that is playing has its step inside its array of notes. *)
Definition melody_ok (cm : wumpus_melody_t) (ms : Z) : Prop :=
  cm <> MELODY_NONE ->
  0 <= ms < Z.of_nat (List.length (melody_notes cm)).

(** One Wumpus, two pits at most and two bats at most, no arrow. *)
Definition census (hz : list wumpus_hazard_type_t) : Prop :=
  count_hazard wumpus_hazard_wumpus hz = 1%nat /\
  (count_hazard wumpus_hazard_pitfall hz <= Z.to_nat WUMPUS_NUM_PITS)%nat /\
  (count_hazard wumpus_hazard_bat hz <= Z.to_nat WUMPUS_NUM_BATS)%nat /\
  count_hazard wumpus_hazard_arrow hz = 0%nat.

Record base_ok (s : wumpus_game_state_t) : Prop := mk_base_ok {
  ok_hazards : List.length (hazards s) = 20%nat;
  ok_census : census (hazards s);
  ok_shots_path : List.length (shots_path s) = 5%nat;
  ok_path_rooms : Forall room_ok (shots_path s);
  ok_player_room : room_ok (player_room s);
  ok_shots_room : room_ok (shots_room s);
  ok_transport_dest_room : room_ok (transport_dest_room s);
  ok_selected_room_n : -1 <= selected_room_n s < WUMPUS_FACE_COLS;
  ok_hazard_point : 0 <= hazard_point s < WUMPUS_FACE_COLS;
  ok_melody : melody_ok (current_melody s) (melody_step s)
}.

(** What the shot path needs while it is being entered. *)
Definition mode_ok (s : wumpus_game_state_t) : Prop :=
  match current_action s with
  | wumpus_face_shoot_n => 1 <= shots_path_len s <= WUMPUS_NUM_ARROWS
  | wumpus_face_shoot_rooms =>
      0 <= shots_picked s < shots_path_len s /\
      shots_path_len s <= WUMPUS_NUM_ARROWS
  | _ => True
  end.

Definition wf (s : wumpus_game_state_t) : Prop := base_ok s /\ mode_ok s.

(** [reshown s s']: [s'] is [s] with new, valid values in the three members
    the display functions write. *)
Definition reshown (s s' : wumpus_game_state_t) : Prop :=
  exists hp cm ms,
    s' = redisplay hp cm ms s /\
    0 <= hp < WUMPUS_FACE_COLS /\ melody_ok cm ms.

Ltac st' := unfold redisplay in *; st.

Lemma redisplay_same s :
  redisplay (hazard_point s) (current_melody s) (melody_step s) s = s.
Proof. destruct s. reflexivity. Qed.

Lemma reshown_refl s : base_ok s -> reshown s s.
Proof.
  intros H. exists (hazard_point s), (current_melody s), (melody_step s).
  rewrite redisplay_same. destruct H. auto.
Qed.

Lemma reshown_trans s1 s2 s3 : reshown s1 s2 -> reshown s2 s3 -> reshown s1 s3.
Proof.
  intros (hp & cm & ms & -> & _) (hp' & cm' & ms' & -> & H).
  exists hp', cm', ms'. split; [reflexivity|exact H].
Qed.

Lemma reshown_base_ok s s' : reshown s s' -> base_ok s -> base_ok s'.
Proof.
  intros (hp & cm & ms & -> & Hhp & Hm) []. constructor; st'; assumption.
Qed.

Lemma reshown_mode_ok s s' : reshown s s' -> mode_ok s -> mode_ok s'.
Proof. intros (hp & cm & ms & -> & _) H. exact H. Qed.

Lemma reshown_wf s s' : reshown s s' -> wf s -> wf s'.
Proof.
  intros H [Hb Hm].
  split; [eapply reshown_base_ok|eapply reshown_mode_ok]; eauto.
Qed.

(** Calls a function by its specification [lem]. *)
Ltac wp_by lem :=
  eapply wp_mono; [apply lem|cbv beta].

(** ** The functions that leave the state alone *)

Definition unchanged {A} (s : wumpus_game_state_t) (_ : A)
           (s' : wumpus_game_state_t) : Prop := s' = s.

Lemma wp_display_room r s : wp (_display_room r) (unchanged s) s.
Proof. unfold _display_room, unchanged. wp_walk; reflexivity. Qed.

Lemma wp_display_current_room s : wp _display_current_room (unchanged s) s.
Proof. unfold _display_current_room. wp_walk. apply wp_display_room. Qed.

Lemma wp_display_hazard h s : wp (_display_hazard h) (unchanged s) s.
Proof. unfold _display_hazard, unchanged. wp_walk; reflexivity. Qed.

Lemma wp_update_lap_indicator s : wp _update_lap_indicator (unchanged s) s.
Proof. unfold _update_lap_indicator, unchanged. wp_walk; reflexivity. Qed.

Lemma wp_update_sound_indicator s :
  wp _update_sound_indicator (unchanged s) s.
Proof. unfold _update_sound_indicator, unchanged. wp_walk; reflexivity. Qed.

Lemma wp_display_selected_room s :
  base_ok s -> wp _display_selected_room (unchanged s) s.
Proof.
  intros []. unfold _display_selected_room. wp_walk; bools.
  - apply wp_read_cave_map; [assumption|lia|].
    intros r _. apply wp_display_room.
  - apply wp_display_room.
  - apply wp_display_room.
Qed.

Lemma wp_display_current_action s :
  base_ok s -> wp _display_current_action (unchanged s) s.
Proof.
  intros Hb. unfold _display_current_action.
  wp_walk;
    repeat first
      [ reflexivity
      | wp_by wp_display_current_room; intros ? ? ->; wp_walk
      | wp_by wp_display_selected_room; [exact Hb|]; intros ? ? ->; wp_walk ].
Qed.

Lemma wp_find_safe_random_room s :
  base_ok s ->
  wp _find_safe_random_room (fun r s' => s' = s /\ room_ok r) s.
Proof.
  intros []. unfold _find_safe_random_room.
  apply wp_bind, wp_draws_left. intros n.
  apply (wp_do_while _ (fun s1 => s1 = s)); [|reflexivity].
  intros s1 ->. apply wp_bind, wp_get_rand_num; [unfold WUMPUS_FACE_ROWS; lia|].
  intros r Hr. apply wp_bind, wp_read_hazard; [assumption|exact Hr|].
  intros h _. apply wp_ret. cbn [snd fst].
  destruct (_ || _); auto.
Qed.

Lemma wp_wumpus_on_player s :
  base_ok s -> wp wumpus_on_player (unchanged s) s.
Proof.
  intros []. unfold wumpus_on_player. wp_walk.
  apply wp_read_hazard; [assumption|assumption|].
  intros h _. wp_walk. reflexivity.
Qed.

(** ** The functions that write the display members *)

Lemma wp_play_melody m s :
  base_ok s -> m <> MELODY_NONE ->
  wp (_play_melody m) (fun _ s' => reshown s s') s.
Proof.
  intros Hb Hm. unfold _play_melody. wp_walk; try (apply reshown_refl, Hb).
  exists (hazard_point s), m, 0. split; [reflexivity|].
  destruct Hb. split; [assumption|].
  intros _. destruct m; [congruence|simpl; lia..].
Qed.

Lemma wp_display_death h s :
  base_ok s -> wp (_display_death h) (fun _ s' => reshown s s') s.
Proof.
  intros Hb. unfold _display_death. wp_walk.
  wp_by wp_display_hazard. intros ? ? ->. wp_walk.
  apply wp_play_melody; [exact Hb|discriminate].
Qed.

Lemma wp_display_won s :
  base_ok s -> wp _display_won (fun _ s' => reshown s s') s.
Proof.
  intros Hb. unfold _display_won. wp_walk.
  wp_by wp_display_hazard. intros ? ? ->. wp_walk.
  apply wp_play_melody; [exact Hb|discriminate].
Qed.

Lemma wp_adjacent_hazards cols s :
  base_ok s -> Forall (fun i => 0 <= i < WUMPUS_FACE_COLS) cols ->
  wp (adjacent_hazards cols)
     (fun buf s' => s' = s /\ (List.length buf <= List.length cols)%nat) s.
Proof.
  intros Hb. induction cols as [|i rest IH]; intros Hc; simpl.
  - apply wp_ret. auto.
  - destruct Hb. wp_walk.
    apply wp_read_cave_map;
      [assumption|exact (Forall_inv Hc)|].
    intros room Hroom. apply wp_bind, wp_read_hazard; [assumption..|].
    intros h _. apply wp_bind.
    wp_by IH; [exact (Forall_inv_tail Hc)|].
    intros tl s' [-> Hl]. apply wp_ret. split; [reflexivity|].
    destruct (hazard_eqb h wumpus_hazard_none); simpl; lia.
Qed.

Lemma wp_display_hazards_tail a cnt s :
  base_ok s -> cnt <= WUMPUS_FACE_COLS ->
  wp (_display_hazard a ;;
      when (a =? hazard_code wumpus_hazard_bat) (_play_melody MELODY_BATS) ;;
      modify (set_hazard_point (uint8 (hazard_point s + 1))) ;;
      hp' <- gets hazard_point ;;
      when (cnt <=? hp') (modify (set_hazard_point 0)))
     (fun _ s' => reshown s s') s.
Proof.
  intros Hb Hc. unfold WUMPUS_FACE_COLS in Hc.
  pose proof (ok_hazard_point _ Hb) as Hhp. unfold WUMPUS_FACE_COLS in Hhp.
  assert (Hu : uint8 (hazard_point s + 1) = hazard_point s + 1)
    by (unfold uint8; apply Z.mod_small; lia).
  assert (Hre : forall s1, reshown s s1 ->
            wp (modify (set_hazard_point (uint8 (hazard_point s + 1))) ;;
                hp' <- gets hazard_point ;;
                when (cnt <=? hp') (modify (set_hazard_point 0)))
               (fun _ s' => reshown s s') s1).
  { intros s1 (hp & cm & ms & -> & _ & Hm). rewrite Hu.
    wp_walk; st'; bools.
    - exists 0, cm, ms. unfold WUMPUS_FACE_COLS.
      split; [reflexivity|split; [lia|exact Hm]].
    - exists (hazard_point s + 1), cm, ms. unfold WUMPUS_FACE_COLS.
      split; [reflexivity|split; [lia|exact Hm]]. }
  apply wp_bind. wp_by wp_display_hazard. intros ? ? ->.
  apply wp_bind. unfold when at 1.
  destruct (a =? hazard_code wumpus_hazard_bat).
  - wp_by wp_play_melody; [exact Hb|discriminate|].
    intros ? s1 H1. apply Hre, H1.
  - apply wp_ret. apply Hre, reshown_refl, Hb.
Qed.

Lemma wp_display_hazards u s :
  base_ok s -> wp (_display_hazards u) (fun _ s' => reshown s s') s.
Proof.
  intros Hb. unfold _display_hazards. apply wp_bind.
  wp_by wp_adjacent_hazards;
    [exact Hb
    |rewrite zrange_cols; repeat constructor; unfold WUMPUS_FACE_COLS; lia|].
  intros buf s' [-> Hl]. rewrite zrange_cols in Hl. simpl in Hl.
  pose proof (ok_hazard_point _ Hb) as Hhp. unfold WUMPUS_FACE_COLS in Hhp.
  wp_step.
  2:{ wp_by wp_display_hazard. intros ? ? ->. apply reshown_refl, Hb. }
  bools. apply wp_bind, wp_gets. apply wp_bind.
  destruct (hazard_point s <? Z.of_nat (List.length buf)) eqn:E; bools.
  - destruct (array_get_total buf (hazard_point s)) as [h Hh]; [lia|].
    eapply wp_in_bounds; [exact Hh|].
    apply wp_display_hazards_tail; [exact Hb|unfold WUMPUS_FACE_COLS; lia].
  - destruct (hazard_point s <? WUMPUS_FACE_COLS) eqn:E3; bools;
      [|unfold WUMPUS_FACE_COLS in E3; lia].
    apply wp_ret.
    apply wp_display_hazards_tail; [exact Hb|unfold WUMPUS_FACE_COLS; lia].
Qed.

(** ** The functions that write the cave and the shot path *)

Lemma Forall_array_get {A} (P : A -> Prop) l i a :
  Forall P l -> array_get l i = Some a -> P a.
Proof.
  unfold array_get. destruct (i <? 0); [discriminate|].
  intros Hl H. apply nth_error_In in H.
  exact (proj1 (Forall_forall _ _) Hl _ H).
Qed.

Lemma Forall_list_set {A} (P : A -> Prop) (l : list A) :
  forall n v l', list_set l n v = Some l' -> Forall P l -> P v -> Forall P l'.
Proof.
  induction l as [|x t IH]; intros n v l' H Hl Hv.
  - destruct n; discriminate.
  - destruct n as [|n]; simpl in H.
    + inversion H; subst. constructor; [exact Hv|exact (Forall_inv_tail Hl)].
    + destruct (list_set t n v) as [t'|] eqn:E; [|discriminate].
      inversion H; subst. constructor; [exact (Forall_inv Hl)|].
      exact (IH _ _ _ E (Forall_inv_tail Hl) Hv).
Qed.

Lemma Forall_array_set {A} (P : A -> Prop) (l l' : list A) i v :
  array_set l i v = Some l' -> Forall P l -> P v -> Forall P l'.
Proof.
  unfold array_set. destruct (i <? 0); [discriminate|].
  apply Forall_list_set.
Qed.

Lemma zrange_rooms : Forall room_ok (zrange 0 WUMPUS_FACE_ROWS).
Proof.
  apply Forall_forall. intros x Hx. apply zrange_In in Hx.
  unfold room_ok. unfold WUMPUS_FACE_ROWS in *. lia.
Qed.

Lemma set_hazards_inv s s' :
  set_hazards [] s' = set_hazards [] s -> s' = set_hazards (hazards s') s.
Proof.
  destruct s, s'. unfold set_hazards. simpl. intros H. inversion H.
  reflexivity.
Qed.

(** A state with other hazards is as good, if they are twenty and pass the
    census. *)
Lemma base_ok_set_hazards hz s :
  base_ok s -> List.length hz = 20%nat -> census hz ->
  base_ok (set_hazards hz s).
Proof. intros [] Hl Hc. constructor; st; assumption. Qed.

Lemma bats_cleared_census hz hz' :
  bats_cleared hz hz' -> census hz -> census hz'.
Proof.
  intros (_ & _ & Hk & Hb) (Cw & Cp & Cb & Ca). unfold census.
  rewrite (Hk wumpus_hazard_wumpus), (Hk wumpus_hazard_pitfall),
    (Hk wumpus_hazard_arrow) by discriminate.
  split; [exact Cw|]. split; [exact Cp|]. split; [lia|exact Ca].
Qed.

Lemma wp_wumpus_flee_from rooms :
  forall s, List.length (hazards s) = 20%nat -> Forall room_ok rooms ->
    wp (_wumpus_flee_from rooms) (fun _ _ => True) s.
Proof.
  induction rooms as [|i rest IH]; intros s Hl Hr; simpl.
  - apply wp_ret. exact I.
  - apply wp_bind, wp_read_hazard; [exact Hl|exact (Forall_inv Hr)|].
    intros h _.
    destruct (hazard_eqb h wumpus_hazard_wumpus);
      [|apply IH; [exact Hl|exact (Forall_inv_tail Hr)]].
    apply wp_bind, wp_write_hazard; [exact Hl|exact (Forall_inv Hr)|].
    intros hz1 H1. apply wp_bind, wp_get_rand_num; [lia|].
    intros rnd Hrnd.
    apply wp_bind, wp_read_cave_map; [exact (Forall_inv Hr)|exact Hrnd|].
    intros room Hroom.
    apply wp_bind, wp_write_hazard;
      [st; rewrite (array_set_length _ _ _ _ H1); exact Hl|exact Hroom|].
    intros hz2 _. apply wp_ret. exact I.
Qed.

(** [rehoused s s']: [s'] is [s] with other hazards, and good. *)
Definition rehoused (s s' : wumpus_game_state_t) : Prop :=
  exists hz, s' = set_hazards hz s /\ base_ok s'.

Lemma wp_wumpus_flee s :
  base_ok s -> wp _wumpus_flee (fun _ s' => rehoused s s') s.
Proof.
  intros Hb.
  eapply wp_mono;
    [apply (wp_and_ok _
              (fun (_ : bool) s' =>
                 List.length (hazards s') = 20%nat /\
                 set_hazards [] s' = set_hazards [] s /\
                 census (hazards s')));
     [apply wp_wumpus_flee_from; [apply Hb|apply zrange_rooms]|]|].
  - intros t l b w' E. apply wumpus_flee_counts in E; [|apply Hb].
    cbn [_state] in E. destruct E as (Hl & Hs & Hk & Hw).
    destruct (ok_census _ Hb) as (Cw & Cp & Cb & Ca).
    split; [exact Hl|]. split; [exact Hs|].
    destruct (Hw Cw) as [_ Hw']. unfold census.
    pose proof (Hk wumpus_hazard_pitfall ltac:(discriminate)
                   ltac:(discriminate)).
    pose proof (Hk wumpus_hazard_bat ltac:(discriminate)
                   ltac:(discriminate)).
    pose proof (Hk wumpus_hazard_arrow ltac:(discriminate)
                   ltac:(discriminate)).
    repeat split; try assumption; lia.
  - cbv beta. intros b s' (_ & Hl & Hs & Hc).
    exists (hazards s'). apply set_hazards_inv in Hs.
    split; [exact Hs|]. rewrite Hs.
    apply base_ok_set_hazards; assumption.
Qed.

Lemma wp_wumpus_move s :
  base_ok s -> wp _wumpus_move (fun _ s' => rehoused s s') s.
Proof.
  intros Hb. unfold _wumpus_move.
  apply wp_bind, wp_get_rand_num; [lia|]. intros rnd _.
  destruct (WUMPUS_MOVE_PROB <? rnd); [apply wp_wumpus_flee, Hb|].
  apply wp_ret. exists (hazards s). destruct s. split; [reflexivity|exact Hb].
Qed.

(** ** The shot *)

Lemma wp_shot_connected i cols s :
  base_ok s -> 1 <= i < WUMPUS_NUM_ARROWS ->
  Forall (fun j => 0 <= j < WUMPUS_FACE_COLS) cols ->
  wp (_shot_connected i cols) (unchanged s) s.
Proof.
  intros Hb Hi. destruct Hb. unfold WUMPUS_NUM_ARROWS in Hi.
  induction cols as [|j rest IH]; intros Hc; simpl.
  - apply wp_ret. reflexivity.
  - apply wp_bind, wp_read_shots_path;
      [assumption|unfold WUMPUS_NUM_ARROWS; lia|].
    intros prev Hprev.
    apply wp_bind, wp_read_cave_map;
      [exact (Forall_array_get _ _ _ _ ok_path_rooms0 Hprev)
      |exact (Forall_inv Hc)|].
    intros n _.
    apply wp_bind, wp_read_shots_path;
      [assumption|unfold WUMPUS_NUM_ARROWS; lia|].
    intros cur _.
    destruct (n =? cur); [apply wp_ret; reflexivity|].
    apply IH. exact (Forall_inv_tail Hc).
Qed.

(** The members [mode_ok] reads; [kept s s']: they are the same in [s']
    as in [s], and [s'] is good. *)
Definition mode_view (s : wumpus_game_state_t) :=
  (current_action s, shots_path_len s, shots_picked s).

Definition kept (s s' : wumpus_game_state_t) : Prop :=
  base_ok s' /\ mode_view s' = mode_view s.

Lemma kept_refl s : base_ok s -> kept s s.
Proof. intros H. split; [exact H|reflexivity]. Qed.

Lemma kept_trans s1 s2 s3 : kept s1 s2 -> kept s2 s3 -> kept s1 s3.
Proof. intros [_ H1] [H2 H3]. split; [exact H2|congruence]. Qed.

Lemma reshown_kept s s' : base_ok s -> reshown s s' -> kept s s'.
Proof.
  intros Hb H. split; [exact (reshown_base_ok _ _ H Hb)|].
  destruct H as (hp & cm & ms & -> & _). reflexivity.
Qed.

Lemma rehoused_kept s s' : rehoused s s' -> kept s s'.
Proof. intros (hz & -> & H). split; [exact H|reflexivity]. Qed.

Lemma kept_mode_ok s s' : kept s s' -> mode_ok s -> mode_ok s'.
Proof.
  intros [_ H]. unfold mode_view in H. inversion H as [[Ha Hl Hp]].
  unfold mode_ok. now rewrite Ha, Hl, Hp.
Qed.

Lemma kept_wf s s' : kept s s' -> wf s -> wf s'.
Proof.
  intros H [_ Hm]. split; [exact (proj1 H)|exact (kept_mode_ok _ _ H Hm)].
Qed.

Lemma wp_shot_crooked i s :
  base_ok s -> 0 <= i < WUMPUS_NUM_ARROWS ->
  wp (_shot_crooked i) (fun _ s' => kept s s') s.
Proof.
  intros Hb Hi. unfold _shot_crooked.
  destruct (0 <? i) eqn:E; bools; [|apply wp_ret, kept_refl, Hb].
  apply wp_bind. wp_by wp_shot_connected;
    [exact Hb|lia
    |rewrite zrange_cols; repeat constructor; unfold WUMPUS_FACE_COLS; lia|].
  intros found ? ->. destruct found; [apply wp_ret, kept_refl, Hb|].
  apply wp_bind, wp_get_rand_num; [unfold WUMPUS_FACE_COLS; lia|].
  intros rnd Hrnd.
  pose proof Hb as [].
  apply wp_bind, wp_read_shots_path; [assumption|lia|].
  intros prev Hprev.
  apply wp_bind, wp_read_cave_map;
    [exact (Forall_array_get _ _ _ _ ok_path_rooms0 Hprev)|exact Hrnd|].
  intros room Hroom.
  apply wp_write_shots_path; [assumption|exact Hi|].
  intros p' Hp'. split; [|reflexivity].
  constructor; st; try assumption.
  - rewrite (array_set_length _ _ _ _ Hp'). assumption.
  - exact (Forall_array_set _ _ _ _ _ Hp' ok_path_rooms0 Hroom).
Qed.

Lemma wp_shot_check i s :
  base_ok s -> 0 <= i < WUMPUS_NUM_ARROWS ->
  wp (_shot_check i) (fun _ s' => kept s s') s.
Proof.
  intros Hb Hi. pose proof Hb as []. unfold _shot_check.
  apply wp_bind, wp_read_shots_path; [assumption|exact Hi|].
  intros room Hroom.
  pose proof (Forall_array_get _ _ _ _ ok_path_rooms0 Hroom) as Hr.
  apply wp_bind, wp_gets.
  destruct (room =? player_room s).
  - apply wp_bind. wp_by wp_display_death; [exact Hb|].
    intros ? s' H. apply wp_ret. exact (reshown_kept _ _ Hb H).
  - apply wp_bind, wp_read_hazard; [assumption|exact Hr|].
    intros h Hh.
    destruct (hazard_eqb h wumpus_hazard_bat) eqn:Eb.
    + assert (h = wumpus_hazard_bat) by (destruct h; try discriminate Eb;
                                         reflexivity).
      subst h.
      apply wp_bind, wp_write_hazard; [assumption|exact Hr|].
      intros hz' Hset. apply wp_ret. apply rehoused_kept.
      exists hz'. split; [reflexivity|].
      apply base_ok_set_hazards; [exact Hb| |].
      * rewrite (array_set_length _ _ _ _ Hset). assumption.
      * exact (bats_cleared_census _ _ (bats_cleared_set _ _ _ Hh Hset)
                                   ok_census0).
    + destruct (hazard_eqb h wumpus_hazard_wumpus);
        apply wp_ret, kept_refl, Hb.
Qed.

Lemma wp_shot_loop idx :
  forall s, base_ok s -> Forall (fun i => 0 <= i < WUMPUS_NUM_ARROWS) idx ->
    wp (_shot_loop idx) (fun _ s' => kept s s') s.
Proof.
  induction idx as [|i rest IH]; intros s Hb Hi; simpl.
  - apply wp_ret, kept_refl, Hb.
  - apply wp_bind. wp_by wp_shot_crooked; [exact Hb|exact (Forall_inv Hi)|].
    intros ? s1 H1. apply wp_bind.
    wp_by wp_shot_check; [exact (proj1 H1)|exact (Forall_inv Hi)|].
    intros r s2 H2. pose proof (kept_trans _ _ _ H1 H2) as H12.
    destruct r as [a0|]; [apply wp_ret; exact H12|].
    wp_by IH; [exact (proj1 H12)|exact (Forall_inv_tail Hi)|].
    intros a' s3 H3. exact (kept_trans _ _ _ H12 H3).
Qed.

Lemma wp_shot s :
  base_ok s -> shots_path_len s <= WUMPUS_NUM_ARROWS ->
  wp _shot
     (fun a s' =>
        kept s s' /\
        (a = wumpus_face_died \/ a = wumpus_face_won \/ a = wumpus_face_shoot))
     s.
Proof.
  intros Hb Hlen. apply wp_and_ok;
    [|intros t l a w' E; exact (shot_result _ _ _ E)].
  unfold _shot. wp_walk; st.
  - wp_by wp_display_death; [destruct Hb; constructor; st; assumption|].
    intros ? s' H. apply wp_ret.
    destruct H as (hp & cm & ms & -> & Hhp & Hm).
    split; [|reflexivity]. destruct Hb; constructor; st'; assumption.
  - assert (Hb' : base_ok (set_arrows (int8 (arrows s - 1)) s))
      by (destruct Hb; constructor; st; assumption).
    wp_by wp_shot_loop; [exact Hb'| |].
    + apply Forall_forall. intros x Hx. apply zrange_In in Hx. lia.
    + intros a s' [H1 H2]. split; [exact H1|exact H2].
Qed.

(** ** A new game *)

Lemma wp_generate_unique p s :
  List.length (hazards s) = 20%nat ->
  wp (_generate_unique p) (fun r s' => s' = s /\ room_ok r) s.
Proof.
  intros Hl. unfold _generate_unique.
  apply wp_bind, wp_draws_left. intros n.
  apply (wp_do_while _ (fun s1 => s1 = s)); [|reflexivity].
  intros s1 ->.
  apply wp_bind, wp_get_rand_num; [unfold WUMPUS_FACE_ROWS; lia|].
  intros r Hr. destruct (negb (r =? p)).
  - apply wp_bind, wp_read_hazard; [exact Hl|exact Hr|].
    intros h _. apply wp_ret. cbn [snd fst].
    destruct (negb _); auto.
  - apply wp_ret. reflexivity.
Qed.

Lemma wp_place_hazard p h s :
  List.length (hazards s) = 20%nat ->
  wp (r <- _generate_unique p ;; write_hazard r h)
     (fun _ s' => List.length (hazards s') = 20%nat) s.
Proof.
  intros Hl. apply wp_bind. wp_by wp_generate_unique; [exact Hl|].
  intros r ? [-> Hr]. apply wp_write_hazard; [exact Hl|exact Hr|].
  intros hz' H. st. rewrite (array_set_length _ _ _ _ H). exact Hl.
Qed.

(** The numbers of hazards after [_generate_hazards]. *)
Lemma generate_hazards_tally p w u w' :
  List.length (hazards (_state w)) = 20%nat ->
  _generate_hazards p w = Ok (u, w') ->
  List.length (hazards (_state w')) = 20%nat /\
  forall k,
    (count_hazard k (hazards (_state w'))
     + 5 * indicator wumpus_hazard_none k
     = 20 * indicator wumpus_hazard_none k
       + 2 * indicator wumpus_hazard_pitfall k
       + 2 * indicator wumpus_hazard_bat k
       + indicator wumpus_hazard_wumpus k)%nat.
Proof.
  intros Hlen H. unfold _generate_hazards in H.
  apply bind_ok in H. destruct H as (u0 & w0 & E0 & H).
  rewrite (clear_hazards _ Hlen) in E0. inversion E0; subst u0 w0; clear E0.
  apply bind_ok in H. destruct H as (u1 & w2 & Epits & H).
  change (zrange 0 WUMPUS_NUM_PITS) with [0; 1] in Epits. simpl in Epits.
  apply bind_ok in Epits. destruct Epits as (u2 & w1 & Ep1 & Epits).
  apply bind_ok in Epits. destruct Epits as (u3 & w2' & Ep2 & Epits).
  inv_ok Epits.
  apply bind_ok in H. destruct H as (u4 & w4 & Ebats & H).
  change (zrange 0 WUMPUS_NUM_BATS) with [0; 1] in Ebats. simpl in Ebats.
  apply bind_ok in Ebats. destruct Ebats as (u5 & w3 & Eb1 & Ebats).
  apply bind_ok in Ebats. destruct Ebats as (u6 & w4' & Eb2 & Ebats).
  inv_ok Ebats.
  apply place_hazard_spec in Ep1, Ep2, Eb1, Eb2, H.
  destruct Ep1 as (L1 & _ & C1). destruct Ep2 as (L2 & _ & C2).
  destruct Eb1 as (L3 & _ & C3). destruct Eb2 as (L4 & _ & C4).
  destruct H as (L5 & _ & C5).
  unfold set_hazards in L1, C1. cbn [_state hazards] in L1, C1.
  split; [rewrite L5, L4, L3, L2, L1; reflexivity|].
  intros k. specialize (C1 k). specialize (C2 k). specialize (C3 k).
  specialize (C4 k). specialize (C5 k).
  match type of C1 with
  | _ = (count_hazard k ?l + _)%nat =>
      replace (count_hazard k l)
        with (20 * indicator wumpus_hazard_none k)%nat in C1
        by (symmetry; apply count_hazard_cleared)
  end.
  lia.
Qed.

Lemma wp_generate_hazards p s :
  List.length (hazards s) = 20%nat ->
  wp (_generate_hazards p)
     (fun _ s' => exists hz, s' = set_hazards hz s /\
                             List.length hz = 20%nat /\ census hz) s.
Proof.
  intros Hl.
  eapply wp_mono;
    [apply (wp_and_ok _
              (fun (_ : unit) s' =>
                 set_hazards [] s' = set_hazards [] s /\
                 List.length (hazards s') = 20%nat /\ census (hazards s'))
              (fun _ _ => True))
    |].
  - unfold _generate_hazards.
    pose (Inv := fun s1 : wumpus_game_state_t =>
                 List.length (hazards s1) = 20%nat).
    apply wp_bind. eapply wp_mono; [apply (wp_for_each _ _ Inv)|].
    + intros i s1 Hi H1. apply wp_write_hazard; [exact H1| |].
      * exact (proj1 (Forall_forall _ _) zrange_rooms _ Hi).
      * intros hz' H. unfold Inv. st.
        rewrite (array_set_length _ _ _ _ H). exact H1.
    + exact Hl.
    + cbv beta. intros ? s1 H1.
      apply wp_bind. eapply wp_mono; [apply (wp_for_each _ _ Inv)|].
      * intros i s2 _ H2. apply wp_place_hazard, H2.
      * exact H1.
      * cbv beta. intros ? s2 H2.
        apply wp_bind. eapply wp_mono; [apply (wp_for_each _ _ Inv)|].
        -- intros i s3 _ H3. apply wp_place_hazard, H3.
        -- exact H2.
        -- cbv beta. intros ? s3 H3.
           wp_by wp_place_hazard; [exact H3|]. intros ? s4 _. exact I.
  - intros t l a w' E. split.
    + apply (preserves_generate_hazards (set_hazards []) p) in E;
        [exact E|reflexivity].
    + apply generate_hazards_tally in E; [|exact Hl].
      destruct E as [L C]. split; [exact L|].
      unfold census.
      pose proof (C wumpus_hazard_wumpus) as Cw.
      pose proof (C wumpus_hazard_pitfall) as Cp.
      pose proof (C wumpus_hazard_bat) as Cb.
      pose proof (C wumpus_hazard_arrow) as Ca.
      unfold indicator in Cw, Cp, Cb, Ca. simpl in Cw, Cp, Cb, Ca.
      change (Z.to_nat WUMPUS_NUM_PITS) with 2%nat.
      change (Z.to_nat WUMPUS_NUM_BATS) with 2%nat. lia.
  - cbv beta. intros ? s' (_ & Hs & L & C). exists (hazards s').
    split; [exact (set_hazards_inv _ _ Hs)|]. split; assumption.
Qed.

(** What [_init_game] needs: the two arrays, and rooms in the shot path,
    which it does not reset. *)
Definition arrays_ok (s : wumpus_game_state_t) : Prop :=
  List.length (hazards s) = 20%nat /\
  List.length (shots_path s) = 5%nat /\
  Forall room_ok (shots_path s).

Lemma base_ok_arrays s : base_ok s -> arrays_ok s.
Proof. intros []. repeat split; assumption. Qed.

Lemma melody_ok_none ms : melody_ok MELODY_NONE ms.
Proof. intros H. congruence. Qed.

Lemma wp_init_game s :
  arrays_ok s ->
  wp _init_game
     (fun _ s' => wf s' /\ current_melody s' = MELODY_NONE) s.
Proof.
  intros (Hh & Hp & Hr). unfold _init_game. wp_walk.
  apply wp_get_rand_num; [unfold WUMPUS_FACE_ROWS; lia|]. intros r Hroom.
  wp_walk. wp_by wp_update_lap_indicator. intros ? ? ->. wp_walk.
  wp_by wp_update_sound_indicator. intros ? ? ->. wp_walk.
  wp_by wp_generate_hazards; [st; exact Hh|].
  intros ? s' (hz & -> & Hl & Hc). st.
  split; [|reflexivity]. split; [|exact I].
  constructor; st; try assumption;
    try (unfold room_ok, WUMPUS_FACE_ROWS, WUMPUS_FACE_COLS; lia).
  apply melody_ok_none.
Qed.

(** ** The moves *)

Ltac rooms := unfold room_ok, WUMPUS_FACE_ROWS, WUMPUS_FACE_COLS,
                WUMPUS_NUM_ARROWS in *.

(** [base_ok] of a state built from [s0], of which [Hb] is [base_ok]. *)
Ltac base_of Hb :=
  let H := fresh in
  pose proof Hb as H; destruct H; constructor; st'; try assumption;
  try (rooms; lia).

Lemma wp_go_to_selected_room s :
  base_ok s ->
  wp _go_to_selected_room
     (fun _ s' => exists r, room_ok r /\ s' = set_player_room r s) s.
Proof.
  intros Hb. pose proof Hb as []. unfold _go_to_selected_room.
  wp_walk; bools.
  - apply wp_read_cave_map; [assumption|rooms; lia|].
    intros room Hroom. wp_walk.
    apply wp_read_hazard; [st; assumption|exact Hroom|].
    intros h _. exists room. split; [exact Hroom|reflexivity].
  - exists (player_room s). split; [assumption|]. destruct s. reflexivity.
Qed.

Lemma wp_killed_by_wumpus s :
  base_ok s ->
  wp killed_by_wumpus
     (fun _ s' => base_ok s' /\ current_action s' = wumpus_face_died) s.
Proof.
  intros Hb. unfold killed_by_wumpus. apply wp_bind.
  wp_by wp_display_death; [exact Hb|].
  intros ? s' (hp & cm & ms & -> & Hhp & Hm). apply wp_modify.
  split; [base_of Hb|reflexivity].
Qed.

Lemma wf_died s :
  base_ok s -> current_action s = wumpus_face_died -> wf s.
Proof. intros Hb Ha. split; [exact Hb|]. unfold mode_ok. now rewrite Ha. Qed.

(** After a flight: is the Wumpus on the player? *)
Lemma wp_wumpus_hit (moved : bool) s :
  wf s ->
  wp (if moved then hit <- wumpus_on_player ;; when hit killed_by_wumpus
      else ret tt)
     (fun _ s' => wf s') s.
Proof.
  intros Hw. destruct moved; [|apply wp_ret, Hw].
  apply wp_bind. wp_by wp_wumpus_on_player; [apply Hw|].
  intros hit ? ->. destruct hit; [|apply wp_ret, Hw].
  wp_by wp_killed_by_wumpus; [apply Hw|].
  intros ? s' [Hb Ha]. exact (wf_died _ Hb Ha).
Qed.

Lemma wp_active_wumpus_roll s :
  wf s -> wp active_wumpus_roll (fun _ s' => wf s') s.
Proof.
  intros Hw. unfold active_wumpus_roll. apply wp_bind, wp_gets.
  destruct (active_wumpus_mode s); [|apply wp_ret, Hw].
  apply wp_bind. wp_by wp_wumpus_move; [apply Hw|].
  intros moved s' H. apply wp_wumpus_hit.
  exact (kept_wf _ _ (rehoused_kept _ _ H) Hw).
Qed.

(** ** The buttons *)

Lemma uint8_small z : 0 <= z < 256 -> uint8 z = z.
Proof. unfold uint8. apply Z.mod_small. Qed.

Lemma int8_small z : -128 <= z < 128 -> int8 z = z.
Proof. intros H. unfold int8. rewrite Z.mod_small; lia. Qed.

Lemma wp_light_button_up s :
  wf s -> wp loop_light_button_up (fun _ s' => wf s') s.
Proof.
  intros [Hb Hm]. unfold loop_light_button_up.
  apply wp_bind, wp_gets. apply wp_bind.
  unfold mode_ok in Hm. pose proof Hb as [].
  destruct (current_action s) eqn:Ea.
  all: wp_walk; st; bools.
  all: try rewrite (uint8_small (shots_path_len s + 1)) in * by (rooms; lia).
  all: try rewrite (uint8_small (shots_room s + 1)) in * by (rooms; lia).
  all: try rewrite (int8_small (selected_room_n s + 1)) in * by (rooms; lia).
  all: (wp_by wp_display_current_action;
        [base_of Hb|intros ? ? ->; split; [base_of Hb|]]).
  all: unfold mode_ok; st; try rewrite Ea; try exact I; try (rooms; lia).
  all: simpl; exact I.
Qed.

Lemma wp_confirm_switch u s :
  wf s -> wp (confirm_switch u) (fun _ s' => wf s') s.
Proof.
  intros [Hb Hm]. unfold confirm_switch. apply wp_bind, wp_gets.
  unfold mode_ok in Hm. pose proof Hb as [].
  destruct (current_action s) eqn:Ea.
  - (* shoot *)
    wp_walk. split; [base_of Hb|]. unfold mode_ok. st. rooms. lia.
  - (* shoot_n *)
    wp_walk. apply wp_read_cave_map; [assumption|rooms; lia|].
    intros room Hroom. wp_walk.
    split; [base_of Hb|]. unfold mode_ok. st. rooms. lia.
  - (* shoot_rooms *)
    destruct Hm as [Hp Hlen].
    apply wp_bind, wp_gets. apply wp_bind, wp_gets.
    apply wp_bind, wp_write_shots_path; [assumption|rooms; lia|].
    intros p' Hp'.
    assert (Hb1 : base_ok (set_shots_path p' s)).
    { constructor; st; try assumption.
      - rewrite (array_set_length _ _ _ _ Hp'). assumption.
      - exact (Forall_array_set _ _ _ _ _ Hp' ok_path_rooms0
                                ok_shots_room0). }
    rewrite (uint8_small (shots_picked s + 1)) by (rooms; lia).
    wp_walk; st; bools.
    2:{ split; [base_of Hb1|]. unfold mode_ok. st. rewrite Ea. lia. }
    wp_by wp_shot; [base_of Hb1|st; exact Hlen|].
    intros r s1 [[Hb2 _] Hr]. wp_walk.
    + wp_by wp_display_won; [base_of Hb2|].
      intros ? s2 H. apply (reshown_wf _ _ H).
      split; [base_of Hb2|]. unfold mode_ok. st.
      destruct Hr as [-> | [-> | ->]]; exact I.
    + assert (Hw : wf (set_current_action r s1)).
      { split; [base_of Hb2|]. unfold mode_ok. st.
        destruct Hr as [-> | [-> | ->]]; exact I. }
      wp_by wp_wumpus_flee; [apply Hw|].
      intros moved s2 H. apply wp_wumpus_hit.
      exact (kept_wf _ _ (rehoused_kept _ _ H) Hw).
    + split; [base_of Hb2|]. unfold mode_ok. st.
      destruct Hr as [-> | [-> | ->]]; exact I.
  - (* go *)
    wp_walk. wp_by wp_display_current_action; [base_of Hb|].
    intros ? ? ->. wp_walk. split; [base_of Hb|exact I].
  - (* choosing_room *)
    apply wp_bind. wp_by wp_go_to_selected_room; [exact Hb|].
    intros result ? (r & Hr & ->).
    assert (Hb1 : base_ok (set_player_room r s)) by base_of Hb.
    destruct (hazard_eqb result wumpus_hazard_bat).
    + wp_walk. wp_by wp_find_safe_random_room; [base_of Hb|].
      intros room ? [-> Hroom]. wp_walk.
      wp_by wp_display_current_action; [base_of Hb|].
      intros ? ? ->.
      wp_by wp_play_melody; [base_of Hb|discriminate|].
      intros ? s' H. apply (reshown_wf _ _ H).
      split; [base_of Hb|exact I].
    + destruct (hazard_eqb result wumpus_hazard_none).
      * wp_walk. wp_by wp_display_hazards; [base_of Hb|].
        intros ? s' H. apply (reshown_wf _ _ H).
        split; [base_of Hb|exact I].
      * apply wp_bind. wp_by wp_display_death; [exact Hb1|].
        intros ? s' H. apply wp_modify.
        destruct H as (hp & cm & ms & -> & Hhp & Hmel).
        split; [base_of Hb|exact I].
  - apply wp_ret. split; [exact Hb|]. unfold mode_ok. now rewrite Ea.
  - apply wp_ret. split; [exact Hb|]. unfold mode_ok. now rewrite Ea.
  - apply wp_ret. split; [exact Hb|]. unfold mode_ok. now rewrite Ea.
Qed.

Lemma wp_alarm_button_up u s :
  wf s -> wp (loop_alarm_button_up u) (fun _ s' => wf s') s.
Proof.
  intros Hw. unfold loop_alarm_button_up. apply wp_bind.
  wp_by wp_confirm_switch; [exact Hw|]. intros ? s1 H1. apply wp_bind.
  wp_by wp_display_current_action; [apply H1|]. intros ? ? ->.
  apply wp_active_wumpus_roll, H1.
Qed.

(** ** The tick *)

(** The note under the step of a playing melody; if it is not the silent
    one, the next step is inside the melody too. *)
Lemma melody_note cm ms :
  cm <> MELODY_NONE -> melody_ok cm ms ->
  exists note,
    array_get (melody_notes cm) ms = Some note /\
    (is_silent note = false -> melody_ok cm (uint8 (ms + 1))).
Proof.
  intros Hcm Hok. specialize (Hok Hcm).
  destruct cm; [congruence|..]; simpl in Hok;
    assert (Hc : ms = 0 \/ ms = 1 \/ ms = 2 \/ ms = 3 \/ ms = 4 \/
                 ms = 5 \/ ms = 6 \/ ms = 7) by lia;
    repeat (destruct Hc as [-> | Hc]); try subst ms; try lia;
    (eexists; split; [reflexivity|]);
    simpl; intros Hs; try discriminate Hs;
    intros _; vm_compute; (split; [discriminate|reflexivity]).
Qed.

(** [wf] reads none of the members written here. *)
Ltac wf_of Hb Hm Ea :=
  split; [base_of Hb|unfold mode_ok in *; st'; rewrite ?Ea in *;
                     solve [exact I | exact Hm | rooms; lia]].

Lemma wp_tick u s : wf s -> wp (loop_tick u) (fun _ s' => wf s') s.
Proof.
  intros [Hb Hm]. unfold loop_tick. apply wp_bind, wp_gets.
  destruct (melody_is_none (current_melody s)) eqn:Em; cbn [negb].
  - apply wp_bind, wp_gets. destruct (0 <? led_cnt s) eqn:El.
    { (* the LED *)
      apply wp_bind. unfold when. destruct (led_cnt s =? 1).
      - apply wp_bind, wp_call. apply wp_bind.
        wp_by wp_init_game; [apply base_ok_arrays, Hb|].
        intros ? s1 [H1 _]. apply wp_bind.
        wp_by wp_display_current_action; [apply H1|]. intros ? ? ->.
        wp_by wp_display_hazards; [apply H1|]. intros ? s2 H2.
        destruct (reshown_wf _ _ H2 H1) as [Hb2 Hm2].
        wp_walk. split; [base_of Hb2|exact Hm2].
      - apply wp_ret. wp_walk. split; [base_of Hb|exact Hm]. }
    apply wp_bind, wp_gets. cbv beta.
    destruct (current_action s) eqn:Ea;
      cbv [action_eqb action_code Z.eqb Pos.eqb negb].
    6:{ (* bat transport *)
      apply wp_bind, wp_gets. pose proof Hb as [].
      destruct (0 <? transport_timer s);
        [apply wp_modify; wf_of Hb Hm Ea|].
      wp_walk. apply wp_read_hazard; [st; assumption..|].
      intros h _. destruct (hazard_eqb h wumpus_hazard_bat).
      - apply wp_bind. wp_by wp_find_safe_random_room; [base_of Hb|].
        intros room ? [-> Hroom]. wp_walk.
        wp_by wp_play_melody; [base_of Hb|discriminate|].
        intros ? s' H. apply (reshown_wf _ _ H). wf_of Hb Hm Ea.
      - wp_walk. wp_by wp_display_current_action; [base_of Hb|].
        intros ? ? ->. wp_by wp_display_hazards; [base_of Hb|].
        intros ? s' H. apply (reshown_wf _ _ H). wf_of Hb Hm Ea. }
    all: wp_walk.
    all: try (wp_by wp_display_current_action; [exact Hb|];
              intros ? ? ->; wp_walk).
    all: try (wp_by wp_display_selected_room; [exact Hb|];
              intros ? ? ->; wp_walk).
    all: try (wp_by wp_display_hazards; [base_of Hb|];
              intros ? s' H; apply (reshown_wf _ _ H)).
    all: wf_of Hb Hm Ea.
  - (* a melody is playing *)
    apply wp_bind, wp_gets.
    assert (Hcm : current_melody s <> MELODY_NONE)
      by (intros E; rewrite E in Em; discriminate Em).
    destruct (melody_note _ _ Hcm (ok_melody _ Hb)) as (note & Hn & Hnext).
    apply wp_bind. eapply wp_in_bounds; [exact Hn|].
    destruct (is_silent note).
    + pose proof (melody_ok_none 0).
      destruct (current_melody s); wp_walk; split;
        solve [base_of Hb | exact Hm].
    + wp_walk. specialize (Hnext eq_refl).
      split; [base_of Hb|exact Hm].
Qed.

(** ** Every event *)

Lemma wp_loop_switch e u s :
  wf s -> wp (loop_switch e u) (fun _ s' => wf s') s.
Proof.
  intros Hw. destruct e; cbn [loop_switch].
  - apply wp_bind, wp_call. apply wp_bind.
    wp_by wp_display_current_action; [apply Hw|]. intros ? ? ->.
    wp_by wp_display_hazards; [apply Hw|].
    intros ? s' H. exact (reshown_wf _ _ H Hw).
  - apply wp_tick, Hw.
  - apply wp_light_button_up, Hw.
  - destruct Hw as [Hb Hm]. wp_walk.
    wp_by wp_update_lap_indicator. intros ? ? ->.
    wp_walk; (split; [base_of Hb|exact Hm]).
  - apply wp_alarm_button_up, Hw.
  - destruct Hw as [Hb Hm]. wp_walk.
    wp_by wp_update_sound_indicator. intros ? ? ->.
    wp_walk; (split; [base_of Hb|exact Hm]).
  - apply wp_ret, Hw.
Qed.

Lemma wp_face_loop e u s :
  wf s -> wp (wumpus_face_loop e u) (fun _ s' => wf s') s.
Proof.
  intros Hw.
  assert (H : wp (loop_switch e u ;;
                  led <- gets led_cnt ;;
                  cur <- gets current_melody ;;
                  ret ((led =? 0) && melody_is_none cur))
                 (fun _ s' => wf s') s).
  { apply wp_bind. wp_by wp_loop_switch; [exact Hw|].
    intros ? s' H. wp_walk. exact H. }
  destruct e; exact H.
Qed.

Lemma wp_face_activate s :
  arrays_ok s -> wp wumpus_face_activate (fun _ s' => wf s') s.
Proof.
  intros Ha. unfold wumpus_face_activate. apply wp_bind, wp_call.
  apply wp_bind. wp_by wp_init_game; [exact Ha|].
  intros ? s1 [H1 _]. apply wp_bind.
  wp_by wp_play_melody; [apply H1|discriminate|].
  intros ? s2 H2. pose proof (reshown_wf _ _ H2 H1) as Hw2.
  apply wp_bind. wp_by wp_update_lap_indicator. intros ? ? ->.
  wp_by wp_update_sound_indicator. intros ? ? ->. exact Hw2.
Qed.

Lemma wp_run_events evs :
  forall s, wf s -> wp (run_events evs) (fun _ s' => wf s') s.
Proof.
  induction evs as [|[e u] rest IH]; intros s Hw; simpl.
  - apply wp_ret, Hw.
  - apply wp_bind. wp_by wp_face_loop; [exact Hw|].
    intros ? s' H. apply IH, H.
Qed.

(** From a run that is safe to what it returned. *)
Lemma wp_run {A} (m : M A) (Q : A -> wumpus_game_state_t -> Prop) w :
  wp m Q (_state w) ->
  (exists a w', m w = Ok (a, w') /\ Q a (_state w')) \/
  m w = Fault OutOfDraws.
Proof.
  intros H. destruct w as [s t l]. specialize (H t l). cbn [_state] in H.
  destruct (m (mk_world s t l)) as [[a w']|f]; [left; eauto|right].
  now subst f.
Qed.

(** X9.  The invariant of the game and memory safety of one event.  Call a
    state well formed when: the cave has twenty rooms with exactly one
    Wumpus, at most two pits, at most two bats and no arrow in them; the
    shot path has five entries, all of them rooms 0..19; the player's room,
    the room being picked for the shot and the bat's destination are rooms
    0..19; the selected exit is -1, 0, 1 or 2; the hazard pointer is 0, 1
    or 2; a playing melody has its step inside its notes; and, while the
    shot is being set up, the distance is 1..5 and fewer rooms than the
    distance are picked.  From a well formed state, [wumpus_face_loop] on
    any event, with any tape and any value in the unwritten stack slot,
    either returns, in a well formed state again, or stops because the tape
    of random values is used up.  It never indexes outside [cave_map],
    [hazards], [shots_path] or a melody. *)
Theorem loop_keeps_wf (e : movement_event_type_t) (u : Z) (w : world) :
  wf (_state w) ->
  (exists r w', wumpus_face_loop e u w = Ok (r, w') /\ wf (_state w')) \/
  wumpus_face_loop e u w = Fault OutOfDraws.
Proof. intros H. apply wp_run, wp_face_loop, H. Qed.

Lemma sample_state_wf : wf sample_state.
Proof.
  split; [constructor|]; simpl.
  all: try reflexivity.
  all: try (unfold room_ok, WUMPUS_FACE_ROWS, WUMPUS_FACE_COLS,
              WUMPUS_NUM_ARROWS; lia).
  all: try apply melody_ok_none.
  - unfold census. simpl. lia.
  - repeat constructor; unfold WUMPUS_FACE_ROWS; lia.
  - unfold mode_ok, WUMPUS_NUM_ARROWS. simpl. lia.
Qed.

Lemma loop_keeps_wf_witness :
  exists r w',
    wumpus_face_loop EVENT_ALARM_BUTTON_UP 0
      (mk_world sample_state [2; 1] []) = Ok (r, w') /\
    wf (_state w').
Proof.
  destruct (loop_keeps_wf EVENT_ALARM_BUTTON_UP 0
              (mk_world sample_state [2; 1] []) sample_state_wf)
    as [H|H]; [exact H|vm_compute in H; discriminate H].
Defined.

(** X10.  Memory safety of the face.  Activated on the zeroed state and
    fed any list of events, with any tape of random values and any values
    in the unwritten stack slot, the face either handles all of them and
    ends in a well formed state (one Wumpus in the cave, every room number
    and array index in range), or stops because the tape is used up: no
    run reads or writes outside an array. *)
Theorem session_safe (tape : list Z)
        (evs : list (movement_event_type_t * Z)) :
  (exists w, session tape evs = Ok (tt, w) /\ wf (_state w)) \/
  session tape evs = Fault OutOfDraws.
Proof.
  assert (H : wp (wumpus_face_activate ;; run_events evs)
                 (fun _ s' => wf s') zero_state).
  { apply wp_bind. wp_by wp_face_activate.
    - repeat split; repeat constructor; unfold WUMPUS_FACE_ROWS; lia.
    - intros ? s' Hw. apply wp_run_events, Hw. }
  destruct (wp_run _ _ (boot tape) H) as [(a & w' & E & Hw)|E].
  - left. exists w'. destruct a. split; assumption.
  - right. exact E.
Qed.

(** * The LED counter after a new game *)

(** What a successful run from a safe start returned. *)
Lemma wp_ok {A} (m : M A) (Q : A -> wumpus_game_state_t -> Prop) w a w' :
  wp m Q (_state w) -> m w = Ok (a, w') -> Q a (_state w').
Proof.
  intros H E. destruct w as [s t l]. specialize (H t l). cbn [_state] in H.
  now rewrite E in H.
Qed.

(** A list of ticks, each with its own value in the unwritten slot. *)
Definition tick_events (us : list Z) : list (movement_event_type_t * Z) :=
  map (pair EVENT_TICK) us.

(** One tick of the LED countdown. *)
Lemma tick_led_step u w :
  current_melody (_state w) = MELODY_NONE ->
  1 < led_cnt (_state w) < 256 ->
  wumpus_face_loop EVENT_TICK u w
  = Ok (false, mk_world (set_led_cnt (led_cnt (_state w) - 1) (_state w))
                        (rand_tape w) (host_log w)).
Proof.
  intros Hm Hl. destruct w as [s t l]. cbn [_state rand_tape host_log] in *.
  assert (E1 : (0 <? led_cnt s) = true) by (apply Z.ltb_lt; lia).
  assert (E2 : (led_cnt s =? 1) = false) by (apply Z.eqb_neq; lia).
  assert (E3 : (led_cnt s - 1 =? 0) = false) by (apply Z.eqb_neq; lia).
  cbv [wumpus_face_loop loop_switch loop_tick bind gets when ret modify
       _state rand_tape host_log].
  rewrite Hm. cbv [melody_is_none negb]. rewrite E1, E2.
  rewrite uint8_small by lia. st. rewrite Hm, E3. reflexivity.
Qed.

(** X12.  While no melody plays and the LED counter is above the number
    of ticks, the ticks do nothing but count it down: the state changes in
    [led_cnt] only, no random number is drawn and nothing is displayed (no
    blinking, no hazard warning, no bat transport).  The counter of a new
    game started by a tick is 255: once no melody plays, 254 ticks leave
    such a game standing still in this way, and the tick after them finds
    the counter at 1 and starts another new game. *)
Theorem led_countdown (us : list Z) (w : world) :
  current_melody (_state w) = MELODY_NONE ->
  Z.of_nat (List.length us) < led_cnt (_state w) < 256 ->
  run_events (tick_events us) w
  = Ok (tt, mk_world (set_led_cnt (led_cnt (_state w)
                                   - Z.of_nat (List.length us))
                                  (_state w))
                     (rand_tape w) (host_log w)).
Proof.
  revert w. induction us as [|u us IH]; intros w Hm Hl.
  - simpl. rewrite Z.sub_0_r. destruct w as [[] t l]. reflexivity.
  - cbn [tick_events map run_events]. cbn [List.length] in Hl.
    rewrite (bind_eq _ _ _ _ _ (tick_led_step u w Hm ltac:(lia))).
    fold (tick_events us). rewrite IH; cbn [_state rand_tape host_log]; st;
      [|exact Hm|lia].
    do 3 f_equal. cbn [List.length]. destruct w as [[] t l]. st.
    unfold set_led_cnt. st. f_equal. lia.
Qed.

(** X11.  The tick that ends the LED flash starts a new game, and leaves
    the LED counter at 255: [_init_game] puts it to 0 and the tick then
    decrements it (line 505), an 8-bit counter.  The new game is in the
    state "SHOT" with five arrows, a well formed cave, and both settings at
    their defaults. *)
Theorem new_game_tick (u : Z) (w : world) r w' :
  wf (_state w) ->
  current_melody (_state w) = MELODY_NONE ->
  led_cnt (_state w) = 1 ->
  wumpus_face_loop EVENT_TICK u w = Ok (r, w') ->
  led_cnt (_state w') = 255 /\
  current_action (_state w') = wumpus_face_shoot /\
  arrows (_state w') = WUMPUS_NUM_ARROWS /\
  game_settings (_state w') = (false, true) /\
  wf (_state w') /\ r = false.
Proof.
  intros Hw Hm Hl H.
  assert (Hwf : wf (_state w')) by exact (wp_ok _ _ _ _ _ (wp_face_loop _ _ _ Hw) H).
  unfold wumpus_face_loop in H. apply bind_ok in H.
  destruct H as (x & w1 & Hsw & H).
  cbn [loop_switch] in Hsw. unfold loop_tick in Hsw.
  rewrite gets_eq, Hm in Hsw. cbn [melody_is_none negb] in Hsw.
  cbv iota in Hsw. rewrite gets_eq, Hl in Hsw.
  change (0 <? 1) with true in Hsw. change (1 =? 1) with true in Hsw.
  cbv iota in Hsw. unfold when in Hsw.
  apply bind_ok in Hsw. destruct Hsw as (x1 & w2 & Hnew & Hdec).
  apply bind_ok in Hnew. destruct Hnew as (x2 & w3 & Hoff & Hnew).
  apply bind_ok in Hnew. destruct Hnew as (x3 & w4 & Hinit & Hshow).
  apply init_game_spec in Hinit. destruct Hinit as (Hs & Ha & Har & Hled).
  inv_ok Hshow. display_steps. inv_ok Hdec. inv_ok H.
  cbn [_state] in *. unfold game_settings in *. st'. rewrite Hled in *.
  split; [reflexivity|]. split; [exact Ha|]. split; [exact Har|].
  split; [exact Hs|]. split; [exact Hwf|reflexivity].
Qed.

Lemma flashing_world_wf : wf (_state flashing_world).
Proof.
  destruct sample_state_wf as [Hb _]. split; [|exact I].
  destruct Hb. constructor; assumption.
Qed.

Lemma new_game_tick_witness :
  exists r w',
    wumpus_face_loop EVENT_TICK 0 flashing_world = Ok (r, w') /\
    led_cnt (_state w') = 255.
Proof.
  destruct (wumpus_face_loop EVENT_TICK 0 flashing_world)
    as [[r w']|e] eqn:E; [|vm_compute in E; discriminate E].
  exists r, w'. split; [reflexivity|].
  exact (proj1 (new_game_tick 0 flashing_world r w' flashing_world_wf
                              eq_refl eq_refl E)).
Defined.

Lemma led_countdown_witness :
  run_events (tick_events [0; 7])
             (mk_world (set_led_cnt 3 sample_state) [] [])
  = Ok (tt, mk_world (set_led_cnt 1 sample_state) [] []).
Proof.
  exact (led_countdown [0; 7] (mk_world (set_led_cnt 3 sample_state) [] [])
                       eq_refl ltac:(simpl; lia)).
Defined.

(** * A melody, played to its end *)

(** The state a finished melody leaves: the win and lose melodies start
    the LED flash. *)
Definition melody_done (m : wumpus_melody_t) (s : wumpus_game_state_t)
  : wumpus_game_state_t :=
  set_melody_step 0
    (set_current_melody MELODY_NONE
       (match m with
        | MELODY_WIN | MELODY_LOSE => set_led_cnt 3 s
        | _ => s
        end)).

(** The calls a melody makes: its notes but the silent one, the LED, and
    the tick back at 4 Hz. *)
Definition melody_calls (m : wumpus_melody_t) : list host_call :=
  (map (fun n => watch_buzzer_play_note n 120) (removelast (melody_notes m))
   ++ match m with
      | MELODY_WIN => [watch_set_led_green]
      | MELODY_LOSE => [watch_set_led_red]
      | _ => []
      end
   ++ [movement_request_tick_frequency 4])%list.

(** X13.  A melody that has just been started is played by the ticks, one
    note a tick: after as many ticks as the melody has entries (the silent
    end marker included) every note has been sent to the buzzer in order,
    the tick is back at 4 Hz, no melody is playing any more, and after the
    win or lose melody the LED is on with its counter at 3.  Nothing else
    of the state changes during these ticks and no random number is
    drawn: the game is paused while a melody plays. *)
Theorem melody_plays_out (m : wumpus_melody_t) (us : list Z) (w : world) :
  m <> MELODY_NONE ->
  current_melody (_state w) = m ->
  melody_step (_state w) = 0 ->
  List.length us = List.length (melody_notes m) ->
  run_events (tick_events us) w
  = Ok (tt, mk_world (melody_done m (_state w)) (rand_tape w)
                     (host_log w ++ melody_calls m)).
Proof.
  intros Hm Hc Hs Hl. destruct w as [s t l]. destruct s.
  cbn [_state current_melody melody_step rand_tape host_log] in *.
  subst current_melody0 melody_step0.
  destruct m; [congruence|..]; cbn [melody_notes List.length] in Hl;
    unfold melody_startup, melody_win, melody_lose, melody_bats in Hl;
    cbn [List.length] in Hl;
    repeat (destruct us as [|? us]; [discriminate Hl|]);
    (destruct us; [|discriminate Hl]);
    cbv -[app]; repeat rewrite <- app_assoc; reflexivity.
Qed.

Lemma melody_plays_out_witness :
  run_events (tick_events [0; 0; 0; 0; 0])
    (mk_world (set_current_melody MELODY_BATS sample_state) [] [])
  = Ok (tt, mk_world sample_state []
              [watch_buzzer_play_note BUZZER_NOTE_C7 120;
               watch_buzzer_play_note BUZZER_NOTE_B6 120;
               watch_buzzer_play_note BUZZER_NOTE_C7 120;
               watch_buzzer_play_note BUZZER_NOTE_B6 120;
               movement_request_tick_frequency 4]).
Proof.
  exact (melody_plays_out MELODY_BATS [0; 0; 0; 0; 0]
           (mk_world (set_current_melody MELODY_BATS sample_state) [] [])
           ltac:(discriminate) eq_refl eq_refl eq_refl).
Defined.

(** * A move *)

(** X14.  Confirming an exit in stationary mode.  The player moves to
    the room [cave_map[player_room][selected_room_n]] and what happens is
    decided by what that room holds: nothing, and the game goes on in the
    state "GO"; a bat, and the transport starts with its timer at 4
    towards a room that holds neither the Wumpus nor a pit; the Wumpus or
    a pit, and the game is lost.  The cave and the arrows are as before. *)
Theorem move_outcome (u : Z) (w : world) r w' :
  current_action (_state w) = wumpus_face_choosing_room ->
  0 <= selected_room_n (_state w) ->
  active_wumpus_mode (_state w) = false ->
  wumpus_face_loop EVENT_ALARM_BUTTON_UP u w = Ok (r, w') ->
  exists row room h,
    array_get cave_map (player_room (_state w)) = Some row /\
    array_get row (selected_room_n (_state w)) = Some room /\
    hazard_at (_state w) room = Some h /\
    player_room (_state w') = room /\
    hazards (_state w') = hazards (_state w) /\
    arrows (_state w') = arrows (_state w) /\
    match h with
    | wumpus_hazard_none => current_action (_state w') = wumpus_face_go
    | wumpus_hazard_bat =>
        current_action (_state w') = wumpus_face_bat_transport /\
        transport_timer (_state w') = 4 /\
        exists h', hazard_at (_state w) (transport_dest_room (_state w'))
                   = Some h' /\
                   h' <> wumpus_hazard_wumpus /\ h' <> wumpus_hazard_pitfall
    | _ => current_action (_state w') = wumpus_face_died
    end.
Proof.
  intros Ha Hn Hst H. apply loop_ok in H. destruct H as [x H].
  cbn [loop_switch] in H. unfold loop_alarm_button_up in H.
  apply bind_ok in H. destruct H as (x1 & w1 & Hsw & H).
  apply bind_ok in H. destruct H as (x2 & w2 & Hd & Hroll).
  unfold confirm_switch in Hsw. rewrite gets_eq, Ha in Hsw.
  cbv beta iota in Hsw.
  apply bind_ok in Hsw. destruct Hsw as (result & w3 & Hgo & Hsw).
  unfold _go_to_selected_room in Hgo. rewrite gets_eq in Hgo.
  rewrite (proj2 (Z.leb_le _ _) Hn) in Hgo. rewrite gets_eq in Hgo.
  apply bind_ok in Hgo. destruct Hgo as (room & w4 & Hrc & Hgo).
  apply read_cave_map_ok in Hrc.
  destruct Hrc as [(row & Hrow & Hcol) ->].
  apply bind_ok in Hgo. destruct Hgo as (x3 & w5 & Hmod & Hrh).
  inv_ok Hmod. apply read_hazard_ok in Hrh. destruct Hrh as [Hh ->].
  cbn [_state hazards set_player_room] in Hh.
  exists row, room, result. split; [exact Hrow|]. split; [exact Hcol|].
  split; [exact Hh|].
  assert (Hoff : active_wumpus_mode (_state w2) = false -> w' = w2)
    by (intros E; exact (proj1 (active_wumpus_roll_action _ _ _ Hroll) E)).
  destruct result; cbn [hazard_eqb hazard_code Z.eqb Pos.eqb] in Hsw;
    cbv iota in Hsw; inv_ok Hsw;
    repeat match goal with
      | E : _find_safe_random_room _ = Ok (_, ?w1) |- _ =>
          let Hs := fresh "Hs" in
          apply find_safe_random_room_spec in E;
          destruct E as (Hs & _ & h' & Hh' & Hw & Hp);
          destruct w1; cbn [_state] in Hs; subst
      end;
    display_steps; cbn [_state] in *; st'; rewrite (Hoff Hst);
    cbn [_state]; st'; repeat split; try reflexivity.
  exists h'. repeat split; assumption.
Qed.

Lemma move_outcome_witness :
  exists r w',
    wumpus_face_loop EVENT_ALARM_BUTTON_UP 0
      (mk_world (set_selected_room_n 1 (_state choosing_world)) [7] [])
    = Ok (r, w') /\
    player_room (_state w') = 4 /\
    current_action (_state w') = wumpus_face_bat_transport.
Proof.
  pose (w := mk_world (set_selected_room_n 1 (_state choosing_world))
                      [7] []).
  destruct (wumpus_face_loop EVENT_ALARM_BUTTON_UP 0 w)
    as [[r w']|e] eqn:E; [|vm_compute in E; discriminate E].
  destruct (move_outcome 0 w r w' eq_refl ltac:(simpl; lia) eq_refl E)
    as (row & room & h & Hrow & Hcol & Hh & Hp & _ & _ & Hact).
  exists r, w'. split; [exact E|].
  vm_compute in Hrow. injection Hrow as <-.
  vm_compute in Hcol. injection Hcol as <-.
  vm_compute in Hh. injection Hh as <-.
  split; [exact Hp|exact (proj1 Hact)].
Defined.

(** * The cycle button *)

(** What "cycle" selects next. *)
Definition cycled (s : wumpus_game_state_t) : wumpus_game_state_t :=
  match current_action s with
  | wumpus_face_shoot =>
      set_action_tick_show true (set_current_action wumpus_face_go s)
  | wumpus_face_go =>
      set_action_tick_show true (set_current_action wumpus_face_shoot s)
  | wumpus_face_shoot_n =>
      set_action_tick_show true
        (set_shots_path_len (shots_path_len s mod 5 + 1) s)
  | wumpus_face_shoot_rooms =>
      set_action_tick_show true
        (set_shots_room ((shots_room s + 1) mod 20) s)
  | wumpus_face_choosing_room =>
      set_selected_room_n ((selected_room_n s + 2) mod 4 - 1) s
  | _ => s
  end.

Ltac setters :=
  unfold set_player_room, set_hazards, set_arrows, set_current_action,
    set_selected_room_n, set_digits_tick_show, set_action_tick_show,
    set_hazard_point, set_shots_path_len, set_shots_picked, set_shots_room,
    set_shots_path, set_transport_timer, set_transport_dest_room,
    set_current_melody, set_melody_step, set_led_cnt,
    set_active_wumpus_mode, set_sound_mode_on; st.

Lemma wp_light_cycled s :
  wf s -> wp loop_light_button_up (fun _ s' => s' = cycled s) s.
Proof.
  intros [Hb Hm]. unfold loop_light_button_up, cycled.
  apply wp_bind, wp_gets. apply wp_bind.
  unfold mode_ok in Hm. pose proof Hb as [].
  destruct (current_action s) eqn:Ea.
  all: wp_walk; bools.
  all: try rewrite (uint8_small (shots_path_len s + 1)) in * by (rooms; lia).
  all: try rewrite (uint8_small (shots_room s + 1)) in * by (rooms; lia).
  all: try rewrite (int8_small (selected_room_n s + 1)) in * by (rooms; lia).
  all: (wp_by wp_display_current_action; [base_of Hb|intros ? ? ->]).
  all: rooms; setters; try reflexivity; f_equal;
    Z.div_mod_to_equations; lia.
Qed.

(** X15.  "Cycle" (a short press of the light button) in a well formed
    state: it toggles between "GO" and "SHOT"; it steps the shot distance
    through 1, 2, 3, 4, 5 and back to 1; it steps the room picked for the
    shot path through all twenty rooms and back to the first; it steps the
    exit through the three connected rooms and then to "none selected"
    (-1) before the first again; during a bat transport and after the game
    is over it does nothing.  It never draws a random number. *)
Theorem cycle_selects (u : Z) (w : world) r w' :
  wf (_state w) ->
  wumpus_face_loop EVENT_LIGHT_BUTTON_UP u w = Ok (r, w') ->
  _state w' = cycled (_state w) /\ rand_tape w' = rand_tape w.
Proof.
  intros Hw H. apply loop_ok in H. destruct H as [x H].
  cbn [loop_switch] in H. split.
  - exact (wp_ok _ _ _ _ _ (wp_light_cycled _ Hw) H).
  - exact (quiet_tape_light_button_up _ _ _ H).
Qed.

Lemma cycle_selects_witness :
  exists r w',
    wumpus_face_loop EVENT_LIGHT_BUTTON_UP 0
      (mk_world (set_shots_room 19 sample_state) [] []) = Ok (r, w') /\
    shots_room (_state w') = 0.
Proof.
  pose (w := mk_world (set_shots_room 19 sample_state) [] []).
  assert (Hw : wf (_state w)).
  { destruct sample_state_wf as [Hb Hm]. split; [|exact Hm].
    destruct Hb. constructor; try assumption.
    unfold room_ok, WUMPUS_FACE_ROWS. simpl. lia. }
  destruct (wumpus_face_loop EVENT_LIGHT_BUTTON_UP 0 w)
    as [[r w']|e] eqn:E; [|vm_compute in E; discriminate E].
  exists r, w'. split; [exact E|].
  rewrite (proj1 (cycle_selects 0 w r w' Hw E)). reflexivity.
Defined.

(** * After the game is over *)

(** The state of play: the screen the game is on, and the game view. *)
Definition board (s : wumpus_game_state_t) :=
  (current_action s, game_view s).

Lemma quiet_tape_display_selected_room :
  quiet rand_tape _display_selected_room.
Proof.
  unfold _display_selected_room, read_cave_map. quiet_walk.
Qed.
#[local] Hint Resolve quiet_tape_display_selected_room : quiet.

(** X16.  A game that is won or lost stays so, in stationary mode, until
    the LED countdown ends: whatever the event, the state of play (won or
    died, the cave, the player's room, the arrows) is the same after it and
    no random number is drawn, the one exception being the tick that finds
    no melody playing and the LED counter at 1, which starts the new
    game. *)
Theorem game_over_stays (e : movement_event_type_t) (u : Z) (w : world)
        r w' :
  game_over (_state w) ->
  active_wumpus_mode (_state w) = false ->
  wumpus_face_loop e u w = Ok (r, w') ->
  (board (_state w') = board (_state w) /\ rand_tape w' = rand_tape w) \/
  (e = EVENT_TICK /\ current_melody (_state w) = MELODY_NONE /\
   led_cnt (_state w) = 1).
Proof.
  intros Hover Hst H.
  destruct e.
  - left. apply loop_ok in H. destruct H as [x H]. cbn [loop_switch] in H.
    split; [frame_of H board; exact H|].
    revert H.
    match goal with
    | |- ?m _ = Ok _ -> _ =>
        assert (P : quiet rand_tape m) by quiet_walk; apply P
    end.
  - apply loop_ok in H. destruct H as [x H]. cbn [loop_switch] in H.
    unfold loop_tick in H. rewrite gets_eq in H.
    destruct (current_melody (_state w)) eqn:Em;
      cbn [melody_is_none negb] in H; cbv iota in H.
    2-5: left; split; [frame_of H board; exact H|];
      revert H;
      match goal with
      | |- ?m _ = Ok _ -> _ =>
          assert (P : quiet rand_tape m) by quiet_walk; apply P
      end.
    rewrite gets_eq in H.
    destruct (0 <? led_cnt (_state w)) eqn:El.
    + destruct (led_cnt (_state w) =? 1) eqn:E1.
      * right. apply Z.eqb_eq in E1. auto.
      * left. unfold when in H. inv_ok H. destruct w. split; reflexivity.
    + left. rewrite gets_eq in H.
      destruct Hover as [Ha | Ha]; rewrite Ha in H;
        cbv [action_eqb action_code Z.eqb Pos.eqb negb when] in H;
        (split; [frame_of H board; rewrite H; reflexivity|]);
        revert H;
        match goal with
        | |- ?m _ = Ok _ -> _ =>
            assert (P : quiet rand_tape m) by quiet_walk; apply P
        end.
  - left. destruct (cycle_game_over _ _ _ _ Hover H) as [-> ->]. auto.
  - left. apply loop_ok in H. destruct H as [x H]. cbn [loop_switch] in H.
    split; [frame_of H board; exact H|].
    revert H.
    match goal with
    | |- ?m _ = Ok _ -> _ =>
        assert (P : quiet rand_tape m)
          by (unfold _update_lap_indicator; quiet_walk);
        apply P
    end.
  - left.
    destruct (confirm_game_over_stationary _ _ _ _ Hover Hst H) as [-> ->].
    auto.
  - left. apply loop_ok in H. destruct H as [x H]. cbn [loop_switch] in H.
    split; [frame_of H board; exact H|].
    revert H.
    match goal with
    | |- ?m _ = Ok _ -> _ =>
        assert (P : quiet rand_tape m)
          by (unfold _update_sound_indicator; quiet_walk);
        apply P
    end.
  - left. simpl in H. inv_ok H. auto.
Qed.

Lemma game_over_stays_witness :
  exists r w',
    wumpus_face_loop EVENT_ALARM_BUTTON_UP 0
      (mk_world (set_current_action wumpus_face_won sample_state) [5] [])
    = Ok (r, w') /\
    current_action (_state w') = wumpus_face_won /\ rand_tape w' = [5].
Proof.
  pose (w := mk_world (set_current_action wumpus_face_won sample_state)
                      [5] []).
  destruct (wumpus_face_loop EVENT_ALARM_BUTTON_UP 0 w)
    as [[r w']|e] eqn:E; [|vm_compute in E; discriminate E].
  exists r, w'. split; [exact E|].
  destruct (game_over_stays EVENT_ALARM_BUTTON_UP 0 w r w'
              (or_introl eq_refl) eq_refl E) as [[Hb Ht]|[He _]];
    [|discriminate He].
  split; [exact (f_equal fst Hb)|exact Ht].
Defined.

(** * The bat transport *)

(** One tick of a transport under way. *)
Lemma tick_transport_step u w :
  current_melody (_state w) = MELODY_NONE ->
  led_cnt (_state w) = 0 ->
  current_action (_state w) = wumpus_face_bat_transport ->
  0 < transport_timer (_state w) < 256 ->
  wumpus_face_loop EVENT_TICK u w
  = Ok (true,
        mk_world (set_transport_timer (transport_timer (_state w) - 1)
                                      (_state w))
                 (rand_tape w) (host_log w)).
Proof.
  intros Hm Hl Ha Ht. destruct w as [s t l].
  cbn [_state rand_tape host_log] in *.
  assert (E1 : (0 <? transport_timer s) = true) by (apply Z.ltb_lt; lia).
  cbv [wumpus_face_loop loop_switch loop_tick bind gets when ret modify
       _state rand_tape host_log].
  rewrite Hm. cbv [melody_is_none negb]. rewrite Hl.
  change (0 <? 0) with false. cbv [_state rand_tape host_log]. rewrite Ha.
  cbv [action_eqb action_code Z.eqb Pos.eqb _state rand_tape host_log].
  rewrite E1. rewrite uint8_small by lia. st. rewrite Hm, Hl. reflexivity.
Qed.

(** X17.  A bat transport under way, with no melody playing and no LED
    flash: while the transport timer is at least the number of ticks, the
    ticks do nothing but count it down; nothing else in the state changes,
    no random number is drawn, nothing is displayed, and each call returns
    normally.  The player is still in the bat's room during this time. *)
Theorem transport_countdown (us : list Z) (w : world) :
  current_melody (_state w) = MELODY_NONE ->
  led_cnt (_state w) = 0 ->
  current_action (_state w) = wumpus_face_bat_transport ->
  Z.of_nat (List.length us) <= transport_timer (_state w) < 256 ->
  run_events (tick_events us) w
  = Ok (tt, mk_world (set_transport_timer (transport_timer (_state w)
                                           - Z.of_nat (List.length us))
                                          (_state w))
                     (rand_tape w) (host_log w)).
Proof.
  revert w. induction us as [|u us IH]; intros w Hm Hl Ha Ht.
  - simpl. rewrite Z.sub_0_r. destruct w as [[] t l]. reflexivity.
  - cbn [tick_events map run_events]. cbn [List.length] in Ht.
    rewrite (bind_eq _ _ _ _ _
               (tick_transport_step u w Hm Hl Ha ltac:(lia))).
    fold (tick_events us).
    rewrite IH; cbn [_state rand_tape host_log]; st;
      [|exact Hm|exact Hl|exact Ha|lia].
    do 3 f_equal. cbn [List.length]. destruct w as [[] t l]. st.
    unfold set_transport_timer. st. f_equal. lia.
Qed.

Definition carried_world : world :=
  mk_world (set_transport_timer 4
              (set_current_action wumpus_face_bat_transport sample_state))
           [] [].

Lemma transport_countdown_witness :
  run_events (tick_events [0; 0; 0; 0]) carried_world
  = Ok (tt, mk_world (set_current_action wumpus_face_bat_transport
                                         sample_state) [] []).
Proof.
  exact (transport_countdown [0; 0; 0; 0] carried_world
           eq_refl eq_refl eq_refl ltac:(simpl; lia)).
Defined.

(** X18.  The tick that ends a bat transport (no melody, no LED flash,
    timer at 0) puts the player into the destination room and leaves the
    cave and the arrows as they are.  If that room holds a bat, the
    transport starts again: timer 4 and a new destination that holds
    neither the Wumpus nor a pit.  If not, the game goes on in the state
    "GO" in that room, whatever the room holds, and no random number is
    drawn. *)
Theorem bat_drop (u : Z) (w : world) r w' :
  current_melody (_state w) = MELODY_NONE ->
  led_cnt (_state w) = 0 ->
  current_action (_state w) = wumpus_face_bat_transport ->
  transport_timer (_state w) = 0 ->
  wumpus_face_loop EVENT_TICK u w = Ok (r, w') ->
  exists h,
    hazard_at (_state w) (transport_dest_room (_state w)) = Some h /\
    player_room (_state w') = transport_dest_room (_state w) /\
    hazards (_state w') = hazards (_state w) /\
    arrows (_state w') = arrows (_state w) /\
    if hazard_eqb h wumpus_hazard_bat then
      current_action (_state w') = wumpus_face_bat_transport /\
      transport_timer (_state w') = 4 /\
      exists h',
        hazard_at (_state w) (transport_dest_room (_state w')) = Some h' /\
        h' <> wumpus_hazard_wumpus /\ h' <> wumpus_hazard_pitfall
    else
      current_action (_state w') = wumpus_face_go /\
      rand_tape w' = rand_tape w.
Proof.
  intros Hm Hl Ha Ht H. apply loop_ok in H. destruct H as [x H].
  cbn [loop_switch] in H. unfold loop_tick in H.
  rewrite gets_eq, Hm in H. cbn [melody_is_none negb] in H. cbv iota in H.
  rewrite gets_eq, Hl in H. change (0 <? 0) with false in H. cbv iota in H.
  rewrite gets_eq, Ha in H.
  change (action_eqb wumpus_face_bat_transport wumpus_face_bat_transport)
    with true in H.
  cbv iota in H. rewrite gets_eq, Ht in H.
  change (0 <? 0) with false in H. cbv iota in H.
  rewrite gets_eq in H.
  apply bind_ok in H. destruct H as (x1 & w1 & Hmod & H). inv_ok Hmod.
  rewrite gets_eq in H. cbn [_state player_room set_player_room] in H.
  apply bind_ok in H. destruct H as (h & w2 & Hrh & H).
  apply read_hazard_ok in Hrh. destruct Hrh as [Hh ->].
  cbn [_state hazards set_player_room] in Hh.
  exists h. split; [exact Hh|].
  destruct (hazard_eqb h wumpus_hazard_bat).
  - apply bind_ok in H. destruct H as (room & w3 & Hf & H).
    apply find_safe_random_room_spec in Hf.
    destruct Hf as (Hs & _ & h' & Hh' & Hw & Hp).
    destruct w3 as [s3 t3 l3]. cbn [_state] in Hs. subst s3.
    inv_ok H. display_steps. cbn [_state]. st'.
    do 3 (split; [reflexivity|]). split; [exact Ha|].
    split; [reflexivity|]. exists h'. auto.
  - assert (Hq : rand_tape w' = rand_tape w).
    { revert H.
      match goal with
      | |- ?m _ = Ok _ -> _ =>
          assert (P : quiet rand_tape m) by quiet_walk;
          intros H; apply P in H; exact H
      end. }
    inv_ok H. display_steps. cbn [_state rand_tape] in *. st'.
    repeat split; try reflexivity. exact Hq.
Qed.

Lemma bat_drop_witness :
  exists r w',
    wumpus_face_loop EVENT_TICK 0
      (mk_world (set_transport_timer 0
                   (set_transport_dest_room 7 (_state carried_world)))
                [] [])
    = Ok (r, w') /\
    player_room (_state w') = 7.
Proof.
  pose (w := mk_world (set_transport_timer 0
                         (set_transport_dest_room 7 (_state carried_world)))
                      [] []).
  destruct (wumpus_face_loop EVENT_TICK 0 w)
    as [[r w']|e] eqn:E; [|vm_compute in E; discriminate E].
  destruct (bat_drop 0 w r w' eq_refl eq_refl eq_refl eq_refl E)
    as (h & _ & Hp & _).
  exists r, w'. split; [exact E|exact Hp].
Defined.

(** * A shot in stationary mode *)

(** [_shot] and the cave. *)
Lemma shot_cave w a w' :
  _shot w = Ok (a, w') ->
  bats_cleared (hazards (_state w)) (hazards (_state w')).
Proof.
  unfold _shot. intros H. rewrite gets_eq in H.
  apply bind_ok in H. destruct H as (x & w1 & Em & H).
  inv_ok Em. rewrite gets_eq in H. cbn [_state arrows set_arrows] in H.
  destruct (int8 (arrows (_state w) - 1) <? 0).
  - inv_ok H. display_steps. apply bats_cleared_refl.
  - rewrite gets_eq in H.
    destruct (shot_loop_inv _ _ _ _ H) as (_ & Ib & _). exact Ib.
Qed.

Lemma count_one_unique h (l : list wumpus_hazard_type_t) :
  forall a b,
    count_hazard h l = 1%nat ->
    nth_error l a = Some h -> nth_error l b = Some h -> a = b.
Proof.
  unfold count_hazard.
  induction l as [|x t IH]; intros a b Hc Ha Hb; [destruct a; discriminate|].
  simpl in Hc.
  assert (Hin : forall n, nth_error t n = Some h ->
                          (0 < count_occ hazard_eq_dec t h)%nat).
  { intros n Hn. apply count_occ_In. eapply nth_error_In; eauto. }
  destruct a as [|a], b as [|b]; simpl in Ha, Hb; try reflexivity.
  - inversion Ha; subst x. destruct (hazard_eq_dec h h); [|congruence].
    specialize (Hin _ Hb). lia.
  - inversion Hb; subst x. destruct (hazard_eq_dec h h); [|congruence].
    specialize (Hin _ Ha). lia.
  - f_equal. destruct (hazard_eq_dec x h).
    + specialize (Hin _ Ha). lia.
    + exact (IH _ _ Hc Ha Hb).
Qed.

Lemma wumpus_unique hz a b :
  count_hazard wumpus_hazard_wumpus hz = 1%nat ->
  array_get hz a = Some wumpus_hazard_wumpus ->
  array_get hz b = Some wumpus_hazard_wumpus -> a = b.
Proof.
  unfold array_get. intros Hc Ha Hb.
  destruct (a <? 0) eqn:Ea; [discriminate|].
  destruct (b <? 0) eqn:Eb; [discriminate|].
  apply Z.ltb_ge in Ea, Eb.
  pose proof (count_one_unique _ _ _ _ Hc Ha Hb). lia.
Qed.

(** The Wumpus flees and the caller looks for it in the player's room. *)
Lemma flee_then_check w0 x w1 :
  List.length (hazards (_state w0)) = 20%nat ->
  count_hazard wumpus_hazard_wumpus (hazards (_state w0)) = 1%nat ->
  (moved <- _wumpus_flee ;;
   if moved then hit <- wumpus_on_player ;;
                 (if hit then killed_by_wumpus else ret tt)
   else ret tt) w0 = Ok (x, w1) ->
  exists i j,
    array_get (hazards (_state w0)) i = Some wumpus_hazard_wumpus /\
    connected i j = true /\
    array_get (hazards (_state w1)) j = Some wumpus_hazard_wumpus /\
    array_get (hazards (_state w1)) i = Some wumpus_hazard_none /\
    ((j = player_room (_state w1) /\
      current_action (_state w1) = wumpus_face_died) \/
     (j <> player_room (_state w1) /\
      current_action (_state w1) = current_action (_state w0))).
Proof.
  intros Hlen Hcount H.
  apply bind_ok in H. destruct H as (moved & w2 & Hflee & H).
  pose proof (wumpus_flee_counts _ _ _ Hlen Hflee) as (_ & _ & _ & Hone).
  destruct (Hone Hcount) as [-> Hcount2]. unfold _wumpus_flee in Hflee.
  apply wumpus_flee_from_inv in Hflee.
  destruct Hflee as [(Hf & _)|(_ & i & n & raw & t & hz1 & hz2 & Hin & Hi
                               & Htape & Hconn & S1 & S2 & ->)];
    [discriminate Hf|].
  cbn [_state hazards set_hazards] in Hcount2.
  assert (Hne : i <> n).
  { apply connected_spec in Hconn. destruct Hconn as (row & Hrow & Hr).
    destruct (cave_map_link _ _ _ Hrow Hr) as (_ & _ & Hne & _). exact Hne. }
  assert (Hn : array_get hz2 n = Some wumpus_hazard_wumpus)
    by (rewrite (array_get_set _ _ _ _ S2), Z.eqb_refl; reflexivity).
  assert (Hi2 : array_get hz2 i = Some wumpus_hazard_none).
  { rewrite (array_get_set _ _ _ _ S2).
    destruct (Z.eqb_spec i n); [contradiction|].
    rewrite (array_get_set _ _ _ _ S1), Z.eqb_refl. reflexivity. }
  apply bind_ok in H. destruct H as (hit & w3 & Hhit & H).
  unfold wumpus_on_player in Hhit. rewrite gets_eq in Hhit.
  apply bind_ok in Hhit. destruct Hhit as (h & w5 & Hr & Hret).
  apply read_hazard_ok in Hr. destruct Hr as [Hh ->]. inv_ok Hret.
  cbn [_state hazards set_hazards player_room] in Hh.
  exists i, n. split; [exact Hi|]. split; [exact Hconn|].
  destruct (hazard_eqb h wumpus_hazard_wumpus) eqn:Ew.
  - assert (h = wumpus_hazard_wumpus)
      by (destruct h; try discriminate Ew; reflexivity).
    subst h. unfold killed_by_wumpus in H. inv_ok H. display_steps.
    cbn [_state]. st'. split; [exact Hn|]. split; [exact Hi2|]. left.
    split; [exact (wumpus_unique _ _ _ Hcount2 Hn Hh)|reflexivity].
  - inv_ok H. cbn [_state]. st. split; [exact Hn|]. split; [exact Hi2|].
    right. split; [|reflexivity]. intros ->. rewrite Hn in Hh.
    inversion Hh; subst h. discriminate Ew.
Qed.

Lemma modify_eq {B} f (k : unit -> M B) w :
  bind (modify f) k w
  = k tt (mk_world (f (_state w)) (rand_tape w) (host_log w)).
Proof. reflexivity. Qed.

(** X19.  The confirm that completes the shot path, in stationary mode
    and in a well formed state.  Either the shot wins; or the Wumpus moves,
    always, from its room to a connected room, which may be the player's:
    then the game is lost.  If it is not, the game goes on in the state
    "SHOT", unless the shot itself was fatal (no arrow left, or the arrow
    came back to the player). *)
Theorem stationary_shot (u : Z) (w : world) r w' :
  wf (_state w) ->
  current_action (_state w) = wumpus_face_shoot_rooms ->
  shots_path_len (_state w) <= shots_picked (_state w) + 1 ->
  active_wumpus_mode (_state w) = false ->
  wumpus_face_loop EVENT_ALARM_BUTTON_UP u w = Ok (r, w') ->
  current_action (_state w') = wumpus_face_won \/
  exists i j,
    hazard_at (_state w) i = Some wumpus_hazard_wumpus /\
    connected i j = true /\
    hazard_at (_state w') j = Some wumpus_hazard_wumpus /\
    hazard_at (_state w') i = Some wumpus_hazard_none /\
    ((j = player_room (_state w') /\
      current_action (_state w') = wumpus_face_died) \/
     (j <> player_room (_state w') /\
      (current_action (_state w') = wumpus_face_shoot \/
       current_action (_state w') = wumpus_face_died))).
Proof.
  intros [Hb Hm] Ha Hlast Hst H. apply loop_ok in H. destruct H as [x H].
  cbn [loop_switch] in H. unfold loop_alarm_button_up in H.
  apply bind_ok in H. destruct H as (x1 & w1 & Hsw & H).
  apply bind_ok in H. destruct H as (x2 & w2 & Hd & Hroll).
  assert (Hst1 : active_wumpus_mode (_state w1) = false).
  { pose proof (preserves_settings_confirm_switch u _ _ _ Hsw) as E.
    unfold game_settings in E. rewrite Hst in E. congruence. }
  display_steps.
  apply active_wumpus_roll_action in Hroll. destruct Hroll as [Hoff _].
  rewrite (Hoff Hst1). clear Hoff. cbn [_state]. st'.
  unfold hazard_at. st'.
  unfold confirm_switch in Hsw. rewrite gets_eq, Ha in Hsw.
  cbv beta iota in Hsw. rewrite gets_eq in Hsw. rewrite gets_eq in Hsw.
  apply bind_ok in Hsw. destruct Hsw as (x3 & w3 & Hw & Hsw).
  apply write_shots_path_ok in Hw. destruct Hw as (p' & Hset & ->).
  unfold mode_ok in Hm. rewrite Ha in Hm.
  rewrite uint8_small in Hsw by (rooms; lia).
  rewrite !modify_eq in Hsw. rewrite gets_eq in Hsw. rewrite gets_eq in Hsw.
  cbn [_state rand_tape host_log] in Hsw. st.
  rewrite (proj2 (Z.leb_le _ _) Hlast) in Hsw. unfold when at 1 in Hsw.
  apply bind_ok in Hsw. destruct Hsw as (a & w4 & Hshot & Hsw).
  pose proof (shot_result _ _ _ Hshot) as Hres.
  pose proof (shot_cave _ _ _ Hshot) as Hcave.
  cbn [_state] in Hcave. st.
  assert (Hact4 : active_wumpus_mode (_state w4) = false).
  { frame_of Hshot active_wumpus_mode. rewrite Hshot. exact Hst. }
  rewrite modify_eq in Hsw.
  destruct Hres as [-> | [-> | ->]];
    cbv [action_eqb action_code Z.eqb Pos.eqb] in Hsw.
  2:{ left. display_steps. reflexivity. }
  all: right; rewrite gets_eq in Hsw; cbn [_state] in Hsw; st;
    rewrite Hact4 in Hsw; cbv [negb when] in Hsw.
  all: apply flee_then_check in Hsw;
    [|cbn [_state]; st; rewrite (proj1 Hcave); apply Hb
     |cbn [_state]; st;
      exact (proj1 (bats_cleared_census _ _ Hcave (ok_census _ Hb)))].
  all: destruct Hsw as (i & j & Hi & Hconn & Hj & Hi1 & Hout);
    cbn [_state] in Hi, Hout; st; exists i, j.
  all: (split;
        [destruct (proj1 (proj2 Hcave) i) as [E | [_ E]];
         [rewrite <- E; exact Hi|rewrite E in Hi; discriminate Hi]|]).
  all: split; [exact Hconn|]; split; [exact Hj|]; split; [exact Hi1|].
  all: destruct Hout as [Hout | [Hne Hact]]; [left; exact Hout|right].
  all: split; [exact Hne|]; rewrite Hact; auto.
Qed.

Lemma stationary_shot_witness :
  exists r w',
    wumpus_face_loop EVENT_ALARM_BUTTON_UP 0
      (mk_world sample_state [2; 1] []) = Ok (r, w') /\
    (current_action (_state w') = wumpus_face_won \/
     exists i j,
       hazard_at sample_state i = Some wumpus_hazard_wumpus /\
       connected i j = true /\
       hazard_at (_state w') j = Some wumpus_hazard_wumpus /\
       hazard_at (_state w') i = Some wumpus_hazard_none).
Proof.
  pose (w := mk_world sample_state [2; 1] []).
  destruct (wumpus_face_loop EVENT_ALARM_BUTTON_UP 0 w)
    as [[r w']|e] eqn:E; [|vm_compute in E; discriminate E].
  exists r, w'. split; [exact E|].
  destruct (stationary_shot 0 w r w' sample_state_wf eq_refl
              ltac:(simpl; lia) eq_refl E)
    as [Hwon | (i & j & Hi & Hc & Hj & Hi' & _)]; [left; exact Hwon|].
  right. exists i, j. auto.
Defined.

(** * Activation *)

(** [_generate_hazards] leaves the player's room empty. *)
Lemma generate_hazards_player_room p w u w' :
  List.length (hazards (_state w)) = 20%nat ->
  0 <= p < WUMPUS_FACE_ROWS ->
  _generate_hazards p w = Ok (u, w') ->
  array_get (hazards (_state w')) p = Some wumpus_hazard_none.
Proof.
  intros Hlen Hp H. unfold _generate_hazards in H.
  apply bind_ok in H. destruct H as (u0 & w0 & E0 & H).
  rewrite (clear_hazards _ Hlen) in E0. inversion E0; subst u0 w0; clear E0.
  apply bind_ok in H. destruct H as (u1 & w2 & Epits & H).
  change (zrange 0 WUMPUS_NUM_PITS) with [0; 1] in Epits. simpl in Epits.
  apply bind_ok in Epits. destruct Epits as (u2 & w1 & Ep1 & Epits).
  apply bind_ok in Epits. destruct Epits as (u3 & w2' & Ep2 & Epits).
  inv_ok Epits.
  apply bind_ok in H. destruct H as (u4 & w4 & Ebats & H).
  change (zrange 0 WUMPUS_NUM_BATS) with [0; 1] in Ebats. simpl in Ebats.
  apply bind_ok in Ebats. destruct Ebats as (u5 & w3 & Eb1 & Ebats).
  apply bind_ok in Ebats. destruct Ebats as (u6 & w4' & Eb2 & Ebats).
  inv_ok Ebats.
  apply place_hazard_spec in Ep1, Ep2, Eb1, Eb2, H.
  destruct Ep1 as (_ & P1 & _). destruct Ep2 as (_ & P2 & _).
  destruct Eb1 as (_ & P3 & _). destruct Eb2 as (_ & P4 & _).
  destruct H as (_ & P5 & _).
  unfold set_hazards in P1. cbn [_state hazards] in P1.
  rewrite P5, P4, P3, P2, P1.
  unfold array_get, WUMPUS_FACE_ROWS in *.
  destruct (p <? 0) eqn:E; [apply Z.ltb_lt in E; lia|].
  assert (Hn : (Z.to_nat p < 20)%nat) by lia.
  revert Hn. generalize (Z.to_nat p). intros n Hn.
  do 20 (destruct n as [|n]; [reflexivity|]). lia.
Qed.

(** The cave of a new game. *)
Definition fresh_cave (p : Z) (hz : list wumpus_hazard_type_t) : Prop :=
  List.length hz = 20%nat /\
  count_hazard wumpus_hazard_wumpus hz = 1%nat /\
  count_hazard wumpus_hazard_pitfall hz = Z.to_nat WUMPUS_NUM_PITS /\
  count_hazard wumpus_hazard_bat hz = Z.to_nat WUMPUS_NUM_BATS /\
  count_hazard wumpus_hazard_none hz = 15%nat /\
  count_hazard wumpus_hazard_arrow hz = 0%nat /\
  array_get hz p = Some wumpus_hazard_none.

Lemma fresh_cave_census p hz : fresh_cave p hz -> census hz.
Proof.
  intros (_ & Cw & Cp & Cb & _ & Ca & _). unfold census.
  rewrite Cw, Cp, Cb, Ca. auto.
Qed.

Lemma wp_generate_fresh p s :
  List.length (hazards s) = 20%nat -> room_ok p ->
  wp (_generate_hazards p)
     (fun _ s' => exists hz, s' = set_hazards hz s /\ fresh_cave p hz) s.
Proof.
  intros Hl Hp.
  eapply wp_mono;
    [apply (wp_and_ok _ (fun (_ : unit) s' => fresh_cave p (hazards s')));
     [apply wp_generate_hazards, Hl|]|].
  - intros t l a w' E.
    pose proof (generate_hazards_player_room
                  p (mk_world s t l) a w' Hl Hp E) as Hroom.
    apply generate_hazards_tally in E; [|exact Hl]. destruct E as [L C].
    pose proof (C wumpus_hazard_wumpus) as Cw.
    pose proof (C wumpus_hazard_pitfall) as Cp.
    pose proof (C wumpus_hazard_bat) as Cb.
    pose proof (C wumpus_hazard_none) as Cn.
    pose proof (C wumpus_hazard_arrow) as Ca.
    unfold indicator in Cw, Cp, Cb, Cn, Ca.
    simpl in Cw, Cp, Cb, Cn, Ca.
    unfold fresh_cave.
    change (Z.to_nat WUMPUS_NUM_PITS) with 2%nat.
    change (Z.to_nat WUMPUS_NUM_BATS) with 2%nat.
    repeat split; try assumption; lia.
  - cbv beta. intros ? s' [(hz & -> & _) Hf]. exists hz.
    split; [reflexivity|exact Hf].
Qed.

(** The state [_init_game] builds for the player's room [r] and the cave
    [hz]; the shot path is the one member it keeps. *)
Definition new_game (r : Z) (hz : list wumpus_hazard_type_t)
           (path : list Z) : wumpus_game_state_t :=
  mk_state r hz WUMPUS_NUM_ARROWS wumpus_face_shoot (-1) true true
           0 0 0 0 path 0 0 MELODY_NONE 0 0 false true.

Lemma wp_init_game_new s :
  List.length (hazards s) = 20%nat ->
  wp _init_game
     (fun _ s' => exists r hz,
        room_ok r /\ fresh_cave r hz /\ s' = new_game r hz (shots_path s)) s.
Proof.
  intros Hh. unfold _init_game. wp_walk.
  apply wp_get_rand_num; [unfold WUMPUS_FACE_ROWS; lia|]. intros r Hroom.
  wp_walk. wp_by wp_update_lap_indicator. intros ? ? ->. wp_walk.
  wp_by wp_update_sound_indicator. intros ? ? ->. wp_walk.
  wp_by wp_generate_fresh; [st; exact Hh|st; exact Hroom|].
  intros ? s' (hz & -> & Hf). st. exists r, hz.
  split; [exact Hroom|]. split; [exact Hf|reflexivity].
Qed.

Lemma wp_activate_new s :
  List.length (hazards s) = 20%nat ->
  wp wumpus_face_activate
     (fun _ s' => exists r hz,
        room_ok r /\ fresh_cave r hz /\
        s' = set_current_melody MELODY_STARTUP
               (new_game r hz (shots_path s))) s.
Proof.
  intros Hl.
  unfold wumpus_face_activate. apply wp_bind, wp_call. apply wp_bind.
  wp_by wp_init_game_new; [exact Hl|].
  intros ? s1 (r & hz & Hr & Hf & ->).
  unfold _play_melody, new_game. wp_walk; st; try discriminate.
  wp_by wp_update_lap_indicator. intros ? ? ->.
  wp_by wp_update_sound_indicator. intros ? ? ->.
  exists r, hz. split; [exact Hr|]. split; [exact Hf|reflexivity].
Qed.

(** X20.  Every activation of the face starts a new game, whatever game
    was going on: the player is in a room 0..19 that holds no hazard, the
    cave holds exactly one Wumpus, two pits and two bats in five different
    rooms, there are five arrows, the screen is "SHOT", no exit is
    selected, the Wumpus is stationary and the sound is on, and the
    start-up melody has just been started (so the next ticks play it). *)
Theorem activate_new_game (w : world) x w' :
  List.length (hazards (_state w)) = 20%nat ->
  wumpus_face_activate w = Ok (x, w') ->
  exists r hz,
    room_ok r /\ fresh_cave r hz /\
    _state w'
    = set_current_melody MELODY_STARTUP
        (new_game r hz (shots_path (_state w))).
Proof.
  intros Hl H.
  exact (wp_ok _
           (fun _ s' => exists r hz,
              room_ok r /\ fresh_cave r hz /\
              s' = set_current_melody MELODY_STARTUP
                     (new_game r hz (shots_path (_state w))))
           _ _ _ (wp_activate_new _ Hl) H).
Qed.

Lemma activate_new_game_witness :
  exists w' r hz,
    wumpus_face_activate (boot first_game_tape) = Ok (tt, w') /\
    fresh_cave r hz /\
    _state w' = set_current_melody MELODY_STARTUP
                  (new_game r hz [0; 0; 0; 0; 0]).
Proof.
  destruct (wumpus_face_activate (boot first_game_tape))
    as [[[] w']|e] eqn:E; [|vm_compute in E; discriminate E].
  destruct (activate_new_game (boot first_game_tape) tt w' eq_refl E)
    as (r & hz & _ & Hf & Hs).
  exists w', r, hz. split; [reflexivity|]. split; [exact Hf|exact Hs].
Defined.

(** * The hazard warning and the unwritten slot *)

Lemma adjacent_hazards_same cols :
  forall w buf w1, adjacent_hazards cols w = Ok (buf, w1) -> w1 = w.
Proof.
  induction cols as [|i rest IH]; intros w buf w1 H; simpl in H.
  - inv_ok H. reflexivity.
  - rewrite gets_eq in H.
    apply bind_ok in H. destruct H as (room & w2 & Hc & H).
    apply read_cave_map_ok in Hc. destruct Hc as [_ ->].
    apply bind_ok in H. destruct H as (h & w3 & Hh & H).
    apply read_hazard_ok in Hh. destruct Hh as [_ ->].
    apply bind_ok in H. destruct H as (tl & w4 & Ht & H).
    apply IH in Ht. subst w4. inv_ok H. reflexivity.
Qed.

Lemma bind_ext {A B} (m : M A) (k k' : A -> M B) w :
  (forall a w1, m w = Ok (a, w1) -> k a w1 = k' a w1) ->
  bind m k w = bind m k' w.
Proof.
  intros H. unfold bind. destruct (m w) as [[a w1]|f]; [|reflexivity].
  now apply H.
Qed.

Lemma ret_eq {A B} (a : A) (k : A -> M B) w : bind (ret a) k w = k a w.
Proof. reflexivity. Qed.

(** X21.  [_display_hazards] collects the hazards of the connected rooms
    in a local buffer and shows the entry [hazard_point] points at.  When
    the pointer is below the number of entries collected (or nothing was
    collected) the result does not depend on what the stack held.  When it
    is not, which a move into a room with fewer hazards around it brings
    about, the function reads a slot of the buffer it has not written
    (line 299): it shows the warning, and starts the bat melody, that the
    stale byte [u] stands for, and puts the pointer back to 0. *)
Theorem display_hazards_slot (u : Z) (w : world) buf w1 :
  adjacent_hazards (zrange 0 WUMPUS_FACE_COLS) w = Ok (buf, w1) ->
  let cnt := Z.of_nat (List.length buf) in
  let hp := hazard_point (_state w) in
  (hp < cnt \/ cnt = 0 ->
   forall u', _display_hazards u' w = _display_hazards u w) /\
  (0 < cnt <= hp -> hp < WUMPUS_FACE_COLS ->
   _display_hazards u w
   = (_display_hazard (uint8 u) ;;
      when (uint8 u =? hazard_code wumpus_hazard_bat)
           (_play_melody MELODY_BATS) ;;
      modify (set_hazard_point 0)) w).
Proof.
  intros Hadj cnt hp.
  pose proof (adjacent_hazards_same _ _ _ _ Hadj). subst w1.
  unfold _display_hazards.
  split.
  - intros Hin u'. rewrite !(bind_eq _ _ _ _ _ Hadj). cbv zeta.
    fold cnt. destruct (0 <? cnt) eqn:E0; [|reflexivity].
    rewrite !gets_eq. fold hp.
    destruct (hp <? cnt) eqn:E1; [reflexivity|].
    apply Z.ltb_lt in E0. apply Z.ltb_ge in E1. lia.
  - intros Hout H3. rewrite (bind_eq _ _ _ _ _ Hadj). cbv zeta. fold cnt.
    rewrite (proj2 (Z.ltb_lt 0 cnt)) by lia.
    rewrite gets_eq. fold hp.
    rewrite (proj2 (Z.ltb_ge hp cnt)) by lia.
    rewrite (proj2 (Z.ltb_lt hp WUMPUS_FACE_COLS)) by lia.
    rewrite ret_eq.
    apply bind_ext. intros x1 w2 _. apply bind_ext. intros x2 w3 _.
    unfold WUMPUS_FACE_COLS in H3.
    assert (0 <= hp) by lia.
    cbv [bind modify gets when ret _state rand_tape host_log].
    st. rewrite uint8_small by lia.
    rewrite (proj2 (Z.leb_le cnt (hp + 1))) by lia.
    destruct w3 as [[] t l]. reflexivity.
Qed.

(** The player in room 0 of the sample cave, next to the Wumpus (room 1)
    and a bat (room 4) and to no pit, with the pointer at 2. *)
Definition stale_world : world :=
  mk_world (set_hazard_point 2 sample_state) [] [].

Lemma display_hazards_slot_witness :
  _display_hazards 3 stale_world
  = Ok (tt, mk_world sample_state []
              [watch_display_text WATCH_POSITION_SECONDS "Pt"]).
Proof.
  exact (eq_trans
           (proj2 (display_hazards_slot 3 stale_world [1; 2] stale_world
                                        eq_refl)
                  ltac:(simpl; lia) ltac:(reflexivity))
           eq_refl).
Defined.

(** The unwritten slot is read in play.  The player starts in room 0 with
    the Wumpus (room 1) and a pit (room 4) next door, and the first
    warning shown moves the pointer to 1.  The player then walks to room
    7, which has one hazard next door (the pit of room 6), so the warning
    shown on arrival is the stale byte: with the byte 2 the bat melody
    starts though both bats are rooms away (12 and 13), with the byte 1
    no melody starts. *)
Definition stale_walk (u : Z) : list (movement_event_type_t * Z) :=
  ticks 9 ++
  [(EVENT_LIGHT_BUTTON_UP, 0); (EVENT_ALARM_BUTTON_UP, 0);
   (EVENT_LIGHT_BUTTON_UP, 0); (EVENT_LIGHT_BUTTON_UP, 0);
   (EVENT_LIGHT_BUTTON_UP, 0); (EVENT_ALARM_BUTTON_UP, u)].

Remark stale_slot_in_play :
  exists s1 s2,
    final_state (session [0; 4; 6; 12; 13; 1] (stale_walk 2)) = Some s1 /\
    final_state (session [0; 4; 6; 12; 13; 1] (stale_walk 1)) = Some s2 /\
    player_room s1 = 7 /\ current_action s1 = wumpus_face_go /\
    current_melody s1 = MELODY_BATS /\ current_melody s2 = MELODY_NONE.
Proof.
  do 2 eexists. split; [vm_compute; reflexivity|].
  split; [vm_compute; reflexivity|]. repeat split.
Qed.

(** * A game that ends in quiet mode *)








(** * The confirm button in the menus *)

(** What "confirm" does where no random number is needed. *)
Definition confirmed (s : wumpus_game_state_t) : wumpus_game_state_t :=
  match current_action s with
  | wumpus_face_go =>
      set_current_action wumpus_face_choosing_room
        (set_action_tick_show true
           (set_digits_tick_show false (set_selected_room_n (-1) s)))
  | wumpus_face_shoot =>
      set_current_action wumpus_face_shoot_n
        (set_action_tick_show true (set_shots_path_len 1 s))
  | wumpus_face_shoot_n =>
      set_current_action wumpus_face_shoot_rooms
        (set_action_tick_show true
           (set_shots_picked 0
              (set_shots_room
                 (match array_get cave_map (player_room s) with
                  | Some (r :: _) => r
                  | _ => 0
                  end) s)))
  | wumpus_face_shoot_rooms =>
      set_shots_picked (shots_picked s + 1)
        (set_action_tick_show true
           (set_shots_room 0
              (set_shots_path
                 (match array_set (shots_path s) (shots_picked s)
                                  (shots_room s) with
                  | Some p' => p'
                  | None => shots_path s
                  end) s)))
  | _ => s
  end.

Lemma wp_confirm_menu u s :
  wf s ->
  current_action s <> wumpus_face_choosing_room ->
  (current_action s = wumpus_face_shoot_rooms ->
   shots_picked s + 1 < shots_path_len s) ->
  wp (confirm_switch u) (fun _ s' => s' = confirmed s) s.
Proof.
  intros [Hb Hm] Hnc Hmore. unfold confirm_switch, confirmed.
  apply wp_bind, wp_gets. unfold mode_ok in Hm. pose proof Hb as [].
  destruct (current_action s) eqn:Ea; try congruence.
  - wp_walk. reflexivity.
  - wp_walk. unfold read_cave_map. apply wp_bind.
    destruct (array_get_total cave_map (player_room s)) as [row Hrow];
      [exact ok_player_room0|].
    destruct (cave_map_row _ _ Hrow) as (a & b & c & -> & _).
    eapply wp_in_bounds; [exact Hrow|].
    eapply wp_in_bounds; [reflexivity|]. wp_walk.
    rewrite Hrow. reflexivity.
  - specialize (Hmore eq_refl).
    apply wp_bind, wp_gets. apply wp_bind, wp_gets.
    apply wp_bind, wp_write_shots_path; [assumption|rooms; lia|].
    intros p' Hp'. rewrite Hp'.
    rewrite (uint8_small (shots_picked s + 1)) by (rooms; lia).
    wp_walk; st; bools; [lia|reflexivity].
  - wp_walk. wp_by wp_display_current_action; [base_of Hb|].
    intros ? ? ->. wp_walk. reflexivity.
  - wp_walk. reflexivity.
  - wp_walk. reflexivity.
  - wp_walk. reflexivity.
Qed.

Lemma wp_conj {A} (m : M A) (Q1 Q2 : A -> wumpus_game_state_t -> Prop) s :
  wp m Q1 s -> wp m Q2 s -> wp m (fun a s' => Q1 a s' /\ Q2 a s') s.
Proof.
  intros H1 H2 t l. specialize (H1 t l). specialize (H2 t l).
  destruct (m (mk_world s t l)) as [[a w']|f]; [split|]; assumption.
Qed.

Lemma confirmed_settings s :
  active_wumpus_mode (confirmed s) = active_wumpus_mode s.
Proof. unfold confirmed. destruct (current_action s); reflexivity. Qed.

(** X23.  "Confirm" in the menus, in stationary mode and in a well formed
    state, draws no random number and does this: on "GO" it opens the
    choice of the exit with none selected; on "SHOT" it opens the choice
    of the distance at 1; on the distance it opens the choice of the first
    room of the path, starting at the first room connected to the
    player's; on a room of the path that is not the last it stores the
    room in the path and goes on to the next entry, starting at room 0
    again; during a bat transport and after the game is over it does
    nothing. *)
Theorem confirm_menu (u : Z) (w : world) r w' :
  wf (_state w) ->
  active_wumpus_mode (_state w) = false ->
  current_action (_state w) <> wumpus_face_choosing_room ->
  (current_action (_state w) = wumpus_face_shoot_rooms ->
   shots_picked (_state w) + 1 < shots_path_len (_state w)) ->
  wumpus_face_loop EVENT_ALARM_BUTTON_UP u w = Ok (r, w') ->
  _state w' = confirmed (_state w) /\ rand_tape w' = rand_tape w.
Proof.
  intros Hw Hst Hnc Hmore H. apply loop_ok in H. destruct H as [x H].
  cbn [loop_switch] in H. unfold loop_alarm_button_up in H.
  apply bind_ok in H. destruct H as (x1 & w1 & Hsw & H).
  apply bind_ok in H. destruct H as (x2 & w2 & Hd & Hroll).
  pose proof (wp_ok _ _ _ _ _ (wp_confirm_menu u _ Hw Hnc Hmore) Hsw) as Hs1.
  pose proof (wp_ok _ _ _ _ _ (wp_confirm_switch u _ Hw) Hsw) as Hw1.
  pose proof (wp_ok _ _ _ _ _ (wp_display_current_action _ (proj1 Hw1)) Hd)
    as Hs2.
  unfold unchanged in Hs2.
  pose proof (quiet_tape_display_current_action _ _ _ Hd) as Ht2.
  apply active_wumpus_roll_action in Hroll. destruct Hroll as [Hoff _].
  rewrite Hoff by (rewrite Hs2, Hs1, confirmed_settings; exact Hst).
  split; [congruence|]. rewrite Ht2. clear Hoff Hd Hs2 Ht2 Hs1 Hw1.
  unfold confirm_switch in Hsw. rewrite gets_eq in Hsw.
  destruct (current_action (_state w)) eqn:Ea; try congruence.
  5-7: inv_ok Hsw; reflexivity.
  1,2,4: revert Hsw;
    match goal with
    | |- ?m _ = Ok _ -> _ =>
        assert (P : quiet rand_tape m)
          by (try unfold read_cave_map; quiet_walk);
        apply P
    end.
  specialize (Hmore eq_refl). destruct Hw as [Hb Hm].
  unfold mode_ok in Hm. rewrite Ea in Hm.
  rewrite gets_eq in Hsw. rewrite gets_eq in Hsw.
  apply bind_ok in Hsw. destruct Hsw as (x3 & w3 & Hwr & Hsw).
  apply write_shots_path_ok in Hwr. destruct Hwr as (p' & _ & ->).
  rewrite !modify_eq in Hsw. rewrite gets_eq in Hsw. rewrite gets_eq in Hsw.
  cbn [_state rand_tape host_log] in Hsw. st.
  rewrite uint8_small in Hsw by (rooms; lia).
  rewrite (proj2 (Z.leb_gt _ _)) in Hsw by lia.
  inv_ok Hsw. reflexivity.
Qed.

Lemma confirm_menu_witness :
  exists r w',
    wumpus_face_loop EVENT_ALARM_BUTTON_UP 0
      (mk_world (set_shots_picked 0 sample_state) [] []) = Ok (r, w') /\
    shots_path (_state w') = [0; 13; 0; 0; 0] /\
    shots_picked (_state w') = 1.
Proof.
  pose (w := mk_world (set_shots_picked 0 sample_state) [] []).
  assert (Hw : wf (_state w)).
  { destruct sample_state_wf as [Hb Hm]. split.
    - destruct Hb. constructor; assumption.
    - unfold mode_ok, WUMPUS_NUM_ARROWS. simpl. lia. }
  destruct (wumpus_face_loop EVENT_ALARM_BUTTON_UP 0 w)
    as [[r w']|e] eqn:E; [|vm_compute in E; discriminate E].
  exists r, w'. split; [exact E|].
  rewrite (proj1 (confirm_menu 0 w r w' Hw eq_refl ltac:(discriminate)
                               ltac:(intros _; simpl; lia) E)).
  split; reflexivity.
Defined.

(** * The arrows *)

Lemma shot_arrows w a w' :
  _shot w = Ok (a, w') ->
  arrows (_state w') = int8 (arrows (_state w) - 1) /\
  (int8 (arrows (_state w) - 1) < 0 -> a = wumpus_face_died).
Proof.
  unfold _shot. intros H. rewrite gets_eq in H.
  apply bind_ok in H. destruct H as (x & w1 & Em & H).
  inv_ok Em. rewrite gets_eq in H. cbn [_state arrows set_arrows] in H.
  destruct (int8 (arrows (_state w) - 1) <? 0) eqn:El.
  - inv_ok H. display_steps. cbn. auto.
  - rewrite gets_eq in H. cbn [_state] in H.
    destruct (shot_loop_inv _ _ _ _ H) as (Ia & _).
    cbn in Ia. split; [exact Ia|]. apply Z.ltb_ge in El. lia.
Qed.

(** The arrows and the lost game across one event. *)
Definition arrows_step (s s' : wumpus_game_state_t) : Prop :=
  (arrows s' = arrows s /\
   (current_action s = wumpus_face_died ->
    current_action s' = wumpus_face_died))
  \/ arrows s' = WUMPUS_NUM_ARROWS
  \/ (current_action s = wumpus_face_shoot_rooms /\
      arrows s' = int8 (arrows s - 1) /\
      (arrows s' < 0 -> current_action s' = wumpus_face_died)).

Definition arrows_view (s : wumpus_game_state_t) :=
  (arrows s, current_action s).

Lemma arrows_view_step s s' :
  arrows_view s' = arrows_view s -> arrows_step s s'.
Proof.
  unfold arrows_view. intros H. left.
  split; [exact (f_equal fst H)|].
  pose proof (f_equal snd H) as Hc. cbn [snd] in Hc. congruence.
Qed.

Lemma loop_arrows e u w r w' :
  wumpus_face_loop e u w = Ok (r, w') ->
  arrows_step (_state w) (_state w').
Proof.
  intros H. destruct e.
  - apply loop_ok in H. destruct H as [x H]. cbn [loop_switch] in H.
    apply arrows_view_step. frame_of H arrows_view. exact H.
  - apply loop_ok in H. destruct H as [x H]. cbn [loop_switch] in H.
    unfold loop_tick in H. rewrite gets_eq in H.
    destruct (melody_is_none (current_melody (_state w))) eqn:Em;
      cbn [negb] in H; cbv iota in H;
      [|apply arrows_view_step; frame_of H arrows_view; exact H].
    rewrite gets_eq in H.
    destruct (0 <? led_cnt (_state w)) eqn:El.
    { destruct (led_cnt (_state w) =? 1) eqn:E1.
      - right; left.
        apply bind_ok in H. destruct H as (x1 & w1 & E & E2).
        simpl in E.
        apply bind_ok in E. destruct E as (x2 & w2 & _ & E).
        apply bind_ok in E. destruct E as (x3 & w3 & Ei & E).
        apply init_game_spec in Ei. destruct Ei as (_ & _ & Har & _).
        inv_ok E. display_steps. inv_ok E2. exact Har.
      - apply arrows_view_step. simpl in H. frame_of H arrows_view.
        exact H. }
    rewrite gets_eq in H.
    destruct (current_action (_state w)) eqn:Ea;
      cbv [action_eqb action_code Z.eqb Pos.eqb negb when] in H.
    6:{ left. split; [|intros E; congruence].
        frame_of H arrows. exact H. }
    all: apply arrows_view_step; frame_of H arrows_view; rewrite H;
      unfold arrows_view; rewrite Ea; reflexivity.
  - apply loop_ok in H. destruct H as [x H]. cbn [loop_switch] in H.
    left. split.
    + unfold loop_light_button_up in H. frame_of H arrows. exact H.
    + intros Ha.
      assert (E : wumpus_face_loop EVENT_LIGHT_BUTTON_UP u w
                  = Ok ((led_cnt (_state w') =? 0)
                        && melody_is_none (current_melody (_state w')), w'))
        by (unfold wumpus_face_loop; cbn [loop_switch];
            rewrite (bind_eq _ _ _ _ _ H); reflexivity).
      destruct (cycle_game_over _ _ _ _ (or_intror Ha) E) as [-> _].
      exact Ha.
  - apply loop_ok in H. destruct H as [x H]. cbn [loop_switch] in H.
    apply arrows_view_step. frame_of H arrows_view. exact H.
  - apply loop_ok in H. destruct H as [x H]. cbn [loop_switch] in H.
    unfold loop_alarm_button_up in H.
    apply bind_ok in H. destruct H as (x1 & w1 & Hsw & H).
    apply bind_ok in H. destruct H as (x2 & w2 & Hd & Hroll).
    assert (Htail : arrows (_state w') = arrows (_state w1) /\
                    (current_action (_state w1) = wumpus_face_died ->
                     current_action (_state w') = wumpus_face_died)).
    { frame_of Hd arrows_view. unfold arrows_view in Hd.
      pose proof (f_equal fst Hd) as Hd1. pose proof (f_equal snd Hd) as Hd2.
      cbn [fst snd] in Hd1, Hd2.
      pose proof (active_wumpus_roll_action _ _ _ Hroll) as [_ Hact].
      frame_of Hroll arrows. split; [congruence|].
      intros Hdied. destruct Hact as [Hact | (_ & Hact & _)]; congruence. }
    destruct Htail as [Har Hdied].
    unfold confirm_switch in Hsw. rewrite gets_eq in Hsw.
    destruct (current_action (_state w)) eqn:Ea.
    3:{ rewrite gets_eq in Hsw. rewrite gets_eq in Hsw.
        apply bind_ok in Hsw. destruct Hsw as (x3 & w3 & Hwr & Hsw).
        apply write_shots_path_ok in Hwr. destruct Hwr as (p' & _ & ->).
        rewrite !modify_eq in Hsw. rewrite gets_eq in Hsw.
        rewrite gets_eq in Hsw. cbn [_state rand_tape host_log] in Hsw. st.
        unfold when at 1 in Hsw.
        destruct (shots_path_len (_state w)
                  <=? uint8 (shots_picked (_state w) + 1)).
        - right; right. split; [exact Ea|].
          apply bind_ok in Hsw. destruct Hsw as (a & w4 & Hshot & Hsw).
          apply shot_arrows in Hshot. cbn [_state] in Hshot. st.
          destruct Hshot as [Harr Hneg]. rewrite modify_eq in Hsw.
          assert (Ha1 : arrows (_state w1) = arrows (_state w4))
            by (frame_of Hsw arrows; exact Hsw).
          split; [congruence|]. intros Hlt. apply Hdied.
          rewrite Har, Ha1, Harr in Hlt. specialize (Hneg Hlt). subst a.
          cbv [action_eqb action_code Z.eqb Pos.eqb] in Hsw.
          inv_ok Hsw; action_facts; cbn [_state] in *; st; congruence.
        - inv_ok Hsw. left. cbn [_state] in *. st.
          split; [exact Har|intros E; congruence]. }
    6:{ inv_ok Hsw. left. split; [exact Har|exact Hdied]. }
    all: left; split;
      [frame_of Hsw arrows; congruence|intros E; congruence].
  - apply loop_ok in H. destruct H as [x H]. cbn [loop_switch] in H.
    apply arrows_view_step. frame_of H arrows_view. exact H.
  - simpl in H. inv_ok H. apply arrows_view_step. reflexivity.
Qed.

(** The arrows are within bounds, or the game was lost for want of one. *)
Definition arrows_ok (s : wumpus_game_state_t) : Prop :=
  0 <= arrows s <= WUMPUS_NUM_ARROWS \/
  (arrows s = -1 /\ current_action s = wumpus_face_died).

Lemma arrows_step_ok s s' : arrows_step s s' -> arrows_ok s -> arrows_ok s'.
Proof.
  unfold arrows_step, arrows_ok, WUMPUS_NUM_ARROWS.
  intros [[Ha Hd] | [H5 | (Hact & Ha & Hneg)]] Hok.
  - rewrite Ha. destruct Hok as [Hin | [Hm Hdied]]; [left; exact Hin|].
    right. split; [exact Hm|exact (Hd Hdied)].
  - left. lia.
  - destruct Hok as [Hin | [_ Hdied]]; [|congruence].
    rewrite int8_small in Ha by lia.
    destruct (Z.eq_dec (arrows s) 0) as [E0 | E0].
    + right. split; [lia|apply Hneg; lia].
    + left. lia.
Qed.

Lemma run_events_arrows evs :
  forall w x w', run_events evs w = Ok (x, w') ->
                 arrows_ok (_state w) -> arrows_ok (_state w').
Proof.
  induction evs as [|[e u] rest IH]; intros w x w' H Hok; simpl in H.
  - inv_ok H. exact Hok.
  - apply bind_ok in H. destruct H as (r & w1 & He & H).
    apply (IH _ _ _ H).
    exact (arrows_step_ok _ _ (loop_arrows _ _ _ _ _ He) Hok).
Qed.

(** X24.  The arrows.  Whatever the events and the random values, after
    activation the number of arrows is between 0 and WUMPUS_NUM_ARROWS (5),
    with one exception: it is -1 in a game that was lost by shooting with
    no arrow left, and stays so until the new game.  The 8-bit counter
    never wraps round. *)
Theorem arrows_in_range (tape : list Z)
        (evs : list (movement_event_type_t * Z)) x w :
  session tape evs = Ok (x, w) ->
  0 <= arrows (_state w) <= WUMPUS_NUM_ARROWS \/
  (arrows (_state w) = -1 /\
   current_action (_state w) = wumpus_face_died).
Proof.
  unfold session. intros H.
  apply bind_ok in H. destruct H as (x0 & w0 & Hact & H).
  apply (run_events_arrows _ _ _ _ H). left.
  unfold wumpus_face_activate in Hact.
  apply bind_ok in Hact. destruct Hact as (x1 & w1 & _ & Hact).
  apply bind_ok in Hact. destruct Hact as (x2 & w2 & Hi & Hact).
  apply init_game_spec in Hi. destruct Hi as (_ & _ & Har & _).
  frame_of Hact arrows. rewrite Hact, Har. unfold WUMPUS_NUM_ARROWS. lia.
Qed.

Lemma arrows_in_range_witness :
  exists w, session first_game_tape won_game = Ok (tt, w) /\
            0 <= arrows (_state w) <= 5.
Proof.
  destruct (session first_game_tape won_game) as [[[] w]|e] eqn:E;
    [|vm_compute in E; discriminate E].
  exists w. split; [reflexivity|].
  destruct (arrows_in_range first_game_tape won_game tt w E)
    as [Hin | [Hm Hd]]; [exact Hin|].
  vm_compute in E. inversion E; subst w. discriminate Hd.
Defined.

(** * The pits *)

(** [shrinks h m]: [m] puts the hazard [h] into no room. *)
Definition shrinks {A} (h : wumpus_hazard_type_t) (m : M A) : Prop :=
  forall w a w', m w = Ok (a, w') ->
                 no_new h (hazards (_state w)) (hazards (_state w')).

Lemma shrinks_preserves {A} h (m : M A) : preserves hazards m -> shrinks h m.
Proof. intros P w a w' H. rewrite (P _ _ _ H). apply no_new_refl. Qed.

Lemma shrinks_bind {A B} h (m : M A) (k : A -> M B) :
  shrinks h m -> (forall a, shrinks h (k a)) -> shrinks h (bind m k).
Proof.
  intros Hm Hk w b w' H. apply bind_ok in H.
  destruct H as (a & w1 & E1 & E2).
  exact (no_new_trans _ _ _ _ (Hm _ _ _ E1) (Hk _ _ _ _ E2)).
Qed.

Lemma shrinks_when h b (m : M unit) :
  shrinks h m -> shrinks h (when b m).
Proof.
  intros Hm. destruct b; [exact Hm|].
  apply shrinks_preserves. unfold when. apply preserves_ret.
Qed.

Lemma shrinks_wumpus_flee h :
  h <> wumpus_hazard_none -> h <> wumpus_hazard_wumpus ->
  shrinks h _wumpus_flee.
Proof.
  intros Hn Hw w b w' H. exact (wumpus_flee_from_no_new h _ Hn Hw _ _ _ H).
Qed.

Lemma shrinks_wumpus_move h :
  h <> wumpus_hazard_none -> h <> wumpus_hazard_wumpus ->
  shrinks h _wumpus_move.
Proof. intros Hn Hw w b w' H. exact (wumpus_move_no_new h _ _ _ Hn Hw H). Qed.

Lemma shrinks_shot : shrinks wumpus_hazard_pitfall _shot.
Proof.
  intros w a w' H r Hr.
  destruct (shot_cave _ _ _ H) as (_ & Hc & _).
  destruct (Hc r) as [E | [_ E]]; [rewrite <- E; exact Hr|].
  rewrite E in Hr. discriminate Hr.
Qed.

(** Walks through a computation; the calls that write the cave are the
    shot and the Wumpus's flight. *)
Ltac shrinks_walk :=
  repeat first
    [ solve [apply shrinks_preserves; frame_walk]
    | apply shrinks_shot
    | apply shrinks_wumpus_flee; discriminate
    | apply shrinks_wumpus_move; discriminate
    | apply shrinks_bind; [|intros]
    | apply shrinks_when
    | match goal with
      | |- shrinks _ (if ?b then _ else _) => destruct b
      | |- shrinks _ (match ?x with _ => _ end) => destruct x
      end ].

Lemma shrinks_alarm_button_up u :
  shrinks wumpus_hazard_pitfall (loop_alarm_button_up u).
Proof.
  unfold loop_alarm_button_up, confirm_switch, active_wumpus_roll.
  shrinks_walk.
Qed.

(** [hazard_safe h s]: a player in a room that holds [h] has lost. *)
Definition hazard_safe (h : wumpus_hazard_type_t) (s : wumpus_game_state_t)
  : Prop :=
  hazard_at s (player_room s) = Some h ->
  current_action s = wumpus_face_died.

Definition pit_safe : wumpus_game_state_t -> Prop :=
  hazard_safe wumpus_hazard_pitfall.

Lemma hazard_safe_keep h s s' :
  no_new h (hazards s) (hazards s') ->
  player_room s' = player_room s ->
  (current_action s = wumpus_face_died ->
   current_action s' = wumpus_face_died) ->
  hazard_safe h s -> hazard_safe h s'.
Proof.
  unfold hazard_safe, hazard_at. intros Hn Hp Hd Hs Hpit.
  rewrite Hp in Hpit. exact (Hd (Hs (Hn _ Hpit))).
Qed.

Definition pit_view (s : wumpus_game_state_t) :=
  (current_action s, hazards s, player_room s).

Lemma hazard_safe_view h s s' :
  pit_view s' = pit_view s -> hazard_safe h s -> hazard_safe h s'.
Proof.
  unfold pit_view. intros E. inversion E as [[Ha Hh Hp]].
  unfold hazard_safe, hazard_at. now rewrite Ha, Hh, Hp.
Qed.

Lemma roll_pit_safe w x w' :
  active_wumpus_roll w = Ok (x, w') ->
  pit_safe (_state w) -> pit_safe (_state w').
Proof.
  intros H. apply hazard_safe_keep.
  - revert H. unfold active_wumpus_roll.
    match goal with
    | |- ?m _ = Ok _ -> _ =>
        assert (P : shrinks wumpus_hazard_pitfall m) by shrinks_walk;
        apply P
    end.
  - frame_of H player_room. exact H.
  - intros Hd. destruct (active_wumpus_roll_action _ _ _ H) as [_ Hact].
    destruct Hact as [E | (_ & E & _)]; congruence.
Qed.

Lemma go_to_selected_spec w h w1 :
  _go_to_selected_room w = Ok (h, w1) ->
  hazards (_state w1) = hazards (_state w) /\
  current_action (_state w1) = current_action (_state w) /\
  ((player_room (_state w1) = player_room (_state w) /\
    h = wumpus_hazard_none) \/
   hazard_at (_state w1) (player_room (_state w1)) = Some h).
Proof.
  unfold _go_to_selected_room. intros H. rewrite gets_eq in H.
  destruct (0 <=? selected_room_n (_state w)).
  - rewrite gets_eq in H.
    apply bind_ok in H. destruct H as (room & w2 & Hc & H).
    apply read_cave_map_ok in Hc. destruct Hc as [_ ->].
    rewrite modify_eq in H. apply read_hazard_ok in H.
    destruct H as [Hh ->]. cbn [_state] in *. st.
    split; [reflexivity|]. split; [reflexivity|]. right. exact Hh.
  - inv_ok H. split; [reflexivity|]. split; [reflexivity|]. left. auto.
Qed.

(** The move: the switch of "confirm" while an exit is being chosen. *)
Lemma move_hazard_safe h u w x w' :
  h = wumpus_hazard_pitfall \/ h = wumpus_hazard_wumpus ->
  current_action (_state w) = wumpus_face_choosing_room ->
  confirm_switch u w = Ok (x, w') ->
  hazard_safe h (_state w) -> hazard_safe h (_state w').
Proof.
  intros Hh Ea H Hs.
  unfold confirm_switch in H. rewrite gets_eq, Ea in H.
  cbv beta iota in H.
  apply bind_ok in H. destruct H as (h0 & w1 & Hgo & H).
  apply go_to_selected_spec in Hgo.
  destruct Hgo as (Hhz & Hact & Hroom).
  assert (Hnot : h0 <> h ->
                 hazard_at (_state w1) (player_room (_state w1)) <> Some h).
  { intros Hne Hpit. destruct Hroom as [[Hp ->] | Hat].
    - unfold hazard_at in Hpit. rewrite Hp, Hhz in Hpit.
      specialize (Hs Hpit). congruence.
    - rewrite Hat in Hpit. congruence. }
  destruct h0; cbn [hazard_eqb hazard_code Z.eqb Pos.eqb] in H;
    cbv iota in H.
  1,3: intros Hpit; exfalso;
    apply (Hnot ltac:(destruct Hh; subst h; discriminate));
    revert Hpit; unfold hazard_at;
    match type of H with
    | ?m _ = Ok _ =>
        assert (P : preserves (fun s => (hazards s, player_room s)) m)
          by frame_walk;
        apply P in H
    end;
    pose proof (f_equal fst H) as H1; pose proof (f_equal snd H) as H2;
    cbn [fst snd] in H1, H2; rewrite H1, H2; auto.
  all: intros _; inv_ok H; display_steps; reflexivity.
Qed.

Lemma confirm_switch_pit_safe u w x w' :
  confirm_switch u w = Ok (x, w') ->
  pit_safe (_state w) -> pit_safe (_state w').
Proof.
  intros H Hs.
  destruct (current_action (_state w)) eqn:Ea.
  5:{ exact (move_hazard_safe _ _ _ _ _ (or_introl eq_refl) Ea H Hs). }
  all: revert Hs; apply hazard_safe_keep;
    [ revert H; unfold confirm_switch;
      match goal with
      | |- ?m _ = Ok _ -> _ =>
          assert (P : shrinks wumpus_hazard_pitfall m) by shrinks_walk;
          apply P
      end
    | unfold confirm_switch in H; rewrite gets_eq, Ea in H;
      frame_of H player_room; exact H
    | intros Hd; try congruence ].
  unfold confirm_switch in H. rewrite gets_eq, Ea in H. inv_ok H. exact Hd.
Qed.

Lemma alarm_pit_safe u w x w' :
  loop_alarm_button_up u w = Ok (x, w') ->
  pit_safe (_state w) -> pit_safe (_state w').
Proof.
  unfold loop_alarm_button_up. intros H Hs.
  apply bind_ok in H. destruct H as (x1 & w1 & Hsw & H).
  apply bind_ok in H. destruct H as (x2 & w2 & Hd & Hroll).
  apply (roll_pit_safe _ _ _ Hroll).
  frame_of Hd pit_view. apply (hazard_safe_view _ _ _ Hd).
  exact (confirm_switch_pit_safe _ _ _ _ Hsw Hs).
Qed.

(** The tick: a new game starts in an empty room, and the bat puts the
    player down where it was heading for. *)
Lemma tick_hazard_safe h u w x w' :
  h <> wumpus_hazard_none ->
  loop_tick u w = Ok (x, w') ->
  List.length (hazards (_state w)) = 20%nat ->
  dest_free_of h (_state w) ->
  hazard_safe h (_state w) -> hazard_safe h (_state w').
Proof.
  unfold loop_tick. intros Hh H Hlen Hfree Hs. rewrite gets_eq in H.
  destruct (melody_is_none (current_melody (_state w))) eqn:Em;
    cbn [negb] in H; cbv iota in H;
    [|frame_of H pit_view; exact (hazard_safe_view _ _ _ H Hs)].
  rewrite gets_eq in H.
  destruct (0 <? led_cnt (_state w)) eqn:El.
  { destruct (led_cnt (_state w) =? 1) eqn:E1.
    - apply bind_ok in H. destruct H as (x1 & w1 & E & E2).
      simpl in E.
      apply bind_ok in E. destruct E as (x2 & w2 & Ec & E).
      apply bind_ok in E. destruct E as (x3 & w3 & Ei & E).
      inv_ok Ec.
      assert (Hn : exists r hz,
                 room_ok r /\ fresh_cave r hz /\
                 _state w3 = new_game r hz (shots_path (_state w))).
      { refine (wp_ok _
                  (fun _ s' => exists r hz,
                     room_ok r /\ fresh_cave r hz /\
                     s' = new_game r hz (shots_path (_state w)))
                  _ _ _ _ Ei).
        apply wp_init_game_new. exact Hlen. }
      clear Ei. destruct Hn as (r & hz & _ & Hf & Hs3).
      destruct w3 as [s3 t3 l3]. cbn [_state] in Hs3. subst s3.
      inv_ok E. display_steps. inv_ok E2.
      unfold hazard_safe, hazard_at. cbn [_state]. st'. unfold new_game. st.
      destruct Hf as (_ & _ & _ & _ & _ & _ & Hr). rewrite Hr.
      congruence.
    - simpl in H. frame_of H pit_view.
      exact (hazard_safe_view _ _ _ H Hs). }
  rewrite gets_eq in H.
  destruct (current_action (_state w)) eqn:Ea;
    cbv [action_eqb action_code Z.eqb Pos.eqb negb when] in H.
  6:{ rewrite gets_eq in H.
      destruct (0 <? transport_timer (_state w));
        [frame_of H pit_view; exact (hazard_safe_view _ _ _ H Hs)|].
      specialize (Hfree Ea). unfold hazard_at in Hfree.
      rewrite gets_eq in H. rewrite modify_eq in H. rewrite gets_eq in H.
      cbn [_state rand_tape host_log] in H. st.
      apply bind_ok in H. destruct H as (h0 & w2 & Hrh & H).
      apply read_hazard_ok in Hrh. destruct Hrh as [_ ->].
      intros Hpit. exfalso. apply Hfree. revert Hpit. unfold hazard_at.
      match type of H with
      | ?m _ = Ok _ =>
          assert (P : preserves (fun s => (hazards s, player_room s)) m)
            by (destruct (hazard_eqb h0 wumpus_hazard_bat); frame_walk);
          apply P in H
      end.
      pose proof (f_equal fst H) as H1. pose proof (f_equal snd H) as H2.
      cbn [fst snd _state] in H1, H2. st. rewrite H1, H2. auto. }
  all: frame_of H pit_view; apply (hazard_safe_view _ _ _ H); exact Hs.
Qed.

Lemma loop_pit_safe e u w r w' :
  wumpus_face_loop e u w = Ok (r, w') ->
  List.length (hazards (_state w)) = 20%nat ->
  dest_free_of wumpus_hazard_pitfall (_state w) ->
  pit_safe (_state w) -> pit_safe (_state w').
Proof.
  intros H Hlen Hfree Hs. pose proof H as Hloop.
  apply loop_ok in H. destruct H as [x H].
  destruct e; cbn [loop_switch] in H.
  - frame_of H pit_view. exact (hazard_safe_view _ _ _ H Hs).
  - refine (tick_hazard_safe wumpus_hazard_pitfall _ _ _ _ _ H Hlen Hfree Hs).
    discriminate.
  - revert Hs. apply hazard_safe_keep.
    + pose proof H as Hh. unfold loop_light_button_up in Hh.
      frame_of Hh hazards. rewrite Hh. apply no_new_refl.
    + unfold loop_light_button_up in H. frame_of H player_room. exact H.
    + intros Hd.
      destruct (cycle_game_over _ _ _ _ (or_intror Hd) Hloop) as [-> _].
      exact Hd.
  - frame_of H pit_view. exact (hazard_safe_view _ _ _ H Hs).
  - exact (alarm_pit_safe _ _ _ _ H Hs).
  - frame_of H pit_view. exact (hazard_safe_view _ _ _ H Hs).
  - inv_ok H. exact Hs.
Qed.

Lemma run_events_pit_safe evs :
  forall w x w',
    run_events evs w = Ok (x, w') ->
    wf (_state w) ->
    dest_free_of wumpus_hazard_pitfall (_state w) ->
    pit_safe (_state w) -> pit_safe (_state w').
Proof.
  induction evs as [|[e u] rest IH]; intros w x w' H Hw Hfree Hs;
    simpl in H.
  - inv_ok H. exact Hs.
  - apply bind_ok in H. destruct H as (r & w1 & E & H).
    apply (IH _ _ _ H).
    + exact (wp_ok _ _ _ _ _ (wp_face_loop e u _ Hw) E).
    + apply (loop_dest_free _ _ _ _ _ _ E); auto.
    + exact (loop_pit_safe _ _ _ _ _ E (ok_hazards _ (proj1 Hw)) Hfree Hs).
Qed.

(** X25.  The pits are always fatal.  Whatever the events and the random
    values, mode changes included, a player who is in a room with a pit
    has lost: the state is "died".  A new game puts the player into an
    empty room; walking into a pit ends the game; the bat never puts the
    player down on a pit; and no pit ever appears in a room that had
    none. *)
Theorem never_alive_in_pit (tape : list Z)
        (evs : list (movement_event_type_t * Z)) x w :
  session tape evs = Ok (x, w) ->
  hazard_at (_state w) (player_room (_state w))
  = Some wumpus_hazard_pitfall ->
  current_action (_state w) = wumpus_face_died.
Proof.
  unfold session. intros H.
  apply bind_ok in H. destruct H as (x0 & w0 & Hact & H).
  assert (Hl : List.length (hazards (_state (boot tape))) = 20%nat)
    by reflexivity.
  assert (Ha : arrays_ok (_state (boot tape)))
    by (repeat split; repeat constructor; unfold WUMPUS_FACE_ROWS; lia).
  pose proof (wp_ok _ _ _ _ _ (wp_face_activate _ Ha) Hact) as Hw0.
  assert (Hn : exists r hz,
             room_ok r /\ fresh_cave r hz /\
             _state w0 = set_current_melody MELODY_STARTUP
                           (new_game r hz [0; 0; 0; 0; 0])).
  { exact (wp_ok _
             (fun _ s' => exists r hz,
                room_ok r /\ fresh_cave r hz /\
                s' = set_current_melody MELODY_STARTUP
                       (new_game r hz [0; 0; 0; 0; 0]))
             _ _ _ (wp_activate_new _ Hl) Hact). }
  destruct Hn as (r & hz & _ & Hf & Hs0).
  apply (run_events_pit_safe _ _ _ _ H Hw0).
  - apply dest_free_of_other. rewrite Hs0. discriminate.
  - unfold pit_safe, hazard_safe, hazard_at. rewrite Hs0.
    unfold new_game. st.
    destruct Hf as (_ & _ & _ & _ & _ & _ & Hr). rewrite Hr. discriminate.
Qed.

(** The player walks from room 0 into the pit of room 7. *)
Definition pit_game_tape : list Z := [0; 7; 11; 12; 13; 1].
Definition pit_game : list (movement_event_type_t * Z) :=
  [(EVENT_LIGHT_BUTTON_UP, 0); (EVENT_ALARM_BUTTON_UP, 0);
   (EVENT_LIGHT_BUTTON_UP, 0); (EVENT_LIGHT_BUTTON_UP, 0);
   (EVENT_LIGHT_BUTTON_UP, 0); (EVENT_ALARM_BUTTON_UP, 0)].

Lemma never_alive_in_pit_witness :
  exists w, session pit_game_tape pit_game = Ok (tt, w) /\
            player_room (_state w) = 7 /\
            current_action (_state w) = wumpus_face_died.
Proof.
  destruct (session pit_game_tape pit_game) as [[[] w]|e] eqn:E;
    [|vm_compute in E; discriminate E].
  exists w. split; [reflexivity|].
  pose proof (never_alive_in_pit pit_game_tape pit_game tt w E) as H.
  vm_compute in E. inversion E; subst w. clear E.
  split; [reflexivity|]. apply H. reflexivity.
Defined.

(** * The Wumpus's room, in stationary mode *)

Definition wumpus_safe : wumpus_game_state_t -> Prop :=
  hazard_safe wumpus_hazard_wumpus.

(** A winning arrow has found the Wumpus in another room than the
    player's. *)
Lemma shot_won_elsewhere w w' :
  _shot w = Ok (wumpus_face_won, w') ->
  exists room, room <> player_room (_state w') /\
               hazard_at (_state w') room = Some wumpus_hazard_wumpus.
Proof.
  unfold _shot. intros H. rewrite gets_eq in H.
  rewrite modify_eq in H. rewrite gets_eq in H.
  cbn [_state arrows set_arrows] in H.
  destruct (int8 (arrows (_state w) - 1) <? 0).
  - apply bind_ok in H. destruct H as (x1 & w1 & _ & H).
    apply ret_ok in H. destruct H as [E _]. discriminate E.
  - rewrite gets_eq in H.
    destruct (shot_loop_inv _ _ _ _ H) as (_ & _ & Hwon).
    destruct (Hwon eq_refl) as (i & room & _ & _ & Hne & Hat).
    exists room. auto.
Qed.

Lemma same_cave_safe h s s' :
  hazards s' = hazards s -> player_room s' = player_room s ->
  (current_action s = wumpus_face_died ->
   current_action s' = wumpus_face_died) ->
  hazard_safe h s -> hazard_safe h s'.
Proof.
  intros Hh. apply hazard_safe_keep. rewrite Hh. apply no_new_refl.
Qed.

Lemma confirm_switch_wumpus_safe u w x w' :
  wf (_state w) ->
  active_wumpus_mode (_state w) = false ->
  confirm_switch u w = Ok (x, w') ->
  wumpus_safe (_state w) -> wumpus_safe (_state w').
Proof.
  intros Hw Hst H Hs.
  pose proof (wp_ok _ _ _ _ _ (wp_confirm_switch u _ Hw) H) as Hw'.
  pose proof (proj1 (ok_census _ (proj1 Hw'))) as Hone.
  destruct (current_action (_state w)) eqn:Ea.
  5:{ exact (move_hazard_safe _ _ _ _ _ (or_intror eq_refl) Ea H Hs). }
  3:{ (* the shot *)
      unfold confirm_switch in H. rewrite gets_eq, Ea in H.
      cbv beta iota in H. rewrite gets_eq in H. rewrite gets_eq in H.
      apply bind_ok in H. destruct H as (x3 & w3 & Hwr & H).
      apply write_shots_path_ok in Hwr. destruct Hwr as (p' & _ & ->).
      rewrite !modify_eq in H. rewrite gets_eq in H. rewrite gets_eq in H.
      cbn [_state rand_tape host_log] in H. st. unfold when at 1 in H.
      destruct (shots_path_len (_state w)
                <=? uint8 (shots_picked (_state w) + 1)).
      2:{ inv_ok H. intros Hat. unfold hazard_at in Hat.
          cbn [_state] in Hat. st. specialize (Hs Hat). congruence. }
      apply bind_ok in H. destruct H as (a & w4 & Hshot & H).
      pose proof (shot_result _ _ _ Hshot) as Hres.
      pose proof (shot_cave _ _ _ Hshot) as Hcave.
      cbn [_state] in Hcave. st.
      assert (Hact4 : active_wumpus_mode (_state w4) = false).
      { pose proof Hshot as Hf. frame_of Hf active_wumpus_mode.
        rewrite Hf. exact Hst. }
      rewrite modify_eq in H.
      destruct Hres as [-> | [-> | ->]];
        cbv [action_eqb action_code Z.eqb Pos.eqb] in H.
      2:{ (* won *)
          apply shot_won_elsewhere in Hshot.
          destruct Hshot as (room & Hne & Hat).
          display_steps. cbn [_state] in *. st'.
          intros Hp. exfalso. apply Hne.
          exact (wumpus_unique _ _ _ Hone Hat Hp). }
      all: rewrite gets_eq in H; cbn [_state] in H; st;
        rewrite Hact4 in H; cbv [negb when] in H;
        apply flee_then_check in H;
        [|cbn [_state]; st; rewrite (proj1 Hcave); apply Hw
         |cbn [_state]; st;
          exact (proj1 (bats_cleared_census _ _ Hcave
                          (ok_census _ (proj1 Hw))))];
        destruct H as (i & j & _ & _ & Hj & _ & Hout);
        intros Hp;
        destruct Hout as [[_ Hd] | [Hne _]]; [exact Hd|];
        exfalso; apply Hne; exact (wumpus_unique _ _ _ Hone Hj Hp). }
  all: unfold confirm_switch in H; rewrite gets_eq, Ea in H;
    revert Hs; apply same_cave_safe;
    [ frame_of H hazards; exact H
    | frame_of H player_room; exact H
    | intros Hd; try congruence ].
  inv_ok H. exact Hd.
Qed.

Lemma loop_wumpus_safe e u w r w' :
  e <> EVENT_LIGHT_LONG_PRESS ->
  wumpus_face_loop e u w = Ok (r, w') ->
  wf (_state w) ->
  active_wumpus_mode (_state w) = false ->
  dest_free_of wumpus_hazard_wumpus (_state w) ->
  wumpus_safe (_state w) -> wumpus_safe (_state w').
Proof.
  intros He H Hw Hst Hfree Hs. pose proof H as Hloop.
  apply loop_ok in H. destruct H as [x H].
  destruct e; cbn [loop_switch] in H; try congruence.
  - frame_of H pit_view. exact (hazard_safe_view _ _ _ H Hs).
  - refine (tick_hazard_safe wumpus_hazard_wumpus _ _ _ _ _ H
              (ok_hazards _ (proj1 Hw)) Hfree Hs).
    discriminate.
  - revert Hs. apply same_cave_safe.
    + unfold loop_light_button_up in H. frame_of H hazards. exact H.
    + unfold loop_light_button_up in H. frame_of H player_room. exact H.
    + intros Hd.
      destruct (cycle_game_over _ _ _ _ (or_intror Hd) Hloop) as [-> _].
      exact Hd.
  - unfold loop_alarm_button_up in H.
    apply bind_ok in H. destruct H as (x1 & w1 & Hsw & H).
    apply bind_ok in H. destruct H as (x2 & w2 & Hd & Hroll).
    assert (Hst2 : active_wumpus_mode (_state w2) = false).
    { pose proof (preserves_settings_confirm_switch u _ _ _ Hsw) as E1.
      pose proof Hd as E2. frame_of E2 active_wumpus_mode.
      unfold game_settings in E1. rewrite Hst in E1.
      rewrite E2. congruence. }
    destruct (active_wumpus_roll_action _ _ _ Hroll) as [Hoff _].
    rewrite (Hoff Hst2).
    frame_of Hd pit_view. apply (hazard_safe_view _ _ _ Hd).
    exact (confirm_switch_wumpus_safe _ _ _ _ Hw Hst Hsw Hs).
  - frame_of H pit_view. exact (hazard_safe_view _ _ _ H Hs).
  - inv_ok H. exact Hs.
Qed.

Lemma run_events_wumpus_safe evs :
  (forall u, ~ In (EVENT_LIGHT_LONG_PRESS, u) evs) ->
  forall w x w',
    run_events evs w = Ok (x, w') ->
    wf (_state w) ->
    active_wumpus_mode (_state w) = false ->
    dest_free_of wumpus_hazard_wumpus (_state w) ->
    wumpus_safe (_state w) -> wumpus_safe (_state w').
Proof.
  induction evs as [|[e u] rest IH]; intros Hev w x w' H Hw Hst Hfree Hs;
    simpl in H.
  - inv_ok H. exact Hs.
  - apply bind_ok in H. destruct H as (r & w1 & E & H).
    assert (He : e <> EVENT_LIGHT_LONG_PRESS)
      by (intros ->; apply (Hev u); left; reflexivity).
    assert (E1 : run_events [(e, u)] w = Ok (tt, w1))
      by (simpl; rewrite (bind_eq _ _ _ _ _ E); reflexivity).
    destruct (run_events_stationary [(e, u)]
                ltac:(intros u' [Hin | []]; inversion Hin; congruence)
                _ _ _ E1 Hst Hfree) as [Hst1 Hfree1].
    apply (IH (fun u' Hin => Hev u' (or_intror Hin)) _ _ _ H).
    + exact (wp_ok _ _ _ _ _ (wp_face_loop e u _ Hw) E).
    + exact Hst1.
    + exact Hfree1.
    + exact (loop_wumpus_safe _ _ _ _ _ He E Hw Hst Hfree Hs).
Qed.

(** X26.  In stationary mode the Wumpus's room is always fatal.  In a
    session in which the Wumpus mode is never toggled (no long press of
    the light button), whatever the other events and the random values, a
    player who is in the room of the Wumpus has lost: walking into it ends
    the game, the Wumpus that flees into the player's room after a shot
    ends it, a winning arrow has found the Wumpus elsewhere, and the bat
    never puts the player down on it.  In active mode the last of these
    fails. *)
Theorem stationary_never_alive_with_wumpus (tape : list Z)
        (evs : list (movement_event_type_t * Z)) x w :
  (forall u, ~ In (EVENT_LIGHT_LONG_PRESS, u) evs) ->
  session tape evs = Ok (x, w) ->
  hazard_at (_state w) (player_room (_state w))
  = Some wumpus_hazard_wumpus ->
  current_action (_state w) = wumpus_face_died.
Proof.
  unfold session. intros Hev H.
  apply bind_ok in H. destruct H as (x0 & w0 & Hact & H).
  assert (Hl : List.length (hazards (_state (boot tape))) = 20%nat)
    by reflexivity.
  assert (Ha : arrays_ok (_state (boot tape)))
    by (repeat split; repeat constructor; unfold WUMPUS_FACE_ROWS; lia).
  pose proof (wp_ok _ _ _ _ _ (wp_face_activate _ Ha) Hact) as Hw0.
  assert (Hn : exists r hz,
             room_ok r /\ fresh_cave r hz /\
             _state w0 = set_current_melody MELODY_STARTUP
                           (new_game r hz [0; 0; 0; 0; 0])).
  { exact (wp_ok _
             (fun _ s' => exists r hz,
                room_ok r /\ fresh_cave r hz /\
                s' = set_current_melody MELODY_STARTUP
                       (new_game r hz [0; 0; 0; 0; 0]))
             _ _ _ (wp_activate_new _ Hl) Hact). }
  destruct Hn as (r & hz & _ & Hf & Hs0).
  apply (run_events_wumpus_safe _ Hev _ _ _ H Hw0).
  - rewrite Hs0. reflexivity.
  - apply dest_free_of_other. rewrite Hs0. discriminate.
  - unfold wumpus_safe, hazard_safe, hazard_at. rewrite Hs0.
    unfold new_game. st.
    destruct Hf as (_ & _ & _ & _ & _ & _ & Hr). rewrite Hr. discriminate.
Qed.

(** The player walks from room 0 into the Wumpus of room 1. *)
Definition wumpus_walk : list (movement_event_type_t * Z) :=
  [(EVENT_LIGHT_BUTTON_UP, 0); (EVENT_ALARM_BUTTON_UP, 0);
   (EVENT_LIGHT_BUTTON_UP, 0); (EVENT_ALARM_BUTTON_UP, 0)].

Lemma stationary_never_alive_with_wumpus_witness :
  exists w, session first_game_tape wumpus_walk = Ok (tt, w) /\
            player_room (_state w) = 1 /\
            current_action (_state w) = wumpus_face_died.
Proof.
  destruct (session first_game_tape wumpus_walk) as [[[] w]|e] eqn:E;
    [|vm_compute in E; discriminate E].
  exists w. split; [reflexivity|].
  assert (Hev : forall u, ~ In (EVENT_LIGHT_LONG_PRESS, u) wumpus_walk).
  { intros u Hin. simpl in Hin.
    repeat (destruct Hin as [Hin | Hin]; [discriminate Hin|]). exact Hin. }
  pose proof (stationary_never_alive_with_wumpus
                first_game_tape wumpus_walk tt w Hev E) as H.
  vm_compute in E. inversion E; subst w. clear E.
  split; [reflexivity|]. apply H. reflexivity.
Defined.

(** * The flight of the arrow *)

(** The entry [j] of the shot path. *)
Definition path_at (s : wumpus_game_state_t) (j : Z) : option Z :=
  array_get (shots_path s) j.

(** What [_shot] relies on: the path has its five entries, all of them
    rooms of the cave, and the cave has its twenty rooms. *)
Definition flight_ok (s : wumpus_game_state_t) : Prop :=
  List.length (shots_path s) = 5%nat /\ Forall room_ok (shots_path s) /\
  List.length (hazards s) = 20%nat.

(** [_display_death] on the way out of [_shot]. *)
Definition ending (a : wumpus_current_action_t) (s : wumpus_game_state_t)
  : wumpus_game_state_t :=
  if action_eqb a wumpus_face_died then start_melody MELODY_LOSE s else s.

Definition ending_log (a : wumpus_current_action_t)
           (s : wumpus_game_state_t) : list host_call :=
  if action_eqb a wumpus_face_died
  then (death_banner "Ar" ++ melody_cue s)%list else [].

(** The entry [j] of the path [s] was not connected to the room the arrow
    came from, the entry [j - 1] as [s'] has it. *)
Definition crooked (s s' : wumpus_game_state_t) (j : Z) : bool :=
  match path_at s' (j - 1), path_at s j with
  | Some prev, Some cur => negb (connected prev cur)
  | _, _ => false
  end.

(** The entry [j] of [s'] is the room the draw [d] picks among the rooms
    connected to the entry before it. *)
Definition drawn (s' : wumpus_game_state_t) (j d : Z) : Prop :=
  exists prev row room,
    path_at s' (j - 1) = Some prev /\ array_get cave_map prev = Some row /\
    array_get row (d mod WUMPUS_FACE_COLS) = Some room /\
    path_at s' j = Some room.

(** What the result [a] of the shot says of the last room the arrow
    entered. *)
Definition verdict (a : wumpus_current_action_t) (s : wumpus_game_state_t)
           (room : Z) : Prop :=
  match a with
  | wumpus_face_died => room = player_room s
  | wumpus_face_won =>
      room <> player_room s /\ hazard_at s room = Some wumpus_hazard_wumpus
  | wumpus_face_shoot =>
      room <> player_room s /\ hazard_at s room <> Some wumpus_hazard_wumpus
  | _ => False
  end.

(** [flown i k a ds w w']: from the world [w] the arrow has entered the
    path entries [i .. k - 1], taking the draws [ds], and the loop has come
    to [w'] with the result [a] ([wumpus_face_shoot] while it goes on). *)
Record flown (i k : Z) (a : wumpus_current_action_t) (ds : list Z)
       (w w' : world) : Prop := mk_flown {
  fl_state :
    _state w' = ending a (set_hazards (hazards (_state w'))
                            (set_shots_path (shots_path (_state w'))
                               (_state w)));
  fl_log : host_log w' = (host_log w ++ ending_log a (_state w))%list;
  fl_tape : rand_tape w = (ds ++ rand_tape w')%list;
  fl_ok : flight_ok (_state w');
  fl_outside :
    forall j, j < i \/ k <= j ->
      path_at (_state w') j = path_at (_state w) j;
  fl_first : i = 0 -> path_at (_state w') 0 = path_at (_state w) 0;
  fl_chain :
    forall j, i <= j < k -> 1 <= j ->
      exists prev cur room,
        path_at (_state w') (j - 1) = Some prev /\
        path_at (_state w) j = Some cur /\
        path_at (_state w') j = Some room /\
        connected prev room = true /\
        (connected prev cur = true -> room = cur);
  fl_draws :
    Forall2 (drawn (_state w'))
            (filter (crooked (_state w) (_state w'))
                    (zrange (Z.max i 1) (k - Z.max i 1))) ds;
  fl_passed :
    forall j room, i <= j < k - 1 -> path_at (_state w') j = Some room ->
      room <> player_room (_state w) /\
      hazard_at (_state w) room <> Some wumpus_hazard_wumpus;
  fl_last :
    i < k ->
    exists room, path_at (_state w') (k - 1) = Some room /\
                 verdict a (_state w) room;
  fl_hazards :
    forall r,
      hazard_at (_state w') r = hazard_at (_state w) r \/
      (hazard_at (_state w) r = Some wumpus_hazard_bat /\
       hazard_at (_state w') r = Some wumpus_hazard_none /\
       r <> player_room (_state w) /\
       exists j, i <= j < k /\ path_at (_state w') j = Some r);
  fl_bats :
    forall j room, i <= j < k -> path_at (_state w') j = Some room ->
      room <> player_room (_state w) ->
      hazard_at (_state w') room <> Some wumpus_hazard_bat
}.

Lemma path_at_room s j :
  flight_ok s -> 0 <= j < WUMPUS_NUM_ARROWS ->
  exists r, path_at s j = Some r /\ room_ok r.
Proof.
  intros (Hl & Hr & _) Hj. unfold path_at.
  destruct (array_get_total (shots_path s) j) as [r Hg];
    [rewrite Hl; exact Hj|].
  exists r. split; [exact Hg|].
  unfold array_get in Hg. destruct (j <? 0); [discriminate|].
  apply nth_error_In in Hg.
  exact (proj1 (Forall_forall _ _) Hr _ Hg).
Qed.

Lemma hazard_at_room s r :
  flight_ok s -> room_ok r -> exists h, hazard_at s r = Some h.
Proof.
  intros (_ & _ & Hl) Hr. apply array_get_total. rewrite Hl. exact Hr.
Qed.

Lemma cave_map_room r :
  room_ok r -> exists row, array_get cave_map r = Some row.
Proof. intros Hr. apply array_get_total. exact Hr. Qed.

Lemma flight_ok_set_path s p :
  List.length p = 5%nat -> Forall room_ok p -> flight_ok s ->
  flight_ok (set_shots_path p s).
Proof. intros Hl Hr (_ & _ & Hh). repeat split; assumption. Qed.

Lemma flight_ok_set_hazards s hz :
  List.length hz = 20%nat -> flight_ok s -> flight_ok (set_hazards hz s).
Proof. intros Hl (Hp & Hr & _). repeat split; assumption. Qed.

Lemma array_set_Forall {A} (P : A -> Prop) (l l' : list A) i v :
  array_set l i v = Some l' -> Forall P l -> P v -> Forall P l'.
Proof.
  intros Hset Hl Hv. apply Forall_forall. intros x Hin.
  apply In_nth_error in Hin. destruct Hin as [n Hn].
  pose proof (array_get_set _ _ _ _ Hset (Z.of_nat n)) as Hg.
  unfold array_get in Hg.
  destruct (Z.of_nat n <? 0) eqn:E; [apply Z.ltb_lt in E; lia|].
  rewrite Nat2Z.id, Hn in Hg.
  destruct (Z.of_nat n =? i).
  - inversion Hg. subst. exact Hv.
  - symmetry in Hg. apply nth_error_In in Hg.
    exact (proj1 (Forall_forall _ _) Hl _ Hg).
Qed.

Lemma world_same_path w :
  w = mk_world (set_shots_path (shots_path (_state w)) (_state w))
               (rand_tape w) (host_log w).
Proof. destruct w as [[] t l]. reflexivity. Qed.

(** The crooked-arrow test of one entry, in full: the world it leaves is
    [w] with the path [p1] and the tape [t1]. *)
Lemma crooked_step i w :
  flight_ok (_state w) -> 0 <= i < WUMPUS_NUM_ARROWS ->
  (i = 0 \/ rand_tape w <> []) ->
  exists p1 t1 ds room,
    _shot_crooked i w =
    Ok (tt, mk_world (set_shots_path p1 (_state w)) t1 (host_log w)) /\
    rand_tape w = (ds ++ t1)%list /\
    List.length p1 = 5%nat /\ Forall room_ok p1 /\
    (forall j, j <> i -> array_get p1 j = path_at (_state w) j) /\
    array_get p1 i = Some room /\ room_ok room /\
    (i = 0 -> path_at (_state w) 0 = Some room /\ ds = []) /\
    (1 <= i ->
     exists prev cur,
       path_at (_state w) (i - 1) = Some prev /\
       path_at (_state w) i = Some cur /\
       connected prev room = true /\
       ((connected prev cur = true /\ room = cur /\ ds = []) \/
        (connected prev cur = false /\
         exists raw row,
           ds = [raw] /\ array_get cave_map prev = Some row /\
           array_get row (raw mod WUMPUS_FACE_COLS) = Some room))).
Proof.
  intros Hok Hi Htape.
  destruct (path_at_room _ i Hok Hi) as (cur & Hcur & Hcur_ok).
  pose proof Hok as (Hl & Hr & Hh).
  destruct (Z.eq_dec i 0) as [E0|E0].
  - subst i. exists (shots_path (_state w)), (rand_tape w), [], cur.
    split; [rewrite <- world_same_path; reflexivity|].
    split; [reflexivity|]. split; [exact Hl|]. split; [exact Hr|].
    split; [reflexivity|]. split; [exact Hcur|]. split; [exact Hcur_ok|].
    split; [auto|lia].
  - destruct Htape as [|Htape]; [contradiction|].
    destruct (path_at_room _ (i - 1) Hok
                ltac:(unfold WUMPUS_NUM_ARROWS in *; lia))
      as (prev & Hprev & Hprev_ok).
    destruct (cave_map_room _ Hprev_ok) as [row Hrow].
    destruct (crooked_arrow_spec i prev cur row w ltac:(lia) Hprev Hcur Hrow)
      as (Hin & Hout & _ & _).
    destruct (connected prev cur) eqn:Econ.
    + exists (shots_path (_state w)), (rand_tape w), [], cur.
      assert (Hc : In cur row).
      { apply connected_spec in Econ. destruct Econ as (row' & Hr' & Hc).
        congruence. }
      split; [rewrite <- world_same_path; exact (Hin Hc)|].
      split; [reflexivity|]. split; [exact Hl|]. split; [exact Hr|].
      split; [reflexivity|]. split; [exact Hcur|]. split; [exact Hcur_ok|].
      split; [intros; lia|].
      intros _. exists prev, cur. repeat split; auto.
    + assert (Hc : ~ In cur row).
      { intros Hc.
        assert (connected prev cur = true)
          by (apply connected_spec; exists row; auto).
        congruence. }
      destruct (rand_tape w) as [|raw t] eqn:Et; [contradiction|].
      destruct (Hout Hc raw t eq_refl)
        as (room & path' & Hroom & Hrin & Hset & Hgi & Hgp & E).
      destruct (cave_map_row _ _ Hrow) as (_ & _ & _ & _ & _ & Hrange).
      exists path', t, [raw], room.
      split; [exact E|]. split; [reflexivity|].
      split; [rewrite (array_set_length _ _ _ _ Hset); exact Hl|].
      split; [apply (array_set_Forall _ _ _ _ _ Hset Hr);
              exact (Hrange _ Hrin)|].
      split.
      { intros j Hj. rewrite (array_get_set _ _ _ _ Hset).
        destruct (Z.eqb_spec j i); [contradiction|reflexivity]. }
      split; [exact Hgi|]. split; [exact (Hrange _ Hrin)|].
      split; [intros; lia|].
      intros _. exists prev, cur. split; [exact Hprev|]. split; [exact Hcur|].
      split; [apply connected_spec; exists row; auto|].
      right. split; [exact Econ|]. exists raw, row. auto.
Qed.

Lemma start_melody_frame m s :
  hazards (start_melody m s) = hazards s /\
  shots_path (start_melody m s) = shots_path s /\
  player_room (start_melody m s) = player_room s.
Proof.
  unfold start_melody.
  destruct (sound_mode_on s && melody_is_none (current_melody s));
    repeat split.
Qed.

Lemma ending_frame a s :
  hazards (ending a s) = hazards s /\
  shots_path (ending a s) = shots_path s /\
  player_room (ending a s) = player_room s.
Proof.
  unfold ending. destruct (action_eqb a wumpus_face_died);
    [apply start_melody_frame|repeat split].
Qed.

Lemma start_melody_flight m hz p s :
  start_melody m (set_hazards hz (set_shots_path p s)) =
  set_hazards hz (set_shots_path p (start_melody m s)).
Proof.
  unfold start_melody. simpl.
  destruct (sound_mode_on s && melody_is_none (current_melody s));
    reflexivity.
Qed.

Lemma set_flight_same s :
  set_hazards (hazards s) (set_shots_path (shots_path s) s) = s.
Proof. destruct s. reflexivity. Qed.

Lemma zrange_one lo : zrange lo 1 = [lo].
Proof. unfold zrange. simpl. f_equal. lia. Qed.

Lemma zrange_none lo n : n <= 0 -> zrange lo n = [].
Proof.
  intros H. unfold zrange.
  replace (Z.to_nat n) with 0%nat by lia. reflexivity.
Qed.

(** One entry of the path: the crooked-arrow test, then what the arrow
    meets.  [a] is [wumpus_face_shoot] when the loop goes on. *)
Lemma flown_one i w :
  flight_ok (_state w) -> 0 <= i < WUMPUS_NUM_ARROWS ->
  (i = 0 \/ rand_tape w <> []) ->
  exists w1 w' ds a,
    _shot_crooked i w = Ok (tt, w1) /\
    _shot_check i w1 =
      Ok (if action_eqb a wumpus_face_shoot then None else Some a, w') /\
    (List.length ds <= 1)%nat /\ (i = 0 -> ds = []) /\
    flown i (i + 1) a ds w w'.
Proof.
  intros Hok Hi Htape.
  destruct (crooked_step i w Hok Hi Htape)
    as (p1 & t1 & ds & room & Ecr & Et & Hl1 & Hr1 & Hsame & Hroom & Hrok
        & H0 & H1).
  destruct w as [s t l]. simpl in *.
  set (s1 := set_shots_path p1 s) in *.
  set (w1 := mk_world s1 t1 l) in *.
  assert (Hok1 : flight_ok s1)
    by (apply flight_ok_set_path; assumption).
  assert (Hds : (List.length ds <= 1)%nat /\ (i = 0 -> ds = [])).
  { split; [|intros E; apply (H0 E)].
    destruct (Z.eq_dec i 0) as [E|E].
    - destruct (H0 E) as [_ ->]. simpl. lia.
    - destruct (H1 ltac:(lia))
        as (prev & cur & _ & _ & _ & [(_ & _ & ->)|(_ & raw & row & -> & _)]);
        simpl; lia. }
  assert (Hroom1 : array_get (shots_path (_state w1)) i = Some room)
    by exact Hroom.
  destruct (shot_check_spec i room w1 Hroom1) as (Hself & Hother & _).
  (* what all four outcomes share *)
  assert (Hshape :
    forall a s' l',
      shots_path s' = p1 ->
      s' = ending a (set_hazards (hazards s') (set_shots_path p1 s)) ->
      l' = (l ++ ending_log a s)%list ->
      List.length (hazards s') = 20%nat ->
      verdict a s room ->
      (forall r,
          hazard_at s' r = hazard_at s r \/
          (hazard_at s r = Some wumpus_hazard_bat /\
           hazard_at s' r = Some wumpus_hazard_none /\
           r <> player_room s /\ r = room)) ->
      (room <> player_room s ->
       hazard_at s' room <> Some wumpus_hazard_bat) ->
      flown i (i + 1) a ds (mk_world s t l) (mk_world s' t1 l')).
  { intros a s' l' Hp Hs' Hl' Hhz Hv Hh Hb.
    assert (Hpath : forall j, path_at s' j = array_get p1 j)
      by (intros j; unfold path_at; rewrite Hp; reflexivity).
    constructor; simpl.
    - rewrite Hp. exact Hs'.
    - exact Hl'.
    - exact Et.
    - repeat split; [rewrite Hp; exact Hl1|rewrite Hp; exact Hr1|exact Hhz].
    - intros j Hj. rewrite Hpath. apply Hsame. lia.
    - intros E. rewrite Hpath. subst i. rewrite Hroom.
      symmetry. apply (H0 eq_refl).
    - intros j Hj Hj1. assert (j = i) by lia. subst j.
      destruct (H1 Hj1) as (prev & cur & Hprev & Hcur & Hcon & Hcase).
      exists prev, cur, room. rewrite !Hpath.
      split; [rewrite Hsame by lia; exact Hprev|].
      split; [exact Hcur|]. split; [exact Hroom|]. split; [exact Hcon|].
      intros Hc. destruct Hcase as [(_ & E & _)|(Hn & _)];
        [exact E|congruence].
    - destruct (Z.eq_dec i 0) as [E|E].
      + subst i. rewrite zrange_none by lia.
        destruct (H0 eq_refl) as [_ ->]. constructor.
      + replace (Z.max i 1) with i by lia.
        replace (i + 1 - i) with 1 by lia. rewrite zrange_one.
        destruct (H1 ltac:(lia))
          as (prev & cur & Hprev & Hcur & Hcon & Hcase).
        simpl. unfold crooked at 1. rewrite Hpath, Hsame by lia.
        rewrite Hprev, Hcur.
        destruct Hcase as [(-> & _ & ->)|(-> & raw & row & -> & Hrow & Hg)];
          simpl; repeat constructor.
        exists prev, row, room. rewrite !Hpath.
        split; [rewrite Hsame by lia; exact Hprev|]. auto.
    - intros j r Hj. lia.
    - intros _. exists room. replace (i + 1 - 1) with i by lia.
      rewrite Hpath. auto.
    - intros r. destruct (Hh r) as [E|(E1 & E2 & E3 & E4)]; [left; exact E|].
      right. split; [exact E1|]. split; [exact E2|]. split; [exact E3|].
      exists i. rewrite Hpath. subst r.
      split; [lia|exact Hroom].
    - intros j r Hj Hr Hne. assert (j = i) by lia. subst j.
      rewrite Hpath, Hroom in Hr. inversion Hr. subst r. apply Hb, Hne. }
  destruct (Z.eq_dec room (player_room s)) as [Eself|Eself].
  - (* the arrow comes back to the player *)
    exists w1, (mk_world (start_melody MELODY_LOSE s1) t1
                         (l ++ death_banner "Ar" ++ melody_cue s1)),
      ds, wumpus_face_died.
    split; [exact Ecr|]. split; [exact (Hself Eself)|].
    split; [apply Hds|]. split; [apply Hds|].
    destruct (start_melody_frame MELODY_LOSE s1) as (Eh & Ep & _).
    apply Hshape.
    + rewrite Ep. reflexivity.
    + unfold ending. simpl action_eqb. cbv iota.
      rewrite Eh. f_equal. unfold s1. destruct s. reflexivity.
    + reflexivity.
    + rewrite Eh. apply Hok.
    + exact Eself.
    + intros r. left. unfold hazard_at. rewrite Eh. reflexivity.
    + intros Hne. contradiction.
  - destruct (hazard_at_room s1 room Hok1 Hrok) as [h Hh].
    pose proof (Hother Eself h Hh) as Hcheck.
    assert (Hhs : hazard_at s room = Some h) by exact Hh.
    assert (Hnil : l = (l ++ ending_log wumpus_face_shoot s)%list)
      by (unfold ending_log; simpl; now rewrite app_nil_r).
    assert (Hsame1 : forall a, action_eqb a wumpus_face_died = false ->
              s1 = ending a (set_hazards (hazards s1) (set_shots_path p1 s))).
    { intros a Ha. unfold ending. rewrite Ha. unfold s1.
      destruct s. reflexivity. }
    destruct h.
    + exists w1, w1, ds, wumpus_face_shoot.
      split; [exact Ecr|]. split; [exact Hcheck|].
      split; [apply Hds|]. split; [apply Hds|].
      apply Hshape.
      * reflexivity.
      * apply Hsame1. reflexivity.
      * exact Hnil.
      * apply Hok.
      * split; [exact Eself|]. rewrite Hhs. discriminate.
      * intros r. left. reflexivity.
      * intros _. rewrite Hh. discriminate.
    + exists w1, w1, ds, wumpus_face_won.
      split; [exact Ecr|]. split; [exact Hcheck|].
      split; [apply Hds|]. split; [apply Hds|].
      apply Hshape.
      * reflexivity.
      * apply Hsame1. reflexivity.
      * unfold ending_log. simpl. now rewrite app_nil_r.
      * apply Hok.
      * split; [exact Eself|exact Hhs].
      * intros r. left. reflexivity.
      * intros _. rewrite Hh. discriminate.
    + destruct Hcheck as (hz' & Hset & Hnone & Hcheck).
      exists w1, (mk_world (set_hazards hz' s1) t1 l), ds, wumpus_face_shoot.
      split; [exact Ecr|]. split; [exact Hcheck|].
      split; [apply Hds|]. split; [apply Hds|].
      apply Hshape.
      * reflexivity.
      * reflexivity.
      * exact Hnil.
      * simpl. rewrite (array_set_length _ _ _ _ Hset). apply Hok.
      * split; [exact Eself|]. rewrite Hhs. discriminate.
      * intros r. unfold hazard_at. simpl.
        rewrite (array_get_set _ _ _ _ Hset).
        destruct (Z.eqb_spec r room) as [->|Hne]; [|left; reflexivity].
        right. auto.
      * intros _. unfold hazard_at. simpl. rewrite Hnone. discriminate.
    + exists w1, w1, ds, wumpus_face_shoot.
      split; [exact Ecr|]. split; [exact Hcheck|].
      split; [apply Hds|]. split; [apply Hds|].
      apply Hshape.
      * reflexivity.
      * apply Hsame1. reflexivity.
      * exact Hnil.
      * apply Hok.
      * split; [exact Eself|]. rewrite Hhs. discriminate.
      * intros r. left. reflexivity.
      * intros _. rewrite Hh. discriminate.
    + exists w1, w1, ds, wumpus_face_shoot.
      split; [exact Ecr|]. split; [exact Hcheck|].
      split; [apply Hds|]. split; [apply Hds|].
      apply Hshape.
      * reflexivity.
      * apply Hsame1. reflexivity.
      * exact Hnil.
      * apply Hok.
      * split; [exact Eself|]. rewrite Hhs. discriminate.
      * intros r. left. reflexivity.
      * intros _. rewrite Hh. discriminate.
Qed.

Lemma map_seq_from {A} (f : nat -> A) b :
  forall a, map f (seq a b) = map (fun k => f (a + k)%nat) (seq 0 b).
Proof.
  revert f. induction b as [|b IH]; intros f a; [reflexivity|].
  simpl. f_equal; [f_equal; lia|].
  rewrite (IH f (S a)), (IH (fun k => f (a + k)%nat) 1%nat).
  apply map_ext. intros k. f_equal. lia.
Qed.

Lemma zrange_app lo a b :
  0 <= a -> 0 <= b ->
  zrange lo (a + b) = (zrange lo a ++ zrange (lo + a) b)%list.
Proof.
  intros Ha Hb. unfold zrange.
  replace (Z.to_nat (a + b)) with (Z.to_nat a + Z.to_nat b)%nat by lia.
  rewrite seq_app, map_app. f_equal. simpl.
  rewrite map_seq_from. apply map_ext. intros k. lia.
Qed.

Lemma Forall2_impl_in {A B} (P Q : A -> B -> Prop) l ds :
  Forall2 P l ds -> (forall x d, In x l -> P x d -> Q x d) ->
  Forall2 Q l ds.
Proof.
  induction 1 as [|x d l ds Hx Hl IH]; intros H; constructor.
  - apply H; [left; reflexivity|exact Hx].
  - apply IH. intros y e Hin. apply H. right. exact Hin.
Qed.

(** The player does not move and the Wumpus is not touched while the
    arrow flies. *)
Lemma flown_player i k a ds w w' :
  flown i k a ds w w' ->
  player_room (_state w') = player_room (_state w).
Proof.
  intros F. rewrite (fl_state _ _ _ _ _ _ F).
  rewrite (proj2 (proj2 (ending_frame _ _))). reflexivity.
Qed.

Lemma flown_wumpus i k a ds w w' r :
  flown i k a ds w w' ->
  hazard_at (_state w') r = Some wumpus_hazard_wumpus <->
  hazard_at (_state w) r = Some wumpus_hazard_wumpus.
Proof.
  intros F.
  destruct (fl_hazards _ _ _ _ _ _ F r) as [E|(E1 & E2 & _)].
  - rewrite E. tauto.
  - rewrite E1, E2. split; discriminate.
Qed.

(** Two stretches of the flight, one after the other. *)
Lemma flown_trans i j k a ds1 ds2 w w1 w2 :
  0 <= i < j -> j < k ->
  flown i j wumpus_face_shoot ds1 w w1 ->
  flown j k a ds2 w1 w2 ->
  flown i k a (ds1 ++ ds2) w w2.
Proof.
  intros Hij Hjk F G.
  pose proof (flown_player _ _ _ _ _ _ F) as Hp1.
  assert (Hlow : forall x, x < j ->
            path_at (_state w2) x = path_at (_state w1) x)
    by (intros x Hx; apply (fl_outside _ _ _ _ _ _ G); lia).
  assert (Hhigh : forall x, j <= x ->
            path_at (_state w1) x = path_at (_state w) x)
    by (intros x Hx; apply (fl_outside _ _ _ _ _ _ F); lia).
  assert (Hs1 : _state w1 =
                set_hazards (hazards (_state w1))
                  (set_shots_path (shots_path (_state w1)) (_state w)))
    by exact (fl_state _ _ _ _ _ _ F).
  constructor.
  - etransitivity; [exact (fl_state _ _ _ _ _ _ G)|].
    f_equal. rewrite Hs1. reflexivity.
  - rewrite (fl_log _ _ _ _ _ _ G), (fl_log _ _ _ _ _ _ F).
    unfold ending_log at 1. simpl. rewrite app_nil_r. f_equal.
    unfold ending_log, melody_cue. rewrite Hs1. reflexivity.
  - rewrite (fl_tape _ _ _ _ _ _ F), (fl_tape _ _ _ _ _ _ G).
    now rewrite app_assoc.
  - exact (fl_ok _ _ _ _ _ _ G).
  - intros x Hx. rewrite (fl_outside _ _ _ _ _ _ G) by lia.
    apply (fl_outside _ _ _ _ _ _ F). lia.
  - intros E. rewrite Hlow by lia. apply (fl_first _ _ _ _ _ _ F E).
  - intros x Hx Hx1. destruct (Z_lt_le_dec x j) as [Hlt|Hge].
    + destruct (fl_chain _ _ _ _ _ _ F x ltac:(lia) Hx1)
        as (prev & cur & room & H1 & H2 & H3 & H4).
      exists prev, cur, room. rewrite !Hlow by lia. auto.
    + destruct (fl_chain _ _ _ _ _ _ G x ltac:(lia) Hx1)
        as (prev & cur & room & H1 & H2 & H3 & H4).
      exists prev, cur, room. rewrite <- Hhigh by lia. auto.
  - replace (k - Z.max i 1) with ((j - Z.max i 1) + (k - j)) by lia.
    rewrite zrange_app by lia.
    replace (Z.max i 1 + (j - Z.max i 1)) with j by lia.
    rewrite filter_app. apply Forall2_app.
    + rewrite (filter_ext_in _ (crooked (_state w) (_state w1))).
      * apply (Forall2_impl_in _ _ _ _ (fl_draws _ _ _ _ _ _ F)).
        intros x d Hin (prev & row & room & H1 & H2 & H3 & H4).
        apply filter_In in Hin. destruct Hin as [Hin _].
        apply zrange_In in Hin.
        exists prev, row, room. rewrite !Hlow by lia. auto.
      * intros x Hin. apply zrange_In in Hin. unfold crooked.
        rewrite Hlow by lia. reflexivity.
    + rewrite (filter_ext_in _ (crooked (_state w1) (_state w2))).
      * pose proof (fl_draws _ _ _ _ _ _ G) as Hd.
        replace (Z.max j 1) with j in Hd by lia. exact Hd.
      * intros x Hin. apply zrange_In in Hin. unfold crooked.
        rewrite Hhigh by lia. reflexivity.
  - intros x room Hx Hroom. destruct (Z_lt_le_dec x (j - 1)) as [Hlt|Hge].
    + apply (fl_passed _ _ _ _ _ _ F x); [lia|].
      rewrite <- Hlow by lia. exact Hroom.
    + destruct (Z.eq_dec x (j - 1)) as [->|Hne].
      * destruct (fl_last _ _ _ _ _ _ F ltac:(lia)) as (room' & H1 & H2).
        rewrite Hlow, H1 in Hroom by lia. inversion Hroom. subst room'.
        exact H2.
      * destruct (fl_passed _ _ _ _ _ _ G x room ltac:(lia) Hroom)
          as [H1 H2].
        rewrite Hp1 in H1. split; [exact H1|].
        intros E. apply H2. apply (flown_wumpus _ _ _ _ _ _ _ F). exact E.
  - intros _.
    destruct (fl_last _ _ _ _ _ _ G Hjk) as (room & H1 & H2).
    exists room. split; [exact H1|].
    pose proof (flown_wumpus _ _ _ _ _ _ room F) as Hw.
    destruct a; simpl in *; rewrite ?Hp1 in H2; try tauto.
  - intros r.
    destruct (fl_hazards _ _ _ _ _ _ G r) as [E2|(E2 & E2' & Hn2 & x & Hx & Hr)];
      destruct (fl_hazards _ _ _ _ _ _ F r)
        as [E1|(E1 & E1' & Hn1 & y & Hy & Hr1)].
    + left. congruence.
    + right. split; [exact E1|]. split; [congruence|]. split; [exact Hn1|].
      exists y. split; [lia|]. rewrite Hlow by lia. exact Hr1.
    + right. split; [congruence|]. split; [exact E2'|].
      split; [congruence|]. exists x. split; [lia|exact Hr].
    + congruence.
  - intros x room Hx Hroom Hne. destruct (Z_lt_le_dec x j) as [Hlt|Hge].
    + rewrite Hlow in Hroom by lia.
      pose proof (fl_bats _ _ _ _ _ _ F x room ltac:(lia) Hroom Hne) as Hb.
      destruct (fl_hazards _ _ _ _ _ _ G room) as [E|(_ & E & _)];
        rewrite E; [exact Hb|discriminate].
    + apply (fl_bats _ _ _ _ _ _ G x room ltac:(lia) Hroom). congruence.
Qed.

Lemma flown_nil i w :
  flight_ok (_state w) -> flown i i wumpus_face_shoot [] w w.
Proof.
  intros Hok. constructor; try (intros; lia); try reflexivity.
  - unfold ending. simpl. symmetry. apply set_flight_same.
  - unfold ending_log. simpl. now rewrite app_nil_r.
  - exact Hok.
  - rewrite zrange_none by lia. constructor.
  - intros r. left. reflexivity.
Qed.

Lemma action_eqb_eq a b : action_eqb a b = true -> a = b.
Proof. destruct a, b; intros H; try reflexivity; discriminate H. Qed.

(** The loop of [_shot] over the entries [i .. i + m - 1] of the path.  It
    returns when the tape holds a draw for each entry after the first, and
    the arrow has then flown as [flown] says. *)
Lemma shot_loop_flown m :
  forall i w,
    flight_ok (_state w) -> 0 <= i ->
    i + Z.of_nat m <= WUMPUS_NUM_ARROWS ->
    Z.of_nat m <=
      Z.of_nat (List.length (rand_tape w)) + (if i =? 0 then 1 else 0) ->
    exists a w' k ds,
      _shot_loop (zrange i (Z.of_nat m)) w = Ok (a, w') /\
      i <= k <= i + Z.of_nat m /\
      (0 < Z.of_nat m -> i < k) /\
      (a = wumpus_face_shoot -> k = i + Z.of_nat m) /\
      flown i k a ds w w'.
Proof.
  induction m as [|m IH]; intros i w Hok Hi Hm Ht.
  - exists wumpus_face_shoot, w, i, []. simpl.
    split; [reflexivity|]. split; [lia|]. split; [lia|].
    split; [lia|]. apply flown_nil, Hok.
  - replace (Z.of_nat (S m)) with (1 + Z.of_nat m) in * by lia.
    rewrite zrange_app, zrange_one by lia. simpl app.
    assert (Htape : i = 0 \/ rand_tape w <> []).
    { revert Ht. destruct (Z.eqb_spec i 0) as [E|E]; intros Ht;
        [left; exact E|right].
      intros Hnil. rewrite Hnil in Ht. simpl List.length in Ht. lia. }
    destruct (flown_one i w Hok ltac:(lia) Htape)
      as (w1 & w' & ds & a & Ecr & Ech & Hlen & Hds & F).
    rewrite (shot_loop_step i _ w w1 Ecr), Ech.
    destruct (action_eqb a wumpus_face_shoot) eqn:Ea.
    + apply action_eqb_eq in Ea. subst a.
      destruct m as [|m'].
      * exists wumpus_face_shoot, w', (i + 1), ds. simpl.
        split; [reflexivity|]. split; [lia|]. split; [lia|].
        split; [lia|]. exact F.
      * assert (Ht' : Z.of_nat (S m') <=
                      Z.of_nat (List.length (rand_tape w'))
                      + (if i + 1 =? 0 then 1 else 0)).
        { destruct (Z.eqb_spec (i + 1) 0); [lia|].
          pose proof (f_equal (@List.length Z) (fl_tape _ _ _ _ _ _ F)) as El.
          rewrite length_app in El.
          revert Ht. destruct (Z.eqb_spec i 0) as [E|E]; intros Ht.
          - rewrite (Hds E) in El. simpl List.length in El. lia.
          - lia. }
        destruct (IH (i + 1) w' (fl_ok _ _ _ _ _ _ F) ltac:(lia) ltac:(lia)
                     Ht')
          as (a' & w'' & k & ds' & El & Hk & Hk' & Hmiss & G).
        exists a', w'', k, (ds ++ ds')%list.
        split; [exact El|]. split; [lia|]. split; [lia|].
        split; [intros E; rewrite (Hmiss E); lia|].
        apply (flown_trans i (i + 1) k a' ds ds' w w' w''); try lia;
          assumption.
    + exists a, w', (i + 1), ds.
      split; [reflexivity|]. split; [lia|]. split; [lia|].
      split; [|exact F].
      intros E. subst a. discriminate Ea.
Qed.

(** [_shot] with an arrow left: the arrow is taken and the loop runs over
    the whole path. *)
Lemma shot_flown w :
  flight_ok (_state w) ->
  0 < arrows (_state w) <= WUMPUS_NUM_ARROWS ->
  0 <= shots_path_len (_state w) <= WUMPUS_NUM_ARROWS ->
  shots_path_len (_state w) - 1 <= Z.of_nat (List.length (rand_tape w)) ->
  exists a w' k ds,
    _shot w = Ok (a, w') /\
    0 <= k <= shots_path_len (_state w) /\
    (0 < shots_path_len (_state w) -> 0 < k) /\
    (a = wumpus_face_shoot -> k = shots_path_len (_state w)) /\
    flown 0 k a ds
          (mk_world (set_arrows (arrows (_state w) - 1) (_state w))
                    (rand_tape w) (host_log w)) w'.
Proof.
  intros Hok Ha Hlen Ht. destruct w as [s t l]. simpl in *.
  set (w0 := mk_world (set_arrows (arrows s - 1) s) t l).
  destruct (shot_loop_flown (Z.to_nat (shots_path_len s)) 0 w0)
    as (a & w' & k & ds & El & Hk & Hk' & Hmiss & F).
  - exact Hok.
  - lia.
  - lia.
  - simpl. lia.
  - rewrite Z2Nat.id in * by lia.
    exists a, w', k, ds.
    split; [|split; [lia|split; [exact Hk'|split; [exact Hmiss|exact F]]]].
    unfold _shot, bind, gets, modify. simpl.
    unfold WUMPUS_NUM_ARROWS in Ha.
    rewrite int8_small by lia.
    destruct (Z.ltb_spec (arrows s - 1) 0); [lia|]. exact El.
Qed.

(** C6.  The crooked arrow, over the whole shot.  Take a state whose path
    and cave are well formed, with an arrow left, a path length [len] of at
    most five and a draw on the tape for each entry after the first.  Then
    [_shot] returns, having entered the entries [0 .. k - 1] of the path:
    all [len] of them on a miss, fewer only when the arrow has hit the
    player or the Wumpus.
    - Entry 0 and the entries from [k] on are as they were committed.
    - Every entry [j] with [1 <= j < k] is, when the arrow has passed, a
      room connected to the entry before it (as that one stands after its
      own replacement); it is the committed room if that was connected,
      otherwise it has been overwritten in place.
    - The overwritten entries are exactly the [crooked] ones, and the shot
      has taken one random number for each, in the order of the path: the
      entry is the room [cave_map[prev][d mod 3]] that the draw [d] picks
      among the three, all different, rooms connected to [prev].
    - The self-hit and hazard tests have been made on the entries as they
      stand after replacement: the rooms entered before the last one are
      neither the player's room nor the Wumpus's, and the last one is what
      the result says ([verdict]). *)
Theorem shot_straightens_path (w : world) :
  flight_ok (_state w) ->
  0 < arrows (_state w) <= WUMPUS_NUM_ARROWS ->
  0 <= shots_path_len (_state w) <= WUMPUS_NUM_ARROWS ->
  shots_path_len (_state w) - 1 <= Z.of_nat (List.length (rand_tape w)) ->
  exists a w' k ds,
    _shot w = Ok (a, w') /\
    0 <= k <= shots_path_len (_state w) /\
    (0 < shots_path_len (_state w) -> 0 < k) /\
    (a = wumpus_face_shoot -> k = shots_path_len (_state w)) /\
    (forall j, j = 0 \/ k <= j ->
       path_at (_state w') j = path_at (_state w) j) /\
    (forall j, 1 <= j < k ->
       exists prev cur room,
         path_at (_state w') (j - 1) = Some prev /\
         path_at (_state w) j = Some cur /\
         path_at (_state w') j = Some room /\
         connected prev room = true /\
         (connected prev cur = true -> room = cur)) /\
    rand_tape w = (ds ++ rand_tape w')%list /\
    Forall2 (drawn (_state w'))
            (filter (crooked (_state w) (_state w')) (zrange 1 (k - 1)))
            ds /\
    (forall prev row, array_get cave_map prev = Some row ->
       NoDup row /\ List.length row = Z.to_nat WUMPUS_FACE_COLS) /\
    (forall j room, 0 <= j < k - 1 -> path_at (_state w') j = Some room ->
       room <> player_room (_state w) /\
       hazard_at (_state w) room <> Some wumpus_hazard_wumpus) /\
    (0 < k ->
     exists room, path_at (_state w') (k - 1) = Some room /\
                  verdict a (_state w) room).
Proof.
  intros Hok Ha Hlen Ht.
  destruct (shot_flown w Hok Ha Hlen Ht)
    as (a & w' & k & ds & E & Hk & Hk' & Hmiss & F).
  exists a, w', k, ds.
  split; [exact E|]. split; [exact Hk|]. split; [exact Hk'|].
  split; [exact Hmiss|]. split.
  { intros j [->|Hj].
    - exact (fl_first _ _ _ _ _ _ F eq_refl).
    - apply (fl_outside _ _ _ _ _ _ F). right. exact Hj. }
  split.
  { intros j Hj. apply (fl_chain _ _ _ _ _ _ F j); lia. }
  split; [exact (fl_tape _ _ _ _ _ _ F)|]. split.
  { exact (fl_draws _ _ _ _ _ _ F). }
  split.
  { intros prev row Hrow.
    destruct (cave_map_row _ _ Hrow) as (x & y & z & -> & Hnd & _).
    split; [exact Hnd|reflexivity]. }
  split.
  { exact (fl_passed _ _ _ _ _ _ F). }
  exact (fl_last _ _ _ _ _ _ F).
Qed.

(** Three arrows left; the path of two rooms goes from room 4 to room 13,
    which is not connected to it. *)
Definition crooked_world : world :=
  mk_world (set_arrows 3 sample_state) [2; 1] [].

Lemma sample_flight_ok : flight_ok sample_state.
Proof.
  split; [reflexivity|]. split; [|reflexivity].
  repeat constructor; unfold WUMPUS_FACE_ROWS; lia.
Qed.

Lemma shot_straightens_path_witness :
  exists a w' prev room,
    _shot crooked_world = Ok (a, w') /\
    path_at (_state crooked_world) 1 = Some 13 /\
    path_at (_state w') 0 = Some prev /\
    path_at (_state w') 1 = Some room /\
    connected prev room = true /\ rand_tape w' = [1].
Proof.
  destruct (shot_straightens_path crooked_world sample_flight_ok
              ltac:(simpl; unfold WUMPUS_NUM_ARROWS; lia)
              ltac:(simpl; unfold WUMPUS_NUM_ARROWS; lia)
              ltac:(simpl; lia))
    as (a & w' & k & ds & E & Hk & _ & Hmiss & _ & Hchain & _).
  assert (Ec : exists w1, _shot crooked_world = Ok (wumpus_face_shoot, w1)
                          /\ rand_tape w1 = [1])
    by (eexists; split; [vm_compute; reflexivity|reflexivity]).
  destruct Ec as (w1 & Ec & Et). rewrite Ec in E.
  injection E as <- <-.
  assert (Ek : k = 2) by (apply Hmiss; reflexivity).
  destruct (Hchain 1 ltac:(lia))
    as (prev & cur & room & H1 & _ & H3 & H4 & _).
  exists wumpus_face_shoot, w1, prev, room.
  repeat split; assumption.
Defined.

(** X29.  What the arrow meets, over the whole shot.  With the path and
    the cave well formed, an arrow left, a path length of at most five and
    a draw on the tape for each entry after the first, [_shot] returns
    having entered the entries [0 .. k - 1] of the path (as they stand
    after the crooked-arrow replacement), and
    - the rooms entered before the last are neither the player's room nor
      the Wumpus's; the last room entered is the player's room when the
      result is [wumpus_face_died], the Wumpus's room (and not the
      player's) when it is [wumpus_face_won], neither on a miss, which
      enters all the entries; no other result occurs;
    - the hazards change in the rooms entered that held a bat, which hold
      nothing afterwards, and nowhere else: no room entered, other than
      the player's, holds a bat afterwards, and the Wumpus stays in the
      hazards when it is hit;
    - apart from the hazards and the path the state is the old one with
      one arrow less, and with the losing melody started when the player
      is hit; the watch is told nothing but, in that case, "Ar" and
      "DIED". *)
Theorem shot_outcome (w : world) :
  flight_ok (_state w) ->
  0 < arrows (_state w) <= WUMPUS_NUM_ARROWS ->
  0 <= shots_path_len (_state w) <= WUMPUS_NUM_ARROWS ->
  shots_path_len (_state w) - 1 <= Z.of_nat (List.length (rand_tape w)) ->
  exists a w' k,
    _shot w = Ok (a, w') /\
    0 <= k <= shots_path_len (_state w) /\
    (0 < shots_path_len (_state w) -> 0 < k) /\
    (a = wumpus_face_shoot -> k = shots_path_len (_state w)) /\
    (forall j room, 0 <= j < k - 1 -> path_at (_state w') j = Some room ->
       room <> player_room (_state w) /\
       hazard_at (_state w) room <> Some wumpus_hazard_wumpus) /\
    (0 < k ->
     exists room, path_at (_state w') (k - 1) = Some room /\
                  verdict a (_state w) room) /\
    (forall r,
       hazard_at (_state w') r = hazard_at (_state w) r \/
       (hazard_at (_state w) r = Some wumpus_hazard_bat /\
        hazard_at (_state w') r = Some wumpus_hazard_none /\
        r <> player_room (_state w) /\
        exists j, 0 <= j < k /\ path_at (_state w') j = Some r)) /\
    (forall j room, 0 <= j < k -> path_at (_state w') j = Some room ->
       room <> player_room (_state w) ->
       hazard_at (_state w') room <> Some wumpus_hazard_bat) /\
    _state w' =
      ending a (set_hazards (hazards (_state w'))
                  (set_shots_path (shots_path (_state w'))
                     (set_arrows (arrows (_state w) - 1) (_state w)))) /\
    host_log w' = (host_log w ++ ending_log a (_state w))%list.
Proof.
  intros Hok Ha Hlen Ht.
  destruct (shot_flown w Hok Ha Hlen Ht)
    as (a & w' & k & ds & E & Hk & Hk' & Hmiss & F).
  exists a, w', k.
  split; [exact E|]. split; [exact Hk|]. split; [exact Hk'|].
  split; [exact Hmiss|].
  split; [exact (fl_passed _ _ _ _ _ _ F)|].
  split; [exact (fl_last _ _ _ _ _ _ F)|].
  split; [exact (fl_hazards _ _ _ _ _ _ F)|].
  split; [exact (fl_bats _ _ _ _ _ _ F)|].
  split; [exact (fl_state _ _ _ _ _ _ F)|].
  exact (fl_log _ _ _ _ _ _ F).
Qed.

(** In [crooked_world] the arrow kills the bat of room 4 and misses. *)
Lemma shot_outcome_witness :
  exists a w',
    _shot crooked_world = Ok (a, w') /\
    hazard_at (_state crooked_world) 4 = Some wumpus_hazard_bat /\
    path_at (_state w') 0 = Some 4 /\
    hazard_at (_state w') 4 <> Some wumpus_hazard_bat /\
    host_log w' = [].
Proof.
  destruct (shot_outcome crooked_world sample_flight_ok
              ltac:(simpl; unfold WUMPUS_NUM_ARROWS; lia)
              ltac:(simpl; unfold WUMPUS_NUM_ARROWS; lia)
              ltac:(simpl; lia))
    as (a & w' & k & E & Hk & _ & Hmiss & _ & _ & _ & Hbats & _ & Hlog).
  assert (Ec : exists w1, _shot crooked_world = Ok (wumpus_face_shoot, w1)
                          /\ path_at (_state w1) 0 = Some 4)
    by (eexists; split; [vm_compute; reflexivity|reflexivity]).
  destruct Ec as (w1 & Ec & Ep). rewrite Ec in E.
  injection E as <- <-.
  assert (Ek : k = 2) by (apply Hmiss; reflexivity).
  exists wumpus_face_shoot, w1.
  split; [exact Ec|]. split; [reflexivity|]. split; [exact Ep|].
  split; [|exact Hlog].
  apply (Hbats 0 4); [lia|exact Ep|simpl; lia].
Defined.
